(* ===== verification/_CoqProject ===== *)
-Q . S2P
Prelude.v
GoStd.v
HttpClient.v
Api.v
Model.v
World.v
Squirtle.v
Queries.v
Tokens.v
FilesRepo.v
Queue.v
Stream.v
Gob.v
FilesInfo.v
FilesService.v
Blob.v
Transfer.v
Migrations.v
Reconstruct.v
Changelog.v
Users.v
Auth.v
Routes.v
Proc.v
Chan.v
BatchCreate.v
Broker.v
Pool.v
PoolDrain.v
Merge.v
Sync.v
Supervisor.v
Sse.v
Relay.v
Lifecycle.v
Journey.v
Action.v
Cuts.v
Startup.v
Server.v
Interleave.v
Parallel.v
System.v
Shutdown.v
