(* ===== verification/Prelude.v ===== *)
(** Arbokcore: a verification development

    Arbokcore synchronises the files of a user between devices.  A client
    announces a file, sends it in chunks of 4 MB, and says when it is done; a
    worker completes a new version with the chunks that did not change, makes
    it current, and tells the devices of the user.  The program is a Go server
    (cmd/server) and workers (cmd/workers) around SQLite, Redis and the local
    disk.  This library models the services, repositories and workers as
    functions of an explicit world and proves what makes them correct.

    * The parts and where they are modelled

    - Prelude.v (this file): errors, results, computations that may panic
      ([M]), weakest preconditions ([wp]), preservation ([keeps]), 64-bit
      integers, the order in which Go walks a map ([MapRange]).
    - GoStd.v: what is used of strings, strconv, fmt, encoding/hex, float64
      rounding and slices ([SliceGrowth]: the growth policy of append).
    - HttpClient.v: pkg/httputils, and GetSize of pkg/utils.
    - Api.v: core/api/response.go; error texts "key:code:status".
    - Model.v: the structs of core/files/model.go and the requests and
      responses, the four tables of migrations/sqlite/schema.up.sql ([DB]),
      [CalculateChunks].
    - World.v: the state outside the process (tables, Redis lists, cache,
      disk) and the numbered external calls.  [Env] says which call fails with
      what error, what the clock and the random source return, and what the
      libraries do; [EnvOk] states their documented behaviour.
    - Squirtle.v, Queries.v: pkg/squirtle (the .sql files cut into named
      statements) and the statements of the repository.
    - Tokens.v: core/tokens; FilesRepo.v: the repositories of core/files, with
      the meaning of their SQL on lists of rows.
    - Queue.v: pkg/queuer and pkg/templating; the interface [Queuer] with its
      promise [QueuerOk], and the Redis lists that keep it; Stream.v:
      pkg/queuer/redis.stream.go, which keeps it while no command fails.
    - Gob.v: encoding/gob as a codec with a round-trip law.
    - FilesInfo.v: BuildFilesInfoResponse and pkg/rho; FilesService.v: the
      methods of MetadataService (core/files/service.metadata.go).
    - Blob.v: pkg/blobstore/localfs.go over filepath and os; Transfer.v: chunk
      upload (core/files/userfiles.service.go) and download
      (core/files/download.service.go).  Migrations.v: core/database/connect.go,
      pkg/config and cmd/cli, which create and drop the tables.
    - Reconstruct.v: the pure part of core/supervisors/metadata.changelog.go;
      Changelog.v: its executor, core/notifiers and the manual reconciler of
      core/workers.
    - Users.v: core/users and core/database/crypter.go (bcrypt as a parameter with
      its promise [BcryptOk]); Auth.v:
      web/middlewares, as functions from handlers to handlers; Routes.v: the
      handlers of web/routes behind the middlewares of cmd/server/main.go.
    - Proc.v: an operation as a process, a tree of actions (a statement, a
      transaction, a command of Redis, a call of the system), for the files in
      which operations run at the same time.
    - Chan.v: Go channels; BatchCreate.v: BatchCreateChunk of
      pkg/blobstore/localfs.go; Broker.v: pkg/brokers/sse_broker.go and Pool.v,
      Merge.v: pkg/workerpool, as transition systems whose steps are the channel
      operations of their goroutines; PoolDrain.v: the measure by which the
      pool comes to rest; Sync.v: the producer and the consumer between the
      queue of notifications and the broker.
    - Supervisor.v: the goroutines of core/supervisors around a pool (Produce,
      the loop of MetadataSupervisor, FileUpdateSyncBroker.Start), whose worker
      runs its processor one action at a time; Sse.v:
      web/routes/ssehandler.go, any number of connections over the broker and
      such a supervisor; Relay.v: the same system with the consumer of
      pkg/brokers/metadata_sync_broker.go as the only sender of messages.
    - Lifecycle.v: the system as a sequence of whole operations (requests, jobs,
      sessions, accounts), the type of its tables and the life of a version;
      Journey.v: the operations from the end of an upload to the devices, in their order.
    - Startup.v: how cmd/server, cmd/workers and cmd/cli start, with LoadAll of
      pkg/squirtle, core/database/redis.go, core/workers and the constructors;
      Server.v: the table of routes of cmd/server/main.go and the handling of a
      request ([serve]) over the router of echo ([EchoRouter]; its documented
      behaviour [EchoRouterOk] is assumed only of tables and paths without
      wildcards, escapes, empty segments and parameters that two patterns place
      differently); Shutdown.v: the end of its main.
    - Action.v, Cuts.v, Interleave.v: everything at once.  An operation is cut
      into the actions of a process ([Cut], whose process runs to what the
      function of the other files gives), and the actions of any number of
      requests, jobs and account calls take effect in any order ([conc_step]).
      Parallel.v: the uploads of the parts of one file among them, by rely and
      guarantee ([safe]).  System.v: the worker process, its goroutines and the
      actions of its executor, among them.

    * How the code is represented

    A Go function that touches the world is a value of [Go A]: from a world it
    gives a result, or a panic, and the world after it.  Every call of a
    service outside the process is one event with a number; [fault n] makes
    event n fail, so a theorem without hypotheses on [fault] covers every
    pattern of failures, and [no_fault] means that none fails.  A Go error is
    its text, a pointer that may be nil an option, a map a [gmap], a table a
    list of rows.  A transaction is a copy of the tables that [Commit]
    publishes.  Loops are structural recursions over the list they walk, so no
    fuel is needed and every function of the model ends; where goroutines run
    on, ending is a theorem about a measure (PoolDrain).  Logging is left out.

    Goroutines are modelled one channel operation at a time: an event names the
    step and what the scheduler, the select and the clock decide, [step] is a
    function that gives [None] for a step that blocks, and the theorems hold in
    every reachable state.  An operation that would panic is a step to a state
    of its own (Broker) or no step, and it is proved that it cannot happen.
    The processor that a worker runs is a process: the other goroutines, and the
    rest of the system, go on between two of its actions.
    Between two steps of the goroutines of a supervisor the rest of the system
    may change the world, by any step of a relation that is a parameter.

    What the source does not fix is a parameter: the order of map iteration,
    the growth of slices, the order of rows without ORDER BY, the codec of gob.
    Theorems hold for all of them; the witnesses instantiate them.

    * What is proved

    - Versions: a finished upload takes over exactly the missing chunks and
      switches the current flags (Changelog.ExecuteEach_completes), stays
      consistent under any failure (ExecuteEach_any_failure), on top of the
      atomicity of the transactions (FilesRepo) and of the set-theoretic
      reading of reconstruction and validation (Reconstruct).
    - Data: what is uploaded is downloaded (Transfer.upload_download_roundtrip),
      also when the parts are sent all at once, among everything else that runs
      (Parallel.parallel_upload_roundtrip), a chunk is stored in a file of its
      own (Blob.UpdateChunk_isolated), the list of paths is in order (FilesService.ListOrderedFileChunks_spec), and
      the grouping loop equals its reference definition (FilesInfo); chunks
      stored by concurrent goroutines are all stored (BatchCreate), and
      migrations are all or nothing (Migrations).
    - Announcements, tokens, queues: what each request stores and refuses
      (FilesService), stream tokens are sound and complete (Tokens), queues are
      first-in first-out and events reach their user (Queue, Changelog).
    - Requests: no request to the server changes or learns anything without the
      credential of the route the router found, on the chunk paths one for the
      file in the path (Server.server_closed); each is handled by the handler
      that the interface names for its method and path, and by none if it names
      none (Server.server_dispatches); and a chunk request changes only what its
      token is for (Auth, Routes); the accounts (Users).
    - Processes: a start builds what the configuration says or ends, and changes
      nothing (Startup.processes_start); server and worker agree on database,
      statements and queues (Startup.processes_agree).
    - The whole way of an upload, from the request that ends it to the messages
      for the devices of its user (Journey.upload_reaches_devices).
    - The whole system: after any history of operations and failures every
      table is well typed and every version is uploading, current or closed
      (Lifecycle.tables_typed), and nothing stored is removed or rewritten; both
      hold when the operations interleave statement by statement
      (Interleave.interleaved_tables).  The worker process, its goroutines and
      the statements of its executor among all that runs beside it, stays within
      these interleavings, with one batch per job, each once and in the order of
      the queue (System.MetadataSupervisor_refines); the server, from its start
      and request after request, within the histories of whole operations
      (Server.server_refines).
    - Concurrency: the broker never sends on a closed channel and gives every
      device its own messages in order (Broker); the pool neither loses nor
      repeats a job, its channels never block it (Pool), and it finishes its
      work (PoolDrain.pool_drains); merged channels lose nothing (Merge); a
      supervisor takes messages to its processor in the order of the queue
      (Supervisor), a connection writes to a device what was sent to it (Sse),
      and what it writes is, in order, what the queue of notifications held for
      this device (Relay.devices_shown_queue).
    - Numbers and texts: chunk counts in floating point (Model), error texts
      (Api), statement files (Squirtle, Queries).
    - Defects, as theorems about what the code does: pages that cannot be
      filled, chunks lost on a full disk, stale downloads, versions published
      incomplete, session tokens that are never found, batches that miss their
      partition, the reconciler that closes the new version, the subscriber
      that is forgotten, the file name that leaves its directory, the access
      token that is not checked, two current versions of one file, the
      connections that wait for ever once a read of the queue has failed
      (Sse.EstablishConnection_hangs), the message lost with its
      acknowledgement, the interrupt that cuts requests off (Shutdown), the file
      that two clients announce at once (Interleave.announcements_race).

    * What is not modelled

    Outside Interleave.v and Parallel.v an operation is whole, and there a
    transaction of the database is: [_txlock=immediate] lets one writer in at a
    time.  Interleave.v proves nothing about the disk and Redis; Parallel.v does
    about the chunks of the file whose parts are sent, and what else runs there
    has to leave that file alone ([leaves]).  Left out: what only writes to the
    log (logging, Dump, Bench), the attributes of a cookie that are constants, the limits of
    time that contexts carry (a call that runs into one is a call that fails),
    and everything that is not in the repository: the bodies of echo, yaml,
    diaper, cli, sqlx, SQLite, go-redis and gob are parameters, whose documented
    behaviour is assumed where it is used.
 *)
From stdpp Require Export base tactics option list gmap strings pretty numbers sorting.

(** * Errors and results

    A Go [error] is represented by the text its [Error()] method returns.  A
    function that returns [(T, error)] and whose value is meaningless when the
    error is set returns [res T]. *)
Definition error := string.

Inductive res (A : Type) : Type :=
| Val (a : A)
| Err (e : error).
Arguments Val {A} a.
Arguments Err {A} e.

#[global] Instance res_eq_dec {A} `{EqDecision A} : EqDecision (res A).
Proof. solve_decision. Defined.

(** * Computations

    A statement runs in a world of type [W] and either returns or panics; the
    effects made before a panic stay (a request handler that panics is
    recovered by the HTTP server, the database keeps what was committed). *)
Inductive ret (A : Type) : Type :=
| Ret (a : A)
| Panics (why : string).
Arguments Ret {A} a.
Arguments Panics {A} why.

Definition M (W A : Type) : Type := W → ret A * W.

Definition bindM {W A B} (f : A → M W B) (m : M W A) : M W B := λ w,
  match m w with
  | (Ret a, w') => f a w'
  | (Panics why, w') => (Panics why, w')
  end.

#[global] Instance M_ret {W} : MRet (M W) := λ A a w, (Ret a, w).
#[global] Instance M_bind {W} : MBind (M W) := λ A B f m, bindM f m.

Definition panic {W A} (why : string) : M W A := λ w, (Panics why, w).
Definition get {W} : M W W := λ w, (Ret w, w).
Definition modify {W} (f : W → W) : M W unit := λ w, (Ret (), f w).

(** Lifts a pure expression that may panic (an index, a slice expression). *)
Definition eval {W A} (r : ret A) : M W A := λ w, (r, w).

Declare Scope go_scope.
Delimit Scope go_scope with go.
Notation "e ;; k" := (bindM (λ _, k) e)
  (at level 100, k at level 200, right associativity) : go_scope.
Open Scope go_scope.

(** * Weakest preconditions

    [wp m w Q]: the run of [m] from [w] ends in an outcome and a world that
    satisfy [Q].  A run always ends, so this is total correctness. *)
Definition wp {W A} (m : M W A) (w : W) (Q : ret A → W → Prop) : Prop :=
  Q (m w).1 (m w).2.

Section wp.
Context {W : Type}.

Lemma wp_ret {A} (a : A) (w : W) Q : Q (Ret a) w → wp (mret a) w Q.
Proof. done. Qed.

Lemma wp_panic {A} why (w : W) Q : Q (Panics why) w → wp (@panic W A why) w Q.
Proof. done. Qed.

Lemma wp_eval {A} (r : ret A) (w : W) Q : Q r w → wp (eval r) w Q.
Proof. done. Qed.

Lemma wp_get (w : W) Q : Q (Ret w) w → wp get w Q.
Proof. done. Qed.

Lemma wp_modify f (w : W) Q : Q (Ret ()) (f w) → wp (modify f) w Q.
Proof. done. Qed.

Lemma wp_bind {A B} (f : A → M W B) (m : M W A) w Q :
  wp m w (λ r w', match r with
                  | Ret a => wp (f a) w' Q
                  | Panics why => Q (Panics why) w'
                  end) →
  wp (bindM f m) w Q.
Proof. unfold wp, bindM. by destruct (m w) as [[a|why] w']. Qed.

Lemma wp_self {A} (m : M W A) w (Q : ret A → W → Prop) :
  (∀ r w', m w = (r, w') → Q r w') → wp m w Q.
Proof. unfold wp. destruct (m w). auto. Qed.

Lemma wp_mono {A} (m : M W A) w (P Q : ret A → W → Prop) :
  wp m w P → (∀ r w', P r w' → Q r w') → wp m w Q.
Proof. unfold wp. naive_solver. Qed.

(** What [wp] says of a run that is known. *)
Lemma wp_run {A} (m : M W A) w r w' (Q : ret A → W → Prop) :
  m w = (r, w') → wp m w Q → Q r w'.
Proof. unfold wp. by intros ->. Qed.

Lemma wp_exists {A} (m : M W A) w (Q : ret A → W → Prop) :
  wp m w Q → ∃ r w', m w = (r, w') ∧ Q r w'.
Proof. unfold wp. destruct (m w) as [r w']. eauto. Qed.

Lemma wp_eq {A} (m : M W A) w r w' :
  wp m w (λ r0 w0, r0 = r ∧ w0 = w') → m w = (r, w').
Proof. unfold wp. destruct (m w). simpl. by intros [-> ->]. Qed.

End wp.

(** One step of a run: the primitives of this file, then the rules the
    components register with [wp_prim]. *)
Ltac wp_prim := fail.
Ltac wp_step :=
  cbv beta iota;
  lazymatch goal with
  | |- wp (mbind _ _) _ _ => apply wp_bind
  | |- wp (bindM _ _) _ _ => apply wp_bind
  | |- wp (mret _) _ _ => apply wp_ret
  | |- wp (panic _) _ _ => apply wp_panic
  | |- wp (eval _) _ _ => apply wp_eval
  | |- wp get _ _ => apply wp_get
  | |- wp (modify _) _ _ => apply wp_modify
  | |- wp (match ?x with _ => _ end) _ _ => destruct x eqn:?
  | |- wp _ _ _ => wp_prim
  end; cbv beta iota.
Ltac wp_go := repeat (wp_step; intros).

(** * Preservation of a world property

    [keeps P m]: whatever [m] does, returning or panicking, it takes a world
    where [P] holds to one where [P] holds. *)
Definition keeps {W A} (P : W → Prop) (m : M W A) : Prop := ∀ w, P w → P (m w).2.

Section keeps.
Context {W : Type} (P : W → Prop).

Lemma keeps_ret {A} (a : A) : keeps P (mret a).
Proof. by intros w. Qed.

Lemma keeps_panic {A} why : keeps P (@panic W A why).
Proof. by intros w. Qed.

Lemma keeps_get : keeps P get.
Proof. by intros w. Qed.

Lemma keeps_eval {A} (r : ret A) : keeps P (eval r).
Proof. by intros w. Qed.

Lemma keeps_bind {A B} (f : A → M W B) (m : M W A) :
  keeps P m → (∀ a, keeps P (f a)) → keeps P (bindM f m).
Proof.
  intros Hm Hf w Hw. specialize (Hm w Hw). unfold bindM.
  destruct (m w) as [[a|why] w']; [by apply Hf | done].
Qed.

Lemma keeps_modify f : (∀ w, P w → P (f w)) → keeps P (modify f).
Proof. intros Hf w Hw. by apply Hf. Qed.

End keeps.

Lemma keeps_wp {W A} (P : W → Prop) (m : M W A) :
  keeps P m ↔ ∀ w, P w → wp m w (λ _ w', P w').
Proof. done. Qed.

(** * What a computation returns

    [returns P m]: in whatever world [m] runs, what it returns satisfies [P]. *)
Section returns.
Context {W : Type}.

Definition returns {A} (P : A → Prop) (m : M W A) : Prop :=
  ∀ w, match (m w).1 with Ret a => P a | Panics _ => True end.

Lemma returns_ret {A} (P : A → Prop) a : P a → returns P (mret a).
Proof. by intros ? w. Qed.

Lemma returns_panic {A} (P : A → Prop) why : returns P (panic why).
Proof. by intros w. Qed.

Lemma returns_bind {A B} (P : A → Prop) (R : B → Prop) (m : M W A) (f : A → M W B) :
  returns P m → (∀ a, P a → returns R (f a)) → returns R (m ≫= f).
Proof.
  intros Hm Hf w. specialize (Hm w). unfold mbind, M_bind, bindM in *.
  destruct (m w) as [[a|why] w']; simpl in *; [by apply Hf | done].
Qed.

(** When nothing is known of the first part. *)
Lemma returns_seq {A B} (R : B → Prop) (m : M W A) (f : A → M W B) :
  (∀ a, returns R (f a)) → returns R (m ≫= f).
Proof.
  intros Hf. apply (returns_bind (λ _, True)); [| auto]. intros w. by destruct (m w).1.
Qed.
End returns.

Ltac returns_go :=
  repeat first
    [ progress cbv beta iota zeta
    | apply returns_seq; intros
    | lazymatch goal with |- returns _ (match ?x with _ => _ end) => destruct x end
    | apply returns_ret | apply returns_panic ].

Lemma filter_all {A} (P : A → Prop) `{∀ x, Decision (P x)} (l : list A) :
  Forall P l → filter P l = l.
Proof. induction 1 as [|x l Hx Hl IH]; [done |]. by rewrite filter_cons, decide_True, IH. Qed.

Lemma filter_iff_Forall {A} (P Q : A → Prop) `{∀ x, Decision (P x)} `{∀ x, Decision (Q x)} (l : list A) :
  Forall (λ x, P x ↔ Q x) l → filter P l = filter Q l.
Proof.
  induction 1 as [|x l Hx Hl IH]; [done |]. rewrite !filter_cons, IH.
  repeat case_decide; tauto.
Qed.

Create HintDb arbok.
#[export] Hint Resolve keeps_ret keeps_panic keeps_get keeps_eval : arbok.

(** [keeps] descends through binds and branches; the calls are left to the
    hints of [arbok]. *)
Ltac keeps_go :=
  repeat first
    [ progress intros
    | lazymatch goal with
      | |- keeps _ (mbind _ _) => apply keeps_bind
      | |- keeps _ (bindM _ _) => apply keeps_bind
      | |- keeps _ (match ?x with _ => _ end) => destruct x eqn:?
      end
    | solve [ eauto 4 with arbok ] ].

(** Undoes the guards of an optional step that went through. *)
Ltac unpack H :=
  repeat lazymatch type of H with
  | mbind _ _ = Some _ => let x := fresh "x" in let Hx := fresh "Hx" in
      apply bind_Some in H as (x & Hx & H)
  | (match ?x with _ => _ end) = Some _ => destruct x eqn:?; try discriminate H
  | mret _ = Some _ => injection H as H; subst
  | Some _ = Some _ => injection H as H; subst
  end.

(** Replacing an element of a list changes a sum by the difference. *)
Lemma sum_insert {A} (f : A → nat) l i x y :
  l !! i = Some x → sum_list_with f (<[i := y]> l) + f x = sum_list_with f l + f y.
Proof.
  revert i. induction l as [|z l IH]; intros [|i] Hi; simplify_eq/=; [lia |].
  specialize (IH i Hi). lia.
Qed.

(** [lia] with division and remainder by constants. *)
Ltac div_lia := zify; Z.to_euclidean_division_equations; lia.

(** * Go values

    Machine integers: [int] and [int64] are 64-bit, arithmetic wraps. *)
Definition min_int64 : Z := - 2 ^ 63.
Definition max_int64 : Z := 2 ^ 63 - 1.
Definition wrap64 (z : Z) : Z := (z + 2 ^ 63) `mod` 2 ^ 64 - 2 ^ 63.
Definition in_int64 (z : Z) : Prop := (min_int64 ≤ z ≤ max_int64)%Z.

#[global] Instance in_int64_dec z : Decision (in_int64 z).
Proof. unfold in_int64. apply _. Defined.

Lemma wrap64_id z : in_int64 z → wrap64 z = z.
Proof.
  unfold in_int64, min_int64, max_int64, wrap64. intros ?.
  rewrite Z.mod_small by lia. lia.
Qed.

Lemma wrap64_range z : in_int64 (wrap64 z).
Proof.
  unfold in_int64, min_int64, max_int64, wrap64.
  pose proof (Z.mod_pos_bound (z + 2 ^ 63) (2 ^ 64)). lia.
Qed.

(** Iteration over a Go map visits every entry once in an order the language
    leaves open: the development is parametrised by the order. *)
Class MapRange := {
  range : ∀ {A : Type}, gmap string A → list (string * A);
  range_perm : ∀ {A : Type} (m : gmap string A), range m ≡ₚ map_to_list m;
}.

Definition list_range : MapRange :=
  {| range A m := map_to_list m; range_perm A m := Permutation_refl _ |}.

Section map_range.
Context `{MR : MapRange}.

Lemma elem_of_range {A} (m : gmap string A) k x : (k, x) ∈ range m ↔ m !! k = Some x.
Proof. by rewrite range_perm, elem_of_map_to_list. Qed.

Lemma NoDup_fst_range {A} (m : gmap string A) : NoDup ((range m).*1).
Proof. rewrite range_perm. apply NoDup_fst_map_to_list. Qed.

Lemma length_range {A} (m : gmap string A) : length (range m) = size m.
Proof. by rewrite range_perm, length_map_to_list. Qed.

Lemma list_to_map_range {A} (m : gmap string A) : list_to_map (range m) = m.
Proof.
  rewrite <- (list_to_map_to_list m) at 2.
  apply list_to_map_proper; [apply NoDup_fst_range | apply range_perm].
Qed.

(** A loop that stores entries under their own key does not depend on the
    order and builds the map of the entries. *)
Lemma foldl_insert_range {A} (m acc : gmap string A) :
  foldl (λ a kx, <[kx.1 := kx.2]> a) acc (range m) = m ∪ acc.
Proof.
  assert (Hgen : ∀ (l : list (string * A)) (a : gmap string A), NoDup (l.*1) →
    foldl (λ a kx, <[kx.1 := kx.2]> a) a l = list_to_map l ∪ a).
  { induction l as [|[k x] l IH]; intros a Hnd; simpl.
    { by rewrite (left_id_L ∅ (∪)). }
    apply NoDup_cons in Hnd as [Hk Hnd]. rewrite IH by done.
    rewrite <- insert_union_r, insert_union_l; [done |].
    by apply not_elem_of_list_to_map. }
  rewrite Hgen by apply NoDup_fst_range. by rewrite list_to_map_range.
Qed.

End map_range.
