(* ===== verification/GoStd.v ===== *)
(** What the program uses of Go's standard library: [strings], [strconv],
    [fmt], [encoding/hex], float64 rounding and slices.  Go strings and byte
    slices are byte sequences, both represented by [string]. *)
From S2P Require Import Prelude.
From Stdlib Require Import Ascii.

(** * Package strings *)

Definition HasPrefix (s prefix : string) : bool := String.prefix prefix s.

Fixpoint Contains (s sub : string) : bool :=
  String.prefix sub s ||
  match s with
  | "" => false
  | String _ s' => Contains s' sub
  end.

(** [drop n s] is Go's [s[n:]] for [n] at most the length of [s]. *)
Fixpoint sdrop (n : nat) (s : string) : string :=
  match n, s with
  | S n, String _ s => sdrop n s
  | _, _ => s
  end.

Definition TrimPrefix (s prefix : string) : string :=
  if HasPrefix s prefix then sdrop (String.length prefix) s else s.

(** [strings.Split(s, sep)] for a non-empty separator: the separators are
    taken from the left and do not overlap.  [skip] counts the bytes of a
    separator that was just recognised. *)
Definition cons_head (c : ascii) (l : list string) : list string :=
  match l with
  | [] => [String c ""]
  | h :: t => String c h :: t
  end.

Fixpoint split_go (sep : string) (skip : nat) (s : string) : list string :=
  match s with
  | "" => [""]
  | String c s' =>
    match skip with
    | S k => split_go sep k s'
    | O => if String.prefix sep s
           then "" :: split_go sep (pred (String.length sep)) s'
           else cons_head c (split_go sep 0 s')
    end
  end.

Definition Split (s sep : string) : list string := split_go sep 0 s.

Definition Join (l : list string) (sep : string) : string := String.concat sep l.

(** [strings.TrimSpace] on ASCII text. *)
Fixpoint trim_left (s : string) : string :=
  match s with
  | String c s' => if Ascii.is_space c then trim_left s' else s
  | "" => ""
  end.

Fixpoint trim_right (s : string) : string :=
  match s with
  | "" => ""
  | String c s' =>
    match trim_right s' with
    | "" => if Ascii.is_space c then "" else String c ""
    | t => String c t
    end
  end.

Definition TrimSpace (s : string) : string := trim_right (trim_left s).

(** [strings.ToLower] on ASCII text. *)
Definition lower_ascii (c : ascii) : ascii :=
  let n := N_of_ascii c in
  if decide (65 ≤ n ≤ 90)%N then ascii_of_N (n + 32) else c.

Fixpoint ToLower (s : string) : string :=
  match s with
  | "" => ""
  | String c s' => String (lower_ascii c) (ToLower s')
  end.

(** No byte of [s] is [c]. *)
Fixpoint no_char (c : ascii) (s : string) : bool :=
  match s with
  | "" => true
  | String d s' => negb (bool_decide (c = d)) && no_char c s'
  end.

(** * Package strconv *)

Inductive NumError := ErrSyntax | ErrRange.

Definition max_uint64 : Z := 2 ^ 64 - 1.

Fixpoint parse_digits (n : Z) (s : string) : Z * option NumError :=
  match s with
  | "" => (n, None)
  | String c s' =>
    match Ascii.is_nat c with
    | None => (0%Z, Some ErrSyntax)
    | Some d =>
      let n1 := (n * 10 + Z.of_nat d)%Z in
      if decide (max_uint64 < n1)%Z then (max_uint64, Some ErrRange)
      else parse_digits n1 s'
    end
  end.

Definition ParseUint (s : string) : Z * option NumError :=
  match s with
  | "" => (0%Z, Some ErrSyntax)
  | _ => parse_digits 0 s
  end.

(** [strconv.ParseInt(s, 10, 64)]: a value out of range is clipped and
    reported together with the error. *)
Definition ParseInt (s : string) : Z * option NumError :=
  let '(neg, body) :=
    match s with
    | String "-" t => (true, t)
    | String "+" t => (false, t)
    | _ => (false, s)
    end in
  let '(un, err) := ParseUint body in
  match err with
  | Some ErrSyntax => (0%Z, Some ErrSyntax)
  | _ =>
    if neg
    then if decide (2 ^ 63 < un)%Z then (min_int64, Some ErrRange) else ((- un)%Z, None)
    else if decide (2 ^ 63 ≤ un)%Z then (max_int64, Some ErrRange) else (un, None)
  end.

(** [strconv.Atoi] on a platform with 64-bit [int]. *)
Definition Atoi (s : string) : Z * option NumError := ParseInt s.

(** [fmt.Sprintf("%d", z)]. *)
Definition Itoa (z : Z) : string := pretty z.

(** * Package fmt

    [Sprintf] for formats without flags, width or argument indexes, and the
    verbs [%s], [%d], [%v] and [%%], which are all the program uses. *)
Inductive arg := AStr (s : string) | AInt (z : Z).

Definition arg_text (a : arg) : string :=
  match a with AStr s => s | AInt z => Itoa z end.

Definition arg_type (a : arg) : string :=
  match a with AStr _ => "string" | AInt _ => "int" end.

Definition verb_text (c : ascii) (a : arg) : string :=
  match c, a with
  | "s"%char, AStr s => s
  | "d"%char, AInt z => Itoa z
  | "v"%char, _ => arg_text a
  | _, _ => "%!" +:+ String c "" +:+ "(" +:+ arg_type a +:+ "=" +:+ arg_text a +:+ ")"
  end.

Definition extra_text (args : list arg) : string :=
  match args with
  | [] => ""
  | _ => "%!(EXTRA " +:+ Join ((λ a, arg_type a +:+ "=" +:+ arg_text a) <$> args) ", " +:+ ")"
  end.

Fixpoint Sprintf (fmt : string) (args : list arg) : string :=
  match fmt with
  | "" => extra_text args
  | String "%" "" => "%!(NOVERB)" +:+ extra_text args
  | String "%" (String "%" f) => String "%" (Sprintf f args)
  | String "%" (String c f) =>
    match args with
    | [] => "%!" +:+ String c "" +:+ "(MISSING)" +:+ Sprintf f []
    | a :: args => verb_text c a +:+ Sprintf f args
    end
  | String c f => String c (Sprintf f args)
  end.

(** * Package encoding/hex *)

Definition hex_char (n : N) : ascii :=
  if decide (n < 10)%N then ascii_of_N (48 + n) else ascii_of_N (87 + n).

Fixpoint EncodeToString (b : string) : string :=
  match b with
  | "" => ""
  | String c b' =>
    let n := N_of_ascii c in
    String (hex_char (n `div` 16)) (String (hex_char (n `mod` 16)) (EncodeToString b'))
  end.

(** * float64

    [rne53 m] is the integer [m] rounded to 53 significant bits, to nearest
    and ties to even: the significand rounding of IEEE-754 binary64.  A value
    [x / 2^k] whose exponent is far from the subnormal and overflow ranges is
    represented by its numerator, because scaling by a power of two commutes
    with the rounding. *)
Definition rne53 (m : Z) : Z :=
  let a := Z.abs m in
  if decide (a < 2 ^ 53)%Z then m
  else
    let k := (Z.log2 a - 52)%Z in
    let q := (a `div` 2 ^ k)%Z in
    let r := (a `mod` 2 ^ k)%Z in
    let half := (2 ^ (k - 1))%Z in
    let q' := if decide (half < r ∨ r = half ∧ Z.odd q = true)%Z then (q + 1)%Z else q in
    (Z.sgn m * (q' * 2 ^ k))%Z.

(** * Slices

    A slice of pointers, as [append] leaves it: its elements and the capacity
    of its array.  Elements past the length are the zero value [nil].  The
    growth policy of [append] is not fixed by the language: [cap_of n] is the
    capacity after [n] appends to an empty slice. *)
Class SliceGrowth := {
  cap_of : nat → nat;
  cap_of_ge : ∀ n, n ≤ cap_of n;
}.

Definition doubling_growth : SliceGrowth.
Proof.
  refine {| cap_of n := match n with 0 => 0 | _ => 2 ^ Nat.log2_up n end |}.
  intros [|[|n]]; [done | done |].
  pose proof (Nat.log2_up_spec (S (S n))). lia.
Defined.

(** [s[0:n]] of a slice with elements [l] and capacity [c]. *)
Definition slice_to {A} (c : nat) (l : list A) (n : Z) : ret (list (option A)) :=
  if decide (0 ≤ n ≤ Z.of_nat c)%Z
  then Ret (take (Z.to_nat n) (Some <$> l)
            ++ replicate (Z.to_nat n - length l) None)
  else Panics "slice bounds out of range".

(** [s[i]]. *)
Definition index {A} (l : list A) (i : Z) : ret A :=
  if decide (0 ≤ i)%Z
  then match l !! Z.to_nat i with
       | Some x => Ret x
       | None => Panics "index out of range"
       end
  else Panics "index out of range".

(** [s[i] = x]. *)
Definition store {A} (l : list A) (i : Z) (x : A) : ret (list A) :=
  if decide (0 ≤ i < Z.of_nat (length l))%Z
  then Ret (<[Z.to_nat i := x]> l)
  else Panics "index out of range".

(** * Lemmas *)

#[global] Instance Itoa_inj : Inj (=) (=) Itoa.
Proof. unfold Itoa. apply _. Qed.

Lemma is_nat_pretty_N_char x :
  (x < 10)%N → Ascii.is_nat (pretty_N_char x) = Some (N.to_nat x).
Proof.
  intros ?. assert (x = 0 ∨ x = 1 ∨ x = 2 ∨ x = 3 ∨ x = 4 ∨ x = 5 ∨ x = 6
    ∨ x = 7 ∨ x = 8 ∨ x = 9)%N as Hx by lia.
  by destruct_or! Hx; subst.
Qed.

(** Reading the digits of a number back continues with that number. *)
Lemma parse_digits_pretty_N_go x s :
  (Z.of_N x ≤ max_uint64)%Z →
  parse_digits 0 (pretty_N_go x s) = parse_digits (Z.of_N x) s.
Proof.
  revert s. induction (N.lt_wf_0 x) as [x _ IH]; intros s Hx.
  assert (x = 0 ∨ 0 < x)%N as [->|Hpos] by lia; [done |].
  rewrite pretty_N_go_step by done.
  rewrite IH; [| by apply N.div_lt | div_lia].
  simpl. rewrite is_nat_pretty_N_char by (by apply N.mod_lt).
  replace (Z.of_N (x `div` 10) * 10 + Z.of_nat (N.to_nat (x `mod` 10)))%Z
    with (Z.of_N x) by div_lia.
  rewrite decide_False by lia. done.
Qed.

Lemma ParseUint_pretty (p : positive) :
  (Z.pos p ≤ max_uint64)%Z → ParseUint (pretty p) = (Z.pos p, None).
Proof.
  intros Hp. unfold ParseUint.
  assert (Hd : parse_digits 0 (pretty p) = (Z.pos p, None)).
  { change (pretty p) with (pretty_N_go (N.pos p) "").
    by rewrite parse_digits_pretty_N_go. }
  destruct (pretty p) eqn:E; [by simpl in Hd |done].
Qed.

(** The decimal text of a number has no other byte than digits and a sign. *)
Lemma no_char_pretty_N_go c x s :
  Ascii.is_nat c = None → no_char c s = true → no_char c (pretty_N_go x s) = true.
Proof.
  intros Hc. revert s. induction (N.lt_wf_0 x) as [x _ IH]; intros s Hs.
  assert (x = 0 ∨ 0 < x)%N as [->|Hpos] by lia; [done |].
  rewrite pretty_N_go_step by done. apply IH; [by apply N.div_lt |].
  cbn [no_char]. rewrite Hs, andb_true_r. apply negb_true_iff, bool_decide_eq_false.
  intros ->. rewrite is_nat_pretty_N_char in Hc; [done | by apply N.mod_lt].
Qed.

Lemma no_char_Itoa c z :
  Ascii.is_nat c = None → c ≠ "-"%char → no_char c (Itoa z) = true.
Proof.
  intros Hc Hm. unfold Itoa. destruct z as [|p|p].
  - change (pretty 0%Z) with "0". cbn [no_char]. rewrite andb_true_r.
    apply negb_true_iff, bool_decide_eq_false. by intros ->.
  - change (pretty (Z.pos p)) with (pretty_N_go (N.pos p) ""). by apply no_char_pretty_N_go.
  - change (pretty (Z.neg p)) with (String "-" (pretty_N_go (N.pos p) "")).
    cbn [no_char]. rewrite no_char_pretty_N_go by done. rewrite andb_true_r.
    by apply negb_true_iff, bool_decide_eq_false.
Qed.

(** The decimal text of a positive number starts with a digit. *)
Lemma pretty_pos_head (p : positive) : ∃ c s, pretty p = String c s ∧ is_Some (Ascii.is_nat c).
Proof.
  change (pretty p) with (pretty_N_go (N.pos p) "").
  assert (Hgen : ∀ x s, (0 < x)%N ∨ (∃ c t, s = String c t ∧ is_Some (Ascii.is_nat c)) →
    ∃ c t, pretty_N_go x s = String c t ∧ is_Some (Ascii.is_nat c)).
  { intros x. induction (N.lt_wf_0 x) as [x _ IH]; intros s Hs.
    assert (x = 0 ∨ 0 < x)%N as [->|Hpos] by lia.
    { rewrite pretty_N_go_0. destruct Hs as [?|?]; [lia | done]. }
    rewrite pretty_N_go_step by done. apply IH; [by apply N.div_lt |].
    right. eexists _, _. split; [done |].
    rewrite is_nat_pretty_N_char by (by apply N.mod_lt). by eexists. }
  apply Hgen. left. lia.
Qed.

Lemma Itoa_head z : ∃ c s, Itoa z = String c s ∧ c ≠ "."%char.
Proof.
  unfold Itoa. destruct z as [|p|p]; [by eexists _, _ | | by eexists _, _].
  change (pretty (Z.pos p)) with (pretty p).
  destruct (pretty_pos_head p) as (c & s & -> & Hc). exists c, s. split; [done |].
  intros ->. vm_compute in Hc. by destruct Hc.
Qed.

(** [Atoi] reads back what [%d] prints, over the whole range of [int64]. *)
Lemma ParseInt_Itoa z : in_int64 z → ParseInt (Itoa z) = (z, None).
Proof.
  unfold in_int64, min_int64, max_int64. intros Hz.
  destruct z as [|p|p]; [done | |].
  - unfold Itoa. change (pretty (Z.pos p)) with (pretty p). unfold ParseInt.
    destruct (pretty_pos_head p) as (c & s & Hs & Hc).
    assert (Hmatch : (match pretty p with
      | String "-" t => (true, t) | String "+" t => (false, t) | _ => (false, pretty p)
      end) = (false, pretty p)).
    { rewrite Hs. destruct c as [[] [] [] [] [] [] [] []]; try done;
        vm_compute in Hc; by destruct Hc. }
    rewrite Hmatch, ParseUint_pretty by (unfold max_uint64; lia).
    by rewrite decide_False by lia.
  - unfold Itoa. change (pretty (Z.neg p)) with (String "-" (pretty p)). unfold ParseInt.
    rewrite ParseUint_pretty by (unfold max_uint64; lia).
    rewrite decide_False by lia. done.
Qed.

(** ** Slices *)

Lemma slice_to_full {A} c (l : list A) n :
  (0 ≤ n ≤ Z.of_nat c)%Z → Z.to_nat n ≤ length l →
  slice_to c l n = Ret (Some <$> take (Z.to_nat n) l).
Proof.
  intros ??. unfold slice_to. rewrite decide_True by done.
  replace (Z.to_nat n - length l) with 0 by lia.
  by rewrite app_nil_r, fmap_take.
Qed.

(** A slice expression that reaches past the length either panics or ends in
    [nil] elements. *)
Lemma slice_to_short {A} c (l : list A) n :
  (Z.of_nat (length l) < n)%Z →
  slice_to c l n = Panics "slice bounds out of range" ∨
  ∃ k, slice_to c l n = Ret ((Some <$> l) ++ replicate (S k) None).
Proof.
  intros Hn. unfold slice_to. case_decide; [right | by left].
  exists (Z.to_nat n - length l - 1). rewrite take_ge by (rewrite length_fmap; lia).
  do 2 f_equal. f_equal. lia.
Qed.

Lemma store_in {A} (l : list A) i x :
  (0 ≤ i < Z.of_nat (length l))%Z → store l i x = Ret (<[Z.to_nat i := x]> l).
Proof. intros ?. unfold store. by rewrite decide_True. Qed.

Lemma store_out {A} (l : list A) i x :
  ¬ (0 ≤ i < Z.of_nat (length l))%Z → store l i x = Panics "index out of range".
Proof. intros ?. unfold store. by rewrite decide_False. Qed.

(** ** Strings *)

Lemma sapp_assoc s t u : (s +:+ t) +:+ u = s +:+ (t +:+ u).
Proof.
  induction s as [|c s IH]; [done |].
  change (String c ((s +:+ t) +:+ u) = String c (s +:+ (t +:+ u))). by f_equal.
Qed.

Lemma sapp_nil_r s : s +:+ "" = s.
Proof. induction s as [|c s IH]; [done |]. change (String c (s +:+ "") = String c s). by f_equal. Qed.

Lemma version_str z : Sprintf "%d" [AInt z] = Itoa z.
Proof. apply sapp_nil_r. Qed.

Lemma split_go_nonempty sep k s : split_go sep k s ≠ [].
Proof.
  revert k. induction s as [|c s IH]; intros [|k]; cbn [split_go]; [done.. | |by apply IH].
  destruct (String.prefix sep (String c s)); [done |].
  unfold cons_head. by destruct (split_go sep 0 s).
Qed.

Lemma prefix_char c d s :
  String.prefix (String c "") (String d s) = bool_decide (c = d).
Proof.
  simpl. destruct (ascii_dec c d) as [->|Hne].
  - rewrite bool_decide_true by done. by destruct s.
  - by rewrite bool_decide_false.
Qed.

(** Splitting on a one-byte separator: a part without it comes out whole. *)
Lemma Split_char_last c s : no_char c s = true → Split s (String c "") = [s].
Proof.
  unfold Split. induction s as [|d s IH]; [done |].
  cbn [no_char]. intros [Hc Hs]%andb_prop. cbn [split_go]. rewrite prefix_char.
  apply negb_true_iff in Hc. rewrite Hc, IH by done. done.
Qed.

Lemma Split_char_app c s t :
  no_char c s = true →
  Split (s +:+ String c t) (String c "") = s :: Split t (String c "").
Proof.
  unfold Split. induction s as [|d s IH]; intros Hs.
  - change ("" +:+ String c t) with (String c t). cbn [split_go].
    rewrite prefix_char, bool_decide_true by done. done.
  - cbn [no_char] in Hs. apply andb_prop in Hs as [Hc Hs].
    change (String d s +:+ String c t) with (String d (s +:+ String c t)).
    cbn [split_go]. rewrite prefix_char. apply negb_true_iff in Hc.
    rewrite Hc, IH by done. done.
Qed.

Lemma EncodeToString_length b :
  String.length (EncodeToString b) = 2 * String.length b.
Proof. induction b as [|c b IH]; simpl; [done | rewrite IH; lia]. Qed.

(** A rendering with a single [%s]: prefix, argument, suffix. *)
Lemma Sprintf_plain p f args :
  no_char "%" p = true → Sprintf (p +:+ f) args = p +:+ Sprintf f args.
Proof.
  induction p as [|c p IH]; [done |]. cbn [no_char]. intros [Hc Hp]%andb_prop.
  change (String c p +:+ f) with (String c (p +:+ f)).
  change (String c p +:+ Sprintf f args) with (String c (p +:+ Sprintf f args)).
  rewrite <- IH by done. apply negb_true_iff, bool_decide_eq_false in Hc.
  destruct c as [[] [] [] [] [] [] [] []]; done.
Qed.

(** ** Rounding *)

Lemma rne53_exact m : (Z.abs m < 2 ^ 53)%Z → rne53 m = m.
Proof. intros ?. unfold rne53. by rewrite decide_True. Qed.

Lemma rne53_exact_le m : (Z.abs m ≤ 2 ^ 53)%Z → rne53 m = m.
Proof.
  intros Hm. destruct (decide (Z.abs m = 2 ^ 53)%Z) as [Heq|]; [|apply rne53_exact; lia].
  assert (m = 2 ^ 53 ∨ m = - 2 ^ 53)%Z as [-> | ->] by lia; by vm_compute.
Qed.

Arguments Sprintf : simpl never.
