(* ===== verification/HttpClient.v ===== *)
(** pkg/httputils and GetSize of pkg/utils: a request sent with a client of
    net/http, whose body is read whole and closed. *)
From S2P Require Import Prelude GoStd.
From stdpp Require Import gmap.

(** An [io.Reader] by what its reads give one after the other, and how they
    end: with io.EOF ([None]) or an error. *)
Record Reader := { rd_reads : list string; rd_ends : option error }.

(** [io.Copy] into a buffer: what reaches it, and the error. *)
Fixpoint copy_reads (buf : string) (reads : list string) : string :=
  match reads with
  | [] => buf
  | read :: reads => copy_reads (buf +:+ read) reads
  end.

Definition io_Copy (r : Reader) : string * option error := (copy_reads "" (rd_reads r), rd_ends r).

(** GetSize prints the error. *)
Definition GetSize (r : Reader) : nat := String.length (io_Copy r).1.

Definition Headers : Type := gmap string (list string).

(** A request as the client sends it; [http.Response] has a body that stays
    open until it is closed. *)
Record ClientRequest := { cr_Method : string; cr_URL : string; cr_Body : string }.
Record ClientResponse := { rs_StatusCode : Z; rs_Header : Headers; rs_Body : Reader }.

(** [http.Client.Do] as a whole (its transport, redirections and time limit):
    the answer to the [n]-th request. *)
Class RoundTripper := { round_trip : Z → nat → ClientRequest → res ClientResponse }.

(** The requests sent, and the bodies that are open, by the request. *)
Record Net := { net_sent : list ClientRequest; net_open : gset nat }.

Record HttpClientConfig := { Timeout : Z; cfg_TlsEnabled : bool }.
Record HttpClient := { hc_timeout : Z; hc_tlsEnabled : bool }.
Record HttpClientResponse := { hr_Status : Z; hr_Headers : Headers; hr_Body : string }.

(** Ten seconds, in nanoseconds. *)
Definition DefaultHttpClientConfig : HttpClientConfig :=
  {| Timeout := 10 * 1000000000; cfg_TlsEnabled := false |}.

Definition NewHttpClient (config : HttpClientConfig) : HttpClient :=
  {| hc_timeout := Timeout config; hc_tlsEnabled := cfg_TlsEnabled config |}.

Definition TlsEnabled (slf : HttpClient) : bool := hc_tlsEnabled slf.

Section client.
Context `{RT : RoundTripper}.

(** The call, with the number of its body. *)
Definition client_Do (slf : HttpClient) (req : ClientRequest) : M Net (res (ClientResponse * nat)) :=
  net ← get;
  let n := length (net_sent net) in
  match round_trip (hc_timeout slf) n req with
  | Err e => modify (λ s, {| net_sent := net_sent s ++ [req]; net_open := net_open s |});; mret (Err e)
  | Val resp =>
    modify (λ s, {| net_sent := net_sent s ++ [req]; net_open := {[n]} ∪ net_open s |});;
    mret (Val (resp, n))
  end.

Definition Body_Close (n : nat) : M Net unit :=
  modify (λ s, {| net_sent := net_sent s; net_open := net_open s ∖ {[n]} |}).

(** The deferred close runs on both ways out. *)
Definition Do (slf : HttpClient) (req : ClientRequest) : M Net (res HttpClientResponse) :=
  resp ← client_Do slf req;
  match resp with
  | Err err => mret (Err err)
  | Val (resp, body) =>
    let status := rs_StatusCode resp in
    let copied := io_Copy (rs_Body resp) in
    match copied.2 with
    | Some err => Body_Close body;; mret (Err err)
    | None =>
      Body_Close body;;
      mret (Val {| hr_Status := status; hr_Headers := rs_Header resp; hr_Body := copied.1 |})
    end
  end.

(** * What it gives *)

Lemma copy_reads_app buf reads : copy_reads buf reads = buf +:+ foldr String.append "" reads.
Proof.
  revert buf. induction reads as [|read reads IH]; intros buf; cbn [copy_reads foldr].
  - by rewrite sapp_nil_r.
  - by rewrite IH, sapp_assoc.
Qed.

(** One request is sent, no body is left open, and what is returned is the
    whole body or the error met, never a part of one. *)
Lemma Do_spec slf req (s : Net) :
  length (net_sent s) ∉ net_open s →
  wp (Do slf req) s (λ r s',
    net_sent s' = net_sent s ++ [req] ∧ net_open s' = net_open s ∧
    ∃ out, r = Ret out ∧
      match round_trip (hc_timeout slf) (length (net_sent s)) req with
      | Err e => out = Err e
      | Val resp =>
        match rd_ends (rs_Body resp) with
        | Some e => out = Err e
        | None => out = Val {| hr_Status := rs_StatusCode resp; hr_Headers := rs_Header resp;
            hr_Body := foldr String.append "" (rd_reads (rs_Body resp)) |}
        end
      end).
Proof.
  intros Hn. unfold Do, client_Do, Body_Close, io_Copy. wp_step. wp_step. wp_step. simpl.
  destruct (round_trip _ _ _) as [resp|e]; simpl.
  - wp_step. wp_step. wp_step. simpl.
    destruct (rd_ends (rs_Body resp)); repeat wp_step; simpl.
    all: split_and!; [done | set_solver |]; eexists; split; [done |]; by rewrite ?copy_reads_app.
  - repeat wp_step. simpl. split_and!; [done.. |]. by eexists.
Qed.

(** Request after request, the bodies are closed. *)
Lemma Do_keeps_closed slf req : keeps (λ s, net_open s = ∅) (Do slf req).
Proof.
  intros s Hs. destruct (Do_spec slf req s) as (_ & -> & _); [by rewrite Hs; set_solver | done].
Qed.

End client.
