(* ===== verification/Api.v ===== *)
(** Package core/api: error texts of the form [key:code:status] and the
    response envelope of the service layer (core/api/response.go). *)
From S2P Require Import Prelude GoStd.
From Stdlib Require Import Ascii.

Record ErrorResponse := {
  er_Message : string;
  er_HttpStatus : Z;
  er_Code : Z;
}.

(** The [Data] field holds any value; the model is polymorphic in its type. *)
Record Response (D : Type) := {
  rsp_Success : bool;
  rsp_Data : option D;
  rsp_Error : option ErrorResponse;
}.
Arguments rsp_Success {D}.
Arguments rsp_Data {D}.
Arguments rsp_Error {D}.

Definition ParserErrorResponse (errStr : error) : ErrorResponse :=
  match Split errStr ":" with
  | key :: code :: status :: _ =>
    {| er_Message := key;
       er_HttpStatus := (Atoi status).1;
       er_Code := (Atoi code).1 |}
  | _ => {| er_Message := "terrible"; er_HttpStatus := 501; er_Code := 9 |}
  end.

Definition BuildResponse {D} (err : option error) (data : option D) : Response D :=
  match err with
  | Some e => {| rsp_Success := false; rsp_Data := None;
                 rsp_Error := Some (ParserErrorResponse e) |}
  | None => {| rsp_Success := true; rsp_Data := data; rsp_Error := None |}
  end.

(** The two ways a service method answers. *)
Definition failed {D} (e : error) : Response D := BuildResponse (Some e) None.
Definition succeeded {D} (d : D) : Response D := BuildResponse None (Some d).

(** The format the comment of [ParserErrorResponse] documents:
    err_key:err_code:status_code. *)
Definition error_text (key : string) (code status : Z) : error :=
  key +:+ String ":" (Itoa code +:+ String ":" (Itoa status)).

Lemma no_char_app c s t : no_char c (s +:+ t) = no_char c s && no_char c t.
Proof.
  induction s as [|d s IH]; [done |].
  change (String d s +:+ t) with (String d (s +:+ t)). cbn [no_char].
  by rewrite IH, andb_assoc.
Qed.

Lemma Split_error_text key code status :
  no_char ":" key = true →
  Split (error_text key code status) ":" = [key; Itoa code; Itoa status].
Proof.
  intros Hk. unfold error_text.
  by rewrite Split_char_app, Split_char_app, Split_char_last by (done || by apply no_char_Itoa).
Qed.

(** An error text in the documented format [key:code:status] is parsed
    back into exactly its three parts, for every code and status an [int]
    holds; a text with fewer than two colons is answered with the fixed
    fallback 501/9. *)
Theorem ParserErrorResponse_roundtrip :
  (∀ key code status,
    no_char ":" key = true → in_int64 code → in_int64 status →
    ParserErrorResponse (error_text key code status)
    = {| er_Message := key; er_HttpStatus := status; er_Code := code |}) ∧
  (∀ e, length (Split e ":") < 3 →
    ParserErrorResponse e
    = {| er_Message := "terrible"; er_HttpStatus := 501; er_Code := 9 |}).
Proof.
  split.
  - intros key code status Hk Hc Hs. unfold ParserErrorResponse, Atoi.
    rewrite Split_error_text by done. by rewrite !ParseInt_Itoa.
  - intros e He. unfold ParserErrorResponse.
    destruct (Split e ":") as [|? [|? [|? ?]]]; [done.. |]. simpl in He. lia.
Qed.

Lemma ParserErrorResponse_roundtrip_witness :
  ParserErrorResponse (error_text "not_found" 2027 404)
  = {| er_Message := "not_found"; er_HttpStatus := 404; er_Code := 2027 |}.
Proof. by apply (proj1 ParserErrorResponse_roundtrip). Defined.

Example parse_duplicate :
  ParserErrorResponse "duplicate:2014:422"
  = {| er_Message := "duplicate"; er_HttpStatus := 422; er_Code := 2014 |}.
Proof. reflexivity. Qed.

Example parse_raw_driver_error :
  er_HttpStatus (ParserErrorResponse "database is locked") = 501%Z.
Proof. reflexivity. Qed.
