(* ===== verification/Model.v ===== *)
(** The data of the program: the structs of core/files/model.go,
    core/tokens/token.go and core/users/user.go, the request structs of
    core/api, and the tables of migrations/sqlite/schema.up.sql.  A [*T] that
    may be [nil] is an [option T]; a [time.Time] is the number of nanoseconds
    since the zero time. *)
From S2P Require Import Prelude GoStd.
From Stdlib Require Import SpecFloat.

Definition time := Z.
Definition zero_time : time := 0%Z.

(** * core/files/model.go *)

Definition StatusUploading : string := "uploading".
Definition StatusFailed : string := "failed".
Definition StatusCompleted : string := "completed".

Definition FrontendChunkSize : Z := (4 * 1024 * 1024)%Z.

Record FileMetadata := {
  fm_ID : string;
  fm_UserID : string;
  fm_Filename : string;
  fm_FileSize : Z;
  fm_FileType : string;
  fm_FileHash : string;
  fm_NChunks : Z;
  fm_CurrentFlag : bool;
  fm_UploadStaus : string;
  fm_PrevID : option string;
  fm_EndDate : option time;
  fm_CreatedAt : time;
  fm_UpdatedAt : time;
}.

Record CacheMetadata := {
  cm_UserID : string;
  cm_PrevID : option string;
  cm_DeviceID : string;
  cm_ID : string;
}.

Record UserFile := {
  uf_UserID : string;
  uf_FileID : string;
  uf_ChunkID : Z;
  uf_ChunkBlobUrl : string;
  uf_ChunkHash : string;
  uf_NextChunkID : option Z;
  uf_CreatedAt : time;
  uf_UpdatedAt : time;
}.

Record FilesWithChunks := {
  fwc_ID : string;
  fwc_UserID : string;
  fwc_Filename : string;
  fwc_FileSize : Z;
  fwc_FileType : string;
  fwc_FileHash : string;
  fwc_NChunks : Z;
  fwc_CurrentFlag : bool;
  fwc_UploadStaus : string;
  fwc_FileID : string;
  fwc_ChunkID : Z;
  fwc_ChunkBlobUrl : string;
  fwc_ChunkHash : string;
  fwc_NextChunkID : option Z;
  fwc_PrevID : option string;
  fwc_EndDate : option time;
  fwc_CreatedAt : time;
  fwc_UpdatedAt : time;
}.

(** [CalculateChunks]: [n_chunks] is a float64 kept as a numerator over
    [FrontendChunkSize = 2^22].  The conversion and the addition round to 53
    bits; the division by a power of two is exact; [int(x)] truncates. *)
Definition CalculateChunks (fileSize : Z) : Z :=
  let n_chunks := rne53 fileSize in
  let whole := rne53 (n_chunks `quot` FrontendChunkSize) in
  let n_chunks :=
    if decide (whole * FrontendChunkSize < n_chunks)%Z
    then rne53 (n_chunks + FrontendChunkSize) else n_chunks in
  (n_chunks `quot` FrontendChunkSize)%Z.

(** * core/files/service.metadata.go and repository.go: requests, responses *)

Record MetadataRequest := {
  mr_UserID : string;
  mr_FileName : string;
  mr_FileType : string;
  mr_FileSize : Z;
  mr_Digest : string;
  mr_UploadStatus : string;
  mr_Chunks : Z;
  mr_AccessToken : string;
}.

(** core/api/requests.go *)
Record FileUpdateMetadataRequest := {
  fur_FileName : string;
  fur_FileID : string;
  fur_Digest : string;
  fur_Chunks : Z;
  fur_FileSize : Z;
  fur_FileType : string;
  fur_UploadStatus : string;
  fur_UserID : string;
}.

(** core/api/requests.go; [Data] is the content of the uploaded part. *)
Record FileChunkRequest := {
  fcr_ChunkID : string;
  fcr_NextChunkID : string;
  fcr_ChunkDigest : string;
  fcr_ChunkSize : Z;
  fcr_FileDigest : string;
  fcr_Data : string;
  fcr_FileID : string;
  fcr_UserID : string;
}.

Record MetadataTokenResponse := {
  mtr_AccessToken : string;
  mtr_StreamToken : string;
  mtr_PrevID : option string;
  mtr_FileID : string;
  mtr_FileType : string;
  mtr_Digest : string;
  mtr_UploadStatus : string;
  mtr_CreatedAt : time;
  mtr_ExpiresIn : Z;
}.

Record FileInfoResponse := {
  fir_ID : string;
  fir_Name : string;
  fir_Hash : string;
  fir_Size : Z;
  fir_Type : string;
  fir_CurrentFlag : bool;
  fir_Chunks : gmap string FilesWithChunks;
  fir_NChunks : Z;
  fir_UserID : string;
}.

Record ListResponse := {
  lr_FilesInfo : list FileInfoResponse;
  lr_HasMore : bool;
}.

Record PageOpts := {
  po_Offset : Z;
  po_Limit : Z;
}.

Record ChunkUploadResponse := {
  cur_ChunkID : Z;
  cur_NextChunkID : Z;
  cur_ChunkBlobUrl : string;
  cur_ChunkHash : string;
  cur_CreatedAt : time;
  cur_UpdatedAt : time;
}.

(** * core/tokens/token.go *)

Record Token := {
  tok_ResourceID : string;
  tok_ResouceType : string;
  tok_AccessToken : string;
  tok_RefreshToken : string;
  tok_TokenType : string;
  tok_UserID : option string;
  tok_DeviceID : string;
  tok_AccessExpiresAt : time;
  tok_RefreshExpiresAt : time;
  tok_CreatedAt : time;
  tok_UpdatedAt : time;
}.

Record UserFileDevice := {
  ufd_UserID : string;
  ufd_DeviceID : string;
  ufd_FileID : string;
  ufd_ChunkID : string;
}.

(** The zero value [&Token{}]. *)
Definition zero_token : Token :=
  {| tok_ResourceID := ""; tok_ResouceType := ""; tok_AccessToken := "";
     tok_RefreshToken := ""; tok_TokenType := ""; tok_UserID := None;
     tok_DeviceID := ""; tok_AccessExpiresAt := zero_time;
     tok_RefreshExpiresAt := zero_time; tok_CreatedAt := zero_time;
     tok_UpdatedAt := zero_time |}.

(** * core/users/user.go *)

Record User := {
  usr_ID : string;
  usr_Type : string;
  usr_Email : string;
  usr_HashedPassword : string;
  usr_CreatedAt : time;
  usr_UpdatedAt : time;
}.

(** * migrations/sqlite/schema.up.sql *)

Record DB := {
  db_file_metadatas : list FileMetadata;
  db_users : list User;
  db_user_files : list UserFile;
  db_tokens : list Token;
}.

Definition empty_db : DB :=
  {| db_file_metadatas := []; db_users := []; db_user_files := []; db_tokens := [] |}.

Definition with_file_metadatas (f : list FileMetadata → list FileMetadata) (d : DB) : DB :=
  {| db_file_metadatas := f (db_file_metadatas d); db_users := db_users d;
     db_user_files := db_user_files d; db_tokens := db_tokens d |}.

Definition with_users (f : list User → list User) (d : DB) : DB :=
  {| db_file_metadatas := db_file_metadatas d; db_users := f (db_users d);
     db_user_files := db_user_files d; db_tokens := db_tokens d |}.

Definition with_user_files (f : list UserFile → list UserFile) (d : DB) : DB :=
  {| db_file_metadatas := db_file_metadatas d; db_users := db_users d;
     db_user_files := f (db_user_files d); db_tokens := db_tokens d |}.

Definition with_tokens (f : list Token → list Token) (d : DB) : DB :=
  {| db_file_metadatas := db_file_metadatas d; db_users := db_users d;
     db_user_files := db_user_files d; db_tokens := f (db_tokens d) |}.

(** * CalculateChunks *)

Lemma quot_ceil a b :
  (0 < b)%Z →
  (if decide (a `quot` b * b < a)%Z then a `quot` b + 1 else a `quot` b)%Z
  = (- ((- a) `div` b))%Z.
Proof. intros ?. case_decide; Z.to_euclidean_division_equations; nia. Qed.

(** (C34) For every file size up to 2^53 - 2^22 in magnitude (about 9 PB) the
    floating-point computation of [CalculateChunks] gives the exact number of
    4 MB chunks, the size divided by [FrontendChunkSize] rounded up. *)
Theorem CalculateChunks_ceil (fileSize : Z) :
  (Z.abs fileSize ≤ 2 ^ 53 - FrontendChunkSize)%Z →
  CalculateChunks fileSize = (- ((- fileSize) `div` FrontendChunkSize))%Z.
Proof.
  unfold CalculateChunks. intros Hs.
  assert (HF : FrontendChunkSize = 4194304%Z) by done.
  rewrite (rne53_exact_le fileSize) by lia.
  rewrite (rne53_exact_le (fileSize `quot` FrontendChunkSize))
    by (rewrite HF in *; Z.to_euclidean_division_equations; lia).
  rewrite <- quot_ceil by (rewrite HF; lia).
  case_decide; [| done].
  rewrite rne53_exact_le by lia. rewrite HF in *.
  Z.to_euclidean_division_equations. nia.
Qed.

Lemma CalculateChunks_ceil_witness :
  (Z.abs 9437184 ≤ 2 ^ 53 - FrontendChunkSize)%Z ∧ CalculateChunks 9437184 = 3%Z.
Proof. split; [vm_compute; discriminate | by rewrite CalculateChunks_ceil]. Defined.

(** The cases of core/files/model_test.go. *)
Example CalculateChunks_tests :
  CalculateChunks (8 * 1024 * 1024) = 2%Z ∧
  CalculateChunks (9 * 1024 * 1024) = 3%Z ∧
  CalculateChunks (10 * 1024 * 1024) = 3%Z.
Proof. by vm_compute. Qed.

(** Above the bound the conversion to float64 loses the last byte: a file of
    2^53 + 1 bytes is given one chunk too few. *)
Example CalculateChunks_beyond :
  CalculateChunks (2 ^ 53 + 1) = (2 ^ 31)%Z ∧
  (- ((- (2 ^ 53 + 1)) `div` FrontendChunkSize) = 2 ^ 31 + 1)%Z.
Proof. by vm_compute. Qed.

(** The same computation on the executable IEEE-754 binary64 of the standard
    library, to check the fixed-point reading of [CalculateChunks] on
    concrete sizes, below and above the bound. *)
Definition f64 (z : Z) : spec_float := binary_normalize 53 1024 z 0 false.

Definition f64_trunc (x : spec_float) : Z :=
  match x with
  | S754_finite s m e =>
    let a := if decide (0 ≤ e)%Z then (Z.pos m * 2 ^ e)%Z else (Z.pos m `div` 2 ^ (- e))%Z in
    if s then (- a)%Z else a
  | _ => 0%Z
  end.

Definition CalculateChunks_binary64 (fileSize : Z) : Z :=
  let n_chunks := SFdiv 53 1024 (f64 fileSize) (f64 FrontendChunkSize) in
  let n_chunks :=
    if SFltb (f64 (f64_trunc n_chunks)) n_chunks
    then SFadd 53 1024 n_chunks (f64 1) else n_chunks in
  f64_trunc n_chunks.

Example CalculateChunks_agrees :
  Forall (λ z, CalculateChunks z = CalculateChunks_binary64 z)
    [0; 1; 4194303; 4194304; 4194305; 9437184; -1; -4194305; 2 ^ 53 - 4194304;
     2 ^ 53 - 1; 2 ^ 53 + 1; 2 ^ 53 + 3; 2 ^ 62 + 12345; 2 ^ 63 - 1; - 2 ^ 63;
     9007199250546689; 9007203544956929]%Z.
Proof. repeat constructor. Qed.
