(* ===== verification/World.v ===== *)
(** The world the program runs in and its external calls.

    The database, Redis, the file system, the clock and the random source are
    outside the repository.  What they hold is the state [World]; what they
    may do besides is the parameter [Env]: which of the numbered external
    calls fails and with what error, what the clock and the random source
    return, and the order [ORDER BY] gives to rows with equal keys.  Theorems
    quantify over [Env], so they cover every pattern of failures. *)
From S2P Require Import Prelude GoStd Model.
From Stdlib Require Import Ascii.

Class Env := {
  (** the error the n-th external call reports, if it fails *)
  fault : nat → option error;
  (** the clock at the n-th external event *)
  now_at : nat → time;
  (** the identifier [ulid.New] builds at the n-th external event *)
  ulid_at : nat → string;
  (** the bytes [rand.Read] delivers: event, length *)
  rand_at : nat → nat → string;
  (** [ORDER BY key DESC] on a list of rows *)
  order_desc : ∀ {A : Type}, (A → Z) → list A → list A;
  (** the order of the rows of a query without [ORDER BY] *)
  scan_order : ∀ {A : Type}, list A → list A;
  (** sqlx: the error of binding a statement with these parameter names to a
      map with these keys *)
  bind_named : list string → list string → option error;
  (** the condition [key operator value] of a dynamic [WHERE] on a row of
      file_metadatas: key, operator, value *)
  where_clause : string → string → string → FileMetadata → bool;
  (** Redis [RPUSH key element] on the lists of the server *)
  redis_rpush : string → string → gmap string (list string) → gmap string (list string);
  (** Redis [BLPOP key timeout]: the reply and the lists after it; [None] when
      the timeout passes with the list empty *)
  redis_blpop : string → gmap string (list string) →
    option (list string * gmap string (list string));
  (** [sha256.Sum256] *)
  sha256 : string → string;
  (** [bcrypt.GenerateFromPassword] at the n-th external event *)
  bcrypt_at : nat → string → string;
}.

(** The elements of a Redis list; a list that does not exist is empty. *)
Definition redis_list (s : gmap string (list string)) (key : string) : list string :=
  default [] (s !! key).

(** What the program relies on: the documented behaviour of the services and
    libraries. *)
Class EnvOk (E : Env) : Prop := {
  now_after_zero : ∀ n, (zero_time < now_at n)%Z;
  rand_length : ∀ n k, String.length (rand_at n k) = k;
  order_desc_perm : ∀ {A} (key : A → Z) l, order_desc key l ≡ₚ l;
  order_desc_sorted : ∀ {A} (key : A → Z) l, Sorted (λ x y, key y ≤ key x)%Z (order_desc key l);
  scan_order_perm : ∀ {A} (l : list A), scan_order l ≡ₚ l;
  bind_named_missing : ∀ params keys p,
    p ∈ params → p ∉ keys → is_Some (bind_named params keys);
  bind_named_all : ∀ params keys, params ⊆ keys → bind_named params keys = None;
  where_id : ∀ v m, where_clause "id" "=" v m = bool_decide (fm_ID m = v);
  where_upload_status : ∀ v m,
    where_clause "upload_status" "=" v m = bool_decide (fm_UploadStaus m = v);
  (** RPUSH appends at the tail *)
  rpush_list : ∀ k x s k', redis_list (redis_rpush k x s) k' =
    if decide (k = k') then redis_list s k ++ [x] else redis_list s k';
  (** BLPOP takes the head and replies with the key and the element *)
  blpop_empty : ∀ k s, redis_blpop k s = None ↔ redis_list s k = [];
  blpop_list : ∀ k s reply s', redis_blpop k s = Some (reply, s') →
    ∃ x, reply = [k; x] ∧ redis_list s k = x :: redis_list s' k ∧
         ∀ k', k' ≠ k → redis_list s' k' = redis_list s k';
}.

(** A Redis stream: its entries (identifier and message), and for each consumer
    group those that were not yet delivered to it. *)
Record RStream := {
  st_entries : list (string * string);
  st_groups : gmap string (list (string * string));
}.

Record World := {
  w_tick : nat;
  w_db : DB;
  w_redis : gmap string (list string);
  w_streams : gmap string RStream;
  w_cache : gmap string string;
  w_fs : gmap string string;
}.

Definition world_with_tick (n : nat) (w : World) : World :=
  {| w_tick := n; w_db := w_db w; w_redis := w_redis w; w_streams := w_streams w;
     w_cache := w_cache w; w_fs := w_fs w |}.

Definition world_with_db (d : DB) (w : World) : World :=
  {| w_tick := w_tick w; w_db := d; w_redis := w_redis w; w_streams := w_streams w;
     w_cache := w_cache w; w_fs := w_fs w |}.

Definition world_with_redis (r : gmap string (list string)) (w : World) : World :=
  {| w_tick := w_tick w; w_db := w_db w; w_redis := r; w_streams := w_streams w;
     w_cache := w_cache w; w_fs := w_fs w |}.

Definition world_with_streams (st : gmap string RStream) (w : World) : World :=
  {| w_tick := w_tick w; w_db := w_db w; w_redis := w_redis w; w_streams := st;
     w_cache := w_cache w; w_fs := w_fs w |}.

Definition world_with_cache (c : gmap string string) (w : World) : World :=
  {| w_tick := w_tick w; w_db := w_db w; w_redis := w_redis w; w_streams := w_streams w;
     w_cache := c; w_fs := w_fs w |}.

Definition world_with_fs (f : gmap string string) (w : World) : World :=
  {| w_tick := w_tick w; w_db := w_db w; w_redis := w_redis w; w_streams := w_streams w;
     w_cache := w_cache w; w_fs := f |}.

Definition empty_world : World :=
  {| w_tick := 0; w_db := empty_db; w_redis := ∅; w_streams := ∅; w_cache := ∅; w_fs := ∅ |}.

Definition tick (w : World) : World := world_with_tick (S (w_tick w)) w.

(** The statements of the program. *)
Definition Go (A : Type) : Type := M World A.

Section calls.
Context `{E : Env}.

(** One external call: it may fail. *)
Definition call : Go (option error) := λ w, (Ret (fault (w_tick w)), tick w).

(** [database.Now] *)
Definition Now : Go time := λ w, (Ret (now_at (w_tick w)), tick w).

(** [database.NewTimestamp]: both fields hold one reading of the clock. *)
Definition NewTimestamp : Go time := Now.

(** [database.NewID] *)
Definition NewID : Go (res string) :=
  now ← Now;
  err ← call;
  match err with
  | Some e => mret (Err e)
  | None => λ w, (Ret (Val (ulid_at (w_tick w))), tick w)
  end.

(** [rand.Read] of [n] bytes *)
Definition RandRead (n : nat) : Go (res string) :=
  err ← call;
  match err with
  | Some e => mret (Err e)
  | None => λ w, (Ret (Val (rand_at (w_tick w) n)), tick w)
  end.

(** ** The database handle

    A statement that fails leaves the tables as they were. *)
Definition db_exec (f : DB → DB) : Go (res unit) :=
  err ← call;
  match err with
  | Some e => mret (Err e)
  | None => modify (λ w, world_with_db (f (w_db w)) w);; mret (Val ())
  end.

Definition db_query {A} (f : DB → A) : Go (res A) :=
  err ← call;
  match err with
  | Some e => mret (Err e)
  | None => w ← get; mret (Val (f (w_db w)))
  end.

(** [for rows.Next() { err = rows.StructScan(dest) }]: each [Next] is a call of
    the driver, and an error of it ends the loop without being looked at; each
    [StructScan] delivers the row or an error. *)
Fixpoint rows_loop {A} (rows : list A) : Go (list (res A)) :=
  err ← call;
  match err, rows with
  | Some _, _ => mret []
  | None, [] => mret []
  | None, x :: rows' =>
    err ← call;
    rest ← rows_loop rows';
    mret (match err with Some e => Err e | None => Val x end :: rest)
  end.

(** The loop that returns at the first error of [StructScan]. *)
Fixpoint rows_scan {A} (rows : list A) : Go (res (list A)) :=
  err ← call;
  match err, rows with
  | Some _, _ => mret (Val [])
  | None, [] => mret (Val [])
  | None, x :: rows' =>
    err ← call;
    match err with
    | Some e => mret (Err e)
    | None =>
      rest ← rows_scan rows';
      mret (match rest with Err e => Err e | Val l => Val (x :: l) end)
    end
  end.

(** ** Redis lists *)

Definition RPush (key element : string) : Go (option error) :=
  err ← call;
  match err with
  | Some e => mret (Some e)
  | None => modify (λ w, world_with_redis (redis_rpush key element (w_redis w)) w);; mret None
  end.

(** [redis.Nil] is the error of an empty reply. *)
Definition redis_Nil : error := "redis: nil".

Definition BLPop (key : string) : Go (res (list string)) :=
  err ← call;
  match err with
  | Some e => mret (Err e)
  | None =>
    w ← get;
    match redis_blpop key (w_redis w) with
    | None => mret (Err redis_Nil)
    | Some (reply, s) => modify (world_with_redis s);; mret (Val reply)
    end
  end.

(** A transaction works on a copy of the tables ([_txlock=immediate]: writers
    exclude each other); [Commit] publishes the copy, a failed [Commit] and a
    [Rollback] drop it. *)
Definition BeginTxx : Go (res DB) := db_query id.

Definition tx_exec (tx : DB) (f : DB → DB) : Go (res DB) :=
  err ← call;
  match err with
  | Some e => mret (Err e)
  | None => mret (Val (f tx))
  end.

Definition Rollback (tx : DB) : Go unit := err ← call; mret ().

Definition Commit (tx : DB) : Go (res unit) := db_exec (λ _, tx).

End calls.

(** An environment for concrete runs: the failures and the clock are given. *)
Definition desc_insert {A} (key : A → Z) (x : A) : list A → list A :=
  fix go l := match l with
  | [] => [x]
  | y :: l' => if decide (key y ≤ key x)%Z then x :: l else y :: go l'
  end.

Definition sample_env (f : nat → option error) : Env :=
  {| fault := f;
     now_at n := (1000 + Z.of_nat n)%Z;
     ulid_at n := "ID" +:+ pretty n;
     rand_at n k := Nat.iter k (String "a"%char) "";
     order_desc A key := foldr (desc_insert key) [];
     scan_order A l := l;
     bind_named params keys :=
       if decide (params ⊆ keys) then None else Some "could not find name in map";
     where_clause key op v m :=
       if decide (op = "=") then
         if decide (key = "id") then bool_decide (fm_ID m = v)
         else if decide (key = "upload_status") then bool_decide (fm_UploadStaus m = v)
         else false
       else false;
     redis_rpush k x s := <[k := redis_list s k ++ [x]]> s;
     redis_blpop k s :=
       match redis_list s k with [] => None | x :: l => Some ([k; x], <[k := l]> s) end;
     sha256 s := s;
     bcrypt_at n s := "hash:" +:+ s |}.

Lemma desc_insert_perm {A} (key : A → Z) x l : desc_insert key x l ≡ₚ x :: l.
Proof.
  induction l as [|y l IH]; simpl; [done |]. case_decide; [done |].
  rewrite IH. apply Permutation_swap.
Qed.

Lemma desc_insert_sorted {A} (key : A → Z) x l :
  Sorted (λ x y, key y ≤ key x)%Z l → Sorted (λ x y, key y ≤ key x)%Z (desc_insert key x l).
Proof.
  induction 1 as [|y l Hl IH Hy]; simpl; [by repeat constructor |].
  case_decide; [by repeat constructor |].
  constructor; [done |]. destruct l as [|z l]; simpl; [constructor; lia |].
  inversion Hy; subst. case_decide; constructor; lia.
Qed.

Definition quiet_env : Env := sample_env (λ _, None).

#[global] Instance sample_env_ok f : EnvOk (sample_env f).
Proof.
  split.
  - intros n. change (0 < 1000 + Z.of_nat n)%Z. lia.
  - intros n k. simpl. by induction k as [|k IH]; simpl; [| rewrite IH].
  - intros A key l. simpl. induction l as [|x l IH]; simpl; [done |].
    by rewrite desc_insert_perm, IH.
  - intros A key l. simpl. induction l as [|x l IH]; simpl; [constructor |].
    by apply desc_insert_sorted.
  - done.
  - intros params keys p Hp Hk. simpl. rewrite decide_False by set_solver. by eexists.
  - intros params keys Hs. simpl. by rewrite decide_True.
  - done.
  - done.
  - intros k x s k'. simpl. unfold redis_list.
    case_decide; subst; [by rewrite lookup_insert_eq | by rewrite lookup_insert_ne].
  - intros k s. simpl. by destruct (redis_list s k).
  - intros k s reply s'. simpl. destruct (redis_list s k) as [|x l] eqn:Hl; [done |].
    intros [= <- <-]. exists x. unfold redis_list. rewrite lookup_insert_eq.
    split_and!; [done | done |]. intros k' ?. by rewrite lookup_insert_ne.
Qed.

(** No external call fails. *)
Definition no_fault `{E : Env} : Prop := ∀ n, fault n = None.

(** Closes the branch of a failed call when no call fails. *)
Ltac quiet :=
  repeat match goal with
  | Hf : ∀ n, fault n = None, H : fault _ = Some _ |- _ => by rewrite Hf in H
  | Hf : no_fault, H : fault _ = Some _ |- _ => by rewrite (Hf _) in H
  end.

(** [later w w']: only external events have passed from [w] to [w']. *)
Definition later (w w' : World) : Prop := ∃ n, w_tick w ≤ n ∧ w' = world_with_tick n w.

Lemma later_refl w : later w w.
Proof. exists (w_tick w). by destruct w. Qed.

Lemma later_trans w1 w2 w3 : later w1 w2 → later w2 w3 → later w1 w3.
Proof. intros (n & ? & ->) (m & ? & ->). exists m. simpl in *. split; [lia | done]. Qed.

Lemma later_db w w' : later w w' → w_db w' = w_db w.
Proof. by intros (n & _ & ->). Qed.

#[export] Hint Resolve later_refl : arbok.

Ltac later_subst :=
  repeat match goal with
  | H : later _ _ |- _ => let n := fresh "n" in let Hn := fresh "Hn" in
      destruct H as (n & Hn & ->); simpl in Hn
  end.

(** Proves [later w w'] for worlds built by events alone. *)
Ltac solve_later :=
  later_subst;
  lazymatch goal with
  | |- later ?w ?w => apply later_refl
  | |- later _ ?w' => exists (w_tick w'); split; [simpl in *; lia | reflexivity]
  end.

(** ** Rules for the calls *)
Section rules.
Context `{E : Env}.
Implicit Types w : World.

Lemma wp_call w Q :
  Q (Ret (fault (w_tick w))) (tick w) → wp call w Q.
Proof. done. Qed.

Lemma wp_Now w Q : Q (Ret (now_at (w_tick w))) (tick w) → wp Now w Q.
Proof. done. Qed.

Lemma wp_NewTimestamp w Q : Q (Ret (now_at (w_tick w))) (tick w) → wp NewTimestamp w Q.
Proof. done. Qed.

Lemma wp_NewID w Q :
  (∀ e, fault (S (w_tick w)) = Some e → Q (Ret (Err e)) (tick (tick w))) →
  (fault (S (w_tick w)) = None →
   Q (Ret (Val (ulid_at (S (S (w_tick w)))))) (tick (tick (tick w)))) →
  wp NewID w Q.
Proof.
  intros He Hv. unfold NewID. apply wp_bind, wp_Now, wp_bind, wp_call.
  cbv beta iota. change (w_tick (tick w)) with (S (w_tick w)).
  destruct (fault (S (w_tick w))); [by apply He | by apply Hv].
Qed.

Lemma wp_RandRead n w Q :
  (∀ e, fault (w_tick w) = Some e → Q (Ret (Err e)) (tick w)) →
  (fault (w_tick w) = None →
   Q (Ret (Val (rand_at (S (w_tick w)) n))) (tick (tick w))) →
  wp (RandRead n) w Q.
Proof.
  intros He Hv. unfold RandRead. apply wp_bind, wp_call. cbv beta iota.
  destruct (fault (w_tick w)); [by apply He | by apply Hv].
Qed.

Lemma wp_db_exec f w Q :
  (∀ e, fault (w_tick w) = Some e → Q (Ret (Err e)) (tick w)) →
  (fault (w_tick w) = None → Q (Ret (Val ())) (world_with_db (f (w_db w)) (tick w))) →
  wp (db_exec f) w Q.
Proof.
  intros He Hv. unfold db_exec. apply wp_bind, wp_call. cbv beta iota.
  destruct (fault (w_tick w)); [by apply He | by apply Hv].
Qed.

Lemma wp_db_query {A} (f : DB → A) w Q :
  (∀ e, fault (w_tick w) = Some e → Q (Ret (Err e)) (tick w)) →
  (fault (w_tick w) = None → Q (Ret (Val (f (w_db w)))) (tick w)) →
  wp (db_query f) w Q.
Proof.
  intros He Hv. unfold db_query. apply wp_bind, wp_call. cbv beta iota.
  destruct (fault (w_tick w)); [by apply He | by apply Hv].
Qed.

Lemma wp_BeginTxx w Q :
  (∀ e, fault (w_tick w) = Some e → Q (Ret (Err e)) (tick w)) →
  (fault (w_tick w) = None → Q (Ret (Val (w_db w))) (tick w)) →
  wp BeginTxx w Q.
Proof. apply (wp_db_query id). Qed.

Lemma wp_tx_exec tx f w Q :
  (∀ e, fault (w_tick w) = Some e → Q (Ret (Err e)) (tick w)) →
  (fault (w_tick w) = None → Q (Ret (Val (f tx))) (tick w)) →
  wp (tx_exec tx f) w Q.
Proof.
  intros He Hv. unfold tx_exec. apply wp_bind, wp_call. cbv beta iota.
  destruct (fault (w_tick w)); [by apply He | by apply Hv].
Qed.

Lemma wp_Commit tx w Q :
  (∀ e, fault (w_tick w) = Some e → Q (Ret (Err e)) (tick w)) →
  (fault (w_tick w) = None → Q (Ret (Val ())) (world_with_db tx (tick w))) →
  wp (Commit tx) w Q.
Proof. apply (wp_db_exec (λ _, tx)). Qed.

(** What the loop scans are rows of the query, and it changes nothing but the
    clock. *)
Lemma wp_rows_loop {A} (rows : list A) w (Q : ret (list (res A)) → World → Prop) :
  (∀ n l, w_tick w ≤ n → (∀ x, Val x ∈ l → x ∈ rows) → Q (Ret l) (world_with_tick n w)) →
  wp (rows_loop rows) w Q.
Proof.
  revert w Q. induction rows as [|x rows IH]; intros w Q HQ; simpl;
    apply wp_bind, wp_call; cbv beta iota; destruct (fault (w_tick w)).
  1-3: apply wp_ret; apply HQ; [lia | by intros ? ?%elem_of_nil].
  apply wp_bind, wp_call. cbv beta iota. apply wp_bind, IH. simpl. intros n l ? Hl.
  apply wp_ret. apply HQ; [lia |]. intros y [Hy|Hy]%elem_of_cons; [| right; auto].
  case_match; [done |]. injection Hy as ->. by left.
Qed.

(** Without driver errors the loop scans every row. *)
Lemma wp_rows_loop_quiet {A} (rows : list A) w (Q : ret (list (res A)) → World → Prop) :
  (∀ n, fault n = None) →
  Q (Ret (Val <$> rows)) (world_with_tick (w_tick w + S (2 * length rows)) w) →
  wp (rows_loop rows) w Q.
Proof.
  intros Hf. revert w Q. induction rows as [|x rows IH]; intros w Q HQ; simpl;
    apply wp_bind, wp_call; rewrite Hf; cbv beta iota.
  - apply wp_ret. simpl in HQ. by rewrite Nat.add_1_r in HQ.
  - apply wp_bind, wp_call. rewrite Hf. apply wp_bind, IH, wp_ret. simpl in *.
    replace (S (S (w_tick w + S (length rows + (length rows + 0)))))
      with (w_tick w + S (S (length rows + S (length rows + 0)))) by lia. done.
Qed.

(** The loop that stops returns a prefix of the rows, cut at an error of
    [Next], or an error of [StructScan]. *)
Lemma wp_rows_scan {A} (rows : list A) w (Q : ret (res (list A)) → World → Prop) :
  (∀ e w', later w w' → ¬ no_fault → Q (Ret (Err e)) w') →
  (∀ k w', later w w' → take k rows = rows ∨ ¬ no_fault → Q (Ret (Val (take k rows))) w') →
  wp (rows_scan rows) w Q.
Proof.
  revert w Q. induction rows as [|x rows IH]; intros w Q He Hv; simpl;
    apply wp_bind, wp_call; cbv beta iota; destruct (fault (w_tick w)) eqn:Hf.
  1-3: apply wp_ret; apply (Hv 0); [solve_later |]; try (by left); right; intros ?; quiet.
  apply wp_bind, wp_call. cbv beta iota. destruct (fault (w_tick (tick w))) eqn:Hf'.
  - apply wp_ret, He; [solve_later | intros ?; quiet].
  - apply wp_bind, IH.
    + intros e w' ? ?. apply wp_ret, He; [solve_later | done].
    + intros k w' ? Hk. apply wp_ret, (Hv (S k)); [solve_later |].
      destruct Hk as [Hk|]; [left; simpl; by rewrite Hk | by right].
Qed.

Lemma wp_RPush key x w Q :
  (∀ e, fault (w_tick w) = Some e → Q (Ret (Some e)) (tick w)) →
  (fault (w_tick w) = None →
    Q (Ret None) (world_with_redis (redis_rpush key x (w_redis w)) (tick w))) →
  wp (RPush key x) w Q.
Proof.
  intros He Hv. unfold RPush. apply wp_bind, wp_call. cbv beta iota.
  destruct (fault (w_tick w)); [by apply He | by apply Hv].
Qed.

Lemma wp_BLPop key w Q :
  (∀ e, fault (w_tick w) = Some e → Q (Ret (Err e)) (tick w)) →
  (fault (w_tick w) = None → redis_blpop key (w_redis w) = None →
    Q (Ret (Err redis_Nil)) (tick w)) →
  (∀ reply s, fault (w_tick w) = None → redis_blpop key (w_redis w) = Some (reply, s) →
    Q (Ret (Val reply)) (world_with_redis s (tick w))) →
  wp (BLPop key) w Q.
Proof.
  intros He Hn Hv. unfold BLPop. apply wp_bind, wp_call. cbv beta iota.
  destruct (fault (w_tick w)); [by apply He |]. apply wp_bind, wp_get.
  change (w_redis (tick w)) with (w_redis w).
  destruct (redis_blpop key (w_redis w)) as [[reply s]|] eqn:Hb; [by apply Hv | by apply Hn].
Qed.

Lemma wp_Rollback tx w Q : Q (Ret ()) (tick w) → wp (Rollback tx) w Q.
Proof. done. Qed.

End rules.

Ltac wp_prim ::=
  first
    [ apply wp_call | apply wp_Now | apply wp_NewTimestamp | apply wp_NewID
    | apply wp_RandRead | apply wp_BeginTxx | apply wp_Commit | apply wp_db_exec
    | apply wp_db_query | apply wp_tx_exec | apply wp_Rollback | apply wp_rows_loop | apply wp_rows_scan
    | apply wp_RPush | apply wp_BLPop ].

(** ** Database invariants

    A property of the tables that a statement keeps is kept by the calls. *)
Section keeps_db.
Context `{E : Env} (I : DB → Prop).

Definition on_db (w : World) : Prop := I (w_db w).

Lemma keeps_call : keeps on_db call.
Proof. by intros w. Qed.

Lemma keeps_Now : keeps on_db Now.
Proof. by intros w. Qed.

Lemma keeps_NewTimestamp : keeps on_db NewTimestamp.
Proof. by intros w. Qed.

Lemma keeps_NewID : keeps on_db NewID.
Proof. apply keeps_wp. intros w Hw. wp_go; done. Qed.

Lemma keeps_RandRead n : keeps on_db (RandRead n).
Proof. apply keeps_wp. intros w Hw. wp_go; done. Qed.

Lemma keeps_db_exec f : (∀ d, I d → I (f d)) → keeps on_db (db_exec f).
Proof. intros Hf. apply keeps_wp. intros w Hw. wp_go; [done | by apply Hf]. Qed.

Lemma keeps_db_query {A} (f : DB → A) : keeps on_db (db_query f).
Proof. apply keeps_wp. intros w Hw. wp_go; done. Qed.

Lemma keeps_rows_loop {A} (rows : list A) : keeps on_db (rows_loop rows).
Proof. apply keeps_wp. intros w Hw. by apply wp_rows_loop. Qed.

Lemma keeps_rows_scan {A} (rows : list A) : keeps on_db (rows_scan rows).
Proof.
  apply keeps_wp. intros w Hw. apply wp_rows_scan; unfold on_db in *.
  - by intros e w' ->%later_db.
  - by intros k w' ->%later_db.
Qed.

Lemma keeps_RPush key x : keeps on_db (RPush key x).
Proof. apply keeps_wp. intros w Hw. wp_go; done. Qed.

Lemma keeps_BLPop key : keeps on_db (BLPop key).
Proof. apply keeps_wp. intros w Hw. wp_go; done. Qed.

Lemma keeps_Rollback tx : keeps on_db (Rollback tx).
Proof. by intros w. Qed.

Lemma keeps_Commit tx : I tx → keeps on_db (Commit tx).
Proof. intros Htx. by apply keeps_db_exec. Qed.

End keeps_db.

#[export] Hint Resolve keeps_call keeps_Now keeps_NewTimestamp keeps_NewID
  keeps_RandRead keeps_db_query keeps_rows_loop keeps_rows_scan keeps_Rollback
  keeps_RPush keeps_BLPop : arbok.
