(* ===== verification/Squirtle.v ===== *)
(** Package pkg/squirtle: the query store.  [HydrateQueryStore] cuts a .sql
    file into named statements; the repositories look statements up by name. *)
From S2P Require Import Prelude GoStd.
From Stdlib Require Import Ascii.

Record QueryConfig := {
  qc_Table : string;
  qc_QueryFilePaths : list string;
}.

Definition QueryConfigStore := list QueryConfig.

(** [QueryMapper], a [map[string]string]. *)
Abbreviation QueryMapper := (gmap string string).

Definition GetQuery (qmap : QueryMapper) (queryName : string) : option string :=
  qmap !! queryName.

(** [Keys]: in the iteration order of the map. *)
Definition Keys `{MapRange} (qmap : QueryMapper) : list string := (range qmap).*1.

(** ** The regular expression [(?m)sql:([P<QueryName>\w]+)$]

    The bracket is a character class: word characters and the two angle
    brackets.  No character of the class is a line end, so the repetition is
    the longest run and [$] holds after it or nowhere. *)
Definition name_char (c : ascii) : bool :=
  let n := N_of_ascii c in
  bool_decide (48 ≤ n ≤ 57)%N || bool_decide (65 ≤ n ≤ 90)%N ||
  bool_decide (97 ≤ n ≤ 122)%N || bool_decide (n = 95)%N ||
  bool_decide (n = 60)%N || bool_decide (n = 62)%N.

Fixpoint name_span (s : string) : string * string :=
  match s with
  | "" => ("", "")
  | String c s' =>
    if name_char c then let '(a, b) := name_span s' in (String c a, b) else ("", s)
  end.

Definition at_line_end (s : string) : bool :=
  match s with
  | "" => true
  | String c _ => bool_decide (c = "010"%char)
  end.

(** A match that starts at the head of [s]: the captured name. *)
Definition match_here (s : string) : option string :=
  if HasPrefix s "sql:" then
    let '(name, rest) := name_span (sdrop 4 s) in
    if bool_decide (name ≠ "") && at_line_end rest then Some name else None
  else None.

(** [FindStringSubmatch]: the leftmost match. *)
Fixpoint find_name (s : string) : option string :=
  match match_here s with
  | Some name => Some name
  | None => match s with "" => None | String _ s' => find_name s' end
  end.

(** [ReplaceAllString(s, "")] *)
Fixpoint remove_names (skip : nat) (s : string) : string :=
  match s with
  | "" => ""
  | String c s' =>
    match skip with
    | S k => remove_names k s'
    | O => match match_here s with
           | Some name => remove_names (3 + String.length name) s'
           | None => String c (remove_names 0 s')
           end
    end
  end.

(** One section of the file, between two [--]. *)
Definition add_query (store : QueryMapper) (queryConfig : string) : QueryMapper :=
  match find_name queryConfig with
  | None => store
  | Some name => <[name := TrimSpace (remove_names 0 queryConfig)]> store
  end.

Definition parse_queries (queries : string) : QueryMapper :=
  foldl add_query ∅ (Split queries "--").

(** [HydrateQueryStore]; [readFile] is [os.ReadFile]. *)
Definition HydrateQueryStore (readFile : string → res string)
    (qs : QueryConfigStore) (tableName : string) : QueryMapper * option error :=
  match list_find (λ record, qc_Table record = tableName) qs with
  | None => (∅, Some "config for table not found")
  | Some (_, config) =>
    match qc_QueryFilePaths config with
    | [] => (∅, Some "missing query file. don't fool me")
    | path :: _ =>
      match readFile path with
      | Err e => (∅, Some e)
      | Val queries => (parse_queries queries, None)
      end
    end
  end.

(** ** Round trip *)

(** The layout of the .sql files: [--sql:Name], a line end, the statement. *)
Definition render_query (q : string * string) : string :=
  "--sql:" +:+ q.1 +:+ String "010" q.2.

Definition render_queries (l : list (string * string)) : string :=
  foldr (λ q acc, render_query q +:+ acc) "" l.

Fixpoint all_chars (p : ascii → bool) (s : string) : bool :=
  match s with "" => true | String c s' => p c && all_chars p s' end.

(** A statement that neither holds a section mark nor the text [sql:]. *)
Definition plain_body (b : string) : bool :=
  negb (Contains (b +:+ "-") "--") && negb (Contains b "sql:").

Definition plain_query (q : string * string) : bool :=
  bool_decide (q.1 ≠ "") && all_chars name_char q.1 && plain_body q.2.

(** Concatenation computes on its first argument. *)
Lemma app_cons c s t : String c s +:+ t = String c (s +:+ t).
Proof. done. Qed.

Lemma app_nil s : "" +:+ s = s.
Proof. done. Qed.

Lemma app_assoc_str s t u : (s +:+ t) +:+ u = s +:+ (t +:+ u).
Proof. induction s as [|c s IH]; [done |]. rewrite !app_cons. by rewrite IH. Qed.

Lemma app_empty s : s +:+ "" = s.
Proof. induction s as [|c s IH]; [done |]. by rewrite app_cons, IH. Qed.

Lemma Contains_cons c s sub :
  Contains (String c s) sub = String.prefix sub (String c s) || Contains s sub.
Proof. done. Qed.

Lemma prefix_cons a p c u :
  String.prefix (String a p) (String c u) = bool_decide (a = c) && String.prefix p u.
Proof. simpl. by destruct (ascii_dec a c); [rewrite bool_decide_true | rewrite bool_decide_false]. Qed.

Lemma prefix_nil u : String.prefix "" u = true.
Proof. by destruct u. Qed.

(** [Split] cuts at the next [--] and not before it. *)
Lemma Split_dashes s t :
  Contains (s +:+ "-") "--" = false →
  Split (s +:+ "--" +:+ t) "--" = s :: Split t "--".
Proof.
  unfold Split. induction s as [|c s IH]; intros Hs; [by destruct t |].
  rewrite app_cons in Hs. rewrite Contains_cons in Hs.
  apply orb_false_elim in Hs as [Hp Hs]. rewrite app_cons. cbn [split_go].
  assert (String.prefix "--" (String c (s +:+ "--" +:+ t)) = false) as ->.
  { rewrite prefix_cons in *. destruct s as [|d s].
    - change ("" +:+ "-") with "-" in Hp. change ("" +:+ "--" +:+ t) with ("--" +:+ t).
      rewrite app_cons. by rewrite prefix_cons, prefix_nil in *.
    - rewrite app_cons in Hp |- *. by rewrite prefix_cons, prefix_nil in *. }
  by rewrite IH.
Qed.

Lemma Split_dashes_last s : Contains s "--" = false → Split s "--" = [s].
Proof.
  unfold Split. induction s as [|c s IH]; [done |].
  rewrite Contains_cons. intros [Hp Hs]%orb_false_elim. cbn [split_go].
  by rewrite Hp, IH.
Qed.

Lemma prefix_app s t sub : String.prefix sub (s +:+ t) = false → String.prefix sub s = false.
Proof.
  revert sub. induction s as [|d s IH]; intros [|e sub]; try done.
  - by destruct (_ +:+ _).
  - rewrite app_cons. simpl. case_match; [| done]. apply IH.
Qed.

Lemma Contains_app_l s t sub : Contains (s +:+ t) sub = false → Contains s sub = false.
Proof.
  induction s as [|c s IH].
  - rewrite app_nil. destruct sub as [|d sub]; [by destruct t | done].
  - rewrite app_cons, !Contains_cons. intros [Hp Hs]%orb_false_elim.
    rewrite <- app_cons in Hp. by rewrite (prefix_app _ _ _ Hp), IH.
Qed.

(** The text of a section after its [--]. *)
Definition section_text (q : string * string) : string :=
  "sql:" +:+ q.1 +:+ String "010" q.2.

Lemma Contains_dashes_skip c s :
  c ≠ "-"%char → Contains (String c s) "--" = Contains s "--".
Proof. intros Hc. rewrite Contains_cons, prefix_cons, bool_decide_false by done. done. Qed.

Lemma name_char_dash c : name_char c = true → c ≠ "-"%char.
Proof. by intros ? ->. Qed.

Lemma Contains_dashes_name name s :
  all_chars name_char name = true → Contains (name +:+ s) "--" = Contains s "--".
Proof.
  induction name as [|c name IH]; [done |]. cbn [all_chars].
  intros [Hc Hn]%andb_prop. rewrite app_cons, Contains_dashes_skip by (by apply name_char_dash).
  by apply IH.
Qed.

Lemma Contains_dashes_section q s :
  all_chars name_char q.1 = true →
  Contains (section_text q +:+ s) "--" = Contains (q.2 +:+ s) "--".
Proof.
  intros Hq. unfold section_text. rewrite !app_assoc_str.
  rewrite !app_cons, app_nil, !Contains_dashes_skip by done.
  rewrite Contains_dashes_name, Contains_dashes_skip; done.
Qed.

Lemma name_span_app name c s :
  all_chars name_char name = true → name_char c = false →
  name_span (name +:+ String c s) = (name, String c s).
Proof.
  intros Hn Hc. induction name as [|d name IH].
  - rewrite app_nil. simpl. by rewrite Hc.
  - cbn [all_chars] in Hn. apply andb_prop in Hn as [Hd Hn]. rewrite app_cons.
    cbn [name_span]. by rewrite Hd, IH.
Qed.

Lemma match_here_section q :
  q.1 ≠ "" → all_chars name_char q.1 = true → match_here (section_text q) = Some q.1.
Proof.
  intros Hne Hq. unfold match_here.
  assert (HasPrefix (section_text q) "sql:" = true) as ->.
  { unfold section_text, HasPrefix. rewrite !app_cons, !prefix_cons. by rewrite prefix_nil. }
  change (sdrop 4 (section_text q)) with (q.1 +:+ String "010" q.2).
  rewrite name_span_app by done. by rewrite bool_decide_true.
Qed.

Lemma remove_names_skip p s :
  remove_names (String.length p) (p +:+ s) = remove_names 0 s.
Proof. induction p as [|c p IH]; [done |]. rewrite app_cons. cbn. apply IH. Qed.

Lemma remove_names_plain s : Contains s "sql:" = false → remove_names 0 s = s.
Proof.
  induction s as [|c s IH]; [done |]. rewrite Contains_cons.
  intros [Hp Hs]%orb_false_elim. cbn [remove_names]. unfold match_here, HasPrefix.
  by rewrite Hp, IH.
Qed.

Lemma remove_names_section q :
  q.1 ≠ "" → all_chars name_char q.1 = true → Contains q.2 "sql:" = false →
  remove_names 0 (section_text q) = String "010" q.2.
Proof.
  intros Hne Hq Hb.
  assert (Hm := match_here_section q Hne Hq). unfold section_text in *.
  rewrite app_cons in *. cbn [remove_names]. rewrite Hm.
  change (3 + String.length q.1) with (String.length ("ql:" +:+ q.1)).
  change ("ql:" +:+ q.1 +:+ String "010" q.2) with (("ql:" +:+ q.1) +:+ String "010" q.2).
  rewrite remove_names_skip. apply remove_names_plain.
  rewrite Contains_cons, Hb. by rewrite prefix_cons.
Qed.

Lemma add_query_section store q :
  plain_query q = true → add_query store (section_text q) = <[q.1 := TrimSpace q.2]> store.
Proof.
  unfold plain_query, plain_body.
  intros [[Hne%bool_decide_eq_true Hq]%andb_prop [_ Hb%negb_true_iff]%andb_prop]%andb_prop.
  unfold add_query.
  assert (find_name (section_text q) = Some q.1) as ->.
  { unfold section_text at 1. rewrite app_cons. cbn [find_name].
    assert (Hm := match_here_section q Hne Hq). unfold section_text in Hm.
    rewrite app_cons in Hm. by rewrite Hm. }
  by rewrite remove_names_section.
Qed.

Lemma Split_render l :
  forallb plain_query l = true →
  Split (render_queries l) "--" = "" :: (section_text <$> l).
Proof.
  intros Hl.
  assert (Hgen : ∀ l s, Contains (s +:+ "-") "--" = false → forallb plain_query l = true →
    Split (s +:+ render_queries l) "--" = s :: (section_text <$> l)).
  { clear. induction l as [|q l IH]; intros s Hs Hl; simpl.
    - rewrite app_empty. apply Split_dashes_last. by eapply Contains_app_l.
    - cbn [forallb] in Hl. apply andb_prop in Hl as [Hq Hl].
      change (render_query q) with ("--" +:+ section_text q).
      rewrite app_assoc_str, Split_dashes by done. rewrite IH; [done | | done].
      unfold plain_query, plain_body in Hq.
      apply andb_prop in Hq as [[_ Hq]%andb_prop [Hb%negb_true_iff _]%andb_prop].
      by rewrite Contains_dashes_section. }
  by apply (Hgen l "").
Qed.

Lemma foldl_add_query l store :
  forallb plain_query l = true →
  foldl add_query store (section_text <$> l)
  = foldl (λ st q, <[q.1 := TrimSpace q.2]> st) store l.
Proof.
  revert store. induction l as [|q l IH]; intros store; [done |]. cbn.
  intros [Hq Hl]%andb_prop. by rewrite add_query_section, IH.
Qed.

Lemma foldl_queries_lookup (l : list (string * string)) store k :
  k ∉ l.*1 →
  foldl (λ (st : QueryMapper) q, <[q.1 := TrimSpace q.2]> st) store l !! k = store !! k.
Proof.
  revert store. induction l as [|q l IH]; intros store Hk; [done |]. cbn in *.
  apply not_elem_of_cons in Hk as [Hne Hk]. by rewrite IH, lookup_insert_ne.
Qed.

(** (C35) Reading a query file gives back what was written in it: for a file
    in the documented layout, with distinct names and plain statements, every
    name is mapped to its statement with the surrounding blanks removed, and
    no other name is in the store. *)
Theorem parse_queries_roundtrip (l : list (string * string)) :
  forallb plain_query l = true → NoDup (l.*1) →
  (∀ q, q ∈ l → GetQuery (parse_queries (render_queries l)) q.1 = Some (TrimSpace q.2)) ∧
  (∀ name, name ∉ l.*1 → GetQuery (parse_queries (render_queries l)) name = None).
Proof.
  intros Hl Hnd. unfold GetQuery, parse_queries. rewrite Split_render by done.
  cbn [foldl]. change (add_query ∅ "") with (∅ : QueryMapper).
  rewrite foldl_add_query by done. split.
  - generalize (∅ : QueryMapper) as st. clear Hl.
    induction l as [|q' l IH]; intros st q Hq; [by apply not_elem_of_nil in Hq |].
    cbn in *. apply NoDup_cons in Hnd as [Hn Hnd].
    apply elem_of_cons in Hq as [-> | Hq]; [| by apply IH].
    rewrite foldl_queries_lookup by done. apply lookup_insert_eq.
  - intros name Hname. by rewrite foldl_queries_lookup.
Qed.

Lemma parse_queries_roundtrip_witness :
  let l := [("GetOne", "SELECT 1;" +:+ String "010" ""); ("GetTwo", "SELECT 2;")] in
  forallb plain_query l = true ∧ NoDup (l.*1) ∧
  GetQuery (parse_queries (render_queries l)) "GetOne" = Some "SELECT 1;".
Proof.
  intros l. assert (Hp : forallb plain_query l = true) by by vm_compute.
  assert (Hn : NoDup (l.*1)) by (by apply (bool_decide_unpack _); vm_compute).
  split_and!; [done | done |].
  apply (proj1 (parse_queries_roundtrip l Hp Hn) ("GetOne", "SELECT 1;" +:+ String "010" "")).
  by left.
Defined.
