(* ===== verification/Queries.v ===== *)
(** The .sql files of the repository, read by [HydrateQueryStore] at start. *)
From S2P Require Import Prelude GoStd Squirtle.

(** core/users/queries.sql *)
Definition users_sql : string := "--sql:CreateUserQuery

INSERT INTO users(
	id
	,user_type
	,email
	,hashedpass
	,created_at
	,updated_at
) VALUES (
	:id
	,:user_type
	,:email
	,:hashedpass
	,:created_at
	,:updated_at
);


--sql:GetUserByEmail

SELECT 
	id
	,user_type
	,email
	,hashedpass
FROM users
WHERE 
	email = :email AND 
	user_type = :user_type;

".

(** core/files/queries.metadata.sql *)
Definition metadata_sql : string := "--sql:CreateFileMetadata

INSERT INTO file_metadatas (
	id
	,prev_id
	,user_id
	,file_name
	,file_size
	,file_type
	,file_hash
	,chunks
	,current_flag
	,upload_status
	,created_at
	,updated_at
	,end_date
) VALUES (
	:id
	,:prev_id
	,:user_id
	,:file_name
	,:file_size
	,:file_type
	,:file_hash
	,:chunks
	,:current_flag
	,:upload_status
	,:created_at
	,:updated_at
	,:end_date
);

--sql:GetMetadataForUser

SELECT 
	id
	,user_id
	,file_name
	,file_size
	,file_type
	,file_hash
	,chunks
	,current_flag
	,created_at
FROM file_metadatas
WHERE
	user_id = :user_id
AND current_flag = 1
ORDER BY created_at DESC
LIMIT %d OFFSET %d;


--sql:GetFilesForUser

SELECT 
	fm.id
	,fm.prev_id
	,fm.user_id
	,fm.file_name
	,fm.file_size
	,fm.file_type
	,fm.file_hash
	,fm.chunks
	,fm.current_flag
	,fm.created_at
	,ufs.chunk_id
	,ufs.chunk_blob_url
	,ufs.chunk_hash
	,ufs.next_chunk_id
FROM file_metadatas fm
JOIN user_files ufs
ON
	ufs.file_id = fm.id
WHERE
	fm.user_id = :user_id
AND fm.current_flag = 1
ORDER BY fm.created_at DESC
LIMIT %d OFFSET %d;


--sql:UpdateCurrentFlag

UPDATE file_metadatas
SET
	current_flag = :current_flag
	,end_date = :end_date
	,upload_status = :upload_status
WHERE
	id = :id
%s;


--sql:FindByHash

SELECT COUNT(1) as found 
FROM file_metadatas 
WHERE file_hash = ?;


--sql:FindBy
SELECT 
	id
	,prev_id
	,user_id
	,file_name
	,file_size
	,file_type
	,file_hash
	,chunks
	,current_flag
	,upload_status
	,created_at
	,updated_at
	,end_date
FROM file_metadatas
WHERE %s;


--sql:SelectFilesForUser

SELECT 
	fm.id
	,fm.prev_id
	,fm.user_id
	,fm.file_name
	,fm.file_size
	,fm.file_type
	,fm.file_hash
	,fm.chunks
	,fm.current_flag
	,fm.created_at
	,fm.end_date
	,ufs.chunk_id
	,ufs.next_chunk_id
	,ufs.chunk_blob_url
	,ufs.chunk_hash
	,ufs.created_at
	,ufs.updated_at
FROM file_metadatas fm
JOIN user_files ufs
ON
	ufs.file_id = fm.id
WHERE fm.id IN (?)
ORDER BY fm.created_at DESC
".

(** core/files/user_files.queries.sql *)
Definition user_files_sql : string := "--sql:CreateFileChunk

INSERT INTO user_files (
	user_id
	,file_id
	,chunk_id
	,next_chunk_id
	,chunk_blob_url
	,chunk_hash
	,created_at
	,updated_at
) VALUES (
	:user_id
	,:file_id
	,:chunk_id
	,:next_chunk_id
	,:chunk_blob_url
	,:chunk_hash
	,:created_at
	,:updated_at
);

--sql:GetChunkForFile
SELECT 
	user_id
	,chunk_id
	,next_chunk_id
	,chunk_blob_url
	,chunk_hash
	,created_at
	,updated_at
FROM user_files
WHERE file_id = :file_id
AND chunk_id = :chunk_id;


--sql:GetFileChunks

SELECT 
	user_id
	,chunk_id
	,next_chunk_id
	,chunk_blob_url
	,chunk_hash
	,created_at
	,updated_at
FROM user_files
WHERE file_id = :file_id
ORDER BY created_at  DESC;

--sql:GetFilesChunks

SELECT 
	user_id
	,chunk_id
	,next_chunk_id
	,chunk_blob_url
	,chunk_hash
	,created_at
	,updated_at
FROM user_files
WHERE file_id IN (:file_ids)
ORDER BY chunk_id DESC;
".

(** core/tokens/queries.sql *)
Definition tokens_sql : string := "--sql:CreateToken

INSERT INTO tokens (
	resource_id
	,resource_type
	,token_type
	,user_id
	,access_token
	,refresh_token
	,access_expires_at
	,refresh_expires_at
	,created_at
	,updated_at
) VALUES (
	:resource_id
	,:resource_type
	,:token_type
	,:user_id
	,:access_token
	,:refresh_token
	,:access_expires_at
	,:refresh_expires_at
	,:created_at
	,:updated_at
);

--sql:GetAccessToken

SELECT
	resource_id
	,resource_type
	,token_type
	,user_id
	,access_token
	,refresh_token
	,access_expires_at
	,refresh_expires_at
	,created_at
	,updated_at
FROM tokens
WHERE access_token = :access_token
AND resource_id = :resource_id
AND resource_type = :resource_type
LIMIT 1;

--sql:GetStreamToken

SELECT
	resource_id
	,resource_type
	,token_type
	,user_id
	,access_token
	,refresh_token
	,access_expires_at
	,refresh_expires_at
	,created_at
	,updated_at
FROM tokens
WHERE access_token = :access_token
AND resource_id = :resource_id
AND user_id = :user_id
AND resource_type = :resource_type
LIMIT 1;

".

(** config/querystore.yaml *)
Definition querystore : QueryConfigStore :=
  [ {| qc_Table := "users"; qc_QueryFilePaths := ["./core/users/queries.sql"] |};
    {| qc_Table := "file_metadatas"; qc_QueryFilePaths := ["./core/files/queries.metadata.sql"] |};
    {| qc_Table := "user_files"; qc_QueryFilePaths := ["./core/files/user_files.queries.sql"] |};
    {| qc_Table := "tokens"; qc_QueryFilePaths := ["./core/tokens/queries.sql"] |} ].

(** [os.ReadFile] in the repository's directory. *)
Definition repo_files (path : string) : res string :=
  if decide (path = "./core/users/queries.sql") then Val users_sql
  else if decide (path = "./core/files/queries.metadata.sql") then Val metadata_sql
  else if decide (path = "./core/files/user_files.queries.sql") then Val user_files_sql
  else if decide (path = "./core/tokens/queries.sql") then Val tokens_sql
  else Err "no such file or directory".

Definition metadataQueryStore : QueryMapper := (HydrateQueryStore repo_files querystore "file_metadatas").1.
Definition chunkQs : QueryMapper := (HydrateQueryStore repo_files querystore "user_files").1.
Definition tokensQs : QueryMapper := (HydrateQueryStore repo_files querystore "tokens").1.
Definition usersQs : QueryMapper := (HydrateQueryStore repo_files querystore "users").1.

(** ** Statement names

    core/files/repository.go, core/files/userfiles.service.go,
    core/tokens/service.go and core/users/service.go. *)
Definition CreateFileMetadataStmt : string := "CreateFileMetadata".
Definition GetFilesForUserStmt : string := "GetFilesForUser".
Definition UpdateCurrentFlagStmt : string := "UpdateCurrentFlag".
Definition FindByHashStmt : string := "FindByHash".
Definition SelectFilesForUserStmt : string := "SelectFilesForUser".
Definition FindByStmt : string := "FindBy".
Definition CreateFileChunkStmt : string := "CreateFileChunk".
Definition GetFileChunksStmt : string := "GetFileChunks".
Definition GetChunkForFileStmt : string := "GetChunkForFile".
Definition CreateTokenStmt : string := "CreateToken".
Definition GetAccessTokenStmt : string := "GetAccessToken".
Definition GetStreamTokenStmt : string := "GetStreamToken".
Definition CreateUserQueryKey : string := "CreateUserQuery".

(** [has_query q name]: the lookup that guards every statement succeeds. *)
Definition has_query (q : QueryMapper) (name : string) : Prop := is_Some (GetQuery q name).

#[global] Instance has_query_dec q name : Decision (has_query q name).
Proof. unfold has_query. apply _. Defined.

Lemma has_query_none q name : GetQuery q name = None → ¬ has_query q name.
Proof. unfold has_query. intros -> [? ?]. done. Qed.

(** The statements each store has to provide to the repositories built on it
    in cmd/server/main.go and core/workers/metadata.reconciler.go. *)
Definition store_provides (q : QueryMapper) (names : list string) : bool :=
  bool_decide (Forall (has_query q) names).

(** The stores hydrated from the repository's own configuration and .sql
    files hold every statement the repositories look up, so none of the
    statement-not-found branches is reachable in the shipped program; a table
    that is not configured is an error. *)
Theorem hydrated_stores_complete :
  store_provides metadataQueryStore
    [CreateFileMetadataStmt; GetFilesForUserStmt; UpdateCurrentFlagStmt;
     FindByHashStmt; SelectFilesForUserStmt; FindByStmt] = true ∧
  store_provides chunkQs [CreateFileChunkStmt; GetFileChunksStmt; GetChunkForFileStmt] = true ∧
  store_provides tokensQs [CreateTokenStmt; GetAccessTokenStmt; GetStreamTokenStmt] = true ∧
  store_provides usersQs [CreateUserQueryKey] = true ∧
  (∀ table, table ∉ ["users"; "file_metadatas"; "user_files"; "tokens"] →
    (HydrateQueryStore repo_files querystore table).2 = Some "config for table not found").
Proof.
  split_and!; [by vm_compute.. |].
  intros table Ht. unfold HydrateQueryStore, querystore.
  rewrite !not_elem_of_cons in Ht. destruct Ht as (?&?&?&?&_).
  cbn. rewrite !decide_False by done. done.
Qed.
