(* ===== verification/Tokens.v ===== *)
(** Package core/tokens: access and stream tokens, how they are made, stored
    and looked up (token.go, service.go, stubs.go, queries.sql). *)
From S2P Require Import Prelude GoStd Model World Squirtle Queries.

(** * token.go *)

Definition nanos_per_minute : Z := (60 * 1000000000)%Z.
Definition AccessExpiryDuration : Z := (24 * 60 * nanos_per_minute)%Z.
Definition ShortExpiryDuration : Z := (20 * nanos_per_minute)%Z.
Definition LongExpiryDuration : Z := (30 * 24 * 60 * nanos_per_minute)%Z.

Definition ResourceTypeUser : string := "user".
Definition ResourceTypeStream : string := "stream".

Definition ErrTokenValidationFailed : error := "validation_failed".
Definition ErrTokenNotFound : error := "token_not_found".
Definition ErrTokenExpired : error := "token_expired:2007:410".
Definition ErrStatmentNotFound : error := "stmt_not_found:2008:500".

Definition ValidateResourceType (resourceType : string) : bool :=
  bool_decide (resourceType = ResourceTypeUser) || bool_decide (resourceType = ResourceTypeStream).

(** [t.Before(u)] *)
Definition Before (t u : time) : bool := bool_decide (t < u)%Z.

Section tokens.
Context `{E : Env}.

Definition HasAccessExpired (token : Token) : Go bool :=
  now ← Now; mret (Before (tok_AccessExpiresAt token) now).

(** The second clock is read only when the first test fails. *)
Definition IsExpired (token : Token) : Go bool :=
  access ← HasAccessExpired token;
  match access with
  | true => mret true
  | false => now ← Now; mret (Before (tok_RefreshExpiresAt token) now)
  end.

Definition GenerateToken (tokenLen : nat) : Go (res string) :=
  r ← RandRead tokenLen;
  match r with
  | Err e => mret (Err e)
  | Val b => mret (Val (EncodeToString b))
  end.

(** A [TokenOpts] changes the token under construction. *)
Definition TokenOpts := Token → Go Token.

Definition set_access_expiry (t : time) (token : Token) : Token :=
  {| tok_ResourceID := tok_ResourceID token; tok_ResouceType := tok_ResouceType token;
     tok_AccessToken := tok_AccessToken token; tok_RefreshToken := tok_RefreshToken token;
     tok_TokenType := tok_TokenType token; tok_UserID := tok_UserID token;
     tok_DeviceID := tok_DeviceID token; tok_AccessExpiresAt := t;
     tok_RefreshExpiresAt := tok_RefreshExpiresAt token;
     tok_CreatedAt := tok_CreatedAt token; tok_UpdatedAt := tok_UpdatedAt token |}.

Definition set_user_id (userID : option string) (token : Token) : Token :=
  {| tok_ResourceID := tok_ResourceID token; tok_ResouceType := tok_ResouceType token;
     tok_AccessToken := tok_AccessToken token; tok_RefreshToken := tok_RefreshToken token;
     tok_TokenType := tok_TokenType token; tok_UserID := userID;
     tok_DeviceID := tok_DeviceID token; tok_AccessExpiresAt := tok_AccessExpiresAt token;
     tok_RefreshExpiresAt := tok_RefreshExpiresAt token;
     tok_CreatedAt := tok_CreatedAt token; tok_UpdatedAt := tok_UpdatedAt token |}.

Definition set_device_id (deviceID : string) (token : Token) : Token :=
  {| tok_ResourceID := tok_ResourceID token; tok_ResouceType := tok_ResouceType token;
     tok_AccessToken := tok_AccessToken token; tok_RefreshToken := tok_RefreshToken token;
     tok_TokenType := tok_TokenType token; tok_UserID := tok_UserID token;
     tok_DeviceID := deviceID; tok_AccessExpiresAt := tok_AccessExpiresAt token;
     tok_RefreshExpiresAt := tok_RefreshExpiresAt token;
     tok_CreatedAt := tok_CreatedAt token; tok_UpdatedAt := tok_UpdatedAt token |}.

(** Unused; applied after the check of [NewToken], it would put any type there. *)
Definition WithResource (resourceID resourceType : string) : TokenOpts := λ t,
  mret {| tok_ResourceID := resourceID; tok_ResouceType := resourceType;
          tok_AccessToken := tok_AccessToken t; tok_RefreshToken := tok_RefreshToken t;
          tok_TokenType := tok_TokenType t; tok_UserID := tok_UserID t;
          tok_DeviceID := tok_DeviceID t; tok_AccessExpiresAt := tok_AccessExpiresAt t;
          tok_RefreshExpiresAt := tok_RefreshExpiresAt t;
          tok_CreatedAt := tok_CreatedAt t; tok_UpdatedAt := tok_UpdatedAt t |}.

Definition WithShortExpiry : TokenOpts := λ token,
  now ← Now; mret (set_access_expiry (now + ShortExpiryDuration)%Z token).

Definition WithDefaultExpiry : TokenOpts := λ token,
  now ← Now; mret (set_access_expiry (now + AccessExpiryDuration)%Z token).

Definition WithUserID (userID : option string) : TokenOpts := λ token,
  mret (set_user_id userID token).

Fixpoint apply_opts (opts : list TokenOpts) (token : Token) : Go Token :=
  match opts with
  | [] => mret token
  | opt :: opts => token ← opt token; apply_opts opts token
  end.

Definition NewToken (resourceID resourceType : string) (opts : list TokenOpts) : Go (res Token) :=
  let resourceType := ToLower resourceType in
  if negb (ValidateResourceType resourceType) then mret (Err ErrTokenValidationFailed)
  else
    access ← GenerateToken 32;
    match access with
    | Err e => mret (Err e)
    | Val accessToken =>
      refresh ← GenerateToken 64;
      match refresh with
      | Err e => mret (Err e)
      | Val refreshToken =>
        now ← Now;
        created ← NewTimestamp;
        token ← apply_opts opts
          {| tok_ResourceID := resourceID; tok_ResouceType := resourceType;
             tok_AccessToken := accessToken; tok_RefreshToken := refreshToken;
             tok_TokenType := ""; tok_UserID := None; tok_DeviceID := "";
             tok_AccessExpiresAt := zero_time;
             tok_RefreshExpiresAt := (now + LongExpiryDuration)%Z;
             tok_CreatedAt := created; tok_UpdatedAt := created |};
        mret (Val token)
      end
    end.

(** * queries.sql *)

(** CreateToken; the device is not a column of the table. *)
Definition sql_CreateToken (token : Token) : DB → DB :=
  with_tokens (λ rows, rows ++ [set_device_id "" token]).

(** The parameter names of GetStreamToken. *)
Definition GetStreamToken_params : list string :=
  ["access_token"; "resource_id"; "user_id"; "resource_type"].

(** The [WHERE] of GetStreamToken; a comparison with NULL is not true. *)
Definition stream_token_row (access resource : string) (user : option string)
    (type : string) (t : Token) : Prop :=
  tok_AccessToken t = access ∧ tok_ResourceID t = resource ∧
  user ≠ None ∧ tok_UserID t = user ∧ tok_ResouceType t = type.

#[global] Instance stream_token_row_dec access resource user type t :
  Decision (stream_token_row access resource user type t).
Proof. unfold stream_token_row. apply _. Defined.

Definition sql_GetStreamToken (access resource : string) (user : option string)
    (type : string) (d : DB) : list Token :=
  take 1 (scan_order (filter (stream_token_row access resource user type) (db_tokens d))).

(** * service.go *)

Record FindByClause := {
  fbc_AccessToken : string;
  fbc_StreamToken : string;
  fbc_ResourceID : string;
  fbc_ResourceType : string;
  fbc_UserID : option string;
  fbc_TestMode : bool;
}.

(** stubs.go: the two built-in tokens, valid for an hour from [boot], the time
    the process started. *)
Definition stub_token (boot : time) (id access refresh device : string) : Token :=
  {| tok_ResourceID := id; tok_ResouceType := "user"; tok_AccessToken := access;
     tok_RefreshToken := refresh; tok_TokenType := "user"; tok_UserID := None;
     tok_DeviceID := device;
     tok_AccessExpiresAt := (boot + 60 * nanos_per_minute)%Z;
     tok_RefreshExpiresAt := (boot + 5 * 60 * nanos_per_minute)%Z;
     tok_CreatedAt := boot; tok_UpdatedAt := boot |}.

(** The source reads the clock once per field while the package is initialised;
    here all of them are [boot]. *)
Definition AdminToken (boot : time) : Token :=
  stub_token boot "U11223455" "trial_access_token" "trial_refresh_token" "1".

Definition AnotherToken (boot : time) : Token :=
  stub_token boot "U11223456" "trial_access_token_1" "trial_refresh_token_1" "2".

(** Two stream tokens that nothing uses. *)
Definition StreamToken (boot : time) : Token :=
  {| tok_ResourceID := "S11223455"; tok_ResouceType := "stream";
     tok_AccessToken := "trial_stream_access_token";
     tok_RefreshToken := "trial_stream_refresh_token"; tok_TokenType := "stream";
     tok_UserID := Some (tok_ResourceID (AdminToken boot)); tok_DeviceID := "1";
     tok_AccessExpiresAt := (boot + 60 * nanos_per_minute)%Z;
     tok_RefreshExpiresAt := (boot + 5 * 60 * nanos_per_minute)%Z;
     tok_CreatedAt := boot; tok_UpdatedAt := boot |}.

Definition InvalidStreamToken (boot : time) : Token :=
  {| tok_ResourceID := "S11223455"; tok_ResouceType := "stream";
     tok_AccessToken := "trial_stream_access_token_invalid";
     tok_RefreshToken := "trial_stream_refresh_token_invalid"; tok_TokenType := "stream";
     tok_UserID := None; tok_DeviceID := "";
     tok_AccessExpiresAt := (boot - 60 * nanos_per_minute)%Z;
     tok_RefreshExpiresAt := (boot + 5 * 60 * nanos_per_minute)%Z;
     tok_CreatedAt := boot; tok_UpdatedAt := boot |}.

(** As its name says: from the start of the process on, its access has expired. *)
Lemma InvalidStreamToken_expired boot now :
  (boot ≤ now)%Z → Before (tok_AccessExpiresAt (InvalidStreamToken boot)) now = true.
Proof.
  intros H. unfold Before, InvalidStreamToken, nanos_per_minute. apply bool_decide_eq_true_2.
  simpl. lia.
Qed.

Section repository.
Context (boot : time) (querier : QueryMapper).

Fixpoint test_mode_loop (allowedTokens : list Token) (clause : FindByClause) : Go (res Token) :=
  match allowedTokens with
  | [] => mret (Err ErrTokenNotFound)
  | token :: rest =>
    expired ← IsExpired token;
    match expired with
    | true => mret (Err ErrTokenExpired)
    | false =>
      if bool_decide (tok_AccessToken token = fbc_AccessToken clause) then mret (Val token)
      else test_mode_loop rest clause
    end
  end.

Definition findByTestMode (clause : FindByClause) : Go (res Token) :=
  test_mode_loop [AdminToken boot; AnotherToken boot] clause.

(** What both lookups do with the rows of GetStreamToken: the last row scanned
    overwrites [&Token{}] or leaves its error, and without an error the expiry
    is tested on whatever is there. *)
Definition scan_token (rows : list Token) : Go (res Token) :=
  results ← rows_loop rows;
  match last results with
  | Some (Err e) => mret (Err e)
  | Some (Val token) =>
    expired ← HasAccessExpired token;
    mret (match expired with true => Err ErrTokenExpired | false => Val token end)
  | None =>
    expired ← HasAccessExpired zero_token;
    mret (match expired with true => Err ErrTokenExpired | false => Val zero_token end)
  end.

Definition FindByAccessToken (clause : FindByClause) : Go (res Token) :=
  if fbc_TestMode clause then findByTestMode clause
  else match GetQuery querier GetStreamTokenStmt with
  | None => mret (Err ErrStatmentNotFound)
  | Some _ =>
    match bind_named GetStreamToken_params ["access_token"; "resource_id"; "resource_type"] with
    | Some e => mret (Err e)
    | None =>
      rows ← db_query (sql_GetStreamToken (fbc_AccessToken clause) (fbc_ResourceID clause)
                         None "user");
      match rows with
      | Err e => mret (Err e)
      | Val rows => scan_token rows
      end
    end
  end.

Definition FindByStreamToken (clause : FindByClause) : Go (res Token) :=
  match GetQuery querier GetStreamTokenStmt with
  | None => mret (Err ErrStatmentNotFound)
  | Some _ =>
    match bind_named GetStreamToken_params
            ["access_token"; "resource_id"; "resource_type"; "user_id"] with
    | Some e => mret (Err e)
    | None =>
      rows ← db_query (sql_GetStreamToken (fbc_StreamToken clause) (fbc_ResourceID clause)
                         (fbc_UserID clause) "stream");
      match rows with
      | Err e => mret (Err e)
      | Val rows => scan_token rows
      end
    end
  end.

Definition CreateSession (resourceID resourceType : string) (userID : option string) :
    Go (res Token) :=
  r ← NewToken resourceID resourceType [WithUserID userID; WithDefaultExpiry];
  match r with
  | Err _ => mret (Err "token_create_failed:3001:500")
  | Val token =>
    match GetQuery querier CreateTokenStmt with
    | None => mret (Err ErrStatmentNotFound)
    | Some _ =>
      r ← db_exec (sql_CreateToken token);
      match r with
      | Err _ => mret (Err "token_create_failed:3002:500")
      | Val _ => mret (Val token)
      end
    end
  end.

End repository.
End tokens.

(** * Lemmas *)

Section token_lemmas.
Context `{E : Env} {EO : EnvOk E}.
Implicit Types w : World.

(** A token made by [NewToken] with the options of the file services: it names
    the resource and the user, its two secrets are 32 and 64 random bytes in
    hexadecimal, and it expires a day after a reading of the clock. *)
Record stream_token_for (resourceID : string) (user : option string) (t : Token) : Prop := {
  stf_resource : tok_ResourceID t = resourceID;
  stf_type : tok_ResouceType t = ResourceTypeStream;
  stf_user : tok_UserID t = user;
  stf_access : String.length (tok_AccessToken t) = 64;
  stf_refresh : String.length (tok_RefreshToken t) = 128;
  stf_expiry : ∃ n, tok_AccessExpiresAt t = (now_at n + AccessExpiryDuration)%Z;
  stf_device : tok_DeviceID t = "";
}.

Lemma wp_NewToken_stream id user w (Q : ret (res Token) → World → Prop) :
  (∀ e w', later w w' → ¬ no_fault → Q (Ret (Err e)) w') →
  (∀ t w', later w w' → stream_token_for id user t → Q (Ret (Val t)) w') →
  wp (NewToken id ResourceTypeStream [WithDefaultExpiry; WithUserID user]) w Q.
Proof.
  intros He Hv. unfold NewToken.
  change (negb (ValidateResourceType (ToLower ResourceTypeStream))) with false. cbv iota zeta.
  unfold GenerateToken, apply_opts, WithDefaultExpiry, WithUserID. wp_go; simplify_eq.
  1-2: apply He; [solve_later | intros ?; quiet].
  apply Hv; [solve_later |].
  split; simpl; rewrite ?EncodeToString_length, ?rand_length; eauto.
Qed.

(** A lookup that succeeds returns a row that was among those given to it and
    has not expired: when no row came, the zero token is always expired. *)
Lemma wp_scan_token rows w (Q : ret (res Token) → World → Prop) :
  (∀ e w', later w w' → Q (Ret (Err e)) w') →
  (∀ t n w', later w w' → t ∈ rows → w_tick w ≤ n < w_tick w' →
    (now_at n ≤ tok_AccessExpiresAt t)%Z → Q (Ret (Val t)) w') →
  wp (scan_token rows) w Q.
Proof.
  intros He Hv. unfold scan_token. apply wp_bind, wp_rows_loop. intros n l Hn Hl.
  unfold HasAccessExpired, Before. wp_go; simpl.
  - case_bool_decide as Hb; [apply He; solve_later |].
    apply (Hv a n); [solve_later | | simpl; lia | lia]. apply Hl.
    match goal with H : last _ = Some (Val _) |- _ => apply last_Some in H as [l' ->] end.
    apply elem_of_app. right. by left.
  - apply He; solve_later.
  - pose proof (now_after_zero n). unfold zero_time in *.
    rewrite bool_decide_true by done. apply He; solve_later.
Qed.

Lemma elem_of_sql_GetStreamToken access resource user type d t :
  t ∈ sql_GetStreamToken access resource user type d →
  t ∈ db_tokens d ∧ stream_token_row access resource user type t.
Proof.
  unfold sql_GetStreamToken. intros Ht%elem_of_take.
  destruct Ht as (i & Ht & _). apply list_elem_of_lookup_2 in Ht.
  rewrite scan_order_perm in Ht. apply list_elem_of_filter in Ht. tauto.
Qed.

End token_lemmas.

(** * Looking tokens up *)

(** (C20) A stream token is accepted only on the strength of a row of the
    tokens table that carries the same secret, file and user, has the type
    "stream", and had not expired at a clock reading made during the lookup;
    the lookup changes no table.  In particular a lookup that finds no row,
    which the code does not test for, is refused. *)
Theorem FindByStreamToken_sound `{E : Env} {EO : EnvOk E} querier clause w tok w' :
  FindByStreamToken querier clause w = (Ret (Val tok), w') →
  tok ∈ db_tokens (w_db w) ∧
  tok_AccessToken tok = fbc_StreamToken clause ∧
  tok_ResourceID tok = fbc_ResourceID clause ∧
  (∃ u, fbc_UserID clause = Some u ∧ tok_UserID tok = Some u) ∧
  tok_ResouceType tok = ResourceTypeStream ∧
  (∃ n, w_tick w ≤ n < w_tick w' ∧ (now_at n ≤ tok_AccessExpiresAt tok)%Z) ∧
  w_db w' = w_db w.
Proof.
  intros Hrun.
  apply (wp_run _ _ _ _ (λ r w', r = Ret (Val tok) → _) Hrun); [| done].
  unfold FindByStreamToken. wp_step; [| by wp_go]. wp_step; [by wp_go |].
  wp_go; [done |]. apply wp_scan_token; [done |].
  intros t n w1 Hw1%later_db Ht Hn Hexp [= ->].
  apply elem_of_sql_GetStreamToken in Ht as (Ht & Ha & Hr & Hu & Hu' & Hty).
  split_and!; try done.
  - destruct (fbc_UserID clause) as [u|]; [eauto | done].
  - exists n. simpl in *. split; [lia | done].
Qed.

(** A run for concrete examples: one stream token in the table. *)
Definition sample_token : Token :=
  {| tok_ResourceID := "F1"; tok_ResouceType := "stream"; tok_AccessToken := "s3cret";
     tok_RefreshToken := "r"; tok_TokenType := ""; tok_UserID := Some "U11223455";
     tok_DeviceID := ""; tok_AccessExpiresAt := 5000%Z; tok_RefreshExpiresAt := 9000%Z;
     tok_CreatedAt := 10%Z; tok_UpdatedAt := 10%Z |}.

Definition sample_clause : FindByClause :=
  {| fbc_AccessToken := "trial_access_token"; fbc_StreamToken := "s3cret";
     fbc_ResourceID := "F1"; fbc_ResourceType := "stream";
     fbc_UserID := Some "U11223455"; fbc_TestMode := true |}.

Definition token_world : World :=
  world_with_db (with_tokens (λ _, [sample_token]) empty_db) empty_world.

Lemma FindByStreamToken_sound_witness :
  let E := quiet_env in
  ∃ w', FindByStreamToken (E := E) tokensQs sample_clause token_world
        = (Ret (Val sample_token), w') ∧
        sample_token ∈ db_tokens (w_db token_world).
Proof.
  intros E. eexists. split; [by vm_compute |].
  by eapply (FindByStreamToken_sound (E := E) tokensQs sample_clause token_world);
    vm_compute.
Defined.

(** The bindings FindByStreamToken provides are the parameters of the
    statement; those of FindByAccessToken lack [user_id]. *)
Lemma bind_stream `{E : Env} {EO : EnvOk E} :
  bind_named GetStreamToken_params ["access_token"; "resource_id"; "resource_type"; "user_id"] = None.
Proof. apply bind_named_all. by apply (bool_decide_unpack _). Qed.

Lemma bind_access `{E : Env} {EO : EnvOk E} :
  is_Some (bind_named GetStreamToken_params ["access_token"; "resource_id"; "resource_type"]).
Proof.
  apply (bind_named_missing _ _ "user_id"); unfold GetStreamToken_params.
  - by apply (bool_decide_unpack _).
  - by apply (bool_decide_unpack _).
Qed.

(** A stream token that was issued is honoured: when no external call
    fails and exactly one row carries the secret, file, user and type of the
    request, the lookup returns that row if it has not expired when the clock
    is read after the rows. *)
Theorem FindByStreamToken_complete `{E : Env} {EO : EnvOk E} querier clause w tok :
  (∀ n, fault n = None) → has_query querier GetStreamTokenStmt →
  filter (stream_token_row (fbc_StreamToken clause) (fbc_ResourceID clause)
            (fbc_UserID clause) "stream") (db_tokens (w_db w)) = [tok] →
  (now_at (w_tick w + 4) ≤ tok_AccessExpiresAt tok)%Z →
  FindByStreamToken querier clause w = (Ret (Val tok), world_with_tick (w_tick w + 5) w).
Proof.
  intros Hf [stmt Hq] Hrow Hexp. apply wp_eq. unfold FindByStreamToken.
  rewrite Hq, bind_stream. wp_go; quiet. unfold sql_GetStreamToken. rewrite Hrow.
  assert (scan_order [tok] = [tok]) as -> by (apply Permutation_singleton_r, scan_order_perm).
  unfold scan_token, HasAccessExpired. wp_step. apply wp_rows_loop_quiet; [done |].
  cbv beta iota. simpl last. wp_go; simplify_eq. simpl in *.
  replace (S (w_tick w + 3)) with (w_tick w + 4) by lia.
  unfold Before. rewrite bool_decide_false by lia. split; [done |].
  unfold tick. simpl. unfold world_with_tick. simpl. f_equal. lia.
Qed.

Lemma FindByStreamToken_complete_witness :
  FindByStreamToken (E := quiet_env) tokensQs sample_clause token_world
  = (Ret (Val sample_token), world_with_tick 5 token_world).
Proof.
  apply (FindByStreamToken_complete (E := quiet_env) tokensQs sample_clause token_world);
    [done | by apply (bool_decide_unpack _); vm_compute | by vm_compute | by vm_compute].
Defined.

(** Outside the test mode a session token is never found: the lookup
    uses the statement of stream tokens, whose parameter [user_id] it does not
    bind, so every call ends in an error before the database is asked. *)
Theorem FindByAccessToken_never_finds `{E : Env} {EO : EnvOk E} boot querier clause w :
  fbc_TestMode clause = false →
  ∃ e, FindByAccessToken boot querier clause w = (Ret (Err e), w).
Proof.
  intros Ht. unfold FindByAccessToken. rewrite Ht.
  destruct (GetQuery querier GetStreamTokenStmt); [| by eexists].
  destruct bind_access as [e ->]. by eexists.
Qed.

Lemma FindByAccessToken_never_finds_witness :
  ∃ e, FindByAccessToken (E := quiet_env) 0%Z tokensQs
    {| fbc_AccessToken := "a"; fbc_StreamToken := ""; fbc_ResourceID := "u";
       fbc_ResourceType := "user"; fbc_UserID := None; fbc_TestMode := false |} token_world
  = (Ret (Err e), token_world).
Proof. by apply (FindByAccessToken_never_finds (E := quiet_env)). Defined.
