(* ===== verification/FilesRepo.v ===== *)
(** Package core/files, the repositories: repository.go, the storage half of
    userfiles.service.go, and the statements of queries.metadata.sql and
    user_files.queries.sql. *)
From S2P Require Import Prelude GoStd Model World Squirtle Queries Tokens.

Definition ErrorStmtNotFound : error := "stmt_not_found".
Definition ErrDuplicateFile : error := "duplicate_file".

(** * Dynamic clauses *)

Record FindKV := {
  kv_Key : string;
  kv_PlaceHolder : string;
  kv_Operator : string;
  kv_Val : string;
}.

Definition FindClause := list FindKV.

Definition placeholder (clause : FindKV) : string :=
  if decide (kv_PlaceHolder clause = "") then ":" +:+ kv_Key clause
  else kv_PlaceHolder clause.

(** [FindClause.String] *)
Definition FindClause_String (clauses : FindClause) : string :=
  Join ((λ clause, Sprintf "%s %s %s"
          [AStr (kv_Key clause); AStr (kv_Operator clause); AStr (placeholder clause)])
        <$> clauses) " AND ".

(** [FindClause.Args]: later entries overwrite earlier ones. *)
Definition FindClause_Args (clauses : FindClause) : gmap string string :=
  foldl (λ args kv, <[kv_Key kv := kv_Val kv]> args) ∅ clauses.

(** The two cases of core/files/repository_test.go. *)
Example FindClause_String_tests :
  FindClause_String [] = "" ∧
  FindClause_String
    [ {| kv_Key := "id"; kv_PlaceHolder := ""; kv_Operator := "="; kv_Val := "F1" |};
      {| kv_Key := "upload_status"; kv_PlaceHolder := ":us"; kv_Operator := "=";
         kv_Val := StatusUploading |} ]
  = "id = :id AND upload_status = :us".
Proof. by vm_compute. Qed.

(** * The statements *)

(** CreateFileMetadata *)
Definition sql_CreateFileMetadata (m : FileMetadata) : DB → DB :=
  with_file_metadatas (λ rows, rows ++ [m]).

(** The [SET] of UpdateCurrentFlag. *)
Definition set_flags (current : bool) (end_date : option time) (status : string)
    (m : FileMetadata) : FileMetadata :=
  {| fm_ID := fm_ID m; fm_UserID := fm_UserID m; fm_Filename := fm_Filename m;
     fm_FileSize := fm_FileSize m; fm_FileType := fm_FileType m; fm_FileHash := fm_FileHash m;
     fm_NChunks := fm_NChunks m; fm_CurrentFlag := current; fm_UploadStaus := status;
     fm_PrevID := fm_PrevID m; fm_EndDate := end_date;
     fm_CreatedAt := fm_CreatedAt m; fm_UpdatedAt := fm_UpdatedAt m |}.

(** UpdateCurrentFlag with [AND prev_id IS :prev_id]; [IS] equates NULLs. *)
Definition promote_row (prev : option string) (id status : string) (m : FileMetadata) :
    FileMetadata :=
  if decide (fm_ID m = id ∧ fm_PrevID m = prev) then set_flags true None status m else m.

(** UpdateCurrentFlag with no further condition. *)
Definition retire_row (now : time) (id status : string) (m : FileMetadata) : FileMetadata :=
  if decide (fm_ID m = id) then set_flags false (Some now) status m else m.

(** FindByHash *)
Definition sql_FindByHash (hash : string) (d : DB) : nat :=
  length (filter (λ m, fm_FileHash m = hash) (db_file_metadatas d)).

(** The rows of [file_metadatas fm JOIN user_files ufs ON ufs.file_id = fm.id]
    that satisfy a condition on [fm]. *)
Definition join_chunks (cond : FileMetadata → bool) (d : DB) : list (FileMetadata * UserFile) :=
  fm ← db_file_metadatas d;
  if cond fm
  then pair fm <$> filter (λ uf, uf_FileID uf = fm_ID fm) (db_user_files d)
  else [].

(** The columns of SelectFilesForUser: [created_at] is selected twice and the
    second, of user_files, is the one that stays in the struct. *)
Definition select_columns (row : FileMetadata * UserFile) : FilesWithChunks :=
  let '(fm, uf) := row in
  {| fwc_ID := fm_ID fm; fwc_UserID := fm_UserID fm; fwc_Filename := fm_Filename fm;
     fwc_FileSize := fm_FileSize fm; fwc_FileType := fm_FileType fm;
     fwc_FileHash := fm_FileHash fm; fwc_NChunks := fm_NChunks fm;
     fwc_CurrentFlag := fm_CurrentFlag fm; fwc_UploadStaus := ""; fwc_FileID := "";
     fwc_ChunkID := uf_ChunkID uf; fwc_ChunkBlobUrl := uf_ChunkBlobUrl uf;
     fwc_ChunkHash := uf_ChunkHash uf; fwc_NextChunkID := uf_NextChunkID uf;
     fwc_PrevID := fm_PrevID fm; fwc_EndDate := fm_EndDate fm;
     fwc_CreatedAt := uf_CreatedAt uf; fwc_UpdatedAt := uf_UpdatedAt uf |}.

(** The columns of GetFilesForUser. *)
Definition list_columns (row : FileMetadata * UserFile) : FilesWithChunks :=
  let '(fm, uf) := row in
  {| fwc_ID := fm_ID fm; fwc_UserID := fm_UserID fm; fwc_Filename := fm_Filename fm;
     fwc_FileSize := fm_FileSize fm; fwc_FileType := fm_FileType fm;
     fwc_FileHash := fm_FileHash fm; fwc_NChunks := fm_NChunks fm;
     fwc_CurrentFlag := fm_CurrentFlag fm; fwc_UploadStaus := ""; fwc_FileID := "";
     fwc_ChunkID := uf_ChunkID uf; fwc_ChunkBlobUrl := uf_ChunkBlobUrl uf;
     fwc_ChunkHash := uf_ChunkHash uf; fwc_NextChunkID := uf_NextChunkID uf;
     fwc_PrevID := fm_PrevID fm; fwc_EndDate := None;
     fwc_CreatedAt := fm_CreatedAt fm; fwc_UpdatedAt := zero_time |}.

(** [LIMIT n OFFSET m] of SQLite: a negative limit is none, a negative offset
    is zero. *)
Definition sql_limit {A} (n m : Z) (rows : list A) : list A :=
  let rows := drop (Z.to_nat m) rows in
  if decide (n < 0)%Z then rows else take (Z.to_nat n) rows.

(** CreateFileChunk *)
Definition sql_CreateFileChunk (uf : UserFile) : DB → DB :=
  with_user_files (λ rows, rows ++ [uf]).

Definition DefaultLimit : Z := 20.

Section statements.
Context `{E : Env}.

(** SelectFilesForUser; NULL is in no list. *)
Definition sql_SelectFilesForUser (ids : list (option string)) (d : DB) : list FilesWithChunks :=
  select_columns <$>
    order_desc (λ row, fm_CreatedAt row.1)
      (join_chunks (λ fm, bool_decide (Some (fm_ID fm) ∈ ids)) d).

(** GetFilesForUser *)
Definition sql_GetFilesForUser (userID : string) (limit offset : Z) (d : DB) :
    list FilesWithChunks :=
  sql_limit limit offset
    (list_columns <$>
      order_desc (λ row, fm_CreatedAt row.1)
        (join_chunks (λ fm, bool_decide (fm_UserID fm = userID) && fm_CurrentFlag fm) d)).

(** FindBy *)
Definition sql_FindBy (clauses : FindClause) (d : DB) : list FileMetadata :=
  let args := FindClause_Args clauses in
  scan_order (filter (λ m, forallb (λ kv,
    where_clause (kv_Key kv) (kv_Operator kv) (default "" (args !! kv_Key kv)) m) clauses)
    (db_file_metadatas d)).

End statements.

(** * MetadataRepository *)
Section metadata_repository.
Context `{E : Env} (querier : QueryMapper).

Definition MetadataRepository_Create (metadata : FileMetadata) : Go (res FileMetadata) :=
  match GetQuery querier CreateFileMetadataStmt with
  | None => mret (Err "query_retriever_failed:2001:500")
  | Some _ =>
    r ← db_exec (sql_CreateFileMetadata metadata);
    match r with
    | Err _ => mret (Err "token_generation_failed:2003:500")
    | Val _ => mret (Val metadata)
    end
  end.

(** Preparing the statement binds every placeholder to a key of [Args]. *)
Definition MetadataRepository_FindBy (clauses : FindClause) : Go (res (list FileMetadata)) :=
  match clauses with
  | [] => mret (Err "clause is not present")
  | _ =>
    match GetQuery querier FindByStmt with
    | None => mret (Err ErrorStmtNotFound)
    | Some _ =>
      err ← call;
      match err with
      | Some _ => mret (Err "failed to construct prepared stmt")
      | None =>
        match bind_named ((λ kv, TrimPrefix (placeholder kv) ":") <$> clauses)
                (kv_Key <$> clauses) with
        | Some e => mret (Err e)
        | None => db_query (sql_FindBy clauses)
        end
      end
    end
  end.

(** Both results are returned: a duplicate is [(true, ErrDuplicateFile)]; an
    error of the driver is logged and answered with [(false, nil)]. *)
Definition MetadataRepository_FindByHash (hashStr : string) : Go (bool * option error) :=
  match GetQuery querier FindByHashStmt with
  | None => mret (false, Some ErrorStmtNotFound)
  | Some _ =>
    r ← db_query (sql_FindByHash hashStr);
    match r with
    | Err _ => mret (false, None)
    | Val found =>
      if decide (0 < found) then mret (true, Some ErrDuplicateFile) else mret (false, None)
    end
  end.

(** [sqlx.In] expands the list of identifiers and refuses an empty one. *)
Definition MetadataRepository_SelectFiles (ids : list (option string)) :
    Go (res (list FilesWithChunks)) :=
  match GetQuery querier SelectFilesForUserStmt with
  | None => mret (Err ErrorStmtNotFound)
  | Some _ =>
    match ids with
    | [] => mret (Err "empty slice passed to 'in' query")
    | _ => db_query (sql_SelectFilesForUser ids)
    end
  end.

(** The error of [BeginTxx] is overwritten before it is tested: a transaction
    that could not be opened is [nil] and the first use of it panics. *)
Definition MetadataRepository_Update (prevFileID : option string)
    (newFileID uploadStatus : string) : Go (option error) :=
  tx ← BeginTxx;
  match GetQuery querier UpdateCurrentFlagStmt with
  | None => mret (Some ErrorStmtNotFound)
  | Some _ =>
    match tx with
    | Err _ => panic "nil pointer dereference"
    | Val tx =>
      r ← tx_exec tx (with_file_metadatas (fmap (promote_row prevFileID newFileID uploadStatus)));
      match r with
      | Err e => Rollback tx;; mret (Some e)
      | Val tx =>
        match prevFileID with
        | None => r ← Commit tx; mret (match r with Err e => Some e | Val _ => None end)
        | Some prev =>
          now ← Now;
          r ← tx_exec tx (with_file_metadatas (fmap (retire_row now prev uploadStatus)));
          match r with
          | Err e => Rollback tx;; mret (Some e)
          | Val tx => r ← Commit tx; mret (match r with Err e => Some e | Val _ => None end)
          end
        end
      end
    end
  end.

Context `{SG : SliceGrowth}.

(** The rows are appended one by one; the result is the slice expression
    [results[0:pageOpts.Limit]]. *)
Definition MetadataRepository_ListByUserID (userID : string) (pageOpts : PageOpts) :
    Go (res (list (option FilesWithChunks) * bool)) :=
  match GetQuery querier GetFilesForUserStmt with
  | None => mret (Err "query_retriever_failed:2001:500")
  | Some _ =>
    let limit := if decide (po_Limit pageOpts = 0%Z) then DefaultLimit else po_Limit pageOpts in
    r ← db_query (sql_GetFilesForUser userID (wrap64 (limit + 1)) (po_Offset pageOpts));
    match r with
    | Err _ => mret (Err "database_failed:2002:500")
    | Val rows =>
      results ← rows_scan rows;
      match results with
      | Err _ => mret (Err "record_unmarshal_failed:2003:500")
      | Val results =>
        let hasMore := bool_decide (limit < Z.of_nat (length results))%Z in
        page ← eval (slice_to (cap_of (length results)) results limit);
        mret (Val (page, hasMore))
      end
    end
  end.

End metadata_repository.

(** * MetadataTokenRepository *)
Section metadata_token_repository.
Context `{E : Env} (metaQuerier tokenQuerier : QueryMapper).

Definition CreateMetadataToken (metadata : FileMetadata) (token : Token) : Go (option error) :=
  match GetQuery metaQuerier CreateFileMetadataStmt with
  | None => mret (Some ErrorStmtNotFound)
  | Some _ =>
    match GetQuery tokenQuerier CreateTokenStmt with
    | None => mret (Some ErrorStmtNotFound)
    | Some _ =>
      tx ← BeginTxx;
      match tx with
      | Err e => mret (Some e)
      | Val tx =>
        r ← tx_exec tx (sql_CreateFileMetadata metadata);
        match r with
        | Err e => Rollback tx;; mret (Some e)
        | Val tx =>
          r ← tx_exec tx (sql_CreateToken token);
          match r with
          | Err e => Rollback tx;; mret (Some e)
          | Val tx => r ← Commit tx; mret (match r with Err e => Some e | Val _ => None end)
          end
        end
      end
    end
  end.

End metadata_token_repository.

(** * UserFileRepository *)
Section user_file_repository.
Context `{E : Env} (querier : QueryMapper).

Definition UserFileRepository_Create (userFile : UserFile) : Go (option error) :=
  match GetQuery querier CreateFileChunkStmt with
  | None => mret (Some ErrorStmtNotFound)
  | Some _ =>
    r ← db_exec (sql_CreateFileChunk userFile);
    mret (match r with Err e => Some e | Val _ => None end)
  end.

(** The loop of [CreateBatch]: one statement per chunk in the transaction. *)
Fixpoint batch_loop (tx : DB) (chunks : list UserFile) : Go (res DB) :=
  match chunks with
  | [] => mret (Val tx)
  | chunk :: rest =>
    r ← tx_exec tx (sql_CreateFileChunk chunk);
    match r with
    | Err e => Rollback tx;; mret (Err e)
    | Val tx => batch_loop tx rest
    end
  end.

Definition UserFileRepository_CreateBatch (chunks : list UserFile) : Go (option error) :=
  match GetQuery querier CreateFileChunkStmt with
  | None => mret (Some ErrorStmtNotFound)
  | Some _ =>
    tx ← BeginTxx;
    match tx with
    | Err e => mret (Some e)
    | Val tx =>
      r ← batch_loop tx chunks;
      match r with
      | Err e => mret (Some e)
      | Val tx => r ← Commit tx; mret (match r with Err e => Some e | Val _ => None end)
      end
    end
  end.

(** Two reads without callers.  The first gives the database a map for an
    argument (and a slice, not a pointer to one, for the result), the second a
    struct: database/sql takes neither, so whatever the call does, the answer is
    an error. *)
Definition GetChunksForFile (fileID : string) : Go (option error) :=
  match GetQuery querier GetFileChunksStmt with
  | None => mret (Some "query_retriever_failed:4001:500")
  | Some _ => _ ← call; mret (Some "internal_error:4002:500")
  end.

Definition GetChunk (userFile : UserFile) : Go (option error) :=
  match GetQuery querier GetChunkForFileStmt with
  | None => mret (Some "query_retriever_failed:4001:500")
  | Some _ => _ ← call; mret (Some "internal_error:4002:500")
  end.

End user_file_repository.

(** [UpdateMetadataToken]: its statements are commented out. *)
Definition UpdateMetadataToken (metadata : FileMetadata) (token : Token) : Go (option error) :=
  mret None.

(** Neither read can succeed. *)
Lemma chunk_reads_fail `{E : Env} querier fileID userFile :
  returns (λ err, err ≠ None) (GetChunksForFile querier fileID) ∧
  returns (λ err, err ≠ None) (GetChunk querier userFile).
Proof. unfold GetChunksForFile, GetChunk. split; returns_go; done. Qed.

(** * Rules *)

(** What a successful [Update] does to a row: the two statements in turn. *)
Definition update_row (prev : option string) (id status : string) (now : time)
    (m : FileMetadata) : FileMetadata :=
  match prev with
  | None => promote_row None id status m
  | Some p => retire_row now p status (promote_row prev id status m)
  end.

(** The two statements never touch the same row when the versions differ. *)
Lemma update_row_spec prev id status now m :
  prev ≠ Some id →
  update_row prev id status now m
  = if decide (fm_ID m = id ∧ fm_PrevID m = prev) then set_flags true None status m
    else if decide (Some (fm_ID m) = prev) then set_flags false (Some now) status m
    else m.
Proof.
  intros Hne. unfold update_row.
  destruct (decide (fm_ID m = id ∧ fm_PrevID m = prev)) as [Hm|Hm].
  - assert (promote_row prev id status m = set_flags true None status m) as Hp
      by (unfold promote_row; by rewrite decide_True).
    destruct prev as [p|]; rewrite Hp; [| done].
    unfold retire_row. simpl. rewrite decide_False; [done |]. destruct Hm. congruence.
  - assert (promote_row prev id status m = m) as Hp
      by (unfold promote_row; by rewrite decide_False).
    destruct prev as [p|]; rewrite Hp; [| done]. unfold retire_row.
    destruct (decide (fm_ID m = p)) as [->|]; [by rewrite decide_True |].
    by rewrite decide_False by congruence.
Qed.

(** What a successful [CreateBatch] does to the tables. *)
Definition add_chunks (chunks : list UserFile) : DB → DB :=
  with_user_files (λ rows, rows ++ chunks).

Lemma with_file_metadatas_fmap f g d :
  with_file_metadatas (fmap f) (with_file_metadatas (fmap g) d)
  = with_file_metadatas (fmap (λ m, f (g m))) d.
Proof. unfold with_file_metadatas. simpl. by rewrite <- list_fmap_compose. Qed.

(** Proves that a branch of a failure is taken only when a call failed or a
    statement is missing. *)
Ltac blame :=
  let Hf := fresh "Hf" in
  intros (Hf & ?); destruct_and?; quiet;
  try match goal with
  | H : GetQuery _ _ = None, H' : has_query _ _ |- _ => by apply (has_query_none _ _ H)
  end.

Section repo_rules.
Context `{E : Env}.
Implicit Types w : World.

Lemma wp_Update querier prev id status w (Q : ret (option error) → World → Prop) :
  (∀ e w', later w w' → ¬ (no_fault ∧ has_query querier UpdateCurrentFlagStmt) →
    Q (Ret (Some e)) w') →
  (∀ why w', later w w' → is_Some (fault (w_tick w)) → Q (Panics why) w') →
  (∀ now w', later (world_with_db
      (with_file_metadatas (fmap (update_row prev id status now)) (w_db w)) w) w' →
    Q (Ret None) w') →
  wp (MetadataRepository_Update querier prev id status) w Q.
Proof.
  intros He Hp Hv. unfold MetadataRepository_Update.
  wp_step; wp_step; intros; (wp_step; [| by wp_go; apply He; [solve_later | blame]]).
  { wp_go. apply Hp; [solve_later | by eexists]. }
  wp_go; simplify_eq; try (apply He; [solve_later | blame]).
  all: apply (Hv (now_at (S (S (w_tick w))))); simpl.
  - rewrite with_file_metadatas_fmap. solve_later.
  - solve_later.
Qed.

Lemma wp_CreateMetadataToken mq tq m t w (Q : ret (option error) → World → Prop) :
  (∀ e w', later w w' →
    ¬ (no_fault ∧ has_query mq CreateFileMetadataStmt ∧ has_query tq CreateTokenStmt) →
    Q (Ret (Some e)) w') →
  (∀ w', later (world_with_db (sql_CreateToken t (sql_CreateFileMetadata m (w_db w))) w) w' →
    Q (Ret None) w') →
  wp (CreateMetadataToken mq tq m t) w Q.
Proof.
  intros He Hv. unfold CreateMetadataToken.
  wp_go; simplify_eq; try (apply He; [solve_later | blame]). apply Hv. solve_later.
Qed.

Lemma wp_batch_loop chunks tx w (Q : ret (res DB) → World → Prop) :
  (∀ e w', later w w' → ¬ no_fault → Q (Ret (Err e)) w') →
  (∀ w', later w w' → Q (Ret (Val (add_chunks chunks tx))) w') →
  wp (batch_loop tx chunks) w Q.
Proof.
  revert tx w. induction chunks as [|c chunks IH]; intros tx w He Hv; simpl.
  - wp_go. replace tx with (add_chunks [] tx); [apply Hv; solve_later |].
    unfold add_chunks, with_user_files. destruct tx. simpl. by rewrite app_nil_r.
  - wp_go; simplify_eq; [apply He; [solve_later | intros ?; quiet] |].
    apply IH; intros; [apply He; [solve_later | done] |].
    replace (add_chunks chunks (sql_CreateFileChunk c tx)) with (add_chunks (c :: chunks) tx).
    { apply Hv; solve_later. }
    unfold add_chunks, sql_CreateFileChunk, with_user_files. simpl. by rewrite <- app_assoc.
Qed.

Lemma wp_CreateBatch querier chunks w (Q : ret (option error) → World → Prop) :
  (∀ e w', later w w' → ¬ (no_fault ∧ has_query querier CreateFileChunkStmt) →
    Q (Ret (Some e)) w') →
  (∀ w', has_query querier CreateFileChunkStmt →
    later (world_with_db (add_chunks chunks (w_db w)) w) w' → Q (Ret None) w') →
  wp (UserFileRepository_CreateBatch querier chunks) w Q.
Proof.
  intros He Hv. unfold UserFileRepository_CreateBatch.
  wp_step; [| by wp_go; apply He; [solve_later | blame]].
  wp_step; wp_step; intros; wp_go; simplify_eq; try (apply He; [solve_later | blame]).
  apply wp_batch_loop; intros; wp_go; simplify_eq; try (apply He; [solve_later | blame; tauto]).
  apply Hv; [by eexists | solve_later].
Qed.

Lemma wp_UserFileRepository_Create querier uf w (Q : ret (option error) → World → Prop) :
  (∀ e w', later w w' → ¬ (no_fault ∧ has_query querier CreateFileChunkStmt) →
    Q (Ret (Some e)) w') →
  (∀ w', later (world_with_db (sql_CreateFileChunk uf (w_db w)) w) w' → Q (Ret None) w') →
  wp (UserFileRepository_Create querier uf) w Q.
Proof.
  intros He Hv. unfold UserFileRepository_Create.
  wp_go; simplify_eq; try (apply He; [solve_later | blame]). apply Hv. solve_later.
Qed.

Lemma wp_SelectFiles querier ids w (Q : ret (res (list FilesWithChunks)) → World → Prop) :
  ids ≠ [] →
  (∀ e w', later w w' → ¬ (no_fault ∧ has_query querier SelectFilesForUserStmt) →
    Q (Ret (Err e)) w') →
  (∀ w', later w w' → Q (Ret (Val (sql_SelectFilesForUser ids (w_db w)))) w') →
  wp (MetadataRepository_SelectFiles querier ids) w Q.
Proof.
  intros Hne He Hv. unfold MetadataRepository_SelectFiles. destruct ids; [done |].
  wp_go; simplify_eq; try (apply He; [solve_later | blame]). apply Hv. solve_later.
Qed.

(** The rows of a SelectFiles. *)
Lemma elem_of_SelectFiles `{!EnvOk E} ids d r :
  r ∈ sql_SelectFilesForUser ids d ↔
  ∃ fm uf, fm ∈ db_file_metadatas d ∧ uf ∈ db_user_files d ∧ uf_FileID uf = fm_ID fm ∧
           Some (fm_ID fm) ∈ ids ∧ r = select_columns (fm, uf).
Proof.
  unfold sql_SelectFilesForUser. rewrite list_elem_of_fmap. setoid_rewrite order_desc_perm.
  unfold join_chunks. setoid_rewrite list_elem_of_bind. split.
  - intros ([fm' uf] & -> & fm & Hin & Hfm). case_bool_decide as Hid; [| by apply elem_of_nil in Hin].
    apply list_elem_of_fmap in Hin as (uf' & [= -> ->] & [Heq Huf]%list_elem_of_filter).
    by exists fm, uf'.
  - intros (fm & uf & Hfm & Huf & Heq & Hid & ->). exists (fm, uf). split; [done |].
    exists fm. split; [| done]. rewrite bool_decide_true by done.
    apply list_elem_of_fmap_2. by apply list_elem_of_filter.
Qed.

Lemma SelectFiles_id `{!EnvOk E} ids d r :
  r ∈ sql_SelectFilesForUser ids d → Some (fwc_ID r) ∈ ids.
Proof. intros (fm & uf & _ & _ & _ & ? & ->)%elem_of_SelectFiles. done. Qed.

(** The clauses of the services use the default placeholder. *)
Lemma wp_FindBy `{!EnvOk E} querier clauses w (Q : ret (res (list FileMetadata)) → World → Prop) :
  clauses ≠ [] → Forall (λ kv, kv_PlaceHolder kv = "") clauses →
  (∀ e w', later w w' → ¬ (no_fault ∧ has_query querier FindByStmt) → Q (Ret (Err e)) w') →
  (∀ w', later w w' → Q (Ret (Val (sql_FindBy clauses (w_db w)))) w') →
  wp (MetadataRepository_FindBy querier clauses) w Q.
Proof.
  intros Hne Hpl He Hv. unfold MetadataRepository_FindBy.
  assert (Hb : bind_named ((λ kv, TrimPrefix (placeholder kv) ":") <$> clauses)
                 (kv_Key <$> clauses) = None).
  { apply bind_named_all. replace ((λ kv, TrimPrefix (placeholder kv) ":") <$> clauses)
      with (kv_Key <$> clauses); [done |].
    apply list_fmap_ext. intros i kv Hi. eapply Forall_lookup_1 in Hpl; [| done].
    unfold placeholder. rewrite decide_True by done. by destruct (kv_Key kv). }
  rewrite Hb. destruct clauses as [|kv clauses]; [done |].
  wp_go; simplify_eq; try (apply He; [solve_later | blame]). apply Hv. solve_later.
Qed.

(** The rows FindBy yields for the clauses of the services. *)
Lemma elem_of_sql_FindBy `{!EnvOk E} clauses d m :
  m ∈ sql_FindBy clauses d ↔
  m ∈ db_file_metadatas d ∧
  Forall (λ kv, where_clause (kv_Key kv) (kv_Operator kv)
    (default "" (FindClause_Args clauses !! kv_Key kv)) m = true) clauses.
Proof.
  unfold sql_FindBy. rewrite scan_order_perm, list_elem_of_filter, forallb_True.
  setoid_rewrite Is_true_true. tauto.
Qed.

(** A file hash that is in the table is never reported as new, except when the
    driver fails. *)
Lemma wp_FindByHash querier hash w (Q : ret (bool * option error) → World → Prop) :
  (∀ w', later w w' → ¬ has_query querier FindByHashStmt →
    Q (Ret (false, Some ErrorStmtNotFound)) w') →
  (∀ w', later w w' → 0 < sql_FindByHash hash (w_db w) →
    Q (Ret (true, Some ErrDuplicateFile)) w') →
  (∀ w', later w w' →
    sql_FindByHash hash (w_db w) = 0 ∨ is_Some (fault (w_tick w)) →
    Q (Ret (false, None)) w') →
  wp (MetadataRepository_FindByHash querier hash) w Q.
Proof.
  intros Hs Hd Hn. unfold MetadataRepository_FindByHash. wp_go; simplify_eq.
  - apply Hn; [solve_later | right; by eexists].
  - apply Hd; [solve_later | done].
  - apply Hn; [solve_later | left; lia].
  - apply Hs; [solve_later | by apply has_query_none].
Qed.

End repo_rules.

(** * Properties of the repositories *)

(** Sample data for concrete runs: a file F1 with two chunks that is current,
    and a new version F2 of it of which only chunk 1 was uploaded. *)
Definition sample_file (id : string) (prev : option string) (current : bool) (status : string)
    (created : time) : FileMetadata :=
  {| fm_ID := id; fm_UserID := "U11223455"; fm_Filename := "a.pdf"; fm_FileSize := 6522997%Z;
     fm_FileType := "application/pdf"; fm_FileHash := "hash-" +:+ id; fm_NChunks := 2%Z;
     fm_CurrentFlag := current; fm_UploadStaus := status; fm_PrevID := prev;
     fm_EndDate := None; fm_CreatedAt := created; fm_UpdatedAt := created |}.

Definition sample_chunk (file : string) (chunk next : Z) (url hash : string) : UserFile :=
  {| uf_UserID := "U11223455"; uf_FileID := file; uf_ChunkID := chunk; uf_ChunkBlobUrl := url;
     uf_ChunkHash := hash; uf_NextChunkID := Some next; uf_CreatedAt := 7%Z; uf_UpdatedAt := 7%Z |}.

Definition sample_db : DB :=
  {| db_file_metadatas :=
       [sample_file "F1" None true StatusCompleted 10%Z;
        sample_file "F2" (Some "F1") false StatusUploading 20%Z];
     db_users := [];
     db_user_files :=
       [sample_chunk "F1" 0%Z 1%Z "/data/F1/0" "c0"; sample_chunk "F1" 1%Z (-1)%Z "/data/F1/1" "c1";
        sample_chunk "F2" 1%Z (-1)%Z "/data/F2/1" "c1b"];
     db_tokens := [] |}.

Definition sample_world : World := world_with_db sample_db empty_world.

(** (C14) [Update] is all or nothing.  If it returns [nil], the row of the new
    version (matched by id and by its link to the previous version) is
    current, has no end date and carries the given status, the row of the
    previous version is no longer current and got an end date, and every other
    row and table is as before; if it returns an error or panics, the tables
    are as before.  It panics only when the transaction could not be opened,
    and returns [nil] when no call fails and the statement is in the store. *)
Theorem Update_atomic `{E : Env} querier prev id status w :
  prev ≠ Some id →
  wp (MetadataRepository_Update querier prev id status) w (λ r w',
    match r with
    | Ret None => ∃ now,
        Forall2 (λ m m',
          m' = if decide (fm_ID m = id ∧ fm_PrevID m = prev) then set_flags true None status m
               else if decide (Some (fm_ID m) = prev) then set_flags false (Some now) status m
               else m)
          (db_file_metadatas (w_db w)) (db_file_metadatas (w_db w')) ∧
        db_user_files (w_db w') = db_user_files (w_db w) ∧
        db_tokens (w_db w') = db_tokens (w_db w) ∧ db_users (w_db w') = db_users (w_db w)
    | Ret (Some _) =>
        w_db w' = w_db w ∧ ¬ (no_fault ∧ has_query querier UpdateCurrentFlagStmt)
    | Panics _ => w_db w' = w_db w ∧ is_Some (fault (w_tick w))
    end).
Proof.
  intros Hne. apply wp_Update.
  - intros e w' ->%later_db ?. done.
  - intros why w' ->%later_db ?. done.
  - intros now w' ->%later_db. exists now. split; [| done]. simpl.
    rewrite Forall2_fmap_r. apply Forall_Forall2_diag, Forall_true. intros m.
    by apply update_row_spec.
Qed.

Lemma Update_atomic_witness :
  (MetadataRepository_Update (E := quiet_env) metadataQueryStore (Some "F1") "F2"
     StatusCompleted sample_world).1 = Ret None ∧
  wp (MetadataRepository_Update (E := quiet_env) metadataQueryStore (Some "F1") "F2"
        StatusCompleted) sample_world (λ r w', r = Ret None →
          fm_CurrentFlag <$> db_file_metadatas (w_db w') = [false; true]).
Proof.
  split; [by vm_compute |]. eapply wp_mono.
  - by apply (Update_atomic (E := quiet_env) metadataQueryStore (Some "F1") "F2").
  - intros r w' HQ ->. destruct HQ as (now & HF & _).
    inversion HF as [|?? l l' ? HF1]; subst. inversion HF1 as [|?? ? ? ? HF2]; subst.
    inversion HF2; subst. by vm_compute.
Defined.

(** The metadata of a new file and its stream token are stored together
    or not at all, whatever call fails. *)
Theorem CreateMetadataToken_atomic `{E : Env} mq tq metadata token w :
  wp (CreateMetadataToken mq tq metadata token) w (λ r w',
    match r with
    | Ret None =>
        db_file_metadatas (w_db w') = db_file_metadatas (w_db w) ++ [metadata] ∧
        db_tokens (w_db w') = db_tokens (w_db w) ++ [set_device_id "" token] ∧
        db_user_files (w_db w') = db_user_files (w_db w) ∧ db_users (w_db w') = db_users (w_db w)
    | Ret (Some _) =>
        w_db w' = w_db w ∧
        ¬ (no_fault ∧ has_query mq CreateFileMetadataStmt ∧ has_query tq CreateTokenStmt)
    | Panics _ => False
    end).
Proof.
  apply wp_CreateMetadataToken.
  - by intros e w' ->%later_db ?.
  - by intros w' ->%later_db.
Qed.

(** [CreateBatch] inserts every chunk of the batch in order, or none. *)
Theorem CreateBatch_atomic `{E : Env} querier chunks w :
  wp (UserFileRepository_CreateBatch querier chunks) w (λ r w',
    match r with
    | Ret None =>
        db_user_files (w_db w') = db_user_files (w_db w) ++ chunks ∧
        db_file_metadatas (w_db w') = db_file_metadatas (w_db w) ∧
        db_tokens (w_db w') = db_tokens (w_db w) ∧ db_users (w_db w') = db_users (w_db w)
    | Ret (Some _) =>
        w_db w' = w_db w ∧ ¬ (no_fault ∧ has_query querier CreateFileChunkStmt)
    | Panics _ => False
    end).
Proof.
  apply wp_CreateBatch.
  - by intros e w' ->%later_db ?.
  - by intros w' _ ->%later_db.
Qed.
