(* ===== verification/Queue.v ===== *)
(** Packages pkg/templating and pkg/queuer: queue names, payloads, the
    interface [Queuer] and its implementation on Redis lists, [RedisQ]
    (redis.queue.go). *)
From S2P Require Import Prelude GoStd Model World.

(** * pkg/templating *)

Definition NewTemplateString (tmplStr : string) (values : list arg) : string :=
  if Contains tmplStr "%" then Sprintf tmplStr values else tmplStr.

(** The cases of pkg/templating/template_test.go. *)
Example NewTemplateString_tests :
  NewTemplateString "foobar" [] = "foobar" ∧
  NewTemplateString "foo::%s" [AStr "bar"] = "foo::bar".
Proof. by vm_compute. Qed.

(** * pkg/queuer *)

Record Payload := {
  pl_Message : string;
  pl_Key : string;
  pl_TTL : Z;
}.

Definition payload (message : string) : Payload :=
  {| pl_Message := message; pl_Key := ""; pl_TTL := 0%Z |}.

(** The error of a batch of which some messages failed.  [Err] may be [nil],
    and then [Error()] dereferences it. *)
Record PartialError := {
  pe_Err : option error;
  pe_Failed : list Payload;
}.

Definition PartialError_Error (perr : PartialError) : ret string :=
  match pe_Err perr with
  | Some e => Ret e
  | None => Panics "nil pointer dereference"
  end.

(** The Go interface [Queuer]. *)
Class Queuer := {
  EnqueueMsg : string → Payload → Go (option error);
  EnqueueMsgs : string → list Payload → Go (option PartialError);
  ReadMsg : string → string → Go (res (option Payload));
}.

(** ** RedisQ *)
Section redisq.
Context `{E : Env} (topicName : string).

Definition RedisQ_EnqueueMsg (partition : string) (data : Payload) : Go (option error) :=
  RPush (NewTemplateString topicName [AStr partition]) (pl_Message data).

(** The loop of [EnqueueMsgs] pushes to [topicName] as it is written: the
    partition is not used. *)
Fixpoint enqueue_loop (datas : list Payload) : Go (list Payload) :=
  match datas with
  | [] => mret []
  | data :: rest =>
    err ← RPush topicName (pl_Message data);
    failed ← enqueue_loop rest;
    mret (match err with Some _ => data :: failed | None => failed end)
  end.

Definition RedisQ_EnqueueMsgs (partition : string) (datas : list Payload) :
    Go (option PartialError) :=
  failed ← enqueue_loop datas;
  match failed with
  | [] => mret None
  | _ => mret (Some {| pe_Err := Some "partial_failure"; pe_Failed := failed |})
  end.

Definition ErrEmptyRecords : error := "empty_records".

Definition RedisQ_ReadMsg (partition key : string) : Go (res (option Payload)) :=
  let queue := NewTemplateString topicName [AStr partition] in
  results ← BLPop queue;
  match results with
  | Err e => if decide (e = redis_Nil) then mret (Val None) else mret (Err e)
  | Val (qname :: result :: _) =>
    mret (Val (Some {| pl_Message := result; pl_Key := qname; pl_TTL := 0%Z |}))
  | Val _ => mret (Err ErrEmptyRecords)
  end.

(** [FlushDB] empties the whole database of the server: every queue, every
    stream and the cache of downloads, not only this queue. *)
Definition FlushDB : Go (option error) :=
  err ← call;
  match err with
  | Some e => mret (Some e)
  | None => modify (λ w, world_with_redis ∅ (world_with_streams ∅ (world_with_cache ∅ w)));; mret None
  end.

Definition RedisQ_Flush : Go (option error) := FlushDB.

Definition RedisQ : Queuer :=
  {| EnqueueMsg := RedisQ_EnqueueMsg;
     EnqueueMsgs := RedisQ_EnqueueMsgs;
     ReadMsg := RedisQ_ReadMsg |}.

End redisq.

(** core/database/redis.go *)
Definition MetadataFileUpdateQueue : string := "q::metadata::update::file".
Definition MetadataUpdateClientsNotifierQueue : string := "q::metadata::update::clients::%s".

(** * What a queue promises its clients *)

(** Only the Redis lists and the event counter differ. *)
Definition redis_only (w w' : World) : Prop :=
  w_tick w ≤ w_tick w' ∧ w_db w' = w_db w ∧ w_cache w' = w_cache w ∧ w_fs w' = w_fs w.

Lemma redis_only_refl w : redis_only w w.
Proof. by split_and!. Qed.

Lemma redis_only_trans w1 w2 w3 : redis_only w1 w2 → redis_only w2 w3 → redis_only w1 w3.
Proof. unfold redis_only. intros (?&?&?&?) (?&?&?&?). split_and!; [lia | congruence..]. Qed.

Lemma later_redis_only w w' : later w w' → redis_only w w'.
Proof. intros (n & ? & ->). by split_and!. Qed.

(** A partition is backed by a first-in first-out list: [EnqueueMsg] appends
    the message to the list of its partition or, with an error, leaves every
    list alone; [ReadMsg] takes the oldest message, or answers that there is
    none. *)
Class QueuerOk `{E : Env} (Q : Queuer) : Type := {
  q_key : string → string;
  q_list : World → string → list string;
  q_list_later : ∀ w w', later w w' → q_list w' = q_list w;
  q_list_db : ∀ w d, q_list (world_with_db d w) = q_list w;
  wp_EnqueueMsg : ∀ p d w (Post : ret (option error) → World → Prop),
    (∀ e w', later w w' → ¬ no_fault → Post (Ret (Some e)) w') →
    (∀ w', redis_only w w' →
      (∀ k, q_list w' k = if decide (q_key p = k) then q_list w k ++ [pl_Message d]
                          else q_list w k) →
      Post (Ret None) w') →
    wp (EnqueueMsg p d) w Post;
  wp_ReadMsg : ∀ p key w (Post : ret (res (option Payload)) → World → Prop),
    (∀ e w', later w w' → ¬ no_fault → Post (Ret (Err e)) w') →
    (∀ w', redis_only w w' → (∀ k, q_list w' k = q_list w k) →
      q_list w (q_key p) = [] ∨ ¬ no_fault → Post (Ret (Val None)) w') →
    (∀ m w', redis_only w w' → q_list w (q_key p) = pl_Message m :: q_list w' (q_key p) →
      (∀ k, k ≠ q_key p → q_list w' k = q_list w k) →
      Post (Ret (Val (Some m))) w') →
    wp (ReadMsg p key) w Post;
}.

(** [RedisQ] keeps the promise: the list of a partition is the Redis list
    whose name is the rendered topic. *)
Section redisq_ok.
Context `{E : Env} {EO : EnvOk E} (topic : string).

Definition redis_queue (w : World) (k : string) : list string := redis_list (w_redis w) k.

Lemma wp_RedisQ_EnqueueMsg p d w (Post : ret (option error) → World → Prop) :
  (∀ e w', later w w' → ¬ no_fault → Post (Ret (Some e)) w') →
  (∀ w', redis_only w w' →
    (∀ k, redis_queue w' k =
      if decide (NewTemplateString topic [AStr p] = k) then redis_queue w k ++ [pl_Message d]
      else redis_queue w k) → Post (Ret None) w') →
  wp (RedisQ_EnqueueMsg topic p d) w Post.
Proof.
  intros He Hv. unfold RedisQ_EnqueueMsg. wp_go.
  - apply He; [solve_later | intros ?; quiet].
  - apply Hv; [split_and!; simpl; auto |]. intros k. unfold redis_queue. simpl.
    rewrite rpush_list. by case_decide; subst.
Qed.

Lemma wp_RedisQ_ReadMsg p key w (Post : ret (res (option Payload)) → World → Prop) :
  (∀ e w', later w w' → ¬ no_fault → Post (Ret (Err e)) w') →
  (∀ w', redis_only w w' → (∀ k, redis_queue w' k = redis_queue w k) →
    redis_queue w (NewTemplateString topic [AStr p]) = [] ∨ ¬ no_fault →
    Post (Ret (Val None)) w') →
  (∀ m w', redis_only w w' →
    redis_queue w (NewTemplateString topic [AStr p])
      = pl_Message m :: redis_queue w' (NewTemplateString topic [AStr p]) →
    (∀ k, k ≠ NewTemplateString topic [AStr p] → redis_queue w' k = redis_queue w k) →
    Post (Ret (Val (Some m))) w') →
  wp (RedisQ_ReadMsg topic p key) w Post.
Proof.
  intros He Hn Hv. unfold RedisQ_ReadMsg. apply wp_bind, wp_BLPop.
  - intros e Hf. wp_go; simplify_eq.
    + apply Hn; [by split_and!; simpl; auto | done | right; intros ?; quiet].
    + apply He; [solve_later | intros ?; quiet].
  - intros Hf Hb. wp_go; [| done]. apply Hn; [by split_and!; simpl; auto | done | left; by apply blpop_empty].
  - intros reply s Hf Hb. apply blpop_list in Hb as (x & -> & Hl & Hother). wp_go.
    apply Hv; [split_and!; simpl; auto | done | done].
Qed.

#[global] Instance RedisQ_ok : QueuerOk (RedisQ topic).
Proof.
  refine (Build_QueuerOk E (RedisQ topic) (λ p, NewTemplateString topic [AStr p]) redis_queue
    _ _ wp_RedisQ_EnqueueMsg wp_RedisQ_ReadMsg).
  - by intros w w' (n & _ & ->).
  - done.
Defined.

(** Flushing one queue empties every other as well, and the cache; with an
    error nothing is touched. *)
Lemma Flush_spec w :
  wp RedisQ_Flush w (λ r w',
    (∃ e, r = Ret (Some e) ∧ later w w') ∨
    (r = Ret None ∧ (∀ k, redis_queue w' k = []) ∧ w_streams w' = ∅ ∧ w_cache w' = ∅ ∧
     w_db w' = w_db w ∧ w_fs w' = w_fs w)).
Proof.
  unfold RedisQ_Flush, FlushDB. apply wp_bind, wp_call. destruct (fault (w_tick w)) as [e|].
  - apply wp_ret. left. exists e. split; [done |]. solve_later.
  - right. by split_and!.
Qed.

End redisq_ok.

(** * Properties of queues *)

(** The producer and the consumer of pkg/queuer/redis.queue_test.go. *)
Section fifo.
Context `{Q : Queuer}.

Fixpoint enqueue_all (partition : string) (msgs : list string) : Go (list (option error)) :=
  match msgs with
  | [] => mret []
  | m :: rest =>
    err ← EnqueueMsg partition (payload m);
    errs ← enqueue_all partition rest;
    mret (err :: errs)
  end.

Fixpoint read_all (partition : string) (n : nat) : Go (list (res (option string))) :=
  match n with
  | O => mret []
  | S n =>
    r ← ReadMsg partition "";
    rs ← read_all partition n;
    mret (match r with
          | Err e => Err e
          | Val None => Val None
          | Val (Some m) => Val (Some (pl_Message m))
          end :: rs)
  end.

End fifo.

Section fifo_ok.
Context `{E : Env} `{Q : Queuer} {QO : QueuerOk Q}.

Lemma wp_enqueue_all p msgs w (Post : ret (list (option error)) → World → Prop) :
  no_fault →
  (∀ w', redis_only w w' →
    q_list w' (q_key p) = q_list w (q_key p) ++ msgs →
    Post (Ret (replicate (length msgs) None)) w') →
  wp (enqueue_all p msgs) w Post.
Proof.
  intros Hf. revert w Post. induction msgs as [|m msgs IH]; intros w Post HP; simpl.
  - apply wp_ret, HP; [apply redis_only_refl | by rewrite app_nil_r].
  - apply wp_bind, wp_EnqueueMsg; [done |]. intros w1 Hr1 Hq1.
    apply wp_bind, IH. intros w2 Hr2 Hq2. apply wp_ret.
    apply HP; [by eapply redis_only_trans |].
    rewrite Hq2, Hq1, decide_True by done. by rewrite <- app_assoc.
Qed.

Lemma wp_read_all p msgs rest w (Post : ret (list (res (option string))) → World → Prop) :
  no_fault → q_list w (q_key p) = msgs ++ rest →
  (∀ w', redis_only w w' → q_list w' (q_key p) = rest →
    Post (Ret ((λ m, Val (Some m)) <$> msgs)) w') →
  wp (read_all p (length msgs)) w Post.
Proof.
  intros Hf. revert w Post. induction msgs as [|m msgs IH]; intros w Post Hl HP; simpl.
  - apply wp_ret, HP; [apply redis_only_refl | done].
  - apply wp_bind, wp_ReadMsg; [done | |].
    + intros w1 _ _ [Hn|]; [by rewrite Hn in Hl | done].
    + intros m1 w1 Hr1 Hq1 _. rewrite Hl in Hq1. injection Hq1 as -> Hq1.
      apply wp_bind, IH; [done |]. intros w2 Hr2 Hq2. apply wp_ret, HP; [| done].
      by eapply redis_only_trans.
Qed.

(** First in, first out: messages enqueued to an empty partition are
    read back from it in the order in which they were enqueued, all of them,
    and leave it empty.  Proved for every queue that keeps the promise of
    [QueuerOk]. *)
Theorem queue_fifo p msgs w :
  no_fault → q_list w (q_key p) = [] →
  wp (errs ← enqueue_all p msgs; read_all p (length msgs)) w (λ r w',
    r = Ret ((λ m, Val (Some m)) <$> msgs) ∧ q_list w' (q_key p) = [] ∧ w_db w' = w_db w).
Proof.
  intros Hf He. apply wp_bind, wp_enqueue_all; [done |]. intros w1 (_&Hd1&_) Hq1.
  rewrite He in Hq1. eapply wp_read_all; [done | by rewrite app_nil_r |].
  intros w2 (_&Hd2&_) Hq2. split_and!; [done | done | congruence].
Qed.

End fifo_ok.

Lemma queue_fifo_witness :
  let E := quiet_env in let Q := RedisQ "testQ" in
  wp (errs ← enqueue_all "" ["message1"; "message2"; "message3"]; read_all "" 3) empty_world
    (λ r w', r = Ret [Val (Some "message1"); Val (Some "message2"); Val (Some "message3")] ∧
             redis_queue w' "testQ" = [] ∧ w_db w' = empty_db).
Proof.
  intros E Q.
  exact (queue_fifo (QO := RedisQ_ok (E := E) "testQ") ""
    ["message1"; "message2"; "message3"] empty_world (λ _, eq_refl) eq_refl).
Defined.

(** [EnqueueMsgs] ignores its partition: on a topic with a [%s] the
    messages go to the list named by the unrendered template, and the list
    that readers of the partition take messages from does not change. *)
Theorem EnqueueMsgs_misses_partition `{E : Env} {EO : EnvOk E} topic p datas w :
  no_fault → NewTemplateString topic [AStr p] ≠ topic →
  wp (RedisQ_EnqueueMsgs topic p datas) w (λ r w',
    r = Ret None ∧
    redis_queue w' topic = redis_queue w topic ++ (pl_Message <$> datas) ∧
    redis_queue w' (NewTemplateString topic [AStr p])
    = redis_queue w (NewTemplateString topic [AStr p])).
Proof.
  intros Hf Hne. unfold RedisQ_EnqueueMsgs. apply wp_bind.
  assert (Hloop : ∀ datas w (Post : ret (list Payload) → World → Prop),
    (∀ w', redis_queue w' topic = redis_queue w topic ++ (pl_Message <$> datas) →
      redis_queue w' (NewTemplateString topic [AStr p])
      = redis_queue w (NewTemplateString topic [AStr p]) → Post (Ret []) w') →
    wp (enqueue_loop topic datas) w Post).
  { clear w datas. induction datas as [|d datas IH]; intros w Post HP; simpl.
    { apply wp_ret, HP; [by rewrite app_nil_r | done]. }
    wp_step. apply wp_RPush; [intros; quiet |]. intros _. wp_step. apply IH.
    unfold redis_queue at 2 4. simpl. rewrite !rpush_list, decide_True by done.
    rewrite (decide_False (P := topic = _)) by congruence.
    intros w' H1 H2. wp_go. apply HP; [by rewrite H1, <- app_assoc | done]. }
  apply Hloop. intros w' H1 H2. by wp_go.
Qed.

Lemma EnqueueMsgs_misses_partition_witness :
  wp (RedisQ_EnqueueMsgs (E := quiet_env) MetadataUpdateClientsNotifierQueue "U1" [payload "m"])
    empty_world (λ r w',
      r = Ret None ∧
      redis_queue w' MetadataUpdateClientsNotifierQueue = ["m"] ∧
      redis_queue w' "q::metadata::update::clients::U1" = []).
Proof.
  exact (EnqueueMsgs_misses_partition (E := quiet_env) MetadataUpdateClientsNotifierQueue "U1"
    [payload "m"] empty_world (λ _, eq_refl) ltac:(by vm_compute)).
Defined.
