(* ===== verification/Stream.v ===== *)
(** pkg/queuer/redis.stream.go: the second implementation of the interface
    [Queuer], on Redis streams with one consumer group per stream. *)
From S2P Require Import Prelude GoStd Model World Queue.

(** * The commands of the server *)
Class StreamServer := {
  (** XGROUP CREATE stream group $ MKSTREAM; [None] is the error BUSYGROUP *)
  redis_xgroup : string → string → gmap string RStream → option (gmap string RStream);
  (** XADD stream id message *)
  redis_xadd : string → string → string → gmap string RStream → gmap string RStream;
  (** XREADGROUP GROUP group COUNT 1 STREAMS stream >: the entry and the streams
      after it, [None] when the timeout passes *)
  redis_xread : string → string → gmap string RStream →
    option ((string * string) * gmap string RStream);
  (** XACK stream group id *)
  redis_xack : string → string → string → gmap string RStream → gmap string RStream;
  (** the identifier the server gives to the entry added at the n-th event *)
  entry_id : nat → string;
}.

(** The entries of a stream that its group has not been given; [None] when there
    is no such group. *)
Definition undelivered (s : gmap string RStream) (stream group : string) :
    option (list (string * string)) :=
  st ← s !! stream;
  st_groups st !! group.

(** The documented behaviour: a new group starts at the end of the stream, XADD
    appends, XREADGROUP delivers the oldest entry once, XACK concerns entries
    that were delivered. *)
Class StreamServerOk (SS : StreamServer) : Prop := {
  xgroup_busy : ∀ k g s, redis_xgroup k g s = None ↔ is_Some (undelivered s k g);
  xgroup_new : ∀ k g s s', redis_xgroup k g s = Some s' →
    undelivered s' k g = Some [] ∧ ∀ k' g', k' ≠ k → undelivered s' k' g' = undelivered s k' g';
  xadd_list : ∀ k i m s k' g, undelivered (redis_xadd k i m s) k' g =
    if decide (k = k') then (λ l, l ++ [(i, m)]) <$> undelivered s k g else undelivered s k' g;
  xread_empty : ∀ k g s, undelivered s k g = Some [] → redis_xread k g s = None;
  xread_list : ∀ k g s x l, undelivered s k g = Some (x :: l) → ∃ s',
    redis_xread k g s = Some (x, s') ∧ undelivered s' k g = Some l ∧
    ∀ k' g', k' ≠ k → undelivered s' k' g' = undelivered s k' g';
  xack_list : ∀ k g i s k' g', undelivered (redis_xack k g i s) k' g' = undelivered s k' g';
}.

Section stream.
Context `{E : Env} `{SS : StreamServer}.

Definition XGroupCreateMkStream (stream group : string) : Go (option error) :=
  err ← call;
  match err with
  | Some e => mret (Some e)
  | None =>
    w ← get;
    match redis_xgroup stream group (w_streams w) with
    | None => mret (Some "BUSYGROUP Consumer Group name already exists")
    | Some s => modify (world_with_streams s);; mret None
    end
  end.

Definition XAdd (stream message : string) : Go (option error) :=
  err ← call;
  match err with
  | Some e => mret (Some e)
  | None =>
    modify (λ w, world_with_streams
      (redis_xadd stream (entry_id (w_tick w)) message (w_streams w)) w);;
    mret None
  end.

Definition XReadGroup (stream group : string) : Go (res (string * string)) :=
  err ← call;
  match err with
  | Some e => mret (Err e)
  | None =>
    w ← get;
    match redis_xread stream group (w_streams w) with
    | None => mret (Err redis_Nil)
    | Some (x, s) => modify (world_with_streams s);; mret (Val x)
    end
  end.

Definition XAck (stream group id : string) : Go (option error) :=
  err ← call;
  match err with
  | Some e => mret (Some e)
  | None => modify (λ w, world_with_streams (redis_xack stream group id (w_streams w)) w);; mret None
  end.

(** * RedisStream *)
Context (topicName : string).

Definition IsBusyGroup (err : error) : bool := HasPrefix err "BUSYGROUP".

(** [err != nil && !errors.Is(err, redis.Nil) && !IsBusyGroup(err)] *)
Definition group_error (err : option error) : option error :=
  match err with
  | Some e => if decide (e = redis_Nil) then None else if IsBusyGroup e then None else Some e
  | None => None
  end.

Definition stream_group (stream : string) : string := Sprintf "%s-group" [AStr stream].

Definition RedisStream_EnqueueMsg (partition : string) (data : Payload) : Go (option error) :=
  let stream := NewTemplateString topicName [AStr partition] in
  let group := stream_group stream in
  err ← XGroupCreateMkStream stream group;
  match group_error err with
  | Some e => mret (Some (Sprintf "failed to create consumer group %s: %s" [AStr group; AStr e]))
  | None =>
    err ← XAdd stream (pl_Message data);
    mret (match err with
          | Some e => Some (Sprintf "failed to push message to stream %s: %s" [AStr stream; AStr e])
          | None => None
          end)
  end.

(** The loop of [EnqueueMsgs]. *)
Fixpoint stream_enqueue_loop (stream : string) (datas : list Payload) : Go (list Payload) :=
  match datas with
  | [] => mret []
  | data :: rest =>
    err ← XAdd stream (pl_Message data);
    failed ← stream_enqueue_loop stream rest;
    mret (match err with Some _ => data :: failed | None => failed end)
  end.

(** It does not create the group. *)
Definition RedisStream_EnqueueMsgs (partition : string) (datas : list Payload) :
    Go (option PartialError) :=
  failed ← stream_enqueue_loop (NewTemplateString topicName [AStr partition]) datas;
  match failed with
  | [] => mret None
  | _ => mret (Some {| pe_Err := Some "partial_failure"; pe_Failed := failed |})
  end.

(** The consumer is named after [consumerGroup]; the group is that of the
    stream. *)
Definition RedisStream_ReadMsg (partition consumerGroup : string) : Go (res (option Payload)) :=
  let stream := NewTemplateString topicName [AStr partition] in
  let group := stream_group stream in
  err ← XGroupCreateMkStream stream group;
  match group_error err with
  | Some e => mret (Err (Sprintf "failed to create consumer group %s: %s" [AStr group; AStr e]))
  | None =>
    res ← XReadGroup stream group;
    match res with
    | Err e =>
      if decide (e = redis_Nil) then mret (Val None)
      else mret (Err (Sprintf "failed to read from stream %s: %s" [AStr stream; AStr e]))
    | Val msg =>
      err ← XAck stream group msg.1;
      match err with
      | Some e => mret (Err (Sprintf "failed to acknowledge message %s: %s" [AStr msg.1; AStr e]))
      | None => mret (Val (Some {| pl_Message := msg.2; pl_Key := msg.1; pl_TTL := 0%Z |}))
      end
    end
  end.

Definition RedisStream_Flush : Go (option error) := FlushDB.

Definition RedisStream : Queuer :=
  {| EnqueueMsg := RedisStream_EnqueueMsg;
     EnqueueMsgs := RedisStream_EnqueueMsgs;
     ReadMsg := RedisStream_ReadMsg |}.

End stream.

(** The struct: the client (known by its options), the name, the time a read
    waits, in seconds; and its operations. *)
Record StreamQueue := { rs_conn : string; rs_topicName : string; rs_timeout : Z }.

Definition NewRedisStream (conn topicName : string) (timeout : Z) : StreamQueue :=
  {| rs_conn := conn; rs_topicName := topicName; rs_timeout := timeout |}.

Definition stream_queuer `{E : Env} `{SS : StreamServer} (q : StreamQueue) : Queuer :=
  RedisStream (rs_topicName q).

(** * Rules *)
Section rules.
Context `{E : Env} `{SS : StreamServer} {SO : StreamServerOk SS} (topicName : string).
Context (Hf : no_fault).

(** What waits in a stream for its group. *)
Definition stream_queue (w : World) (stream : string) : list string :=
  snd <$> default [] (undelivered (w_streams w) stream (stream_group stream)).

(** Making sure of the group changes nothing of what waits. *)
Lemma wp_group stream w (Post : ret (option error) → World → Prop) :
  (∀ err w', group_error err = None → redis_only w w' →
    is_Some (undelivered (w_streams w') stream (stream_group stream)) →
    (∀ k, stream_queue w' k = stream_queue w k) → Post (Ret err) w') →
  wp (XGroupCreateMkStream stream (stream_group stream)) w Post.
Proof.
  intros HP. unfold XGroupCreateMkStream. wp_step. wp_step. rewrite Hf. cbv beta iota.
  wp_step. wp_step. change (w_streams (tick w)) with (w_streams w).
  destruct (redis_xgroup _ _ _) as [s|] eqn:Hg.
  - assert (Hnone : undelivered (w_streams w) stream (stream_group stream) = None).
    { apply eq_None_not_Some. intros Hs%xgroup_busy. congruence. }
    apply xgroup_new in Hg as [Hg Hother]. wp_go. apply HP; [done | by split_and!; simpl; auto | |].
    + simpl. rewrite Hg. by eexists.
    + intros k. unfold stream_queue. simpl. destruct (decide (k = stream)) as [->|]; [| by rewrite Hother].
      by rewrite Hg, Hnone.
  - wp_go. apply HP; [done | by split_and!; simpl; auto | | done].
    by apply xgroup_busy in Hg.
Qed.

Lemma wp_RedisStream_EnqueueMsg p d w (Post : ret (option error) → World → Prop) :
  (∀ w', redis_only w w' →
    (∀ k, stream_queue w' k =
      if decide (NewTemplateString topicName [AStr p] = k)
      then stream_queue w k ++ [pl_Message d] else stream_queue w k) → Post (Ret None) w') →
  wp (RedisStream_EnqueueMsg topicName p d) w Post.
Proof.
  intros HP. unfold RedisStream_EnqueueMsg. cbv zeta.
  set (stream := NewTemplateString topicName [AStr p]) in *.
  wp_step. apply wp_group. intros err w1 Herr Hr1 [l Hl] Hq1. rewrite Herr. wp_step.
  unfold XAdd. wp_step. wp_step. rewrite Hf. cbv beta iota. wp_go.
  apply HP; [destruct Hr1 as (? & ? & ? & ?); split_and!; simpl; auto; lia |].
  intros k. rewrite <- Hq1. unfold stream_queue. simpl. rewrite xadd_list. case_decide as Hk; [subst k | done].
  rewrite Hl. simpl. by rewrite fmap_app.
Qed.

Lemma wp_RedisStream_ReadMsg p key w (Post : ret (res (option Payload)) → World → Prop) :
  (∀ w', redis_only w w' → stream_queue w (NewTemplateString topicName [AStr p]) = [] →
    (∀ k, stream_queue w' k = stream_queue w k) → Post (Ret (Val None)) w') →
  (∀ m w', redis_only w w' →
    stream_queue w (NewTemplateString topicName [AStr p])
      = pl_Message m :: stream_queue w' (NewTemplateString topicName [AStr p]) →
    (∀ k, k ≠ NewTemplateString topicName [AStr p] → stream_queue w' k = stream_queue w k) →
    Post (Ret (Val (Some m))) w') →
  wp (RedisStream_ReadMsg topicName p key) w Post.
Proof.
  intros Hn Hv. unfold RedisStream_ReadMsg. cbv zeta.
  set (stream := NewTemplateString topicName [AStr p]) in *.
  wp_step. apply wp_group. intros err w1 Herr Hr1 [l Hl] Hq1. rewrite Herr. wp_step.
  unfold XReadGroup. wp_step. wp_step. rewrite Hf. cbv beta iota. wp_step. wp_step.
  change (w_streams (tick w1)) with (w_streams w1). destruct Hr1 as (Ht & Hd & Hc & Hfs).
  destruct l as [|[id msg] l].
  - rewrite (xread_empty _ _ _ Hl). wp_step. cbv beta iota. rewrite decide_True by done. wp_step.
    apply Hn; [split_and!; simpl; auto; lia | | done].
    rewrite <- Hq1. unfold stream_queue. by rewrite Hl.
  - destruct (xread_list _ _ _ _ _ Hl) as (s & -> & Hs & Hother). wp_step. wp_step. wp_step.
    unfold XAck. wp_step. wp_step. wp_step. rewrite Hf. cbv beta iota. wp_go.
    apply Hv; [split_and!; simpl; auto; lia | |].
    + rewrite <- Hq1. unfold stream_queue. simpl. by rewrite xack_list, Hs, Hl.
    + intros k Hk. rewrite <- Hq1. unfold stream_queue. simpl. by rewrite xack_list, Hother.
Qed.

End rules.

(** When no call fails the streams keep the promise of [QueuerOk], and so
    everything proved of queues holds for them. *)
Section ok.
Context `{E : Env} `{SS : StreamServer} {SO : StreamServerOk SS} (topic : string) (Hf : no_fault).

Lemma RedisStream_ok : QueuerOk (RedisStream topic).
Proof.
  refine (Build_QueuerOk E (RedisStream topic) (λ p, NewTemplateString topic [AStr p]) stream_queue
    _ _ _ _).
  - by intros w w' (n & _ & ->).
  - done.
  - intros p d w Post _ Hv. by apply wp_RedisStream_EnqueueMsg.
  - intros p key w Post _ Hn Hv. apply wp_RedisStream_ReadMsg; [done | | exact Hv].
    intros w' Hr He Hq. apply Hn; auto.
Defined.

End ok.

(** A stream server that keeps its promise. *)
Definition stream_of (s : gmap string RStream) (k : string) : RStream :=
  default {| st_entries := []; st_groups := ∅ |} (s !! k).

Definition sample_streams : StreamServer :=
  {| redis_xgroup k g s :=
       match undelivered s k g with
       | Some _ => None
       | None => Some (<[k := {| st_entries := st_entries (stream_of s k);
                                 st_groups := <[g := []]> (st_groups (stream_of s k)) |}]> s)
       end;
     redis_xadd k i m s :=
       <[k := {| st_entries := st_entries (stream_of s k) ++ [(i, m)];
                 st_groups := (λ l, l ++ [(i, m)]) <$> st_groups (stream_of s k) |}]> s;
     redis_xread k g s :=
       match undelivered s k g with
       | Some (x :: l) => Some (x, <[k := {| st_entries := st_entries (stream_of s k);
                                             st_groups := <[g := l]> (st_groups (stream_of s k)) |}]> s)
       | _ => None
       end;
     redis_xack k g i s := s;
     entry_id n := pretty n |}.

#[global] Instance sample_streams_ok : StreamServerOk sample_streams.
Proof.
  assert (Hset : ∀ (s : gmap string RStream) k st k' g', undelivered (<[k := st]> s) k' g' =
    if decide (k = k') then st_groups st !! g' else undelivered s k' g').
  { intros s k st k' g'. unfold undelivered. case_decide; subst;
      [by rewrite lookup_insert_eq | by rewrite lookup_insert_ne]. }
  assert (Hof : ∀ s k g, st_groups (stream_of s k) !! g = undelivered s k g).
  { intros s k g. unfold stream_of, undelivered. by destruct (s !! k). }
  split; simpl.
  - intros k g s. destruct (undelivered s k g); by split.
  - intros k g s s'. destruct (undelivered s k g); [done |]. intros [= <-]. split.
    + rewrite Hset, decide_True by done. simpl. by rewrite lookup_insert_eq.
    + intros k' g' Hk. by rewrite Hset, decide_False.
  - intros k i m s k' g. rewrite Hset. case_decide as Hk; [subst k' | done].
    simpl. by rewrite lookup_fmap, Hof.
  - by intros k g s ->.
  - intros k g s x l ->. eexists. split; [done |]. split.
    + rewrite Hset, decide_True by done. simpl. by rewrite lookup_insert_eq.
    + intros k' g' Hk. by rewrite Hset, decide_False.
  - done.
Qed.

(** * Properties *)

(** A message that cannot be acknowledged is lost.  When the group of the
    stream is there, a message waits, and only the last of the three commands
    of [ReadMsg] fails, [ReadMsg] returns an error and the message waits no
    more: nobody reads the entries that were delivered and not acknowledged, so
    no later read gives it. *)
Theorem ReadMsg_loses_unacknowledged `{E : Env} `{SS : StreamServer} {SO : StreamServerOk SS} topic
    partition consumer e w :
  let stream := NewTemplateString topic [AStr partition] in
  fault (w_tick w) = None → fault (S (w_tick w)) = None → fault (S (S (w_tick w))) = Some e →
  is_Some (undelivered (w_streams w) stream (stream_group stream)) → stream_queue w stream ≠ [] →
  wp (RedisStream_ReadMsg topic partition consumer) w (λ r w',
    (∃ err, r = Ret (Err err)) ∧ ∃ lost, stream_queue w stream = lost :: stream_queue w' stream).
Proof.
  intros stream H1 H2 H3 Hg Hne. unfold RedisStream_ReadMsg. cbv zeta. fold stream.
  unfold XGroupCreateMkStream. wp_step. wp_step. wp_step. rewrite H1. cbv beta iota.
  wp_step. wp_step. change (w_streams (tick w)) with (w_streams w).
  rewrite (proj2 (xgroup_busy _ _ _) Hg). wp_step.
  change (group_error (Some "BUSYGROUP Consumer Group name already exists")) with (@None error).
  cbv beta iota. unfold XReadGroup. wp_step. wp_step. wp_step.
  change (w_tick (tick w)) with (S (w_tick w)). rewrite H2. cbv beta iota. wp_step. wp_step.
  change (w_streams (tick (tick w))) with (w_streams w).
  destruct Hg as [l Hl]. unfold stream_queue in *. rewrite Hl in *. simpl in Hne.
  destruct l as [|[id msg] l]; [done |].
  destruct (xread_list _ _ _ _ _ Hl) as (s & -> & Hs & _). wp_step. wp_step. wp_step.
  unfold XAck. wp_step. wp_step. wp_step. simpl w_tick. rewrite H3. cbv beta iota. wp_go.
  split; [by eexists |]. exists msg. simpl. by rewrite Hs.
Qed.

(** The acknowledgement, the fifth command, gets no answer. *)
Definition flaky_env : Env := sample_env (λ n, if decide (n = 4) then Some "i/o timeout" else None).

Definition one_in_stream : World :=
  (RedisStream_EnqueueMsg (E := flaky_env) (SS := sample_streams) MetadataFileUpdateQueue ""
     (payload "m1") empty_world).2.

Lemma ReadMsg_loses_unacknowledged_witness :
  stream_queue one_in_stream MetadataFileUpdateQueue = ["m1"] ∧
  wp (RedisStream_ReadMsg (E := flaky_env) (SS := sample_streams) MetadataFileUpdateQueue "" "c1")
    one_in_stream (λ r w', (∃ err, r = Ret (Err err)) ∧
      ∃ lost, stream_queue one_in_stream MetadataFileUpdateQueue
        = lost :: stream_queue w' MetadataFileUpdateQueue).
Proof.
  split; [by vm_compute |].
  apply (ReadMsg_loses_unacknowledged (E := flaky_env) (SS := sample_streams)
    MetadataFileUpdateQueue "" "c1" "i/o timeout"); try (by vm_compute). by eexists.
Defined.

(** [EnqueueMsgs] does not make sure of the group: on a stream that has none
    the messages are stored, reported as sent, and never delivered, because the
    group that the first reader creates starts after them. *)
Theorem EnqueueMsgs_without_group_lost `{E : Env} `{SS : StreamServer} {SO : StreamServerOk SS}
    topic partition datas w :
  let stream := NewTemplateString topic [AStr partition] in
  no_fault → undelivered (w_streams w) stream (stream_group stream) = None →
  wp (RedisStream_EnqueueMsgs topic partition datas) w (λ r w',
    r = Ret None ∧ stream_queue w' stream = [] ∧
    wp (RedisStream_ReadMsg topic partition "") w' (λ r _, r = Ret (Val None))).
Proof.
  intros stream Hf Hn. unfold RedisStream_EnqueueMsgs. fold stream. wp_step.
  assert (Hloop : ∀ w (Post : ret (list Payload) → World → Prop),
    undelivered (w_streams w) stream (stream_group stream) = None →
    (∀ w', undelivered (w_streams w') stream (stream_group stream) = None → Post (Ret []) w') →
    wp (stream_enqueue_loop stream datas) w Post).
  { clear Hn w. induction datas as [|d datas' IH]; intros w Post Hn HP; simpl; [by apply wp_ret, HP |].
    wp_step. unfold XAdd. wp_step. wp_step. rewrite Hf. cbv beta iota. wp_step. wp_step. wp_step.
    wp_step. apply IH; [| intros w' Hw'; by wp_go; apply HP].
    simpl. by rewrite xadd_list, decide_True, Hn. }
  apply Hloop; [done |]. intros w' Hw'. wp_step.
  assert (Hq : stream_queue w' stream = []) by (unfold stream_queue; by rewrite Hw').
  split_and!; [done | done |]. apply wp_RedisStream_ReadMsg; [done | done |].
  intros m w'' _ Hm. unfold stream in Hq. by rewrite Hq in Hm.
Qed.
