(* ===== verification/Gob.v ===== *)
(** Package encoding/gob, which the program uses to put structs on the queues.
    The codec is a parameter: a pair of functions with the round-trip law.
    The last section gives a codec, so that theorems that rely on the law can
    be run. *)
From S2P Require Import Prelude GoStd Model.
From Stdlib Require Import Ascii.

(** [gob.NewEncoder(&buf).Encode] and [gob.NewDecoder(b).Decode] at a struct
    type. *)
Class Gob (A : Type) := {
  gob_Encode : A → res string;
  gob_Decode : string → res A;
}.

(** The documented round trip, for the values [ok] that gob can carry. *)
Class GobOk (A : Type) (ok : A → Prop) `{Gob A} : Prop :=
  gob_roundtrip : ∀ a, ok a → ∃ b, gob_Encode a = Val b ∧ gob_Decode b = Val a.

(** gob leaves out fields with the zero value and flattens pointers, so a
    pointer to the empty string arrives as [nil]. *)
Definition sendable (m : CacheMetadata) : Prop := cm_PrevID m ≠ Some "".

#[global] Instance sendable_dec m : Decision (sendable m).
Proof. unfold sendable. apply _. Defined.

(** core/notifiers/metadata.go *)
Record MetadataUpdateStatusEvent := {
  ev_FileID : string;
  ev_UserID : string;
  ev_PrevFileID : option string;
  ev_DeviceID : string;
}.

Definition event_sendable (e : MetadataUpdateStatusEvent) : Prop := ev_PrevFileID e ≠ Some "".

#[global] Instance event_sendable_dec e : Decision (event_sendable e).
Proof. unfold event_sendable. apply _. Defined.

(** * A codec

    Every countable type has one: the code of a value, written in binary. *)
Fixpoint bits (p : positive) : string :=
  match p with
  | xH => ""
  | xO p => String "0" (bits p)
  | xI p => String "1" (bits p)
  end.

Fixpoint from_bits (s : string) : option positive :=
  match s with
  | "" => Some xH
  | String "0" s => xO <$> from_bits s
  | String "1" s => xI <$> from_bits s
  | _ => None
  end.

Lemma from_bits_bits p : from_bits (bits p) = Some p.
Proof. induction p as [p IH|p IH|]; simpl; [by rewrite IH.. | done]. Qed.

Definition countable_gob {A} `{Countable A} : Gob A :=
  {| gob_Encode a := Val (bits (encode a));
     gob_Decode b := match from_bits b ≫= decode with
                     | Some a => Val a
                     | None => Err "gob: bad data"
                     end |}.

Lemma countable_gob_ok {A} `{Countable A} ok : GobOk A ok (H := countable_gob).
Proof.
  intros a _. exists (bits (encode a)). split; [done |]. simpl.
  rewrite from_bits_bits. simpl. by rewrite decode_encode.
Qed.

#[global] Instance CacheMetadata_eq_dec : EqDecision CacheMetadata.
Proof. solve_decision. Defined.

#[global] Instance CacheMetadata_countable : Countable CacheMetadata.
Proof.
  apply (inj_countable'
    (λ m, (cm_UserID m, cm_PrevID m, cm_DeviceID m, cm_ID m))
    (λ '(u, p, d, i), {| cm_UserID := u; cm_PrevID := p; cm_DeviceID := d; cm_ID := i |})).
  by intros [].
Defined.

#[global] Instance event_eq_dec : EqDecision MetadataUpdateStatusEvent.
Proof. solve_decision. Defined.

#[global] Instance event_countable : Countable MetadataUpdateStatusEvent.
Proof.
  apply (inj_countable'
    (λ e, (ev_FileID e, ev_UserID e, ev_PrevFileID e, ev_DeviceID e))
    (λ '(f, u, p, d), {| ev_FileID := f; ev_UserID := u; ev_PrevFileID := p;
                         ev_DeviceID := d |})).
  by intros [].
Defined.

Definition cache_gob : Gob CacheMetadata := countable_gob.
Definition event_gob : Gob MetadataUpdateStatusEvent := countable_gob.
