(* ===== verification/FilesInfo.v ===== *)
(** Package core/files: [BuildFilesInfoResponse] of service.metadata.go, which
    turns the rows of a join into one record per file, and pkg/rho. *)
From S2P Require Import Prelude GoStd Model.

(** * pkg/rho *)

Definition rho_Map {A B} (arr : list A) (mapper : A → nat → B) : list B :=
  imap (λ i el, mapper el i) arr.

Fixpoint filter_from {A} (i : nat) (arr : list A) (keep : A → nat → bool) : list A :=
  match arr with
  | [] => []
  | el :: rest =>
    if keep el i then el :: filter_from (S i) rest keep else filter_from (S i) rest keep
  end.

Definition rho_Filter {A} (arr : list A) (keep : A → nat → bool) : list A :=
  filter_from 0 arr keep.

Lemma rho_Filter_filter {A} (P : A → Prop) `{∀ x, Decision (P x)} (l : list A) :
  rho_Filter l (λ x _, bool_decide (P x)) = filter P l.
Proof.
  unfold rho_Filter. generalize 0. induction l as [|x l IH]; intros i; simpl; [done |].
  rewrite filter_cons, IH. case_bool_decide; [by rewrite decide_True | by rewrite decide_False].
Qed.

(** * The loop of BuildFilesInfoResponse *)

Definition file_info (file : FilesWithChunks) (chunks : gmap string FilesWithChunks) :
    FileInfoResponse :=
  {| fir_ID := fwc_ID file; fir_Name := fwc_Filename file; fir_Hash := fwc_FileHash file;
     fir_Size := fwc_FileSize file; fir_Type := fwc_FileType file;
     fir_CurrentFlag := fwc_CurrentFlag file; fir_Chunks := chunks;
     fir_NChunks := fwc_NChunks file; fir_UserID := fwc_UserID file |}.

(** [f.Chunks[k] = chunk] *)
Definition set_chunk (k : string) (chunk : FilesWithChunks) (f : FileInfoResponse) :
    FileInfoResponse :=
  {| fir_ID := fir_ID f; fir_Name := fir_Name f; fir_Hash := fir_Hash f; fir_Size := fir_Size f;
     fir_Type := fir_Type f; fir_CurrentFlag := fir_CurrentFlag f;
     fir_Chunks := <[k := chunk]> (fir_Chunks f);
     fir_NChunks := fir_NChunks f; fir_UserID := fir_UserID f |}.

(** The variables of the loop. *)
Record BuildState := {
  bs_filesInfo : list FileInfoResponse;
  bs_filesSeenIndex : gmap string nat;
  bs_i : nat;
}.

Definition build_step (st : BuildState) (file : FilesWithChunks) : ret BuildState :=
  let versionStr := Sprintf "%d" [AInt (fwc_ChunkID file)] in
  match bs_filesSeenIndex st !! fwc_ID file with
  | None =>
    Ret {| bs_filesInfo := bs_filesInfo st ++ [file_info file {[versionStr := file]}];
           bs_filesSeenIndex := <[fwc_ID file := bs_i st]> (bs_filesSeenIndex st);
           bs_i := S (bs_i st) |}
  | Some arrayIDx =>
    match bs_filesInfo st !! arrayIDx with
    | None => Panics "index out of range"
    | Some f =>
      Ret {| bs_filesInfo := <[arrayIDx := set_chunk versionStr file f]> (bs_filesInfo st);
             bs_filesSeenIndex := bs_filesSeenIndex st;
             bs_i := bs_i st |}
    end
  end.

(** A [nil] row is dereferenced. *)
Fixpoint build_loop (st : BuildState) (files : list (option FilesWithChunks)) : ret BuildState :=
  match files with
  | [] => Ret st
  | None :: _ => Panics "nil pointer dereference"
  | Some file :: rest =>
    match build_step st file with
    | Ret st => build_loop st rest
    | Panics why => Panics why
    end
  end.

Definition BuildFilesInfoResponse (files : list (option FilesWithChunks)) :
    ret (list FileInfoResponse) :=
  match build_loop {| bs_filesInfo := []; bs_filesSeenIndex := ∅; bs_i := 0 |} files with
  | Ret st => Ret (bs_filesInfo st)
  | Panics why => Panics why
  end.

(** * What it computes

    One record per file, in the order in which the files first appear, with
    the columns of the first row of the file, and for every chunk number the
    last row of the file with that number. *)
Fixpoint first_rows (rows : list FilesWithChunks) : list FilesWithChunks :=
  match rows with
  | [] => []
  | r :: rows => r :: filter (λ r', fwc_ID r' ≠ fwc_ID r) (first_rows rows)
  end.

Definition chunk_map (rows : list FilesWithChunks) : gmap string FilesWithChunks :=
  foldl (λ m r, <[Itoa (fwc_ChunkID r) := r]> m) ∅ rows.

Definition rows_of (id : string) (rows : list FilesWithChunks) : list FilesWithChunks :=
  filter (λ r, fwc_ID r = id) rows.

Definition group_by_file (rows : list FilesWithChunks) : list FileInfoResponse :=
  (λ r, file_info r (chunk_map (rows_of (fwc_ID r) rows))) <$> first_rows rows.

(** ** Lemmas *)

Lemma chunk_map_snoc rows r :
  chunk_map (rows ++ [r]) = <[Itoa (fwc_ChunkID r) := r]> (chunk_map rows).
Proof. unfold chunk_map. by rewrite foldl_app. Qed.

Lemma rows_of_snoc id rows r :
  rows_of id (rows ++ [r]) = rows_of id rows ++ (if decide (fwc_ID r = id) then [r] else []).
Proof. unfold rows_of. by rewrite filter_app. Qed.

Lemma elem_of_first_rows rows r : r ∈ first_rows rows → r ∈ rows.
Proof.
  induction rows as [|r0 rows IH]; simpl; [done |]. rewrite !elem_of_cons.
  intros [->|[_ Hr]%list_elem_of_filter]; auto.
Qed.

(** Every file of the rows has a first row. *)
Lemma first_rows_ids rows id : id ∈ fwc_ID <$> first_rows rows ↔ id ∈ fwc_ID <$> rows.
Proof.
  induction rows as [|r rows IH]; simpl; [done |]. rewrite !elem_of_cons, <- IH.
  rewrite !list_elem_of_fmap. setoid_rewrite list_elem_of_filter.
  destruct (decide (id = fwc_ID r)) as [|Hne]; [tauto |].
  split; (intros [?|(r' & ? & ?)]; [done | right; exists r']); [tauto | by subst].
Qed.

Lemma first_rows_NoDup rows : NoDup (fwc_ID <$> first_rows rows).
Proof.
  induction rows as [|r rows IH]; simpl; [constructor |]. constructor.
  - rewrite list_elem_of_fmap. intros (r' & Hr & [? _]%list_elem_of_filter). congruence.
  - eapply sublist_NoDup; [done | apply fmap_sublist, sublist_filter].
Qed.

Lemma first_rows_snoc rows r :
  first_rows (rows ++ [r])
  = first_rows rows ++ (if decide (fwc_ID r ∈ fwc_ID <$> rows) then [] else [r]).
Proof.
  induction rows as [|r0 rows IH]; simpl; [done |].
  rewrite IH, filter_app. f_equal. f_equal.
  destruct (decide (fwc_ID r = fwc_ID r0)) as [Heq|Hne].
  - rewrite (decide_True (P := fwc_ID r ∈ _ :: _)) by (rewrite Heq; by left).
    case_decide; [done |]. rewrite filter_cons, decide_False; [done | tauto].
  - destruct (decide (fwc_ID r ∈ fwc_ID <$> rows)).
    + rewrite decide_True by by right. done.
    + rewrite decide_False by (rewrite elem_of_cons; tauto).
      by rewrite filter_cons, decide_True.
Qed.

(** The invariant of the loop after some rows. *)
Definition build_inv (rows : list FilesWithChunks) (st : BuildState) : Prop :=
  bs_filesInfo st = group_by_file rows ∧
  bs_i st = length (first_rows rows) ∧
  ∀ id k, bs_filesSeenIndex st !! id = Some k ↔ (fwc_ID <$> first_rows rows) !! k = Some id.

(** A new file: one more record, the others unchanged. *)
Lemma group_by_file_new rows r :
  fwc_ID r ∉ fwc_ID <$> rows →
  group_by_file (rows ++ [r])
  = group_by_file rows ++ [file_info r {[Itoa (fwc_ChunkID r) := r]}].
Proof.
  intros Hr. unfold group_by_file. rewrite first_rows_snoc, decide_False by done.
  rewrite fmap_app. simpl. f_equal.
  - apply list_fmap_ext. intros i r0 Hr0. rewrite rows_of_snoc, decide_False, app_nil_r; [done |].
    intros Heq. apply Hr. rewrite Heq. apply list_elem_of_fmap_2.
    apply elem_of_first_rows. by eapply list_elem_of_lookup_2.
  - rewrite rows_of_snoc, decide_True by done. f_equal.
    assert (rows_of (fwc_ID r) rows = []) as ->.
    { apply elem_of_nil_inv. intros r' [Heq Hr']%list_elem_of_filter. apply Hr.
      rewrite <- Heq. by apply list_elem_of_fmap_2. }
    done.
Qed.

(** A file seen before: the record at its index gets the chunk. *)
Lemma group_by_file_seen rows r k f :
  (fwc_ID <$> first_rows rows) !! k = Some (fwc_ID r) →
  group_by_file rows !! k = Some f →
  group_by_file (rows ++ [r]) = <[k := set_chunk (Itoa (fwc_ChunkID r)) r f]> (group_by_file rows).
Proof.
  intros Hk Hf. unfold group_by_file in *.
  assert (Hr : fwc_ID r ∈ fwc_ID <$> rows)
    by (apply first_rows_ids; by eapply list_elem_of_lookup_2).
  rewrite first_rows_snoc, decide_True, app_nil_r by done.
  apply list_lookup_fmap_Some in Hk as (rk & Hid & Hrk).
  rewrite list_lookup_fmap, Hrk in Hf. simplify_eq/=.
  apply list_eq. intros j. destruct (decide (j = k)) as [->|Hj].
  - rewrite list_lookup_insert_eq by (rewrite length_fmap; by eapply lookup_lt_Some).
    rewrite list_lookup_fmap, Hrk. simpl. rewrite <- Hid, rows_of_snoc, decide_True by done.
    by rewrite chunk_map_snoc.
  - rewrite list_lookup_insert_ne by done. rewrite !list_lookup_fmap.
    destruct (first_rows rows !! j) as [rj|] eqn:Hrj; simpl; [| done].
    rewrite rows_of_snoc, decide_False, app_nil_r; [done |]. intros Heq. apply Hj.
    eapply NoDup_lookup; [apply (first_rows_NoDup rows) | by rewrite list_lookup_fmap, Hrj |].
    rewrite list_lookup_fmap, Hrk. simpl. congruence.
Qed.

Lemma build_step_inv rows st r :
  build_inv rows st → ∃ st', build_step st r = Ret st' ∧ build_inv (rows ++ [r]) st'.
Proof.
  intros (Hinfo & Hi & Hseen). unfold build_step. rewrite version_str.
  destruct (bs_filesSeenIndex st !! fwc_ID r) as [k|] eqn:Hk.
  - apply Hseen in Hk as Hk'. rewrite Hinfo.
    destruct (group_by_file rows !! k) as [f|] eqn:Hf.
    2: { apply lookup_ge_None in Hf. apply lookup_lt_Some in Hk'.
         unfold group_by_file in Hf. rewrite length_fmap in Hf. rewrite length_fmap in Hk'. lia. }
    eexists. split; [done |]. split; simpl; [by erewrite group_by_file_seen |].
    assert (Hr : fwc_ID r ∈ fwc_ID <$> rows)
      by (apply first_rows_ids; by eapply list_elem_of_lookup_2).
    by rewrite first_rows_snoc, decide_True, app_nil_r.
  - assert (Hr : fwc_ID r ∉ fwc_ID <$> rows).
    { rewrite <- first_rows_ids. intros (k & Hk')%list_elem_of_lookup_1.
      apply Hseen in Hk'. congruence. }
    eexists. split; [done |]. split; simpl; [by rewrite group_by_file_new, Hinfo |].
    rewrite first_rows_snoc, decide_False by done. split; [rewrite length_app; simpl; lia |].
    intros id k. rewrite fmap_app. simpl. rewrite lookup_app, length_fmap, <- Hi.
    destruct (decide (id = fwc_ID r)) as [->|Hid].
    + rewrite lookup_insert_eq. split.
      * intros [= <-]. rewrite Hi. rewrite lookup_ge_None_2 by (rewrite length_fmap; lia).
        by rewrite Nat.sub_diag.
      * destruct ((fwc_ID <$> first_rows rows) !! k) eqn:Hk'.
        { intros [= ->]. apply Hseen in Hk'. congruence. }
        apply lookup_ge_None in Hk'. rewrite length_fmap in Hk'.
        intros Hk2%lookup_lt_Some. simpl in Hk2. f_equal. lia.
    + rewrite lookup_insert_ne by done. rewrite Hseen.
      destruct ((fwc_ID <$> first_rows rows) !! k) eqn:Hk'; [done |].
      split; [done |]. intros Hk2%list_elem_of_lookup_2. by apply list_elem_of_singleton in Hk2.
Qed.

Lemma build_loop_inv done_ rows st :
  build_inv done_ st →
  ∃ st', build_loop st (Some <$> rows) = Ret st' ∧ build_inv (done_ ++ rows) st'.
Proof.
  revert done_ st. induction rows as [|r rows IH]; intros done_ st Hinv; simpl.
  - rewrite app_nil_r. eauto.
  - destruct (build_step_inv done_ st r Hinv) as (st1 & -> & Hinv1).
    destruct (IH _ _ Hinv1) as (st2 & Hst2 & Hinv2). rewrite <- app_assoc in Hinv2. by exists st2.
Qed.

Lemma build_rows rows : BuildFilesInfoResponse (Some <$> rows) = Ret (group_by_file rows).
Proof.
  unfold BuildFilesInfoResponse.
  destruct (build_loop_inv [] rows {| bs_filesInfo := []; bs_filesSeenIndex := ∅; bs_i := 0 |})
    as (st & -> & Hinfo & _); [| by rewrite Hinfo].
  split_and!; [done | done |]. by intros id k.
Qed.

Lemma build_nil rows rest :
  BuildFilesInfoResponse ((Some <$> rows) ++ None :: rest) = Panics "nil pointer dereference".
Proof.
  unfold BuildFilesInfoResponse.
  assert (Hgen : ∀ st done_, build_inv done_ st →
    build_loop st ((Some <$> rows) ++ None :: rest) = Panics "nil pointer dereference").
  { induction rows as [|r rows IH]; intros st done_ Hinv; simpl; [done |].
    destruct (build_step_inv done_ st r Hinv) as (st1 & -> & Hinv1). by eapply IH, Hinv1. }
  rewrite (Hgen _ []); [done |]. split_and!; [done | done |]. by intros id k.
Qed.

(** ** Reading a group *)

Lemma fir_ID_group rows : fir_ID <$> group_by_file rows = fwc_ID <$> first_rows rows.
Proof. unfold group_by_file. rewrite <- list_fmap_compose. by apply list_fmap_ext. Qed.

(** A chunk of a record is a row of that file with that chunk number. *)
Lemma chunk_map_Some rows k r :
  chunk_map rows !! k = Some r → r ∈ rows ∧ k = Itoa (fwc_ChunkID r).
Proof.
  induction rows as [|r0 rows IH] using rev_ind; [done |].
  rewrite chunk_map_snoc, lookup_insert_Some, elem_of_app. intros [[<- <-]|[_ H]].
  - split; [right; by left | done].
  - destruct (IH H). auto.
Qed.

Lemma chunk_map_is_Some rows k :
  is_Some (chunk_map rows !! k) ↔ ∃ r, r ∈ rows ∧ k = Itoa (fwc_ChunkID r).
Proof.
  split; [intros [r Hr]; exists r; by apply chunk_map_Some |].
  intros (r & Hr & ->). induction rows as [|r0 rows IH] using rev_ind; [by apply elem_of_nil in Hr |].
  rewrite chunk_map_snoc, lookup_insert_is_Some.
  apply elem_of_app in Hr as [Hr| ->%list_elem_of_singleton]; [| by left].
  destruct (decide (Itoa (fwc_ChunkID r0) = Itoa (fwc_ChunkID r))); [by left | right; auto].
Qed.

Lemma group_by_file_Some rows f :
  f ∈ group_by_file rows →
  fir_Chunks f = chunk_map (rows_of (fir_ID f) rows) ∧ fir_ID f ∈ fwc_ID <$> rows.
Proof.
  unfold group_by_file. intros (r & -> & Hr)%list_elem_of_fmap. split; [done |].
  simpl. apply list_elem_of_fmap_2. by apply elem_of_first_rows.
Qed.

(** (C13) [BuildFilesInfoResponse] turns the rows of a join into one record per
    file: it equals the reference definition [group_by_file] (the columns of
    the first row of each file, in the order of the first rows, with the last
    row for every chunk number), so no file appears twice, every file of the
    rows appears, and a record has an entry for a chunk exactly when a row of
    the file has that chunk number.  A [nil] row makes it panic. *)
Theorem BuildFilesInfoResponse_groups rows :
  BuildFilesInfoResponse (Some <$> rows) = Ret (group_by_file rows) ∧
  NoDup (fir_ID <$> group_by_file rows) ∧
  (∀ id, id ∈ fir_ID <$> group_by_file rows ↔ id ∈ fwc_ID <$> rows) ∧
  (∀ f k, f ∈ group_by_file rows →
    (is_Some (fir_Chunks f !! k)
     ↔ ∃ r, r ∈ rows ∧ fwc_ID r = fir_ID f ∧ Itoa (fwc_ChunkID r) = k)) ∧
  (∀ rest, BuildFilesInfoResponse ((Some <$> rows) ++ None :: rest)
           = Panics "nil pointer dereference").
Proof.
  split_and!.
  - apply build_rows.
  - rewrite fir_ID_group. apply first_rows_NoDup.
  - intros id. rewrite fir_ID_group. apply first_rows_ids.
  - intros f k [-> _]%group_by_file_Some. rewrite chunk_map_is_Some. unfold rows_of.
    setoid_rewrite list_elem_of_filter. split; intros (r & ? & ?); exists r; intuition.
  - intros rest. apply build_nil.
Qed.

(** The record of a file in a group comes from one of its rows. *)
Lemma elem_of_group rows f :
  f ∈ group_by_file rows → ∃ r, r ∈ rows ∧ f = file_info r (chunk_map (rows_of (fwc_ID r) rows)).
Proof.
  unfold group_by_file. intros (r & -> & Hr)%list_elem_of_fmap.
  exists r. split; [by apply elem_of_first_rows | done].
Qed.

(** Rows of at most two files: both are there, and then there are exactly two
    records, or one of them is missing. *)
Lemma group_by_file_two id p rows :
  id ≠ p → (∀ r, r ∈ rows → fwc_ID r = id ∨ fwc_ID r = p) →
  match group_by_file rows with
  | r0 :: r1 :: _ =>
    let '(this, prev) := if decide (fir_ID r0 = id) then (r0, r1) else (r1, r0) in
    fir_ID this = id ∧ fir_ID prev = p ∧ this ∈ group_by_file rows ∧ prev ∈ group_by_file rows
  | _ => (∀ r, r ∈ rows → fwc_ID r ≠ id) ∨ (∀ r, r ∈ rows → fwc_ID r ≠ p)
  end.
Proof.
  intros Hne Hids.
  assert (Hf : ∀ f, f ∈ group_by_file rows → fir_ID f = id ∨ fir_ID f = p)
    by (intros f (r & Hr & ->)%elem_of_group; by apply Hids).
  pose proof (fir_ID_group rows) as Hfirst. pose proof (first_rows_NoDup rows) as Hnd.
  pose proof (first_rows_ids rows) as Hin. rewrite <- Hfirst in Hnd.
  setoid_rewrite <- Hfirst in Hin. clear Hfirst.
  destruct (group_by_file rows) as [|r0 [|r1 l]] eqn:Hg.
  - left. intros r Hr _. eapply not_elem_of_nil, Hin, list_elem_of_fmap_2, Hr.
  - assert (Hone : ∀ r, r ∈ rows → fwc_ID r = fir_ID r0).
    { intros r Hr. by apply list_elem_of_singleton, (Hin (fwc_ID r)), list_elem_of_fmap_2. }
    destruct (Hf r0) as [H0|H0]; [by left | right | left];
      intros r Hr; rewrite (Hone r Hr), H0; congruence.
  - simpl in Hnd. apply NoDup_cons in Hnd as [Hr0 _]. rewrite not_elem_of_cons in Hr0.
    destruct Hr0 as [Hr01 _].
    assert (H0 : r0 ∈ r0 :: r1 :: l) by left. assert (H1 : r1 ∈ r0 :: r1 :: l) by (right; left).
    pose proof (Hf r0 H0). pose proof (Hf r1 H1).
    case_decide; split_and!; try done; intuition congruence.
Qed.
