(* ===== verification/FilesService.v ===== *)
(** Package core/files, the service layer: [MetadataService] of
    service.metadata.go. *)
From S2P Require Import Prelude GoStd Api Model World Squirtle Queries.
From S2P Require Import Tokens FilesRepo Queue Gob FilesInfo.

(** [make([]string, n)]: the runtime refuses a negative length and one whose
    array does not fit the address space of 2^48 bytes (a string header is 16
    bytes). *)
Definition make_strings (n : Z) : ret (list string) :=
  if decide (0 ≤ n ≤ 2 ^ 44)%Z then Ret (replicate (Z.to_nat n) "")
  else Panics "makeslice: len out of range".

(** [for _, chunk := range fileInfoResp.Chunks { chunks[chunk.ChunkID] = chunk.ChunkBlobUrl }] *)
Fixpoint store_loop (chunks : list string) (entries : list (string * FilesWithChunks)) :
    ret (list string) :=
  match entries with
  | [] => Ret chunks
  | (_, chunk) :: rest =>
    match store chunks (fwc_ChunkID chunk) (fwc_ChunkBlobUrl chunk) with
    | Ret chunks => store_loop chunks rest
    | Panics why => Panics why
    end
  end.

Section service.
Context `{E : Env} `{MR : MapRange} `{Q : Queuer} `{G : Gob CacheMetadata}.
Context (mq tq : QueryMapper).

Definition GetFileChunks (fileID : string) : Go (res FilesWithChunks) :=
  filesWithChunks ← MetadataRepository_SelectFiles mq [Some fileID];
  match filesWithChunks with
  | Err _ => mret (Err "internal_error:2025:500")
  | Val [] => mret (Err "not_found:2027:404")
  | Val (file :: _) => mret (Val file)
  end.

(** The last record with the identifier is the one the loop keeps. *)
Definition ListOrderedFileChunks (fileID userID : string) :
    Go (res (list string * FileInfoResponse)) :=
  filesWithChunks ← MetadataRepository_SelectFiles mq [Some fileID];
  match filesWithChunks with
  | Err _ => mret (Err "internal_error:2025:500")
  | Val filesWithChunks =>
    let filesWithChunks :=
      rho_Filter filesWithChunks (λ chunk _, bool_decide (fwc_UserID chunk = userID)) in
    metadataResponses ← eval (BuildFilesInfoResponse (Some <$> filesWithChunks));
    match metadataResponses with
    | [] => mret (Err "file_corrupted:2045:500")
    | _ =>
      let fileInfoResp :=
        foldl (λ found resp, if decide (fir_ID resp = fileID) then Some resp else found)
          None metadataResponses in
      match fileInfoResp with
      | None => mret (Err "file_not_found:2046:500")
      | Some fileInfoResp =>
        chunks ← eval (make_strings (fir_NChunks fileInfoResp));
        chunks ← eval (store_loop chunks (range (fir_Chunks fileInfoResp)));
        mret (Val (chunks, fileInfoResp))
      end
    end
  end.

Definition clause_eq (key value : string) : FindKV :=
  {| kv_Key := key; kv_PlaceHolder := ""; kv_Operator := "="; kv_Val := value |}.

Definition MarkUploadComplete (userFileDevice : UserFileDevice) :
    Go (Response (gmap string bool)) :=
  results ← MetadataRepository_FindBy mq
    [clause_eq "id" (ufd_FileID userFileDevice); clause_eq "upload_status" StatusUploading];
  match results with
  | Err _ | Val [] => mret (failed "file_not_found:2019:404")
  | Val (metadata :: _) =>
    let qdata := {| cm_UserID := fm_UserID metadata; cm_PrevID := fm_PrevID metadata;
                    cm_DeviceID := ufd_DeviceID userFileDevice;
                    cm_ID := ufd_FileID userFileDevice |} in
    match gob_Encode qdata with
    | Err _ => mret (failed "internal_error:2021:500")
    | Val buf =>
      err ← EnqueueMsg "" (payload buf);
      match err with
      | Some _ => mret (failed "internal_error:2021:500")
      | None => mret (succeeded {["eof" := true]})
      end
    end
  end.

(** Every error of [FindByHash] is answered as a duplicate. *)
Definition PrepareFileForUpload (req : MetadataRequest) : Go (Response MetadataTokenResponse) :=
  let chunks := CalculateChunks (mr_FileSize req) in
  r ← MetadataRepository_FindByHash mq (mr_Digest req);
  match r.2 with
  | Some _ => mret (failed "duplicate:2014:422")
  | None =>
    id ← NewID;
    match id with
    | Err _ => mret (failed "id_gen_failed:2002:500")
    | Val id =>
      if decide (chunks ≠ mr_Chunks req) then mret (failed "chunks_size_invalid:2005:422")
      else
        created ← NewTimestamp;
        let metadata :=
          {| fm_ID := id; fm_UserID := mr_UserID req; fm_Filename := mr_FileName req;
             fm_FileSize := mr_FileSize req; fm_FileType := mr_FileType req;
             fm_FileHash := mr_Digest req; fm_NChunks := chunks;
             fm_CurrentFlag := false; fm_UploadStaus := mr_UploadStatus req;
             fm_PrevID := None; fm_EndDate := None;
             fm_CreatedAt := created; fm_UpdatedAt := created |} in
        token ← NewToken (fm_ID metadata) ResourceTypeStream
                  [WithDefaultExpiry; WithUserID (Some (mr_UserID req))];
        match token with
        | Err _ => mret (failed "internal_server_error:2010:500")
        | Val token =>
          err ← CreateMetadataToken mq tq metadata token;
          match err with
          | Some _ => mret (failed "internal_server_error:2011:500")
          | None => mret (succeeded
              {| mtr_AccessToken := ""; mtr_StreamToken := tok_AccessToken token;
                 mtr_PrevID := None; mtr_FileID := id; mtr_FileType := fm_FileType metadata;
                 mtr_Digest := fm_FileHash metadata; mtr_UploadStatus := StatusUploading;
                 mtr_CreatedAt := tok_CreatedAt token; mtr_ExpiresIn := ShortExpiryDuration |})
          end
        end
    end
  end.

Definition UpdateFileMetadata (req : FileUpdateMetadataRequest) :
    Go (Response MetadataTokenResponse) :=
  let chunks := CalculateChunks (fur_FileSize req) in
  if decide (chunks ≠ fur_Chunks req) then mret (failed "invalid_file_data:2006:422")
  else
    results ← MetadataRepository_FindBy mq [clause_eq "id" (fur_FileID req)];
    match results with
    | Err _ => mret (failed "file_not_found:2022:422")
    | Val [] => mret (failed "file_not_found:2023:404")
    | Val (prevMetadata :: _) =>
      id ← NewID;
      match id with
      | Err _ => mret (failed "id_gen_failed:2002:500")
      | Val id =>
        if decide (fm_FileHash prevMetadata = fur_Digest req)
        then mret (failed "duplicate:2014:422")
        else
          created ← NewTimestamp;
          let metadata :=
            {| fm_ID := id; fm_UserID := fur_UserID req; fm_Filename := fm_Filename prevMetadata;
               fm_FileSize := fur_FileSize req; fm_FileType := fm_FileType prevMetadata;
               fm_FileHash := fur_Digest req; fm_NChunks := fur_Chunks req;
               fm_CurrentFlag := false; fm_UploadStaus := StatusUploading;
               fm_PrevID := Some (fur_FileID req); fm_EndDate := None;
               fm_CreatedAt := created; fm_UpdatedAt := created |} in
          token ← NewToken (fm_ID metadata) ResourceTypeStream
                    [WithDefaultExpiry; WithUserID (Some (fur_UserID req))];
          match token with
          | Err _ => mret (failed "internal_server_error:2011:500")
          | Val token =>
            err ← CreateMetadataToken mq tq metadata token;
            match err with
            | Some _ => mret (failed "internal_server_error:2011:500")
            | None => mret (succeeded
                {| mtr_AccessToken := ""; mtr_StreamToken := tok_AccessToken token;
                   mtr_PrevID := fm_PrevID metadata; mtr_FileID := fm_ID metadata;
                   mtr_FileType := ""; mtr_Digest := ""; mtr_UploadStatus := StatusUploading;
                   mtr_CreatedAt := tok_CreatedAt token; mtr_ExpiresIn := ShortExpiryDuration |})
            end
          end
      end
    end.

Context `{SG : SliceGrowth}.

Definition ListFilesForUser (userID : string) (pageOpts : PageOpts) :
    Go (Response ListResponse) :=
  r ← MetadataRepository_ListByUserID mq userID pageOpts;
  match r with
  | Err e => mret (failed e)
  | Val ([], _) => mret (succeeded {| lr_FilesInfo := []; lr_HasMore := false |})
  | Val (files, hasMore) =>
    filesInfo ← eval (BuildFilesInfoResponse files);
    mret (succeeded {| lr_FilesInfo := filesInfo; lr_HasMore := hasMore |})
  end.

End service.

(** * Listing a page *)

Section listing.
Context `{E : Env} `{SG : SliceGrowth}.
Implicit Types w : World.

(** The page size in force. *)
Definition page_limit (p : PageOpts) : Z :=
  if decide (po_Limit p = 0%Z) then DefaultLimit else po_Limit p.

End listing.

(** A page is listed only if it can be filled: when the statement yields
    fewer rows than the limit (a user with few chunks, or the last page), the
    slice expression [results[0:limit]] reaches past the rows, and the request
    panics, either there or on the [nil] records it lets through, for every
    growth policy of [append].  The tables are not changed. *)
Theorem ListFilesForUser_short_page `{E : Env} `{SG : SliceGrowth} mq user p w :
  no_fault → has_query mq GetFilesForUserStmt →
  (Z.of_nat (length (sql_GetFilesForUser user (wrap64 (page_limit p + 1)) (po_Offset p) (w_db w)))
   < page_limit p)%Z →
  wp (ListFilesForUser mq user p) w (λ r w',
    (∃ why, r = Panics why) ∧ w_db w' = w_db w).
Proof.
  intros Hf [stmt Hq] Hlen. unfold ListFilesForUser, MetadataRepository_ListByUserID.
  rewrite Hq. fold (page_limit p). wp_step. wp_step. wp_step; [intros; quiet |]. intros _.
  wp_step. apply wp_rows_scan; [intros; quiet; done |].
  intros k w1 Hw1 [Hk|]; [| done]. apply later_db in Hw1. rewrite Hk.
  cbv beta iota. wp_step. wp_step. set (rows := sql_GetFilesForUser _ _ _ _) in *.
  destruct (slice_to_short (cap_of (length rows)) rows _ Hlen) as [->|[j ->]];
    [split; [by eexists | done] |].
  change (replicate (S j) None) with (None :: replicate j (@None FilesWithChunks)).
  pose proof (build_nil rows (replicate j None)) as Hb. wp_step.
  destruct (_ ++ _) as [|x files] eqn:Hl; [by apply app_eq_nil in Hl as [_ ?] |].
  wp_step. wp_step. rewrite Hb. split; [by eexists | done].
Qed.

(** The sample user has three rows, the default page twenty. *)
Lemma ListFilesForUser_short_page_witness :
  wp (ListFilesForUser (E := quiet_env) (SG := doubling_growth) metadataQueryStore "U11223455"
        {| po_Offset := 0%Z; po_Limit := 0%Z |}) sample_world
    (λ r w', (∃ why, r = Panics why) ∧ w_db w' = sample_db).
Proof.
  apply (ListFilesForUser_short_page (E := quiet_env) (SG := doubling_growth));
    [done | by apply (bool_decide_unpack _); vm_compute | by vm_compute].
Defined.

(** A page that can be filled: when no call fails and the statement
    yields at least [limit] rows, the response holds the first [limit] rows
    grouped by file, and [HasMore] tells whether a row follows the page. *)
Theorem ListFilesForUser_full_page `{E : Env} `{SG : SliceGrowth} mq user p w :
  no_fault → has_query mq GetFilesForUserStmt → (0 < page_limit p)%Z →
  let rows := sql_GetFilesForUser user (wrap64 (page_limit p + 1)) (po_Offset p) (w_db w) in
  (page_limit p ≤ Z.of_nat (length rows))%Z →
  wp (ListFilesForUser mq user p) w (λ r w',
    r = Ret (succeeded
      {| lr_FilesInfo := group_by_file (take (Z.to_nat (page_limit p)) rows);
         lr_HasMore := bool_decide (page_limit p < Z.of_nat (length rows))%Z |}) ∧
    w_db w' = w_db w).
Proof.
  intros Hf [stmt Hq] Hpos rows Hlen. unfold ListFilesForUser, MetadataRepository_ListByUserID.
  rewrite Hq. fold (page_limit p). wp_step. wp_step. wp_step; [intros; quiet |]. intros _.
  wp_step. apply wp_rows_scan; [intros; quiet; done |].
  intros k w1 Hw1 [Hk|]; [| done]. apply later_db in Hw1. rewrite Hk. fold rows.
  cbv beta iota. wp_step. wp_step.
  rewrite slice_to_full by (pose proof (cap_of_ge (length rows)); lia).
  pose proof (build_rows (take (Z.to_nat (page_limit p)) rows)) as Hb.
  wp_step. destruct (Some <$> _) as [|x files] eqn:Hl.
  - apply fmap_nil_inv in Hl. apply (f_equal length) in Hl. rewrite length_take in Hl.
    simpl in Hl. lia.
  - wp_step. wp_step. rewrite Hb. by wp_go.
Qed.

Lemma ListFilesForUser_full_page_witness :
  let rows := sql_GetFilesForUser (E := quiet_env) "U11223455" 2%Z 0%Z sample_db in
  wp (ListFilesForUser (E := quiet_env) (SG := doubling_growth) metadataQueryStore "U11223455"
        {| po_Offset := 0%Z; po_Limit := 1%Z |}) sample_world (λ r w',
    r = Ret (succeeded {| lr_FilesInfo := group_by_file (take 1 rows); lr_HasMore := true |}) ∧
    w_db w' = sample_db).
Proof.
  exact (ListFilesForUser_full_page (E := quiet_env) (SG := doubling_growth)
    metadataQueryStore "U11223455" {| po_Offset := 0%Z; po_Limit := 1%Z |} sample_world
    (λ _, eq_refl) ltac:(by apply (bool_decide_unpack _); vm_compute)
    ltac:(by vm_compute) ltac:(by vm_compute)).
Defined.

(** * Announcing a new file and a new version

    What a successful announcement adds to the tables: one row that is not
    current yet and has no end date, and one stream token for it. *)
Record announced (w w' : World) (m : FileMetadata) (t : Token) `{E : Env} : Prop := {
  ann_rows : db_file_metadatas (w_db w') = db_file_metadatas (w_db w) ++ [m];
  ann_tokens : db_tokens (w_db w') = db_tokens (w_db w) ++ [t];
  ann_chunks : db_user_files (w_db w') = db_user_files (w_db w);
  ann_users : db_users (w_db w') = db_users (w_db w);
  ann_token : stream_token_for (fm_ID m) (Some (fm_UserID m)) t;
  ann_current : fm_CurrentFlag m = false;
  ann_end : fm_EndDate m = None;
}.

Section announcing.
Context `{E : Env} {EO : EnvOk E}.
Implicit Types w : World.

(** The rows the services find by identifier. *)
Lemma elem_of_FindBy_id m id d :
  m ∈ sql_FindBy [clause_eq "id" id] d ↔ m ∈ db_file_metadatas d ∧ fm_ID m = id.
Proof.
  rewrite elem_of_sql_FindBy, Forall_singleton. simpl. unfold FindClause_Args. simpl.
  rewrite lookup_insert_eq. simpl. by rewrite where_id, bool_decide_eq_true.
Qed.

Lemma announced_from w w0 w' m t :
  w_db w0 = w_db w → announced w0 w' m t → announced w w' m t.
Proof. intros Hdb [? ? ? ? ? ? ?]. split; by rewrite <- ?Hdb. Qed.

Lemma wp_announce mq tq m t w (Post : ret (option error) → World → Prop) :
  stream_token_for (fm_ID m) (Some (fm_UserID m)) t →
  fm_CurrentFlag m = false → fm_EndDate m = None →
  (∀ e w', later w w' → ¬ (no_fault ∧ has_query mq CreateFileMetadataStmt
                           ∧ has_query tq CreateTokenStmt) → Post (Ret (Some e)) w') →
  (∀ w', announced w w' m t → Post (Ret None) w') →
  wp (CreateMetadataToken mq tq m t) w Post.
Proof.
  intros Ht Hc He Herr Hok. apply wp_CreateMetadataToken; [done |].
  intros w' Hdb%later_db. apply Hok. split; rewrite ?Hdb; try done.
  simpl. f_equal. f_equal. destruct t, Ht; simpl in *. by subst.
Qed.

End announcing.

(** Closes the branch of a refusal: a response without data from unchanged
    tables, for a reason that is among the hypotheses. *)
Ltac refused :=
  eexists; split; [reflexivity |]; simpl; split;
  [first [done | congruence] | intros; quiet; try first [by left | by right | tauto]].

(** (C18) Announcing a file for upload.  A success stores exactly one new row,
    carrying the size, hash, user and chunk count of the request, not current,
    without a previous version, together with one stream token for that file
    and user, whose secret is the one in the response; it is given only if the
    chunk count of the request is the one [CalculateChunks] finds, and no row
    has the digest already (unless the driver failed on that very query).  A
    refusal changes no table, and when no external call fails and the
    statements are in the store it happens only for a duplicate digest or a
    wrong chunk count. *)
Theorem PrepareFileForUpload_spec `{E : Env} {EO : EnvOk E} mq tq req w :
  wp (PrepareFileForUpload mq tq req) w (λ r w', ∃ rsp, r = Ret rsp ∧
    match rsp_Data rsp with
    | Some resp => ∃ m t,
        announced w w' m t ∧ fm_PrevID m = None ∧
        fm_UserID m = mr_UserID req ∧ fm_FileHash m = mr_Digest req ∧
        fm_FileSize m = mr_FileSize req ∧ fm_NChunks m = mr_Chunks req ∧
        fm_UploadStaus m = mr_UploadStatus req ∧
        mtr_FileID resp = fm_ID m ∧ mtr_StreamToken resp = tok_AccessToken t ∧
        CalculateChunks (mr_FileSize req) = mr_Chunks req ∧
        (sql_FindByHash (mr_Digest req) (w_db w) = 0 ∨ is_Some (fault (w_tick w)))
    | None =>
        w_db w' = w_db w ∧
        (no_fault → has_query mq FindByHashStmt → has_query mq CreateFileMetadataStmt →
         has_query tq CreateTokenStmt →
         0 < sql_FindByHash (mr_Digest req) (w_db w) ∨
         CalculateChunks (mr_FileSize req) ≠ mr_Chunks req)
    end).
Proof.
  unfold PrepareFileForUpload. cbv zeta. wp_step. apply wp_FindByHash.
  1-2: intros w1 Hw1 ?; later_subst; simpl snd; wp_go; refused.
  intros w1 Hw1 Hdup. later_subst. cbv beta iota. simpl snd. wp_step. wp_step.
  { intros e He. wp_go. refused. }
  intros _. wp_step; [wp_go; refused |].
  assert (Hch : CalculateChunks (mr_FileSize req) = mr_Chunks req) by by apply dec_stable.
  wp_step. wp_step. wp_step. apply wp_NewToken_stream.
  { intros e w2 Hw2 ?. later_subst. wp_go. refused. }
  intros t w2 Hw2 Ht. wp_step. apply wp_announce; [done.. | |].
  { intros e w3 Hw3 ?. later_subst. wp_go. refused. }
  intros w3 Ha. later_subst. wp_go. eexists. split; [done |]. simpl.
  eexists _, t. split; [eapply announced_from, Ha; done |]. simpl. by rewrite <- Hch.
Qed.

(** The request of core/files/service.metadata_test.go: a file of 9 MB. *)
Definition sample_request : MetadataRequest :=
  {| mr_UserID := "U11223455"; mr_FileName := "b.pdf"; mr_FileType := "application/pdf";
     mr_FileSize := 9437184%Z; mr_Digest := "hash-new"; mr_UploadStatus := StatusUploading;
     mr_Chunks := 3%Z; mr_AccessToken := "" |}.

Lemma PrepareFileForUpload_spec_witness :
  ∃ m t, announced (E := quiet_env) sample_world
    (PrepareFileForUpload (E := quiet_env) metadataQueryStore tokensQs sample_request
       sample_world).2 m t ∧ fm_NChunks m = 3%Z.
Proof.
  destruct (PrepareFileForUpload_spec (E := quiet_env) metadataQueryStore tokensQs
    sample_request sample_world) as (rsp & Hr & H).
  vm_compute in Hr. injection Hr as <-. simpl in H.
  destruct H as (m & t & Ha & _ & _ & _ & _ & Hn & _). by exists m, t.
Defined.

(** (C19) Announcing a new version.  A success stores exactly one new row,
    linked to the file of the request, with the name and type of that file and
    the size, hash and chunk count of the request, not current, and one stream
    token for it; it is given only if the file exists, the digest differs from
    its hash, and the chunk count is the one [CalculateChunks] finds.  A
    refusal changes no table, and when no external call fails and the
    statements are in the store it has one of those three reasons. *)
Theorem UpdateFileMetadata_spec `{E : Env} {EO : EnvOk E} mq tq req w :
  wp (UpdateFileMetadata mq tq req) w (λ r w', ∃ rsp, r = Ret rsp ∧
    match rsp_Data rsp with
    | Some resp => ∃ prev m t,
        prev ∈ db_file_metadatas (w_db w) ∧ fm_ID prev = fur_FileID req ∧
        fm_FileHash prev ≠ fur_Digest req ∧
        CalculateChunks (fur_FileSize req) = fur_Chunks req ∧
        announced w w' m t ∧ fm_PrevID m = Some (fm_ID prev) ∧
        fm_Filename m = fm_Filename prev ∧ fm_FileType m = fm_FileType prev ∧
        fm_UserID m = fur_UserID req ∧ fm_FileHash m = fur_Digest req ∧
        fm_FileSize m = fur_FileSize req ∧ fm_NChunks m = fur_Chunks req ∧
        fm_UploadStaus m = StatusUploading ∧
        mtr_PrevID resp = Some (fm_ID prev) ∧ mtr_FileID resp = fm_ID m ∧
        mtr_StreamToken resp = tok_AccessToken t
    | None =>
        w_db w' = w_db w ∧
        (no_fault → has_query mq FindByStmt → has_query mq CreateFileMetadataStmt →
         has_query tq CreateTokenStmt →
         CalculateChunks (fur_FileSize req) ≠ fur_Chunks req ∨
         (∀ prev, prev ∈ db_file_metadatas (w_db w) → fm_ID prev ≠ fur_FileID req) ∨
         ∃ prev, prev ∈ db_file_metadatas (w_db w) ∧ fm_ID prev = fur_FileID req ∧
                 fm_FileHash prev = fur_Digest req)
    end).
Proof.
  unfold UpdateFileMetadata. cbv zeta. wp_step; [wp_go; refused |].
  assert (Hch : CalculateChunks (fur_FileSize req) = fur_Chunks req) by by apply dec_stable.
  wp_step. apply wp_FindBy; [done | by repeat constructor | |].
  { intros e w1 Hw1 ?. later_subst. wp_go. refused. }
  intros w1 Hw1. later_subst.
  pose proof (λ m, elem_of_FindBy_id m (fur_FileID req) (w_db w)) as Hfind.
  cbv beta iota. change (w_db (world_with_tick n0 w)) with (w_db w).
  destruct (sql_FindBy _ _) as [|prev l].
  { wp_go. refused. right. left. intros prev Hp Hid. by eapply not_elem_of_nil, Hfind. }
  destruct (proj1 (Hfind prev)) as [Hprev Hid]; [by left |].
  wp_step. wp_step; [intros e He; wp_go; refused |]. intros _.
  wp_step; [wp_go; refused; right; right; by exists prev |].
  wp_step. wp_step. wp_step. apply wp_NewToken_stream.
  { intros e w2 Hw2 ?. later_subst. wp_go. refused. }
  intros t w2 Hw2 Ht. wp_step. apply wp_announce; [done.. | |].
  { intros e w3 Hw3 ?. later_subst. wp_go. refused. }
  intros w3 Ha. later_subst. wp_go. eexists. split; [done |]. simpl.
  eexists prev, _, t. split_and!; [done | done | done | done | | ..].
  { eapply announced_from, Ha. done. }
  all: simpl; congruence.
Qed.

(** A new version of F1 of the sample tables. *)
Definition sample_update : FileUpdateMetadataRequest :=
  {| fur_FileName := "a.pdf"; fur_FileID := "F1"; fur_Digest := "hash-F3"; fur_Chunks := 3%Z;
     fur_FileSize := 9437184%Z; fur_FileType := ""; fur_UploadStatus := "";
     fur_UserID := "U11223455" |}.

Lemma UpdateFileMetadata_spec_witness :
  ∃ m t, announced (E := quiet_env) sample_world
    (UpdateFileMetadata (E := quiet_env) metadataQueryStore tokensQs sample_update
       sample_world).2 m t ∧ fm_PrevID m = Some "F1".
Proof.
  destruct (UpdateFileMetadata_spec (E := quiet_env) metadataQueryStore tokensQs
    sample_update sample_world) as (rsp & Hr & H).
  vm_compute in Hr. injection Hr as <-. simpl in H.
  destruct H as (prev & m & t & _ & Hid & _ & _ & Ha & Hp & _). rewrite Hid in Hp. by exists m, t.
Defined.

(** * The end of an upload *)

(** The rows of a file that is still being uploaded. *)
Definition uploading (d : DB) (id : string) (m : FileMetadata) : Prop :=
  m ∈ db_file_metadatas d ∧ fm_ID m = id ∧ fm_UploadStaus m = StatusUploading.

(** What MarkUploadComplete tells the changelog worker. *)
Definition changelog_entry (m : FileMetadata) (ufd : UserFileDevice) : CacheMetadata :=
  {| cm_UserID := fm_UserID m; cm_PrevID := fm_PrevID m; cm_DeviceID := ufd_DeviceID ufd;
     cm_ID := ufd_FileID ufd |}.

(** The two outcomes: a refusal, or one message at the tail of the queue. *)
Lemma wp_MarkUploadComplete `{E : Env} {EO : EnvOk E} `{Q : Queuer} {QO : QueuerOk Q}
    `{G : Gob CacheMetadata} {GO : GobOk CacheMetadata sendable} mq ufd w
    (Post : ret (Response (gmap string bool)) → World → Prop) :
  (∀ m, m ∈ db_file_metadatas (w_db w) → fm_PrevID m ≠ Some "") →
  (∀ rsp w', rsp_Data rsp = None → later w w' →
    (no_fault → has_query mq FindByStmt → ∀ m, ¬ uploading (w_db w) (ufd_FileID ufd) m) →
    Post (Ret rsp) w') →
  (∀ m msg w', uploading (w_db w) (ufd_FileID ufd) m →
    gob_Decode msg = Val (changelog_entry m ufd) → redis_only w w' →
    (∀ k, q_list w' k = if decide (q_key "" = k) then q_list w k ++ [msg] else q_list w k) →
    Post (Ret (succeeded {["eof" := true]})) w') →
  wp (MarkUploadComplete mq ufd) w Post.
Proof.
  intros Hsend He Hv. unfold MarkUploadComplete. wp_step.
  apply wp_FindBy; [done | by repeat constructor | |].
  { intros e w1 Hw1 ?. wp_go. apply He; [done | done | tauto]. }
  intros w1 Hw1.
  assert (Hfind : ∀ m, m ∈ sql_FindBy [clause_eq "id" (ufd_FileID ufd);
      clause_eq "upload_status" StatusUploading] (w_db w) ↔ uploading (w_db w) (ufd_FileID ufd) m).
  { intros m. rewrite elem_of_sql_FindBy, Forall_cons, Forall_singleton. simpl.
    unfold FindClause_Args. simpl. rewrite lookup_insert_eq, lookup_insert_ne, lookup_insert_eq
      by done. simpl. rewrite where_id, where_upload_status, !bool_decide_eq_true.
    unfold uploading. tauto. }
  cbv beta iota. destruct (sql_FindBy _ _) as [|m l].
  { wp_go. apply He; [done | done |]. intros _ _ m Hm. by eapply not_elem_of_nil, Hfind. }
  destruct (proj1 (Hfind m)) as (Hm & Hid & Hst); [by left |].
  fold (changelog_entry m ufd).
  destruct (gob_roundtrip (changelog_entry m ufd)) as (msg & Henc & Hdec); [by apply Hsend |].
  cbv zeta. rewrite Henc. wp_step. apply wp_EnqueueMsg.
  - intros e w2 Hw2 ?. wp_go. apply He; [done | by eapply later_trans | done].
  - intros w2 Hr Hq. wp_go. apply (Hv m msg); [by split_and! | done | |].
    + by eapply redis_only_trans; [apply later_redis_only |].
    + intros k. rewrite Hq. by rewrite (q_list_later w w1).
Qed.

(** (C21) The end of an upload puts one message at the tail of the changelog
    queue, which decodes to the user, the file, its previous version and the
    device, and answers success; it does so exactly when the file is known and
    still uploading (or refuses because a call failed or a statement is
    missing), a refusal enqueues nothing, and no table changes.  Proved for
    every queue that keeps the promise of [QueuerOk] and every codec with the
    round trip. *)
Theorem MarkUploadComplete_enqueues `{E : Env} {EO : EnvOk E} `{Q : Queuer} {QO : QueuerOk Q}
    `{G : Gob CacheMetadata} {GO : GobOk CacheMetadata sendable} mq ufd w :
  (∀ m, m ∈ db_file_metadatas (w_db w) → fm_PrevID m ≠ Some "") →
  wp (MarkUploadComplete mq ufd) w (λ r w', ∃ rsp, r = Ret rsp ∧ w_db w' = w_db w ∧
    match rsp_Data rsp with
    | Some _ => ∃ m msg,
        uploading (w_db w) (ufd_FileID ufd) m ∧
        gob_Decode msg = Val (changelog_entry m ufd) ∧
        ∀ k, q_list w' k = if decide (q_key "" = k) then q_list w k ++ [msg] else q_list w k
    | None =>
        q_list w' = q_list w ∧
        (no_fault → has_query mq FindByStmt → ∀ m, ¬ uploading (w_db w) (ufd_FileID ufd) m)
    end).
Proof.
  intros Hsend. apply wp_MarkUploadComplete; [done | |].
  - intros rsp w' Hnone Hw' Hno. exists rsp. rewrite Hnone.
    split; [done | split; [by apply later_db | split; [by apply q_list_later | done]]].
  - intros m msg w' Hm Hdec (_ & Hdb & _) Hq. eexists. split; [done |]. simpl.
    split; [done |]. by exists m, msg.
Qed.

Lemma MarkUploadComplete_enqueues_witness :
  ∃ msg, q_list (E := quiet_env) (QueuerOk := RedisQ_ok (E := quiet_env) MetadataFileUpdateQueue)
    (MarkUploadComplete (E := quiet_env) (Q := RedisQ (E := quiet_env) MetadataFileUpdateQueue)
       (G := cache_gob) metadataQueryStore
       {| ufd_UserID := "U11223455"; ufd_DeviceID := "1"; ufd_FileID := "F2"; ufd_ChunkID := "" |}
       sample_world).2 MetadataFileUpdateQueue = [msg] ∧
    gob_Decode (Gob := cache_gob) msg
    = Val {| cm_UserID := "U11223455"; cm_PrevID := Some "F1"; cm_DeviceID := "1"; cm_ID := "F2" |}.
Proof.
  destruct (MarkUploadComplete_enqueues (E := quiet_env)
    (QO := RedisQ_ok (E := quiet_env) MetadataFileUpdateQueue)
    (GO := countable_gob_ok sendable) metadataQueryStore
    {| ufd_UserID := "U11223455"; ufd_DeviceID := "1"; ufd_FileID := "F2"; ufd_ChunkID := "" |}
    sample_world) as (rsp & Hr & _ & H).
  { intros m Hm. repeat (apply elem_of_cons in Hm as [->|Hm]; [done |]). by apply elem_of_nil in Hm. }
  assert (Hd : is_Some (rsp_Data rsp)) by (vm_compute in Hr; injection Hr as <-; by eexists).
  destruct Hd as [d Hd]. rewrite Hd in H. destruct H as (m & msg & (Hm & Hid & _) & Hdec & Hq).
  exists msg. rewrite Hq. split; [done |]. etrans; [exact Hdec |]. unfold changelog_entry.
  apply elem_of_cons in Hm as [->|Hm]; [done |]. apply list_elem_of_singleton in Hm as ->. done.
Defined.

(** * The chunks of a file in order *)

(** The path of every chunk number below [n]; a chunk that has no row has the
    empty path. *)
Definition ordered_urls (n : Z) (chunks : gmap string FilesWithChunks) : list string :=
  (λ i, match chunks !! Itoa (Z.of_nat i) with
        | Some c => fwc_ChunkBlobUrl c
        | None => ""
        end) <$> seq 0 (Z.to_nat n).

Definition chunk_fits (n : Z) (c : FilesWithChunks) : Prop := (0 ≤ fwc_ChunkID c < n)%Z.

#[global] Instance chunk_fits_dec n c : Decision (chunk_fits n c).
Proof. unfold chunk_fits. apply _. Defined.

Section store_loop.
Context `{MR : MapRange}.

Lemma store_loop_ok entries l :
  NoDup (entries.*1) →
  (∀ k c, (k, c) ∈ entries →
    k = Itoa (fwc_ChunkID c) ∧ chunk_fits (Z.of_nat (length l)) c) →
  ∃ l', store_loop l entries = Ret l' ∧ length l' = length l ∧
    ∀ i, i < length l →
      l' !! i = match (list_to_map entries : gmap string FilesWithChunks) !! Itoa (Z.of_nat i) with
                | Some c => Some (fwc_ChunkBlobUrl c)
                | None => l !! i
                end.
Proof.
  revert l. induction entries as [|[k c] entries IH]; intros l Hnd Hin; simpl; [by exists l |].
  apply NoDup_cons in Hnd as [Hk Hnd].
  destruct (Hin k c) as [Hkc Hfit]; [by left |]. rewrite store_in by done.
  destruct (IH (<[Z.to_nat (fwc_ChunkID c) := fwc_ChunkBlobUrl c]> l)) as (l' & -> & Hlen & Hl');
    [done | |].
  { intros k' c' Hkc'. rewrite length_insert. apply Hin. by right. }
  rewrite length_insert in Hlen, Hl'. exists l'. split_and!; [done | done |].
  intros i Hi. rewrite Hl' by done. unfold chunk_fits in Hfit.
  destruct (decide (Z.of_nat i = fwc_ChunkID c)) as [Heq|Hne].
  - rewrite Heq, <- Hkc, lookup_insert_eq, not_elem_of_list_to_map_1 by done.
    replace i with (Z.to_nat (fwc_ChunkID c)) by lia. apply list_lookup_insert_eq. lia.
  - rewrite lookup_insert_ne by (rewrite Hkc; by intros ?%Itoa_inj).
    rewrite list_lookup_insert_ne by lia. done.
Qed.

Lemma store_loop_out entries l k c :
  (k, c) ∈ entries → ¬ chunk_fits (Z.of_nat (length l)) c →
  ∃ why, store_loop l entries = Panics why.
Proof.
  revert l. induction entries as [|[k' c'] entries IH]; intros l Hin Hout; simpl;
    [by apply elem_of_nil in Hin |].
  destruct (decide (chunk_fits (Z.of_nat (length l)) c')) as [Hfit|Hno].
  - rewrite store_in by done. apply IH; [| by rewrite length_insert].
    apply elem_of_cons in Hin as [[= -> ->]|]; [done | done].
  - rewrite store_out by done. by eexists.
Qed.

(** The loop over the map does not depend on the order of the map. *)
Lemma store_loop_range n (chunks : gmap string FilesWithChunks) :
  (0 ≤ n)%Z → (∀ k c, chunks !! k = Some c → k = Itoa (fwc_ChunkID c)) →
  if decide (map_Forall (λ _, chunk_fits n) chunks)
  then store_loop (replicate (Z.to_nat n) "") (range chunks) = Ret (ordered_urls n chunks)
  else ∃ why, store_loop (replicate (Z.to_nat n) "") (range chunks) = Panics why.
Proof.
  intros Hn Hkey. case_decide as Hfit.
  - destruct (store_loop_ok (range chunks) (replicate (Z.to_nat n) "")) as (l & -> & Hlen & Hl).
    + apply NoDup_fst_range.
    + intros k c Hk%elem_of_range. rewrite length_replicate, Z2Nat.id by done.
      split; [by apply Hkey | by eapply Hfit].
    + f_equal. rewrite length_replicate in Hlen, Hl. apply list_eq_same_length with (Z.to_nat n);
        [by unfold ordered_urls; rewrite length_fmap, length_seq | done |].
      intros i x y Hi Hx Hy. rewrite Hl in Hx by done.
      unfold ordered_urls in Hy. rewrite list_lookup_fmap, lookup_seq_lt in Hy by done.
      simpl in Hy. injection Hy as <-.
      rewrite list_to_map_range in Hx. case_match; [by injection Hx |].
      rewrite lookup_replicate_2 in Hx by done. by injection Hx.
  - apply map_not_Forall in Hfit as (k & c & Hk & Hno); [| apply _].
    eapply (store_loop_out _ _ k c); [by apply elem_of_range |].
    by rewrite length_replicate, Z2Nat.id.
Qed.

End store_loop.

(** The rows of one file make one record. *)
Lemma group_by_file_single id rows :
  (∀ r, r ∈ rows → fwc_ID r = id) →
  rows = [] ∧ group_by_file rows = [] ∨
  ∃ r, r ∈ rows ∧ group_by_file rows = [file_info r (chunk_map rows)].
Proof.
  intros Hid. destruct rows as [|r rows]; [by left | right].
  assert (Hf : filter (λ r', fwc_ID r' ≠ fwc_ID r) (first_rows rows) = []).
  { apply elem_of_nil_inv. intros r' [Hne Hr']%list_elem_of_filter. apply Hne.
    rewrite !Hid; [done | by left | right; by apply elem_of_first_rows]. }
  assert (Hall : rows_of (fwc_ID r) (r :: rows) = r :: rows).
  { unfold rows_of. apply filter_all. apply Forall_forall. intros r' Hr'.
    rewrite !Hid; [done | by left | done]. }
  exists r. split; [by left |]. unfold group_by_file. simpl first_rows. rewrite Hf.
  cbn [fmap list_fmap]. by rewrite Hall.
Qed.

(** The answer of ListOrderedFileChunks, given the rows it works on. *)
Definition ordered_answer (rows : list FilesWithChunks)
    (r : ret (res (list string * FileInfoResponse))) : Prop :=
  match group_by_file rows with
  | [] => r = Ret (Err "file_corrupted:2045:500")
  | info :: _ =>
    if decide ((0 ≤ fir_NChunks info ≤ 2 ^ 44)%Z ∧
               map_Forall (λ _, chunk_fits (fir_NChunks info)) (fir_Chunks info))
    then r = Ret (Val (ordered_urls (fir_NChunks info) (fir_Chunks info), info))
    else ∃ why, r = Panics why
  end.

Definition rows_for (fileID userID : string) `{E : Env} (d : DB) : list FilesWithChunks :=
  filter (λ r, fwc_UserID r = userID) (sql_SelectFilesForUser [Some fileID] d).

Lemma wp_ListOrderedFileChunks `{E : Env} {EO : EnvOk E} `{MR : MapRange} mq fileID userID w
    (Q : ret (res (list string * FileInfoResponse)) → World → Prop) :
  no_fault → has_query mq SelectFilesForUserStmt →
  (∀ r w', later w w' → ordered_answer (rows_for fileID userID (w_db w)) r → Q r w') →
  wp (ListOrderedFileChunks mq fileID userID) w Q.
Proof.
  intros Hf Hq HQ. unfold ListOrderedFileChunks. wp_step.
  apply wp_SelectFiles; [done | by intros ? ? ? [] |].
  intros w1 Hw1. wp_step. wp_step. cbv zeta.
  rewrite rho_Filter_filter. fold (rows_for fileID userID (w_db w)) in *.
  set (rows := rows_for _ _ _) in *. rewrite build_rows. cbv beta iota.
  destruct (group_by_file_single fileID rows) as [[_ Hg]|(r & Hr & Hg)].
  { intros r [_ Hr]%list_elem_of_filter.
    apply SelectFiles_id, list_elem_of_singleton in Hr. by injection Hr. }
  { rewrite Hg. wp_go. apply HQ; [done |]. unfold ordered_answer. by rewrite Hg. }
  unfold ordered_answer in HQ. rewrite Hg in *. simpl in HQ. simpl foldl.
  rewrite decide_True by by (apply list_elem_of_filter in Hr as [_ Hr];
    apply SelectFiles_id, list_elem_of_singleton in Hr; injection Hr).
  wp_step. wp_step. unfold make_strings. simpl fir_NChunks. simpl fir_Chunks.
  assert (Hkey : ∀ k c, chunk_map rows !! k = Some c → k = Itoa (fwc_ChunkID c))
    by (by intros k c [_ ?]%chunk_map_Some).
  destruct (decide (0 ≤ fwc_NChunks r ≤ 2 ^ 44)%Z) as [Hn|Hn].
  - wp_step. wp_step. pose proof (store_loop_range (fwc_NChunks r) (chunk_map rows)) as Hs.
    destruct (decide (map_Forall _ _)) as [Hfit|Hfit].
    + rewrite Hs by (lia || done). wp_go. apply HQ; [done |]. by rewrite decide_True.
    + destruct Hs as [why ->]; [lia | done |]. apply HQ; [done |].
      rewrite decide_False by tauto. by eexists.
  - apply HQ; [done |]. rewrite decide_False by tauto. by eexists.
Qed.

(** (C30) The download list of a file: the rows of the file that belong to the
    user are grouped; without one the answer is "file_corrupted", and otherwise
    the paths of the chunks in the order of their numbers, as many as the
    metadata says, with an empty path for every chunk that was never uploaded.
    The order in which Go walks the map of chunks does not matter.  A chunk
    number outside the count of the metadata (or a count that cannot be
    allocated) makes the request panic. *)
Theorem ListOrderedFileChunks_spec `{E : Env} {EO : EnvOk E} `{MR : MapRange} mq fileID userID w :
  no_fault → has_query mq SelectFilesForUserStmt →
  let rows := filter (λ r, fwc_UserID r = userID)
                (sql_SelectFilesForUser [Some fileID] (w_db w)) in
  wp (ListOrderedFileChunks mq fileID userID) w (λ r w', w_db w' = w_db w ∧
    match group_by_file rows with
    | [] => r = Ret (Err "file_corrupted:2045:500")
    | info :: _ =>
      if decide ((0 ≤ fir_NChunks info ≤ 2 ^ 44)%Z ∧
                 map_Forall (λ _, chunk_fits (fir_NChunks info)) (fir_Chunks info))
      then r = Ret (Val (ordered_urls (fir_NChunks info) (fir_Chunks info), info))
      else ∃ why, r = Panics why
    end).
Proof.
  intros Hf Hq rows. apply wp_ListOrderedFileChunks; [done | done |].
  intros r w' Hw' Hr. split; [by apply later_db | exact Hr].
Qed.

Lemma ListOrderedFileChunks_spec_witness :
  wp (ListOrderedFileChunks (E := quiet_env) (MR := list_range) metadataQueryStore "F2" "U11223455")
    sample_world (λ r _, ∃ info, r = Ret (Val (["" ; "/data/F2/1"], info))).
Proof.
  eapply wp_mono; [by apply (ListOrderedFileChunks_spec (E := quiet_env) (MR := list_range)
    metadataQueryStore "F2" "U11223455" sample_world (λ _, eq_refl));
    apply (bool_decide_unpack _); vm_compute |].
  intros r w' [_ H]. vm_compute in H. by eexists.
Defined.
