(* ===== verification/Blob.v ===== *)
(** Package pkg/blobstore: chunks on the local file system (localfs.go), with
    what it uses of [path/filepath] and [os].  A file of the disk is its path
    and its content ([w_fs]); directories are not tracked, what [os] says of
    them is a parameter. *)
From S2P Require Import Prelude GoStd Model World FilesRepo.
From Stdlib Require Import Ascii.

(** * path/filepath on Unix *)

(** One component of [Clean]: [out] is the path so far, last component first. *)
Definition clean_step (rooted : bool) (out : list string) (c : string) : list string :=
  if decide (c = "" ∨ c = ".") then out
  else if decide (c = "..") then
    match out with
    | x :: out' => if decide (x = "..") then c :: out else out'
    | [] => if rooted then [] else [c]
    end
  else c :: out.

Definition Clean (path : string) : string :=
  let rooted := HasPrefix path "/" in
  let out := Join (reverse (foldl (clean_step rooted) [] (Split path "/"))) "/" in
  if rooted then "/" +:+ out else if decide (out = "") then "." else out.

(** [filepath.Join]: empty leading elements are skipped. *)
Fixpoint filepath_Join (elem : list string) : string :=
  match elem with
  | [] => ""
  | e :: rest => if decide (e = "") then filepath_Join rest else Clean (Join elem "/")
  end.

(** The examples of the documentation of filepath.Join. *)
Example filepath_Join_tests :
  filepath_Join ["a"; "b"; "c"] = "a/b/c" ∧ filepath_Join ["a"; "b/c"] = "a/b/c" ∧
  filepath_Join ["a"; "../../../xyz"] = "../../xyz" ∧ filepath_Join [""; ""] = "" ∧
  filepath_Join ["/data"; "../x"; "./y//z"] = "/x/y/z".
Proof. by vm_compute. Qed.

(** * os *)

Class OsEnv := {
  (** [os.IsExist] *)
  os_IsExist : error → bool;
  (** what [os.Stat] at the n-th external event says of a path: a directory? *)
  os_IsDir : nat → string → bool;
  (** the bytes a copy moves before the failure of the n-th external event *)
  os_moved : nat → nat;
}.

(** An [io.ReadSeekCloser] over an uploaded part. *)
Record ReadSeeker := {
  rs_data : string;
  rs_pos : nat;
}.

Definition set_pos (pos : nat) (r : ReadSeeker) : ReadSeeker :=
  {| rs_data := rs_data r; rs_pos := pos |}.

(** The first [n] bytes. *)
Fixpoint stake (n : nat) (s : string) : string :=
  match n, s with
  | S n, String c s => String c (stake n s)
  | _, _ => ""
  end.

Record ChunkedFile := {
  cf_data : ReadSeeker;
  cf_chunkID : Z;
  cf_chunkPath : string;
}.

Definition NewChunkedFile (data : ReadSeeker) (chunkID : Z) : ChunkedFile :=
  {| cf_data := data; cf_chunkID := chunkID; cf_chunkPath := "" |}.

Definition ErrNotDirectory : error := "not_a_directory".

Section localfs.
Context `{E : Env} `{OS : OsEnv}.

(** [r.Seek(0, io.SeekStart)]; the callers ignore its error. *)
Definition SeekStart (r : ReadSeeker) : Go ReadSeeker :=
  err ← call;
  mret (match err with Some _ => r | None => set_pos 0 r end).

(** [io.Copy(dst, r)]: what reaches [dst], the reader after it, the error. *)
Definition io_Copy (r : ReadSeeker) : Go (string * ReadSeeker * option error) :=
  w ← get;
  err ← call;
  let rest := sdrop (rs_pos r) (rs_data r) in
  let got := match err with Some _ => stake (os_moved (w_tick w)) rest | None => rest end in
  mret (got, set_pos (rs_pos r + String.length got) r, err).

(** [filepath.Abs] fails only when there is no working directory; [dirPath] is
    its result. *)
Context (dirPath : string).

Definition EnsureDir (resolvedPath : string) : Go (option error) :=
  err ← call;
  match err with
  | None => mret None
  | Some e =>
    if os_IsExist e then
      w ← get;
      err ← call;
      match err with
      | Some e => mret (Some e)
      | None => if os_IsDir (w_tick w) resolvedPath then mret None else mret (Some ErrNotDirectory)
      end
    else mret (Some e)
  end.

(** [os.Create]: truncates the file or makes it. *)
Definition os_Create (path : string) : Go (option error) :=
  err ← call;
  match err with
  | Some e => mret (Some e)
  | None => modify (λ w, world_with_fs (<[path := ""]> (w_fs w)) w);; mret None
  end.

(** The part is read twice, once into a buffer that is dropped.  A copy that
    fails is answered with an empty path and no error. *)
Definition UpdateChunk (fileID : string) (chunk : ChunkedFile) : Go (res string) :=
  err ← EnsureDir (filepath_Join [dirPath; fileID]);
  match err with
  | Some e => mret (Err e)
  | None =>
    let path := filepath_Join [dirPath; fileID; Sprintf "%d" [AInt (cf_chunkID chunk)]] in
    err ← os_Create path;
    match err with
    | Some e => mret (Err e)
    | None =>
      data ← SeekStart (cf_data chunk);
      byt ← io_Copy data;
      data ← SeekStart byt.1.2;
      copied ← io_Copy data;
      modify (λ w, world_with_fs (<[path := copied.1.1]> (w_fs w)) w);;
      mret (match copied.2 with Some _ => Val "" | None => Val path end)
    end
  end.

(** Not written yet: they return nothing, and no error. *)
Definition FetchChunks (fileID : string) (chunkIDs : list Z) : Go (res (list ChunkedFile)) :=
  mret (Val []).

Definition BuildFile (chunkIDs : list ChunkedFile) : Go (res (option ReadSeeker)) := mret (Val None).

(** helpers.go *)
Definition ReadFileInChunks (filePath : string) : Go (res (list ChunkedFile)) := mret (Val []).

End localfs.

(** * Lemmas *)

(** A component of a path that [Clean] leaves alone. *)
Definition plain (c : string) : bool :=
  no_char "/" c && bool_decide (c ∉ [""; "."; ".."]).

Lemma plain_spec c : plain c = true → no_char "/" c = true ∧ c ≠ "" ∧ c ≠ "." ∧ c ≠ "..".
Proof.
  unfold plain. intros [Hn Hc%bool_decide_eq_true]%andb_prop. split; [done |].
  split_and!; intros ->; apply Hc; [left | right; left | right; right; left].
Qed.

Lemma Split_Join l :
  l ≠ [] → Forall (λ c, no_char "/" c = true) l → Split (Join l "/") "/" = l.
Proof.
  induction l as [|c l IH]; [done |]. intros _ Hl. apply Forall_cons in Hl as [Hc Hl].
  destruct l as [|d l].
  - by apply Split_char_last.
  - change (Join (c :: d :: l) "/") with (c +:+ String "/" (Join (d :: l) "/")).
    rewrite Split_char_app by done. f_equal. by apply IH.
Qed.

Lemma Join_cons c l : l ≠ [] → Join (c :: l) "/" = c +:+ "/" +:+ Join l "/".
Proof. by destruct l. Qed.

Lemma Join_app l1 l2 :
  l1 ≠ [] → l2 ≠ [] → Join (l1 ++ l2) "/" = Join l1 "/" +:+ "/" +:+ Join l2 "/".
Proof.
  induction l1 as [|c l1 IH]; [done |]. intros _ Hl2. destruct l1 as [|d l1].
  - by apply Join_cons.
  - change ((c :: d :: l1) ++ l2) with (c :: ((d :: l1) ++ l2)).
    rewrite !Join_cons by done. rewrite IH by done. by rewrite !sapp_assoc.
Qed.

Lemma clean_plain rooted l out :
  Forall (λ c, plain c = true) l → foldl (clean_step rooted) out l = reverse l ++ out.
Proof.
  revert out. induction l as [|c l IH]; intros out Hl; simpl; [done |].
  apply Forall_cons in Hl as [(_ & ? & ? & ?)%plain_spec Hl].
  rewrite IH by done. unfold clean_step.
  rewrite decide_False by tauto. rewrite decide_False by done.
  by rewrite reverse_cons, <- app_assoc.
Qed.

(** An absolute path in the form [filepath.Abs] returns. *)
Definition abs_path (comps : list string) : string := Join ("" :: comps) "/".

Lemma Clean_abs l :
  l ≠ [] → Forall (λ c, plain c = true) l → Clean (abs_path l) = abs_path l.
Proof.
  intros Hne Hl. unfold Clean, abs_path. rewrite Split_Join; [| done |].
  2: { constructor; [done |]. eapply Forall_impl; [done |]. by intros c [? _]%plain_spec. }
  rewrite Join_cons by done.
  change (HasPrefix ("" +:+ "/" +:+ Join l "/") "/") with (String.prefix "" (Join l "/")).
  replace (String.prefix "" (Join l "/")) with true by by destruct (Join l "/").
  simpl foldl. rewrite clean_plain, app_nil_r, reverse_involutive by done. done.
Qed.

(** The path of a chunk. *)
Lemma chunk_path dir l :
  dir ≠ [] → Forall (λ c, plain c = true) (dir ++ l) → l ≠ [] →
  filepath_Join (abs_path dir :: l) = abs_path (dir ++ l).
Proof.
  intros Hd Hl Hne. cbn [filepath_Join]. rewrite decide_False by by destruct dir.
  rewrite Join_cons by done. rewrite <- (Clean_abs (dir ++ l)) by (try done; by destruct dir).
  f_equal. unfold abs_path. rewrite <- Join_app by done. done.
Qed.

Lemma abs_path_inj l1 l2 :
  Forall (λ c, plain c = true) l1 → Forall (λ c, plain c = true) l2 →
  abs_path l1 = abs_path l2 → l1 = l2.
Proof.
  intros H1 H2 Heq. apply (f_equal (λ p, Split p "/")) in Heq. unfold abs_path in Heq.
  assert (Hsplit : ∀ l, Forall (λ c, plain c = true) l →
    Split (Join ("" :: l) "/") "/" = "" :: l).
  { intros l Hl. apply Split_Join; [done |]. constructor; [done |].
    eapply Forall_impl; [done |]. by intros c [? _]%plain_spec. }
  rewrite !Hsplit in Heq by done. by injection Heq.
Qed.

(** The name of a chunk is plain. *)
Lemma Itoa_plain z : plain (Itoa z) = true.
Proof.
  unfold plain. rewrite no_char_Itoa by done. apply bool_decide_eq_true.
  rewrite !elem_of_cons, elem_of_nil. intros Hin.
  assert (Hc : ∃ c s, Itoa z = String c s ∧ c ≠ "."%char) by apply Itoa_head.
  destruct Hc as (c & s & Heq & Hc). rewrite Heq in Hin.
  destruct Hin as [Hin|[Hin|[Hin|[]]]]; [done | |]; by injection Hin as -> _.
Qed.

(** Where a chunk is stored. *)
Definition chunk_file (dir : list string) (fileID : string) (chunkID : Z) : string :=
  filepath_Join [abs_path dir; fileID; Sprintf "%d" [AInt chunkID]].

(** A directory [filepath.Abs] returns, other than the root. *)
Definition plain_dir (dir : list string) : Prop :=
  dir ≠ [] ∧ Forall (λ c, plain c = true) dir.

Lemma chunk_file_abs dir f c :
  plain_dir dir → plain f = true → chunk_file dir f c = abs_path (dir ++ [f; Itoa c]).
Proof.
  intros [Hne Hd] Hf. unfold chunk_file. rewrite version_str. apply chunk_path; [done | | done].
  apply Forall_app. split; [done |]. repeat constructor; [done | apply Itoa_plain].
Qed.

(** Different chunks have different files. *)
Lemma chunk_file_inj dir f1 c1 f2 c2 :
  plain_dir dir → plain f1 = true → plain f2 = true →
  chunk_file dir f1 c1 = chunk_file dir f2 c2 → f1 = f2 ∧ c1 = c2.
Proof.
  intros Hd Hf1 Hf2. rewrite !chunk_file_abs by done. destruct Hd as [_ Hd].
  intros Heq%abs_path_inj.
  - apply app_inv_head in Heq. injection Heq as -> Heq. split; [done | by apply Itoa_inj].
  - apply Forall_app. split; [done |]. repeat constructor; [done | apply Itoa_plain].
  - apply Forall_app. split; [done |]. repeat constructor; [done | apply Itoa_plain].
Qed.

Lemma chunk_file_nonempty dir f c :
  plain_dir dir → plain f = true → chunk_file dir f c ≠ "".
Proof. intros Hd Hf. rewrite chunk_file_abs by done. by destruct Hd, dir. Qed.

Section localfs_rules.
Context `{E : Env} `{OS : OsEnv}.
Implicit Types w : World.

Lemma wp_EnsureDir path w (Q : ret (option error) → World → Prop) :
  (∀ e w', later w w' → ¬ no_fault → Q (Ret (Some e)) w') →
  (∀ w', later w w' → Q (Ret None) w') →
  wp (EnsureDir path) w Q.
Proof.
  intros He Hv. unfold EnsureDir. wp_go; simplify_eq;
    solve [apply He; [solve_later | intros ?; quiet] | apply Hv; solve_later].
Qed.

Lemma wp_os_Create path w (Q : ret (option error) → World → Prop) :
  (∀ e w', later w w' → ¬ no_fault → Q (Ret (Some e)) w') →
  (∀ w', later (world_with_fs (<[path := ""]> (w_fs w)) w) w' → Q (Ret None) w') →
  wp (os_Create path) w Q.
Proof.
  intros He Hv. unfold os_Create. wp_go; simplify_eq;
    solve [apply He; [solve_later | intros ?; quiet] | apply Hv; solve_later].
Qed.

Lemma wp_SeekStart r w (Q : ret ReadSeeker → World → Prop) :
  (∀ w', later w w' → ¬ no_fault → Q (Ret r) w') →
  (∀ w', later w w' → Q (Ret (set_pos 0 r)) w') →
  wp (SeekStart r) w Q.
Proof.
  intros He Hv. unfold SeekStart. wp_go. destruct (fault (w_tick w)) eqn:Hf.
  - apply He; [solve_later | intros ?; quiet].
  - apply Hv. solve_later.
Qed.

Lemma wp_io_Copy r w (Q : ret (string * ReadSeeker * option error) → World → Prop) :
  (∀ got pos e w', later w w' → fault (w_tick w) = Some e →
    Q (Ret (got, set_pos pos r, Some e)) w') →
  (∀ pos w', later w w' → fault (w_tick w) = None →
    Q (Ret (sdrop (rs_pos r) (rs_data r), set_pos pos r, None)) w') →
  wp (io_Copy r) w Q.
Proof.
  intros He Hv. unfold io_Copy. wp_go. destruct (fault (w_tick w)) eqn:Hf.
  - apply He; [solve_later | done].
  - apply Hv; [solve_later | done].
Qed.

Lemma wp_UpdateChunk dir f chunk w (Q : ret (res string) → World → Prop) :
  let path := chunk_file dir f (cf_chunkID chunk) in
  (∀ e w', later w w' → ¬ no_fault → Q (Ret (Err e)) w') →
  (∀ got w', later (world_with_fs (<[path := got]> (w_fs w)) w) w' → ¬ no_fault →
    Q (Ret (Val "")) w') →
  (∀ got w', later (world_with_fs (<[path := got]> (w_fs w)) w) w' →
    got = rs_data (cf_data chunk) ∨ ¬ no_fault → Q (Ret (Val path)) w') →
  wp (UpdateChunk (abs_path dir) f chunk) w Q.
Proof.
  intros path He Hempty Hv. unfold UpdateChunk. fold path. wp_step. apply wp_EnsureDir.
  { intros e w1 ? ?. later_subst. wp_go. apply He; [solve_later | done]. }
  intros w1 ?. wp_step. apply wp_os_Create.
  { intros e w2 ? ?. later_subst. wp_go. apply He; [solve_later | done]. }
  intros w2 ?. cbv beta iota.
  (* the file is created; from here on nothing but it changes *)
  assert (Hstore : ∀ got w4, later w2 w4 →
    later (world_with_fs (<[path := got]> (w_fs w)) w)
          (world_with_fs (<[path := got]> (w_fs w4)) w4)).
  { intros got w4 ?. later_subst. simpl. rewrite insert_insert_eq. solve_later. }
  wp_step. apply wp_SeekStart; intros; wp_step; apply wp_io_Copy; intros; wp_step; simpl;
    apply wp_SeekStart; intros; wp_step; apply wp_io_Copy; intros; wp_go; simplify_eq/=;
    first
      [ (* the last copy failed *)
        eapply Hempty; [apply Hstore; solve_later | intros ?; quiet]
      | eapply Hv; [apply Hstore; solve_later | first [by right | by left]] ].
Qed.

End localfs_rules.

(** (C17) Storing a chunk touches the file of that chunk and no other: after
    [UpdateChunk] for chunk [c] of file [f], whatever fails, every file of the
    disk other than <dir>/<f>/<c> is as it was, the paths of two different
    chunks (of one file or of two) are different, and neither the tables nor
    the cache change.  When nothing fails the file holds the bytes of the part,
    from its start and in full, and the path is returned.  [dir] is an absolute
    directory as [filepath.Abs] returns it, and [f] is one path component. *)
Theorem UpdateChunk_isolated `{E : Env} `{OS : OsEnv} dir f chunk w :
  plain_dir dir → plain f = true →
  wp (UpdateChunk (abs_path dir) f chunk) w (λ r w',
    (∀ f2 c2, plain f2 = true → (f2, c2) ≠ (f, cf_chunkID chunk) →
      chunk_file dir f2 c2 ≠ chunk_file dir f (cf_chunkID chunk)) ∧
    (∀ p, p ≠ chunk_file dir f (cf_chunkID chunk) → w_fs w' !! p = w_fs w !! p) ∧
    w_db w' = w_db w ∧ w_cache w' = w_cache w ∧
    (no_fault →
      r = Ret (Val (chunk_file dir f (cf_chunkID chunk))) ∧
      w_fs w' !! chunk_file dir f (cf_chunkID chunk) = Some (rs_data (cf_data chunk)))).
Proof.
  intros Hd Hf.
  assert (Hinj : ∀ f2 c2, plain f2 = true → (f2, c2) ≠ (f, cf_chunkID chunk) →
    chunk_file dir f2 c2 ≠ chunk_file dir f (cf_chunkID chunk)).
  { intros f2 c2 Hf2 Hne [-> ->]%chunk_file_inj; done. }
  apply wp_UpdateChunk; intros; later_subst; (split; [done |]); split_and!; simpl; try done.
  all: try (intros p Hp; by rewrite lookup_insert_ne).
  intros ?. rewrite lookup_insert_eq. split; [done |]. by destruct_or!; subst.
Qed.

Definition sample_os : OsEnv :=
  {| os_IsExist e := bool_decide (e = "file exists"); os_IsDir n p := true; os_moved n := 2 |}.

Definition sample_part (data : string) : ReadSeeker := {| rs_data := data; rs_pos := 0 |}.

Lemma UpdateChunk_isolated_witness :
  wp (UpdateChunk (E := quiet_env) (OS := sample_os) (abs_path ["srv"; "data"]) "F2"
        (NewChunkedFile (sample_part "hello") 1%Z)) sample_world (λ r w',
    r = Ret (Val "/srv/data/F2/1") ∧ w_fs w' !! "/srv/data/F2/1" = Some "hello" ∧
    w_db w' = sample_db).
Proof.
  eapply wp_mono.
  - apply (UpdateChunk_isolated (E := quiet_env) (OS := sample_os) ["srv"; "data"] "F2"
      (NewChunkedFile (sample_part "hello") 1%Z) sample_world);
      [split; [done | by repeat constructor] | by vm_compute].
  - intros r w' (_ & _ & Hdb & _ & H). destruct (H (λ _, eq_refl)) as [-> Hfs]. done.
Defined.
