(* ===== verification/Transfer.v ===== *)
(** Package core/files: uploading a chunk ([FileChunkService] of
    userfiles.service.go) and downloading a file (download.service.go). *)
From S2P Require Import Prelude GoStd Api Model World Squirtle Queries.
From S2P Require Import Tokens FilesRepo Queue Gob FilesInfo FilesService Blob.

Section service.
Context `{E : Env} `{OS : OsEnv} (dirPath : string) (querier : QueryMapper).

(** Reads the part to its end: the reader is given back where it stopped. *)
Definition ValidateHash (digest : string) (data : ReadSeeker) : Go (ReadSeeker * option error) :=
  copied ← io_Copy data;
  match copied.2 with
  | Some e => mret (copied.1.2, Some e)
  | None =>
    mret (copied.1.2,
      if decide (digest = EncodeToString (sha256 copied.1.1)) then None else Some "hash_mismatch")
  end.

Definition FileChunkService_Create (req : FileChunkRequest) : Go (Response ChunkUploadResponse) :=
  r ← ValidateHash (fcr_ChunkDigest req) {| rs_data := fcr_Data req; rs_pos := 0 |};
  let '(data, err) := r in
  match err with
  | Some _ => mret (failed "corrupted_file:5001:422")
  | None =>
    match Atoi (fcr_ChunkID req) with
    | (_, Some _) => mret (failed "invalid_file_chunk:5002:422")
    | (chunkIDInt, None) =>
      match ParseInt (fcr_NextChunkID req) with
      | (_, Some _) => mret (failed "invalid_file_chunk:5004:422")
      | (nextChunkIDInt, None) =>
        storedPath ← UpdateChunk dirPath (fcr_FileID req) (NewChunkedFile data chunkIDInt);
        match storedPath with
        | Err _ => mret (failed "internal_server_error:5003:500")
        | Val storedPath =>
          created ← NewTimestamp;
          let model :=
            {| uf_UserID := fcr_UserID req; uf_FileID := fcr_FileID req;
               uf_ChunkID := chunkIDInt; uf_ChunkBlobUrl := storedPath;
               uf_ChunkHash := fcr_ChunkDigest req; uf_NextChunkID := Some nextChunkIDInt;
               uf_CreatedAt := created; uf_UpdatedAt := created |} in
          err ← UserFileRepository_Create querier model;
          match err with
          | Some _ => mret (failed "save_chunk_failed:5005:500")
          | None => mret (succeeded
              {| cur_ChunkID := uf_ChunkID model; cur_NextChunkID := nextChunkIDInt;
                 cur_ChunkBlobUrl := storedPath; cur_ChunkHash := fcr_ChunkDigest req;
                 cur_CreatedAt := created; cur_UpdatedAt := created |})
          end
        end
      end
    end
  end.

(** * download.service.go *)

(** [dh.cacher.Get(ctx, key).Bytes()]: an error is a key that is absent or has
    expired, or a server that does not answer. *)
Definition cache_Get (key : string) : Go (option string) :=
  err ← call;
  match err with
  | Some _ => mret None
  | None => w ← get; mret (w_cache w !! key)
  end.

(** [SetEx]; its error is logged. *)
Definition cache_SetEx (key data : string) : Go unit :=
  err ← call;
  match err with
  | Some _ => mret ()
  | None => modify (λ w, world_with_cache (<[key := data]> (w_cache w)) w)
  end.

Definition ErrNotExist (path : string) : error :=
  "open " +:+ path +:+ ": no such file or directory".

Definition os_Open (path : string) : Go (res string) :=
  err ← call;
  match err with
  | Some e => mret (Err e)
  | None =>
    w ← get;
    mret (match w_fs w !! path with Some data => Val data | None => Err (ErrNotExist path) end)
  end.

(** Copying one in-memory buffer to another does not fail; copying the file
    may, and then nothing is cached. *)
Fixpoint download_loop (buffer : string) (filePaths : list string) : Go (res string) :=
  match filePaths with
  | [] => mret (Val buffer)
  | filePath :: rest =>
    cached ← cache_Get filePath;
    match cached with
    | Some data => download_loop (buffer +:+ data) rest
    | None =>
      file ← os_Open filePath;
      match file with
      | Err e => mret (Err e)
      | Val content =>
        copied ← io_Copy {| rs_data := content; rs_pos := 0 |};
        match copied.2 with
        | Some e => mret (Err e)
        | None =>
          cache_SetEx filePath copied.1.1;;
          download_loop (buffer +:+ copied.1.1) rest
        end
      end
    end
  end.

(** [make([]byte, 0, fileSize)] panics on a capacity that is negative or does
    not fit the address space. *)
Definition Download (fileSize : Z) (filePaths : list string) : Go (res string) :=
  eval (if decide (0 ≤ fileSize ≤ 2 ^ 48)%Z then Ret () else Panics "makeslice: cap out of range");;
  download_loop "" filePaths.

End service.

(** * Rules *)
Section rules.
Context `{E : Env} `{OS : OsEnv}.
Implicit Types w : World.

(** The world with the file and the row of a chunk added. *)
Definition with_chunk (path data : string) (uf : UserFile) (w : World) : World :=
  world_with_fs (<[path := data]> (w_fs w)) (world_with_db (sql_CreateFileChunk uf (w_db w)) w).

(** A valid request when nothing fails. *)
Lemma wp_Create_quiet dir querier req id next w (Q : ret (Response ChunkUploadResponse) → World → Prop) :
  no_fault → has_query querier CreateFileChunkStmt →
  fcr_ChunkDigest req = EncodeToString (sha256 (fcr_Data req)) →
  Atoi (fcr_ChunkID req) = (id, None) → ParseInt (fcr_NextChunkID req) = (next, None) →
  let path := chunk_file dir (fcr_FileID req) id in
  (∀ now w',
    let uf := {| uf_UserID := fcr_UserID req; uf_FileID := fcr_FileID req; uf_ChunkID := id;
                 uf_ChunkBlobUrl := path; uf_ChunkHash := fcr_ChunkDigest req;
                 uf_NextChunkID := Some next; uf_CreatedAt := now; uf_UpdatedAt := now |} in
    later (with_chunk path (fcr_Data req) uf w) w' →
    Q (Ret (succeeded
      {| cur_ChunkID := id; cur_NextChunkID := next; cur_ChunkBlobUrl := path;
         cur_ChunkHash := fcr_ChunkDigest req; cur_CreatedAt := now; cur_UpdatedAt := now |})) w') →
  wp (FileChunkService_Create (abs_path dir) querier req) w Q.
Proof.
  intros Hf Hq Hd Hid Hnext path HQ. unfold FileChunkService_Create, ValidateHash.
  wp_step. wp_step. apply wp_io_Copy; [intros; quiet |]. intros pos w1 ? _.
  cbv beta iota. simpl. rewrite decide_True by done. wp_step. rewrite Hid, Hnext.
  wp_step. apply wp_UpdateChunk; [done | done |]. simpl. intros got w2 ? [->|]; [| done].
  wp_step. wp_step. wp_step. apply wp_UserFileRepository_Create; [by intros ? ? ? [] |].
  intros w3 ?. wp_go. apply (HQ (now_at (w_tick w2))). later_subst. solve_later.
Qed.

(** Any request, whatever fails: either no table changes and the answer is a
    failure, or one row is added, of the file and user of the request, and the
    answer is a success.  On the disk only the chunk's own file changes. *)
Lemma wp_FileChunkService_Create dir querier req w (Q : ret (Response ChunkUploadResponse) → World → Prop) :
  let elsewhere w' := ∃ id, ∀ p, p ≠ chunk_file dir (fcr_FileID req) id → w_fs w' !! p = w_fs w !! p in
  (∀ e w', w_db w' = w_db w → elsewhere w' → Q (Ret (failed e)) w') →
  (∀ rsp uf w', uf_FileID uf = fcr_FileID req → uf_UserID uf = fcr_UserID req →
    w_db w' = sql_CreateFileChunk uf (w_db w) → elsewhere w' → Q (Ret (succeeded rsp)) w') →
  wp (FileChunkService_Create (abs_path dir) querier req) w Q.
Proof.
  intros elsewhere He Hv.
  assert (Hsame : ∀ w', later w w' → elsewhere w') by (intros; later_subst; by exists 0%Z).
  assert (He' : ∀ e w', later w w' → Q (Ret (failed e)) w')
    by (intros e w' Hw'; apply He; [by apply later_db | auto]).
  unfold FileChunkService_Create, ValidateHash. wp_step. wp_step. apply wp_io_Copy.
  { intros got pos e w1 Hw1 _. cbv beta iota. simpl. wp_go. by apply He'. }
  intros pos w1 Hw1 _. cbv beta iota. simpl. wp_step. wp_step; [wp_step; by apply He' |].
  destruct (Atoi (fcr_ChunkID req)) as [id [|]]; [wp_step; by apply He' |].
  destruct (ParseInt (fcr_NextChunkID req)) as [next [|]]; [wp_step; by apply He' |].
  assert (Hpath : ∀ path got w2, path = chunk_file dir (fcr_FileID req) id →
    later (world_with_fs (<[path := got]> (w_fs w1)) w1) w2 → w_db w2 = w_db w ∧ elsewhere w2).
  { intros path got w2 -> ?. later_subst. split; [done |]. exists id. intros p Hp. simpl.
    by rewrite lookup_insert_ne. }
  assert (Hcreate : ∀ path w2, w_db w2 = w_db w ∧ elsewhere w2 →
    wp (created ← NewTimestamp;
        let model := {| uf_UserID := fcr_UserID req; uf_FileID := fcr_FileID req;
               uf_ChunkID := id; uf_ChunkBlobUrl := path;
               uf_ChunkHash := fcr_ChunkDigest req; uf_NextChunkID := Some next;
               uf_CreatedAt := created; uf_UpdatedAt := created |} in
        err ← UserFileRepository_Create querier model;
        match err with
        | Some _ => mret (failed "save_chunk_failed:5005:500")
        | None => mret (succeeded
              {| cur_ChunkID := uf_ChunkID model; cur_NextChunkID := next;
                 cur_ChunkBlobUrl := path; cur_ChunkHash := fcr_ChunkDigest req;
                 cur_CreatedAt := created; cur_UpdatedAt := created |})
        end) w2 Q).
  { intros path w2 [Hdb Hel]. wp_step. wp_step. cbv zeta. wp_step. apply wp_UserFileRepository_Create.
    - intros e w3 ? _. wp_go. later_subst. by apply He.
    - intros w3 Hw3. wp_go. lazymatch type of Hw3 with
      | context [sql_CreateFileChunk ?uf _] => apply (Hv _ uf)
      end; later_subst; simpl; [done | done | by rewrite Hdb | done]. }
  wp_step. apply wp_UpdateChunk; simpl.
  - intros e w2 ? _. wp_go. apply He'. solve_later.
  - intros got w2 Hw2 _. apply Hcreate. by eapply Hpath.
  - intros got w2 Hw2 _. apply Hcreate. by eapply Hpath.
Qed.

(** A cache whose entries for the given paths are the files. *)
Definition cache_fresh (paths : list string) (w : World) : Prop :=
  ∀ p c, p ∈ paths → w_cache w !! p = Some c → w_fs w !! p = Some c.

Lemma wp_cache_Get_quiet key w (Q : ret (option string) → World → Prop) :
  no_fault → (∀ w', later w w' → Q (Ret (w_cache w !! key)) w') → wp (cache_Get key) w Q.
Proof. intros Hf HQ. unfold cache_Get. wp_go; [quiet |]. apply HQ. solve_later. Qed.

Lemma wp_os_Open_quiet path w (Q : ret (res string) → World → Prop) :
  no_fault →
  (∀ w', later w w' → Q (Ret (match w_fs w !! path with
                              | Some data => Val data
                              | None => Err (ErrNotExist path)
                              end)) w') →
  wp (os_Open path) w Q.
Proof. intros Hf HQ. unfold os_Open. wp_go; [quiet |]. apply HQ. solve_later. Qed.

Lemma wp_cache_SetEx_quiet key data w (Q : ret unit → World → Prop) :
  no_fault →
  (∀ w', later (world_with_cache (<[key := data]> (w_cache w)) w) w' → Q (Ret ()) w') →
  wp (cache_SetEx key data) w Q.
Proof. intros Hf HQ. unfold cache_SetEx. wp_go; [quiet |]. apply HQ. solve_later. Qed.

Lemma wp_download_loop_quiet all buffer paths (data : string → string) w
    (Q : ret (res string) → World → Prop) :
  no_fault → paths ⊆ all → (∀ p, p ∈ all → w_fs w !! p = Some (data p)) → cache_fresh all w →
  (∀ w', w_db w' = w_db w → w_fs w' = w_fs w → cache_fresh all w' →
    Q (Ret (Val (buffer +:+ foldr String.append "" (data <$> paths)))) w') →
  wp (download_loop buffer paths) w Q.
Proof.
  intros Hf. revert buffer w Q. induction paths as [|p paths IH]; intros buffer w Q Hsub Hfs Hc HQ.
  { wp_go. simpl in HQ. rewrite sapp_nil_r in HQ. by apply HQ. }
  assert (Hp : p ∈ all) by (apply Hsub; by left).
  assert (Hsub' : paths ⊆ all) by (intros q ?; apply Hsub; by right).
  simpl. wp_step. apply wp_cache_Get_quiet; [done |]. intros w1 ?. later_subst.
  destruct (w_cache w !! p) as [c|] eqn:Hcp; cbv beta iota.
  - apply (Hc p c Hp) in Hcp as Hcp'. rewrite Hfs in Hcp' by done. injection Hcp' as <-.
    apply IH; [done.. |]. intros w' ? ? ?. simpl in HQ. rewrite sapp_assoc. by apply HQ.
  - wp_step. apply wp_os_Open_quiet; [done |]. intros w2 ?. later_subst.
    simpl w_fs. rewrite Hfs by done. wp_step.
    apply wp_io_Copy; [intros; quiet |]. intros pos w3 ? _. later_subst. cbv beta iota. simpl.
    wp_step. apply wp_cache_SetEx_quiet; [done |]. intros w4 ?. later_subst.
    apply IH; [done | done | |].
    + intros q c Hq. simpl. destruct (decide (p = q)) as [->|Hne].
      * rewrite lookup_insert_eq. intros [= <-]. by apply Hfs.
      * rewrite lookup_insert_ne by done. by apply Hc.
    + intros w' ? ? ?. simpl in HQ. rewrite sapp_assoc. by apply HQ.
Qed.

End rules.

(** * A whole file

    What a client does: it sends the parts in order, each with its number, the
    number of the next (-1 after the last), and its digest. *)
Section client.
Context `{E : Env} `{OS : OsEnv} `{MR : MapRange}.
Context (dir : list string) (querier mq : QueryMapper).

Definition part_request (user file : string) (i : nat) (last : bool) (part : string) :
    FileChunkRequest :=
  {| fcr_ChunkID := Itoa (Z.of_nat i);
     fcr_NextChunkID := Itoa (if last then -1 else Z.of_nat (S i))%Z;
     fcr_ChunkDigest := EncodeToString (sha256 part);
     fcr_ChunkSize := Z.of_nat (String.length part); fcr_FileDigest := "";
     fcr_Data := part; fcr_FileID := file; fcr_UserID := user |}.

Fixpoint upload_parts (user file : string) (i : nat) (parts : list string) : Go unit :=
  match parts with
  | [] => mret ()
  | part :: rest =>
    rsp ← FileChunkService_Create (abs_path dir) querier
            (part_request user file i (bool_decide (rest = [])) part);
    upload_parts user file (S i) rest
  end.

(** What the routes DownloadFileV2 does with the services. *)
Definition download_file (fileID userID : string) : Go (res string) :=
  r ← ListOrderedFileChunks mq fileID userID;
  match r with
  | Err e => mret (Err e)
  | Val (downloadUrls, infoResp) => Download (fir_Size infoResp) downloadUrls
  end.

End client.

(** The rows that uploading parts from number [i] on adds. *)
Definition part_rows (dir : list string) (user file : string) (i : nat) (rows : list UserFile)
    (parts : list string) : Prop :=
  length rows = length parts ∧
  ∀ j uf, rows !! j = Some uf →
    uf_UserID uf = user ∧ uf_FileID uf = file ∧ uf_ChunkID uf = Z.of_nat (i + j) ∧
    uf_ChunkBlobUrl uf = chunk_file dir file (Z.of_nat (i + j)).

Section roundtrip.
Context `{E : Env} {EO : EnvOk E} `{OS : OsEnv} `{MR : MapRange}.
Context (dir : list string) (querier mq : QueryMapper) (user file : string).
Context (Hf : no_fault) (Hq : has_query querier CreateFileChunkStmt)
  (Hdir : plain_dir dir) (Hfile : plain file = true).

Lemma wp_upload_parts i parts w (Q : ret unit → World → Prop) :
  (Z.of_nat (i + length parts) ≤ max_int64)%Z →
  (∀ w' rows,
    part_rows dir user file i rows parts →
    w_db w' = add_chunks rows (w_db w) → w_cache w' = w_cache w →
    (∀ j part, parts !! j = Some part →
      w_fs w' !! chunk_file dir file (Z.of_nat (i + j)) = Some part) →
    (∀ p, (∀ j, i ≤ j → p ≠ chunk_file dir file (Z.of_nat j)) → w_fs w' !! p = w_fs w !! p) →
    Q (Ret ()) w') →
  wp (upload_parts dir querier user file i parts) w Q.
Proof.
  revert i w. induction parts as [|part parts IH]; intros i w Hlen HQ; simpl.
  { apply wp_ret, (HQ w []); try done. unfold add_chunks, with_user_files.
    destruct (w_db w). simpl. by rewrite app_nil_r. }
  simpl in Hlen. unfold max_int64 in Hlen. wp_step.
  apply wp_Create_quiet with (id := Z.of_nat i)
    (next := if bool_decide (parts = []) then (-1)%Z else Z.of_nat (S i)); try done.
  1-2: apply ParseInt_Itoa; unfold in_int64, min_int64, max_int64; try case_bool_decide; lia.
  cbv zeta. simpl. intros now w1 Hw1. apply IH; [unfold max_int64; lia |].
  intros w2 rows [Hlr Hrows] Hdb Hcache Hfs Hother. later_subst.
  set (uf := {| uf_UserID := user |}) in *. apply (HQ w2 (uf :: rows)).
  - split; [simpl; by rewrite Hlr |]. intros [|j] uf' Hj; simpl in Hj.
    + injection Hj as <-. rewrite Nat.add_0_r. done.
    + replace (i + S j) with (S i + j) by lia. by apply Hrows.
  - rewrite Hdb. unfold add_chunks, sql_CreateFileChunk, with_user_files. simpl.
    by rewrite <- app_assoc.
  - by rewrite Hcache.
  - intros [|j] p Hj; simpl in Hj.
    + injection Hj as ->. rewrite Nat.add_0_r, Hother; [simpl; by rewrite lookup_insert_eq |].
      intros j Hj [_ Heq]%chunk_file_inj; try done. lia.
    + replace (i + S j) with (S i + j) by lia. by apply Hfs.
  - intros p Hp. rewrite Hother by (intros j Hj; apply Hp; lia). simpl.
    rewrite lookup_insert_ne; [done |]. intros Heq. by apply (Hp i).
Qed.

(** The tables of an uploaded file: one metadata row, and the rows of its
    parts. *)
Definition uploaded (d : DB) (m : FileMetadata) (rows : list UserFile) (parts : list string) : Prop :=
  m ∈ db_file_metadatas d ∧ fm_ID m = file ∧ fm_UserID m = user ∧
  (∀ m', m' ∈ db_file_metadatas d → fm_ID m' = file → m' = m) ∧
  fm_NChunks m = Z.of_nat (length parts) ∧
  (∀ uf, uf ∈ db_user_files d ∧ uf_FileID uf = file ↔ uf ∈ rows) ∧
  part_rows dir user file 0 rows parts.

Lemma elem_of_rows_for d m rows parts r :
  uploaded d m rows parts →
  r ∈ rows_for file user d ↔ ∃ uf, uf ∈ rows ∧ r = select_columns (m, uf).
Proof.
  intros (Hm & Hid & Hu & Huniq & _ & Hrows & _). unfold rows_for.
  rewrite list_elem_of_filter, elem_of_SelectFiles. split.
  - intros (_ & fm & uf & Hfm & Huf & Heq & Hin & ->). apply list_elem_of_singleton in Hin.
    injection Hin as Hin. rewrite (Huniq fm) by done. exists uf.
    split; [apply Hrows; by rewrite Heq | done].
  - intros (uf & Huf & ->). split; [done |]. apply Hrows in Huf as [Huf Hfl].
    exists m, uf. split_and!; [done | done | congruence | | done].
    rewrite Hid. by left.
Qed.

Definition part_paths (n : nat) : list string :=
  (λ i, chunk_file dir file (Z.of_nat i)) <$> seq 0 n.

Lemma uploaded_answer d m rows parts r :
  uploaded d m rows parts → parts ≠ [] → (Z.of_nat (length parts) ≤ 2 ^ 44)%Z →
  ordered_answer (rows_for file user d) r →
  ∃ info, r = Ret (Val (part_paths (length parts), info)) ∧ fir_Size info = fm_FileSize m ∧
    fir_Name info = fm_Filename m.
Proof.
  intros Hup Hne Hlen. pose proof (λ r, elem_of_rows_for d m rows parts r Hup) as Helem.
  destruct Hup as (_ & Hid & _ & _ & Hn & _ & Hlr & Hrows). unfold ordered_answer.
  destruct (group_by_file_single file (rows_for file user d)) as [[Hnil _]|(r0 & Hr0 & ->)].
  { intros r0 (uf & _ & ->)%Helem. done. }
  { destruct rows as [|uf rows]; [by destruct parts |].
    exfalso. apply (not_elem_of_nil (select_columns (m, uf))). rewrite <- Hnil. apply Helem.
    exists uf. split; [by left | done]. }
  apply Helem in Hr0 as (uf0 & Huf0 & ->). simpl fir_NChunks. simpl fir_Chunks. rewrite Hn.
  set (chunks := chunk_map _).
  assert (Hchunks : ∀ k c, chunks !! k = Some c → ∃ i, i < length parts ∧
    k = Itoa (Z.of_nat i) ∧ fwc_ChunkID c = Z.of_nat i ∧
    fwc_ChunkBlobUrl c = chunk_file dir file (Z.of_nat i)).
  { intros k c [(uf & Huf & ->)%Helem ->]%chunk_map_Some.
    apply list_elem_of_lookup_1 in Huf as [i Hi]. exists i.
    apply lookup_lt_Some in Hi as Hlt. rewrite Hlr in Hlt.
    apply Hrows in Hi as (_ & _ & Hc & Hu). simpl. by rewrite Hc. }
  rewrite decide_True.
  2: { split; [lia |]. intros k c Hc. apply Hchunks in Hc as (i & Hi & _ & Hci & _).
       unfold chunk_fits. lia. }
  intros ->. exists (file_info (select_columns (m, uf0)) chunks). split; [| done]. do 3 f_equal. unfold ordered_urls, part_paths.
  rewrite Nat2Z.id. apply list_fmap_ext. intros j i Hj. apply lookup_seq in Hj as [-> Hj].
  assert (His : is_Some (chunks !! Itoa (Z.of_nat (0 + j)))).
  { apply chunk_map_is_Some. destruct (lookup_lt_is_Some_2 rows j) as [uf Huf]; [lia |].
    exists (select_columns (m, uf)). split.
    - apply Helem. exists uf. split; [by eapply list_elem_of_lookup_2 | done].
    - apply Hrows in Huf as (_ & _ & Hc & _). simpl. by rewrite Hc. }
  destruct His as [c Hc]. rewrite Hc. apply Hchunks in Hc as (i & _ & Heq & _ & ->).
  apply Itoa_inj in Heq. by rewrite Heq.
Qed.

End roundtrip.

(** A file whose rows and chunks are in place is downloaded whole. *)
Lemma wp_download_uploaded `{E : Env} {EO : EnvOk E} `{OS : OsEnv} `{MR : MapRange}
    dir mq user file parts m rows w :
  no_fault → has_query mq SelectFilesForUserStmt → plain_dir dir → plain file = true →
  uploaded dir user file (w_db w) m rows parts → parts ≠ [] → (Z.of_nat (length parts) ≤ 2 ^ 44)%Z →
  (0 ≤ fm_FileSize m ≤ 2 ^ 48)%Z →
  (∀ j part, parts !! j = Some part → w_fs w !! chunk_file dir file (Z.of_nat j) = Some part) →
  (∀ c, w_cache w !! chunk_file dir file c = None) →
  wp (download_file mq file user) w (λ r _, r = Ret (Val (foldr String.append "" parts))).
Proof.
  intros Hf Hmq Hdir Hfile Hup Hne Hlen Hsize Hfs Hcold.
  unfold download_file. wp_step. apply wp_ListOrderedFileChunks; [done | done |].
  intros r w2 ? Hr. apply (uploaded_answer dir user file _ m rows parts) in Hr
    as (info & -> & Hinfo & _); [| done..].
  unfold Download. wp_step. wp_step. rewrite Hinfo, decide_True by done. cbv beta iota.
  later_subst. set (data := λ p, default "" (w_fs w !! p)).
  assert (Hpaths : ∀ p, p ∈ part_paths dir file (length parts) →
    ∃ j part, p = chunk_file dir file (Z.of_nat j) ∧ parts !! j = Some part ∧
              w_fs w !! p = Some part).
  { intros p (j & -> & Hj)%list_elem_of_fmap. apply elem_of_seq in Hj as [_ Hj].
    destruct (lookup_lt_is_Some_2 parts j) as [part Hp]; [done |]. exists j, part.
    split_and!; [done | done | by apply Hfs]. }
  apply (wp_download_loop_quiet (part_paths dir file (length parts))) with (data := data);
    [done | done | | |].
  - intros p (j & part & -> & _ & Hp)%Hpaths. unfold data. simpl. by rewrite Hp.
  - intros p c (j & _ & -> & _)%Hpaths. simpl. by rewrite Hcold.
  - intros _ _ _ _.
    assert (data <$> part_paths dir file (length parts) = parts) as ->; [| done].
    unfold part_paths, data. apply list_eq_same_length with (length parts);
      [done | by rewrite !length_fmap, length_seq |].
    intros i x y Hi Hx Hy. rewrite !list_lookup_fmap, lookup_seq_lt in Hx by done.
    apply Hfs in Hy. simpl in Hx, Hy. rewrite Hy in Hx. by injection Hx.
Qed.

(** (C4) What was uploaded is downloaded.  When no external call fails, a
    client announces a file of n parts, sends the parts in order, and the same
    user downloads the file: the result is the concatenation of the parts, byte
    for byte, whatever order Go walks its maps in, whatever else is on the
    disk, in the tables and in the cache.  The hypotheses are about the start:
    the metadata row of the file is the only one with its identifier, its chunk
    count is the number of parts, no chunk of the file is stored or cached yet,
    and the size announced can be allocated. *)
Theorem upload_download_roundtrip `{E : Env} {EO : EnvOk E} `{OS : OsEnv} `{MR : MapRange}
    dir querier mq user file parts m w :
  no_fault → has_query querier CreateFileChunkStmt → has_query mq SelectFilesForUserStmt →
  plain_dir dir → plain file = true →
  m ∈ db_file_metadatas (w_db w) → fm_ID m = file → fm_UserID m = user →
  (∀ m', m' ∈ db_file_metadatas (w_db w) → fm_ID m' = file → m' = m) →
  fm_NChunks m = Z.of_nat (length parts) → parts ≠ [] → (Z.of_nat (length parts) ≤ 2 ^ 44)%Z →
  (0 ≤ fm_FileSize m ≤ 2 ^ 48)%Z →
  (∀ uf, uf ∈ db_user_files (w_db w) → uf_FileID uf ≠ file) →
  (∀ c, w_cache w !! chunk_file dir file c = None) →
  wp (upload_parts dir querier user file 0 parts;; download_file mq file user) w
    (λ r _, r = Ret (Val (foldr String.append "" parts))).
Proof.
  intros Hf Hq Hmq Hdir Hfile Hm Hid Hu Huniq Hn Hne Hlen Hsize Hnone Hcold.
  wp_step. apply wp_upload_parts; [done.. | unfold max_int64; lia |].
  intros w1 rows Hrows Hdb Hcache Hfs _.
  assert (Hup : uploaded dir user file (w_db w1) m rows parts).
  { rewrite Hdb. unfold uploaded. split_and!; try done. intros uf. simpl. rewrite elem_of_app.
    split; [intros [[Huf|Huf] Heq]; [by apply Hnone in Huf | done] |].
    intros Huf. split; [by right |]. apply list_elem_of_lookup_1 in Huf as [i Hi].
    by apply Hrows in Hi as (_ & -> & _). }
  apply (wp_download_uploaded dir mq user file parts m rows w1); try done. intros c. by rewrite Hcache, Hcold.
Qed.

Lemma upload_download_roundtrip_witness :
  let m := sample_file "F3" None false StatusUploading 30%Z in
  wp (upload_parts (E := quiet_env) (OS := sample_os) ["srv"; "data"] chunkQs "U11223455" "F3" 0
        ["hello "; "world"];;
      download_file (E := quiet_env) (OS := sample_os) (MR := list_range) metadataQueryStore "F3" "U11223455")
    (world_with_db (sql_CreateFileMetadata m sample_db) empty_world)
    (λ r _, r = Ret (Val "hello world")).
Proof.
  intros m.
  apply (upload_download_roundtrip (E := quiet_env) (OS := sample_os) (MR := list_range)
    ["srv"; "data"] chunkQs metadataQueryStore "U11223455" "F3" ["hello "; "world"] m);
    try done; try by (apply (bool_decide_unpack _); vm_compute).
  - right. right. by left.
  - intros m' Hm' Hid. simpl in Hm'. rewrite !elem_of_cons, elem_of_nil in Hm'.
    destruct Hm' as [->|[->|[->|[]]]]; done.
  - intros uf Hu Heq. simpl in Hu. rewrite !elem_of_cons, elem_of_nil in Hu.
    destruct Hu as [->|[->|[->|[]]]]; done.
Defined.

(** A chunk that was not written is recorded as stored.  When every call
    succeeds except the copy of the part to its file (a full disk), the request
    is answered with success, a row is inserted for the chunk with the empty
    path, and the file is left with the bytes that got through. *)
Theorem Create_records_lost_chunk `{E : Env} `{OS : OsEnv} dir querier req id next e w :
  plain_dir dir → plain (fcr_FileID req) = true → has_query querier CreateFileChunkStmt →
  fcr_ChunkDigest req = EncodeToString (sha256 (fcr_Data req)) →
  Atoi (fcr_ChunkID req) = (id, None) → ParseInt (fcr_NextChunkID req) = (next, None) →
  (∀ n, fault n = if decide (n = w_tick w + 6) then Some e else None) →
  wp (FileChunkService_Create (abs_path dir) querier req) w (λ r w',
    ∃ resp uf, r = Ret (succeeded resp) ∧ cur_ChunkBlobUrl resp = "" ∧
      db_user_files (w_db w') = db_user_files (w_db w) ++ [uf] ∧
      uf_FileID uf = fcr_FileID req ∧ uf_ChunkID uf = id ∧ uf_ChunkBlobUrl uf = "" ∧
      w_fs w' !! chunk_file dir (fcr_FileID req) id
      = Some (stake (os_moved (w_tick w + 6)) (fcr_Data req))).
Proof.
  intros Hdir Hfile [stmt Hq] Hd Hid Hnext Hf.
  assert (Hok : ∀ n, n ≠ w_tick w + 6 → fault n = None)
    by (intros n Hn; by rewrite Hf, decide_False).
  assert (Hbad : fault (S (S (S (S (S (S (w_tick w))))))) = Some e)
    by (rewrite Hf, decide_True by lia; done).
  unfold FileChunkService_Create, ValidateHash, UserFileRepository_Create, UpdateChunk,
    EnsureDir, os_Create, SeekStart, io_Copy. rewrite Hq.
  repeat (wp_step; cbn [w_tick tick world_with_tick world_with_fs world_with_db];
    rewrite ?Hbad, ?Hok by lia; cbv beta iota; cbn [fst snd];
    rewrite ?Hid, ?Hnext, ?(decide_True (P := fcr_ChunkDigest req = _)) by exact Hd).
  { intros e0 [=]. }
  intros _. wp_go. eexists _, _. split; [done |].
  cbn [w_fs w_db tick world_with_tick world_with_fs world_with_db cf_chunkID NewChunkedFile].
  fold (chunk_file dir (fcr_FileID req) id). rewrite lookup_insert_eq.
  split_and!; try done. by rewrite (Nat.add_comm (w_tick w) 6).
Qed.

Lemma Create_records_lost_chunk_witness :
  let full_disk := sample_env (λ n, if decide (n = 6) then Some "no space left" else None) in
  let req := part_request (E := full_disk) "U11223455" "F2" 0 false "hello" in
  wp (FileChunkService_Create (E := full_disk) (OS := sample_os) (abs_path ["srv"; "data"])
        chunkQs req) sample_world (λ r w',
    ∃ resp, r = Ret (succeeded resp) ∧ w_fs w' !! "/srv/data/F2/0" = Some "he").
Proof.
  intros full_disk req. eapply wp_mono.
  - apply (Create_records_lost_chunk (E := full_disk) (OS := sample_os) ["srv"; "data"] chunkQs
      req 0%Z 1%Z "no space left" sample_world); try done.
    + split; [done | by repeat constructor].
    + by apply (bool_decide_unpack _); vm_compute.
  - intros r w' (resp & uf & Hr & _ & _ & _ & _ & _ & Hfs). exists resp. split; [done | exact Hfs].
Defined.

(** A download may return bytes that are no longer on the disk: if the
    cache holds an entry for the file of a chunk, then after the chunk is
    stored again with other bytes a download of it still returns the cached
    ones (nothing invalidates the entry). *)
Theorem Download_stale `{E : Env} `{OS : OsEnv} dir file chunk old fileSize w :
  no_fault → (0 ≤ fileSize ≤ 2 ^ 48)%Z →
  w_cache w !! chunk_file dir file (cf_chunkID chunk) = Some old →
  wp (path ← UpdateChunk (abs_path dir) file chunk;
      Download fileSize [chunk_file dir file (cf_chunkID chunk)]) w (λ r w',
    r = Ret (Val old) ∧
    w_fs w' !! chunk_file dir file (cf_chunkID chunk) = Some (rs_data (cf_data chunk))).
Proof.
  intros Hf Hsize Hold. wp_step. apply wp_UpdateChunk; [done | done |].
  intros got w1 ? [->|]; [| done]. later_subst. unfold Download. wp_step. wp_step.
  rewrite decide_True by done. cbv beta iota. cbn [download_loop]. wp_step.
  apply wp_cache_Get_quiet; [done |]. intros w2 ?. later_subst. simpl w_cache. rewrite Hold.
  wp_go. simpl. by rewrite lookup_insert_eq.
Qed.

Lemma Download_stale_witness :
  let w := world_with_cache {["/srv/data/F2/1" := "old bytes"]} sample_world in
  wp (path ← UpdateChunk (E := quiet_env) (OS := sample_os) (abs_path ["srv"; "data"]) "F2"
               (NewChunkedFile (sample_part "new bytes") 1%Z);
      Download (E := quiet_env) (OS := sample_os) 9%Z ["/srv/data/F2/1"]) w (λ r w',
    r = Ret (Val "old bytes") ∧ w_fs w' !! "/srv/data/F2/1" = Some "new bytes").
Proof.
  exact (Download_stale (E := quiet_env) (OS := sample_os) ["srv"; "data"] "F2"
    (NewChunkedFile (sample_part "new bytes") 1%Z) "old bytes" 9%Z
    (world_with_cache {["/srv/data/F2/1" := "old bytes"]} sample_world)
    (λ _, eq_refl) ltac:(by vm_compute) ltac:(by vm_compute)).
Defined.
