(* ===== verification/Migrations.v ===== *)
(** core/database/connect.go, cmd/cli/main.go and pkg/config/config.go: the
    connection to the database and the command that creates and drops its
    tables from the files of migrations/sqlite. *)
From S2P Require Import Prelude GoStd Model World Transfer.
From Stdlib Require Import Ascii.

(** * The server and the configuration

    What a statement that defines tables says to SQLite; [parse_ddl] is how the
    server reads a text, [None] a text it refuses. *)
Inductive Ddl :=
| CreateTableIfNotExists (name columns : string)
| DropTable (name : string).

(** The value of a key of the configuration: an [any] that holds a string, or
    something else. *)
Inductive CfgValue :=
| CfgString (s : string)
| CfgOther.

Class Platform := {
  parse_ddl : string → option Ddl;
  (** [os.Getenv] *)
  Getenv : string → string;
  (** diaper's [ReadFromFile(env, file)] *)
  ReadFromFile : string → string → res (gmap string CfgValue);
}.

(** The tables of a database by name, with their columns. *)
Abbreviation Tables := (gmap string string).

(** A statement on the tables. *)
Definition run_ddl (d : Ddl) (t : Tables) : res Tables :=
  match d with
  | CreateTableIfNotExists name columns =>
    Val (match t !! name with Some _ => t | None => <[name := columns]> t end)
  | DropTable name =>
    match t !! name with
    | Some _ => Val (delete name t)
    | None => Err ("no such table: " +:+ name)
    end
  end.

(** The world with the database files, by name.  A file that is not there and
    one without tables are not told apart ([tables_of]): that SQLite makes the
    file, or turns its journal to WAL, when it is opened is no change here. *)
Record Site := { site_world : World; site_dbs : gmap string Tables }.

Definition site_with_db (name : string) (t : Tables) (s : Site) : Site :=
  {| site_world := site_world s; site_dbs := <[name := t]> (site_dbs s) |}.
Definition site_with_world (w : World) (s : Site) : Site :=
  {| site_world := w; site_dbs := site_dbs s |}.

(** The tables of a database file; SQLite makes a file that is not there. *)
Definition tables_of (name : string) (s : Site) : Tables := default ∅ (site_dbs s !! name).

Definition Cmd (A : Type) : Type := M Site A.

(** An operation on the world alone. *)
Definition on_world {A} (m : Go A) : Cmd A := λ s,
  let '(r, w) := m (site_world s) in (r, site_with_world w s).

(** [log.Fatal] ends the process. *)
Definition Fatal {A} (msg : string) : Cmd A := panic msg.

(** * connect.go *)
Record Sqlite := { dbName : string; dsn : string; conn : bool }.

Definition ConnectSqlite (name : string) : Sqlite :=
  {| dbName := name; dsn := "sqlite3"; conn := false |}.

Definition GetConn (sqlite : Sqlite) : res unit :=
  if conn sqlite then Val () else Err "uninitialized".

Definition MigrationDir : string := "./migrations/sqlite".

Record AppConfig := {
  ServerID : string;
  Environment : string;
  Dsn : string;
  DbName : string;
  RedisURL : string;
}.

Section migrations.
Context `{E : Env} `{PF : Platform}.

(** [Connect]: the handle with an open connection.  Opening changes no table. *)
Definition Connect (sqlite : Sqlite) : Cmd Sqlite :=
  err ← on_world call;
  match err with
  | Some _ => Fatal "failed to connect to sqlite"
  | None =>
    err ← on_world call;
    match err with
    | Some _ => Fatal "failed to reach to sqlite"
    | None => mret {| dbName := dbName sqlite; dsn := dsn sqlite; conn := true |}
    end
  end.

(** [tx.ExecContext(ctx, stmt)] on the tables of the transaction. *)
Definition tx_ddl (stmt : string) (tx : Tables) : Cmd (res Tables) :=
  err ← on_world call;
  match err with
  | Some e => mret (Err e)
  | None =>
    mret (match parse_ddl stmt with
          | Some d => run_ddl d tx
          | None => Err "SQL logic error"
          end)
  end.

Fixpoint setup_loop (stmts : list string) (tx : Tables) : Cmd (res Tables) :=
  match stmts with
  | [] => mret (Val tx)
  | stmt :: rest =>
    r ← tx_ddl (TrimSpace stmt) tx;
    match r with
    | Err e => mret (Err e)
    | Val tx => setup_loop rest tx
    end
  end.

(** [os.ReadFile] *)
Definition os_ReadFile (path : string) : Go (res string) := os_Open path.

(** [Setup]: the transaction works on a copy of the tables, which [Commit]
    publishes; the deferred function drops it after an error.  Without a
    connection the handle is nil. *)
Definition Setup (sqlite : Sqlite) (up : bool) : Cmd (option error) :=
  let schemaFile :=
    if up then Sprintf "%s/schema.up.sql" [AStr MigrationDir]
    else Sprintf "%s/schema.down.sql" [AStr MigrationDir] in
  data ← on_world (os_ReadFile schemaFile);
  match data with
  | Err e => mret (Some e)
  | Val data =>
    if negb (conn sqlite) then panic "nil pointer dereference" else
    err ← on_world call;
    match err with
    | Some e => mret (Some e)
    | None =>
      s ← get;
      r ← setup_loop (Split data "---") (tables_of (dbName sqlite) s);
      match r with
      | Err e => _ ← on_world call; mret (Some e)
      | Val tx =>
        err ← on_world call;
        match err with
        | Some e => _ ← on_world call; mret (Some e)
        | None => modify (site_with_db (dbName sqlite) tx);; mret None
        end
      end
    end
  end.

(** * config.go *)

(** [cfgMap.MustGet(key).(string)] *)
Definition MustGetString (cfgMap : gmap string CfgValue) (key : string) : Cmd string :=
  match cfgMap !! key with
  | Some (CfgString s) => mret s
  | Some CfgOther => panic "interface conversion"
  | None => panic "key not found"
  end.

Definition Load (envFile : string) : Cmd AppConfig :=
  let env := if decide (Getenv "ENVIRONMENT" = "") then "dev" else Getenv "ENVIRONMENT" in
  match ReadFromFile env envFile with
  | Err _ => Fatal ("failed to load config from " +:+ envFile)
  | Val cfgMap =>
    server_id ← MustGetString cfgMap "server_id";
    dsn ← MustGetString cfgMap "dsn";
    db_name ← MustGetString cfgMap "db_name";
    redis_url ← MustGetString cfgMap "redis_url";
    mret {| ServerID := server_id; Environment := env; Dsn := dsn; DbName := db_name;
            RedisURL := redis_url |}
  end.

(** * The command *)

(** [MigrateCmd.Run] with the values of its flags. *)
Definition MigrateCmd_Run (dir envDir : string) : Cmd (option error) :=
  if decide (dir ≠ "up" ∧ dir ≠ "down") then mret (Some "invalid command direction") else
  cfg ← Load envDir;
  conn ← Connect (ConnectSqlite (DbName cfg));
  Setup conn (bool_decide (dir = "up")).

End migrations.

(** * The files of migrations/sqlite *)
Definition schema_up : string := "CREATE TABLE IF NOT EXISTS file_metadatas (
	id VARCHAR(48)
	,prev_id VARCHAR(48)
	,user_id VARCHAR(48)
	,file_name TEXT NOT NULL
	,file_size INTEGER
	,file_type VARCHAR(100)
	,file_hash VARCHAR(255)
	,chunks INTEGER NOT NULL
	,current_flag TINYINT(1) DEFAULT 0
	,upload_status VARCHAR(30) DEFAULT 'uploading'
	,created_at TIMESTAMP NOT NULL DEFAULT CURRENT_TIMESTAMP
	,updated_at TIMESTAMP NOT NULL DEFAULT CURRENT_TIMESTAMP
	,end_date TIMESTAMP DEFAULT NULL
);


---

CREATE TABLE IF NOT EXISTS users (
	id VARCHAR(48) PRIMARY KEY
	,user_type VARCHAR(20) NOT NULL
	,email TEXT NOT NULL
	,hashedpass TEXT
	,blocked TINYINT DEFAULT 0
	,created_at TIMESTAMP NOT NULL DEFAULT CURRENT_TIMESTAMP
	,updated_at TIMESTAMP NOT NULL DEFAULT CURRENT_TIMESTAMP
);

---

CREATE TABLE IF NOT EXISTS user_files (
	user_id VARCHAR(48)
	,file_id VARCHAR(48) NOT NULL
	,chunk_id INTEGER NOT NULL
	,next_chunk_id INTEGER
	,chunk_blob_url TEXT NOT NULL
	,chunk_hash TEXT NOT NULL
	,created_at TIMESTAMP NOT NULL DEFAULT CURRENT_TIMESTAMP
	,updated_at TIMESTAMP NOT NULL DEFAULT CURRENT_TIMESTAMP
);

---

CREATE TABLE IF NOT EXISTS tokens (
	resource_id VARCHAR(48) NOT NULL
	,resource_type VARCHAR(20)
	,user_id VARCHAR(48)
	,access_token VARCHAR(64)
	,refresh_token VARCHAR(64)
	,token_type VARCHAR(20)
	,access_expires_at TIMESTAMP NOT NULL 
	,refresh_expires_at TIMESTAMP NOT NULL
	,created_at TIMESTAMP NOT NULL DEFAULT CURRENT_TIMESTAMP
	,updated_at TIMESTAMP NOT NULL DEFAULT CURRENT_TIMESTAMP
);

".

Definition schema_down : string := "DROP TABLE file_metadatas;
---

DROP TABLE users;
---

DROP TABLE user_files;
---

DROP TABLE tokens;
".

Section specification.
Context `{E : Env} `{PF : Platform}.
Implicit Types (s : Site) (t : Tables).

(** What the statements of a file do, all of them or not at all. *)
Fixpoint run_all (stmts : list string) t : res Tables :=
  match stmts with
  | [] => Val t
  | stmt :: rest =>
    match parse_ddl (TrimSpace stmt) with
    | Some d => match run_ddl d t with Val t' => run_all rest t' | Err e => Err e end
    | None => Err "SQL logic error"
    end
  end.

(** SQLite reads the statements of the two files as what they say. *)
Definition reads_schema (c1 c2 c3 c4 : string) : Prop :=
  (λ x, parse_ddl (TrimSpace x)) <$> Split schema_up "---" =
    [Some (CreateTableIfNotExists "file_metadatas" c1); Some (CreateTableIfNotExists "users" c2);
     Some (CreateTableIfNotExists "user_files" c3); Some (CreateTableIfNotExists "tokens" c4)] ∧
  (λ x, parse_ddl (TrimSpace x)) <$> Split schema_down "---" =
    [Some (DropTable "file_metadatas"); Some (DropTable "users");
     Some (DropTable "user_files"); Some (DropTable "tokens")].

Definition schema_file (up : bool) : string :=
  if up then "./migrations/sqlite/schema.up.sql" else "./migrations/sqlite/schema.down.sql".

Lemma site_world_same s : site_with_world (site_world s) s = s.
Proof. by destruct s. Qed.

Lemma wp_on_world {A} (m : Go A) s Q :
  wp m (site_world s) (λ r w, Q r (site_with_world w s)) → wp (on_world m) s Q.
Proof. unfold wp, on_world. by destruct (m (site_world s)). Qed.

Lemma wp_setup_loop stmts t s (Q : ret (res Tables) → Site → Prop) :
  (∀ e w, later (site_world s) w → run_all stmts t = Err e ∨ ¬ no_fault →
     Q (Ret (Err e)) (site_with_world w s)) →
  (∀ t' w, later (site_world s) w → run_all stmts t = Val t' →
     Q (Ret (Val t')) (site_with_world w s)) →
  wp (setup_loop stmts t) s Q.
Proof.
  revert t s Q. induction stmts as [|stmt rest IH]; intros t s Q He Hv; cbn [setup_loop].
  { wp_step. specialize (Hv t (site_world s)). rewrite site_world_same in Hv. auto using later_refl. }
  wp_step. unfold tx_ddl. wp_step. apply wp_on_world, wp_call. destruct (fault _) eqn:Hf.
  { do 2 wp_step. apply (He e (tick (site_world s))); [solve_later | right; intros ?; quiet]. }
  wp_step. cbn [run_all] in He, Hv. destruct (parse_ddl (TrimSpace stmt)) as [d|].
  2: { wp_step. apply (He _ (tick (site_world s))); [solve_later | by left]. }
  destruct (run_ddl d t) as [t'|e']; cbv beta iota.
  2: { wp_step. apply (He _ (tick (site_world s))); [solve_later | by left]. }
  assert (Hl : ∀ w, later (tick (site_world s)) w → later (site_world s) w).
  { intros w. apply later_trans. solve_later. }
  apply IH; simpl; intros x w ?%Hl ?; [by apply (He x w) | by apply (Hv x w)].
Qed.

(** All or nothing: an error leaves the tables of every database as they were,
    and there is none only if every statement of the file was executed. *)
Lemma wp_Setup sqlite up s (Q : ret (option error) → Site → Prop) :
  conn sqlite = true →
  let data := w_fs (site_world s) !! schema_file up in
  let runs stmts := run_all stmts (tables_of (dbName sqlite) s) in
  (∀ e w, later (site_world s) w →
     (∀ text t, data = Some text → runs (Split text "---") = Val t → ¬ no_fault) →
     Q (Ret (Some e)) (site_with_world w s)) →
  (∀ text t w, later (site_world s) w → data = Some text → runs (Split text "---") = Val t →
     Q (Ret None) (site_with_db (dbName sqlite) t (site_with_world w s))) →
  wp (Setup sqlite up) s Q.
Proof.
  intros Hc data runs He Hv. unfold Setup.
  replace (if up then _ else _) with (schema_file up) by by destruct up.
  assert (Hfault : ∀ n e, fault n = Some e → ¬ no_fault) by (intros n e ? ?; quiet).
  wp_step. apply wp_on_world. unfold os_ReadFile, os_Open. wp_step. wp_step.
  destruct (fault _) eqn:Hf.
  { do 2 wp_step. apply (He e (tick (site_world s))); [solve_later | by eauto]. }
  do 2 wp_step. change (w_fs (tick (site_world s))) with (w_fs (site_world s)). fold data.
  destruct data as [text|]; cbv beta iota.
  2: { wp_step. by apply (He _ (tick (site_world s))); [solve_later |]. }
  rewrite Hc. cbv beta iota delta [negb]. do 2 wp_step. apply wp_on_world, wp_call.
  cbn [site_with_world site_world]. destruct (fault (w_tick (tick (site_world s)))) eqn:Hf2.
  { wp_step. apply (He _ (tick (tick (site_world s)))); [solve_later | by eauto]. }
  do 3 wp_step. apply wp_setup_loop; simpl.
  - intros e w ? Hwhy. wp_step. apply wp_on_world, wp_call. wp_step.
    apply (He e (tick w)); [solve_later |]. intros text' t [= <-] Ht.
    destruct Hwhy as [Herr|?]; [| done].
    assert (runs (Split text "---") = Err e) by exact Herr. congruence.
  - intros t w ? Ht. wp_step. apply wp_on_world, wp_call.
    cbn [site_with_world site_world]. destruct (fault (w_tick w)) eqn:Hf3.
    { wp_step. apply wp_on_world, wp_call. wp_step.
      apply (He e (tick (tick w))); [solve_later | by eauto]. }
    do 2 wp_step. simpl. apply (Hv text t (tick w)); [solve_later | done | done].
Qed.

(** The statements, once read. *)
Fixpoint run_ddls (ds : list Ddl) t : res Tables :=
  match ds with
  | [] => Val t
  | d :: ds' => match run_ddl d t with Val t' => run_ddls ds' t' | Err e => Err e end
  end.

Lemma run_all_read stmts ds t :
  (λ x, parse_ddl (TrimSpace x)) <$> stmts = Some <$> ds → run_all stmts t = run_ddls ds t.
Proof.
  revert stmts t. induction ds as [|d ds IH]; intros [|x stmts] t H; simplify_eq/=; [done |].
  match goal with Hp : parse_ddl _ = _ |- _ => rewrite Hp end.
  destruct (run_ddl d t); [by apply IH | done].
Qed.

(** A table that is there keeps its columns. *)
Lemma run_creates (l : list (string * string)) t :
  run_ddls ((λ p, CreateTableIfNotExists p.1 p.2) <$> l) t = Val (t ∪ list_to_map l).
Proof.
  revert t. induction l as [|[n c] l IH]; intros t; [by simpl; rewrite (right_id ∅ (∪)) |].
  rewrite fmap_cons. cbn [run_ddls run_ddl fst snd]. rewrite IH. f_equal.
  rewrite list_to_map_cons, (insert_union_singleton_l (list_to_map l)), (assoc (∪)). f_equal.
  destruct (t !! n) as [x|] eqn:Hn; [| by apply insert_union_singleton_r].
  apply map_eq. intros k. rewrite lookup_union. destruct (decide (n = k)) as [<-|].
  - by rewrite Hn, union_Some_l.
  - rewrite lookup_singleton_ne by done. by destruct (t !! k).
Qed.

(** Dropping tables works when all of them are there. *)
Lemma run_drops (l : list (string * string)) t :
  NoDup l.*1 → Forall (λ n, is_Some (t !! n)) l.*1 →
  run_ddls ((λ p, DropTable p.1) <$> l) t = Val (t ∖ list_to_map l).
Proof.
  revert t. induction l as [|[n c] l IH]; intros t Hnd Hall; [by simpl; rewrite map_difference_empty |].
  rewrite fmap_cons in Hnd, Hall. apply NoDup_cons in Hnd as [Hn Hnd].
  apply Forall_cons in Hall as [[x Hx] Hall].
  rewrite fmap_cons. cbn [run_ddls run_ddl fst] in *. rewrite Hx, IH; [| done |].
  - f_equal. apply map_eq. intros k. apply option_eq. intros v. rewrite list_to_map_cons.
    rewrite !lookup_difference_Some, lookup_delete_Some, lookup_insert_None. tauto.
  - eapply Forall_impl; [apply Forall_and; split; [exact Hall |] |].
    + apply Forall_forall. intros k Hk. exact (λ Hkn : n = k, Hn (eq_ind_r (.∈ l.*1) Hk Hkn)).
    + intros k [? ?]. by rewrite lookup_delete_ne.
Qed.

Lemma run_drops_missing (l : list (string * string)) t :
  Exists (λ n, t !! n = None) l.*1 → ∃ e, run_ddls ((λ p, DropTable p.1) <$> l) t = Err e.
Proof.
  revert t. induction l as [|[n c] l IH]; intros t Hex; [by apply Exists_nil in Hex |].
  rewrite fmap_cons in *. cbn [run_ddls run_ddl fst] in *. destruct (t !! n) as [x|] eqn:Hn; [| eauto].
  apply IH. apply Exists_cons in Hex as [Heq|Hex]; [simpl in Heq; congruence |].
  eapply Exists_impl; [exact Hex |]. intros k Hk. by apply lookup_delete_None; right.
Qed.

(** What [Load] reads. *)
Definition configures (envDir : string) (cfg : AppConfig) : Prop :=
  Environment cfg = (if decide (Getenv "ENVIRONMENT" = "") then "dev" else Getenv "ENVIRONMENT") ∧
  ∃ cfgMap, ReadFromFile (Environment cfg) envDir = Val cfgMap ∧
    cfgMap !! "server_id" = Some (CfgString (ServerID cfg)) ∧
    cfgMap !! "dsn" = Some (CfgString (Dsn cfg)) ∧
    cfgMap !! "db_name" = Some (CfgString (DbName cfg)) ∧
    cfgMap !! "redis_url" = Some (CfgString (RedisURL cfg)).

Lemma wp_Load envDir cfg s (Q : ret AppConfig → Site → Prop) :
  configures envDir cfg → Q (Ret cfg) s → wp (Load envDir) s Q.
Proof.
  intros (Henv & cfgMap & Hread & H1 & H2 & H3 & H4) HQ. unfold Load. rewrite <- Henv, Hread.
  unfold MustGetString. rewrite H1, H2, H3, H4. wp_go. by destruct cfg.
Qed.

Lemma wp_Connect sqlite s (Q : ret Sqlite → Site → Prop) :
  no_fault →
  (∀ w, later (site_world s) w →
    Q (Ret {| dbName := dbName sqlite; dsn := dsn sqlite; conn := true |}) (site_with_world w s)) →
  wp (Connect sqlite) s Q.
Proof.
  intros Hf HQ. unfold Connect. wp_step. apply wp_on_world, wp_call. rewrite Hf. wp_step.
  apply wp_on_world, wp_call. rewrite Hf. wp_step. apply (HQ (tick (tick (site_world s)))). solve_later.
Qed.

End specification.

(** The tables of the schema, with the columns SQLite reads. *)
Definition schema_tables (c1 c2 c3 c4 : string) : list (string * string) :=
  [("file_metadatas", c1); ("users", c2); ("user_files", c3); ("tokens", c4)].

(** The site has the repository's files. *)
Definition has_migrations (s : Site) : Prop :=
  w_fs (site_world s) !! schema_file true = Some schema_up ∧
  w_fs (site_world s) !! schema_file false = Some schema_down.

Lemma run_up `{PF : Platform} c1 c2 c3 c4 t :
  reads_schema c1 c2 c3 c4 →
  run_all (Split schema_up "---") t = Val (t ∪ list_to_map (schema_tables c1 c2 c3 c4)).
Proof.
  intros [Hup _]. rewrite <- run_creates. by apply run_all_read.
Qed.

Lemma run_down `{PF : Platform} c1 c2 c3 c4 t :
  reads_schema c1 c2 c3 c4 →
  (Forall (λ n, is_Some (t !! n)) (schema_tables c1 c2 c3 c4).*1 →
     run_all (Split schema_down "---") t = Val (t ∖ list_to_map (schema_tables c1 c2 c3 c4))) ∧
  (Exists (λ n, t !! n = None) (schema_tables c1 c2 c3 c4).*1 →
     ∃ e, run_all (Split schema_down "---") t = Err e).
Proof.
  intros [_ Hdown].
  rewrite (run_all_read _ ((λ p, DropTable p.1) <$> schema_tables c1 c2 c3 c4)) by exact Hdown.
  split; [| apply run_drops_missing]. apply run_drops. apply (bool_decide_unpack _). by vm_compute.
Qed.

Lemma wp_migrate `{E : Env} `{PF : Platform} envDir cfg (up : bool) s (Q : ret (option error) → Site → Prop) :
  no_fault → configures envDir cfg → has_migrations s →
  let db := DbName cfg in
  let stmts := Split (if up then schema_up else schema_down) "---" in
  (∀ e w e', later (site_world s) w → run_all stmts (tables_of db s) = Err e' →
     Q (Ret (Some e)) (site_with_world w s)) →
  (∀ t w, later (site_world s) w → run_all stmts (tables_of db s) = Val t →
     Q (Ret None) (site_with_db db t (site_with_world w s))) →
  wp (MigrateCmd_Run (if up then "up" else "down") envDir) s Q.
Proof.
  intros Hf Hcfg [Hup Hdown] db stmts He Hv. unfold MigrateCmd_Run.
  rewrite decide_False by by destruct up; intros [].
  replace (bool_decide _) with up by by destruct up.
  wp_step. eapply wp_Load; [exact Hcfg |]. cbv beta iota. wp_step. apply wp_Connect; [done |].
  intros w Hw. cbv beta iota.
  assert (Hfs : w_fs w !! schema_file up = Some (if up then schema_up else schema_down)).
  { later_subst. by destruct up. }
  apply wp_Setup; [done | |]; cbn [dbName ConnectSqlite site_world site_with_world];
    fold db; fold (tables_of db s).
  - intros e w' Hl Hwhy. destruct (run_all stmts (tables_of db s)) as [t|e'] eqn:Hr.
    + by destruct (Hwhy _ t Hfs Hr).
    + eapply (He e w'); [by eapply later_trans | done].
  - intros text t w' Hl Htext Hr. rewrite Hfs in Htext. injection Htext as <-.
    apply (Hv t w'); [by eapply later_trans | done].
Qed.

(** (C32) The migrations do what they are for.  With the files of the repository,
    which SQLite reads as what they say, and nothing failing: "up" makes the
    tables that are missing and leaves those that are there alone, so a second
    "up" changes nothing; "down" drops the four tables when all are there, and
    otherwise fails and changes no table; "down" after "up" gives back a
    database without them; any other direction is an error before anything is
    read.  No command touches another database. *)
Theorem MigrateCmd_migrates `{E : Env} `{PF : Platform} envDir cfg c1 c2 c3 c4 s :
  no_fault → configures envDir cfg → reads_schema c1 c2 c3 c4 → has_migrations s →
  let db := DbName cfg in
  let schema : Tables := list_to_map (schema_tables c1 c2 c3 c4) in
  let others (s' : Site) := ∀ db', db' ≠ db → tables_of db' s' = tables_of db' s in
  wp (MigrateCmd_Run "up" envDir) s (λ r s',
    r = Ret None ∧ tables_of db s' = tables_of db s ∪ schema ∧ others s' ∧ has_migrations s') ∧
  wp (MigrateCmd_Run "down" envDir) s (λ r s',
    (Forall (λ n, is_Some (tables_of db s !! n)) (schema_tables c1 c2 c3 c4).*1 →
       r = Ret None ∧ tables_of db s' = tables_of db s ∖ schema) ∧
    (Exists (λ n, tables_of db s !! n = None) (schema_tables c1 c2 c3 c4).*1 →
       (∃ e, r = Ret (Some e)) ∧ site_dbs s' = site_dbs s) ∧ others s') ∧
  (∀ dir, dir ≠ "up" → dir ≠ "down" →
     MigrateCmd_Run dir envDir s = (Ret (Some "invalid command direction"), s)) ∧
  tables_of db s ∪ schema ∪ schema = tables_of db s ∪ schema ∧
  (tables_of db s ##ₘ schema → (tables_of db s ∪ schema) ∖ schema = tables_of db s).
Proof.
  intros Hf Hcfg Hreads Hfiles db schema others. subst db.
  set (db := DbName cfg) in *.
  assert (Hothers : ∀ t w, others (site_with_db db t (site_with_world w s))).
  { intros t w db' Hne. unfold tables_of. simpl. by rewrite lookup_insert_ne. }
  assert (Hset : ∀ t w, tables_of db (site_with_db db t (site_with_world w s)) = t).
  { intros t w. unfold tables_of. simpl. by rewrite lookup_insert_eq. }
  destruct (run_down c1 c2 c3 c4 (tables_of db s) Hreads) as [Hall Hmissing]. split_and!.
  - eapply (wp_migrate envDir cfg true); [done.. | |]; cbv zeta; fold db.
    + intros e w e' _ Herr. by rewrite (run_up c1 c2 c3 c4) in Herr.
    + intros t w Hl Hrun. rewrite (run_up c1 c2 c3 c4) in Hrun by done. injection Hrun as <-.
      split_and!; [done | apply Hset | apply Hothers |]. later_subst. exact Hfiles.
  - eapply (wp_migrate envDir cfg false); [done.. | |]; cbv zeta; fold db.
    + intros e w e' _ Herr. split_and!; [| by eauto | done].
      intros Hp. rewrite Hall in Herr by done. done.
    + intros t w Hl Hrun. split_and!; [| | apply Hothers].
      * intros Hp. rewrite Hall in Hrun by done. injection Hrun as <-. split; [done | apply Hset].
      * intros [e Herr]%Hmissing. by rewrite Hrun in Herr.
  - intros dir Hu Hd. unfold MigrateCmd_Run. by rewrite decide_True.
  - by rewrite <- (assoc (∪)), (idemp (∪)).
  - intros Hdisj. apply map_eq. intros n. apply option_eq. intros c.
    rewrite lookup_difference_Some, lookup_union_Some by done.
    rewrite map_disjoint_spec in Hdisj. destruct (schema !! n) as [x|] eqn:Hn; [| naive_solver].
    split; [naive_solver |]. intros Ht. by destruct (Hdisj n c x).
Qed.

(** A reader of the two kinds of statement, and a configuration. *)
Fixpoint first_word (s : string) : string :=
  match s with
  | String c s' => if Ascii.is_space c || Ascii.eqb c ";"%char then "" else String c (first_word s')
  | "" => ""
  end.

Definition sample_platform : Platform :=
  {| parse_ddl s :=
       if HasPrefix s "CREATE TABLE IF NOT EXISTS " then
         let rest := TrimPrefix s "CREATE TABLE IF NOT EXISTS " in
         Some (CreateTableIfNotExists (first_word rest) (sdrop (String.length (first_word rest)) rest))
       else if HasPrefix s "DROP TABLE " then Some (DropTable (first_word (TrimPrefix s "DROP TABLE ")))
       else None;
     Getenv _ := "";
     ReadFromFile env file := Val {[ "server_id" := CfgString "1"; "dsn" := CfgString "sqlite3";
       "db_name" := CfgString "arbok.db"; "redis_url" := CfgString "redis://localhost" ]} |}.

Definition sample_config : AppConfig :=
  {| ServerID := "1"; Environment := "dev"; Dsn := "sqlite3"; DbName := "arbok.db";
     RedisURL := "redis://localhost" |}.

Definition sample_columns (i : nat) : string :=
  match Split schema_up "---" !! i ≫= λ x, parse_ddl (Platform := sample_platform) (TrimSpace x) with
  | Some (CreateTableIfNotExists _ columns) => columns
  | _ => ""
  end.

(** A database that has the users already. *)
Definition sample_site : Site :=
  {| site_world := world_with_fs {[ schema_file true := schema_up; schema_file false := schema_down ]}
       empty_world;
     site_dbs := {[ "arbok.db" := {[ "users" := "(id TEXT)" ]} ]} |}.

Lemma MigrateCmd_migrates_witness :
  let up := (MigrateCmd_Run (E := quiet_env) (PF := sample_platform) "up" "./config" sample_site) in
  up.1 = Ret None ∧ dom (tables_of "arbok.db" up.2) = {["file_metadatas"; "users"; "user_files"; "tokens"]} ∧
  tables_of "arbok.db" up.2 !! "users" = Some "(id TEXT)".
Proof.
  destruct (MigrateCmd_migrates (E := quiet_env) (PF := sample_platform) "./config" sample_config
    (sample_columns 0) (sample_columns 1) (sample_columns 2) (sample_columns 3) sample_site)
    as ((Hr & Ht & _) & _).
  - done.
  - split; [done |]. eexists. split; [done |]. by split_and!.
  - split; by vm_compute.
  - split; by vm_compute.
  - change (DbName sample_config) with "arbok.db" in Ht. cbv zeta. split; [exact Hr |]. rewrite Ht. split; [| by vm_compute].
    apply (bool_decide_unpack _). by vm_compute.
Defined.
