(* ===== verification/Reconstruct.v ===== *)
(** Package core/supervisors, the pure part of metadata.changelog.go: how a new
    version of a file is completed with chunks of the previous one. *)
From S2P Require Import Prelude GoStd Model FilesInfo.

Section reconstruct.
Context `{MR : MapRange}.

Definition RestOfChunks (thisFile prevFile : FileInfoResponse) : gmap string FilesWithChunks :=
  foldl (λ matchedChunks entry,
    match fir_Chunks thisFile !! entry.1 with
    | Some _ => matchedChunks
    | None => <[entry.1 := entry.2]> matchedChunks
    end) ∅ (range (fir_Chunks prevFile)).

(** The chunks are stored in the map of [thisFile] itself. *)
Definition ReconstructChunks (thisFile prevFile : FileInfoResponse) : FileInfoResponse :=
  let missingChunks := RestOfChunks thisFile prevFile in
  foldl (λ f entry, set_chunk entry.1 entry.2 f) thisFile (range missingChunks).

(** The first loop of [Validate]; [None] is the early [return false]. *)
Fixpoint chain_loop (chain : gmap string string) (entries : list (string * FilesWithChunks)) :
    option (gmap string string) :=
  match entries with
  | [] => Some chain
  | (id, chunk) :: rest =>
    match fwc_NextChunkID chunk with
    | None => None
    | Some next => chain_loop (<[id := Sprintf "%d" [AInt next]]> chain) rest
    end
  end.

(** The second loop; a missing entry of a map of strings is "". *)
Fixpoint check_loop (chain : gmap string string) (entries : list (string * FilesWithChunks)) : bool :=
  match entries with
  | [] => true
  | (id, chunk) :: rest =>
    match fwc_NextChunkID chunk with
    | None => false
    | Some next =>
      if decide (default "" (chain !! id) ≠ Sprintf "%d" [AInt next]) then false
      else check_loop chain rest
    end
  end.

Definition Validate (reconstructedChunk prevChunk : FileInfoResponse) : bool :=
  if decide (fir_NChunks prevChunk ≠ fir_NChunks reconstructedChunk) then false
  else match chain_loop ∅ (range (fir_Chunks prevChunk)) with
       | None => false
       | Some prevChunkChain => check_loop prevChunkChain (range (fir_Chunks reconstructedChunk))
       end.

(** * Lemmas *)

Lemma RestOfChunks_difference this prev :
  RestOfChunks this prev = fir_Chunks prev ∖ fir_Chunks this.
Proof.
  unfold RestOfChunks.
  assert (Hgen : ∀ (l : list (string * FilesWithChunks)) (acc : gmap string FilesWithChunks) k,
    NoDup (l.*1) →
    foldl (λ a kx, match fir_Chunks this !! kx.1 with
                   | Some _ => a | None => <[kx.1 := kx.2]> a end) acc l !! k
    = match fir_Chunks this !! k, (list_to_map l : gmap string FilesWithChunks) !! k with
      | None, Some c => Some c
      | _, _ => acc !! k
      end).
  { induction l as [|[k0 c0] l IH]; intros acc k Hnd; simpl; [by case_match |].
    apply NoDup_cons in Hnd as [Hk0 Hnd]. rewrite IH by done.
    destruct (decide (k0 = k)) as [->|Hne].
    - rewrite lookup_insert_eq, not_elem_of_list_to_map_1 by done.
      destruct (fir_Chunks this !! k) eqn:Hk; rewrite ?Hk; [done | by rewrite lookup_insert_eq].
    - rewrite lookup_insert_ne by done. destruct (fir_Chunks this !! k0); [done |].
      repeat case_match; by rewrite ?lookup_insert_ne by done. }
  apply map_eq. intros k. rewrite Hgen by apply NoDup_fst_range.
  rewrite list_to_map_range, lookup_difference. by repeat case_match.
Qed.

Lemma ReconstructChunks_eq this prev :
  ReconstructChunks this prev
  = {| fir_ID := fir_ID this; fir_Name := fir_Name this; fir_Hash := fir_Hash this;
       fir_Size := fir_Size this; fir_Type := fir_Type this;
       fir_CurrentFlag := fir_CurrentFlag this;
       fir_Chunks := fir_Chunks this ∪ fir_Chunks prev;
       fir_NChunks := fir_NChunks this; fir_UserID := fir_UserID this |}.
Proof.
  unfold ReconstructChunks. rewrite RestOfChunks_difference.
  assert (Hgen : ∀ (l : list (string * FilesWithChunks)) f,
    foldl (λ f kx, set_chunk kx.1 kx.2 f) f l
    = {| fir_ID := fir_ID f; fir_Name := fir_Name f; fir_Hash := fir_Hash f;
         fir_Size := fir_Size f; fir_Type := fir_Type f; fir_CurrentFlag := fir_CurrentFlag f;
         fir_Chunks := foldl (λ a kx, <[kx.1 := kx.2]> a) (fir_Chunks f) l;
         fir_NChunks := fir_NChunks f; fir_UserID := fir_UserID f |}).
  { induction l as [|kx l IH]; intros f; simpl; [by destruct f | by rewrite IH]. }
  rewrite Hgen, foldl_insert_range. f_equal. apply map_eq. intros k.
  rewrite !lookup_union, lookup_difference.
  by destruct (fir_Chunks this !! k), (fir_Chunks prev !! k).
Qed.

(** The chain of a map of chunks all of which name a next chunk. *)
Lemma chain_loop_Some entries chain :
  NoDup (entries.*1) → (∀ k c, (k, c) ∈ entries → is_Some (fwc_NextChunkID c)) →
  ∃ chain', chain_loop chain entries = Some chain' ∧
    ∀ k, chain' !! k = match (list_to_map entries : gmap string FilesWithChunks) !! k with
                       | Some c => Itoa <$> fwc_NextChunkID c
                       | None => chain !! k
                       end.
Proof.
  revert chain. induction entries as [|[k0 c0] l IH]; intros chain Hnd Hin; simpl; [by exists chain |].
  apply NoDup_cons in Hnd as [Hk0 Hnd].
  destruct (Hin k0 c0) as [n Hn]; [by left |]. rewrite Hn, version_str.
  destruct (IH (<[k0 := Itoa n]> chain)) as (chain' & -> & Hc); [done | |].
  { intros k c Hk. apply (Hin k). by right. }
  exists chain'. split; [done |]. intros k. rewrite Hc.
  destruct (decide (k0 = k)) as [->|Hne].
  - rewrite lookup_insert_eq, not_elem_of_list_to_map_1, lookup_insert_eq by done. by rewrite Hn.
  - by rewrite !lookup_insert_ne by done.
Qed.

Lemma chain_loop_None entries chain k c :
  (k, c) ∈ entries → fwc_NextChunkID c = None → chain_loop chain entries = None.
Proof.
  revert chain. induction entries as [|[k0 c0] l IH]; intros chain Hin Hn; simpl;
    [by apply elem_of_nil in Hin |].
  apply elem_of_cons in Hin as [[= <- <-]|Hin]; [by rewrite Hn |].
  destruct (fwc_NextChunkID c0); [by apply IH | done].
Qed.

Lemma check_loop_true chain entries :
  check_loop chain entries = true ↔
  ∀ k c, (k, c) ∈ entries →
    ∃ n, fwc_NextChunkID c = Some n ∧ default "" (chain !! k) = Itoa n.
Proof.
  induction entries as [|[k0 c0] l IH]; simpl.
  { split; [by intros _ k c ?%elem_of_nil | done]. }
  setoid_rewrite elem_of_cons. destruct (fwc_NextChunkID c0) as [n0|] eqn:Hn0.
  - rewrite version_str. case_decide as Hd.
    + split; [done |]. intros H. destruct (H k0 c0) as (n & Hn & Hc); [by left |]. congruence.
    + rewrite IH. split.
      * intros H k c [[= -> ->]|Hk]; [by exists n0 | by apply H].
      * intros H k c Hk. apply H. by right.
  - split; [done |]. intros H. destruct (H k0 c0) as (n & Hn & _); [by left | congruence].
Qed.

End reconstruct.

(** * Properties *)

(** (C33) The chunks a new version takes over are those of the previous version
    whose number it does not have, and reconstruction yields the left-biased
    union: the chunks of the new version, completed by those of the previous
    one; none of the other eight fields of the version changes, its own chunks
    are never replaced, and the order in which Go walks the maps does not matter. *)
Theorem ReconstructChunks_union `{MR : MapRange} this prev k :
  RestOfChunks this prev !! k
  = (if decide (is_Some (fir_Chunks this !! k)) then None else fir_Chunks prev !! k) ∧
  fir_Chunks (ReconstructChunks this prev) !! k
  = (if decide (is_Some (fir_Chunks this !! k)) then fir_Chunks this !! k
     else fir_Chunks prev !! k) ∧
  fir_ID (ReconstructChunks this prev) = fir_ID this ∧
  fir_Name (ReconstructChunks this prev) = fir_Name this ∧
  fir_Hash (ReconstructChunks this prev) = fir_Hash this ∧
  fir_Size (ReconstructChunks this prev) = fir_Size this ∧
  fir_Type (ReconstructChunks this prev) = fir_Type this ∧
  fir_CurrentFlag (ReconstructChunks this prev) = fir_CurrentFlag this ∧
  fir_NChunks (ReconstructChunks this prev) = fir_NChunks this ∧
  fir_UserID (ReconstructChunks this prev) = fir_UserID this.
Proof.
  rewrite ReconstructChunks_eq, RestOfChunks_difference, lookup_difference. simpl.
  rewrite lookup_union.
  destruct (fir_Chunks this !! k) as [c|], (fir_Chunks prev !! k) as [c'|]; simpl;
    by rewrite ?decide_True, ?decide_False by (by eexists || by intros [? [=]]).
Qed.

(** [Validate] decides that the chains agree: the two versions have the
    same chunk count, every chunk of the previous version names its next chunk,
    and every chunk of the reconstructed version is a chunk of the previous one
    with the same next chunk.  The order of the maps does not matter. *)
Theorem Validate_spec `{MR : MapRange} rec prev :
  Validate rec prev = true ↔
  fir_NChunks prev = fir_NChunks rec ∧
  (∀ k c, fir_Chunks prev !! k = Some c → is_Some (fwc_NextChunkID c)) ∧
  (∀ k c, fir_Chunks rec !! k = Some c →
    ∃ c' n, fir_Chunks prev !! k = Some c' ∧ fwc_NextChunkID c = Some n ∧
            fwc_NextChunkID c' = Some n).
Proof.
  unfold Validate. case_decide as Hn.
  { split; [done | by intros [? _]]. }
  destruct (decide (map_Forall (λ _ c, is_Some (fwc_NextChunkID c)) (fir_Chunks prev)))
    as [Hall|Hno].
  - destruct (chain_loop_Some (range (fir_Chunks prev)) ∅) as (chain & -> & Hc).
    { apply NoDup_fst_range. }
    { intros k c Hk%elem_of_range. by eapply Hall. }
    rewrite list_to_map_range in Hc. rewrite check_loop_true. split.
    + intros Hcheck. split_and!; [done | exact Hall |].
      intros k c Hk. destruct (Hcheck k c) as (n & Hnext & Hdef); [by apply elem_of_range |].
      rewrite Hc in Hdef. destruct (fir_Chunks prev !! k) as [c'|] eqn:Hc'; simpl in Hdef.
      * destruct (Hall k c' Hc') as [n' Hn']. rewrite Hn' in Hdef. simpl in Hdef.
        apply Itoa_inj in Hdef as ->. by exists c', n.
      * rewrite lookup_empty in Hdef. destruct (Itoa_head n) as (ch & s & Hs & _).
        by rewrite Hs in Hdef.
    + intros (_ & _ & Hrec) k c Hk%elem_of_range.
      destruct (Hrec k c Hk) as (c' & n & Hc' & Hnext & Hnext'). exists n. split; [done |].
      by rewrite Hc, Hc', Hnext'.
  - apply map_not_Forall in Hno as (k & c & Hk & Hnone); [| apply _].
    rewrite (chain_loop_None _ _ k c).
    + split; [done |]. intros (_ & Hall & _). by apply Hall in Hk.
    + by apply elem_of_range.
    + by apply eq_None_not_Some.
Qed.
