(* ===== verification/Changelog.v ===== *)
(** The changelog worker: packages core/supervisors (metadata.changelog.go),
    core/notifiers (metadata.go) and core/workers (metadata.manualreconcile.go).
    A message per finished upload is taken from the queue, the version is
    completed and made current, and the devices of the user are notified. *)
From S2P Require Import Prelude GoStd Model World Squirtle Queries Tokens.
From S2P Require Import FilesRepo Queue Gob FilesInfo Reconstruct.

(** * core/notifiers/metadata.go *)

Record PayloadMap := {
  pm_payload : Payload;
  pm_userID : string;
}.

Section notifier.
Context `{E : Env} `{Q : Queuer} `{GE : Gob MetadataUpdateStatusEvent}.

Fixpoint notify_loop (payloads : list (option PayloadMap)) : Go (list Payload) :=
  match payloads with
  | [] => mret []
  | None :: rest => notify_loop rest
  | Some payload :: rest =>
    err ← EnqueueMsg (pm_userID payload) (pm_payload payload);
    failed ← notify_loop rest;
    mret (match err with Some _ => pm_payload payload :: failed | None => failed end)
  end.

(** The error of a partial failure carries no [Err]. *)
Definition Notify (events : list MetadataUpdateStatusEvent) : Go (option PartialError) :=
  let payloads := rho_Map events (λ data _,
    match gob_Encode data with
    | Err _ => None
    | Val buf => Some {| pm_payload := payload buf; pm_userID := ev_UserID data |}
    end) in
  failed ← notify_loop payloads;
  match failed with
  | [] => mret None
  | _ => mret (Some {| pe_Err := None; pe_Failed := failed |})
  end.

End notifier.

(** * core/supervisors/metadata.changelog.go *)

Section executor.
Context `{E : Env} `{MR : MapRange}.
Context (mq cq : QueryMapper).

(** The rows of the chunks a version takes over. *)
Fixpoint filler_loop (thisFile : FileInfoResponse) (entries : list (string * FilesWithChunks)) :
    Go (list UserFile) :=
  match entries with
  | [] => mret []
  | (_, chunk) :: rest =>
    now ← NewTimestamp;
    chunks ← filler_loop thisFile rest;
    mret ({| uf_UserID := fir_UserID thisFile; uf_FileID := fir_ID thisFile;
             uf_ChunkID := fwc_ChunkID chunk; uf_ChunkBlobUrl := fwc_ChunkBlobUrl chunk;
             uf_ChunkHash := fwc_ChunkHash chunk; uf_NextChunkID := fwc_NextChunkID chunk;
             uf_CreatedAt := now; uf_UpdatedAt := now |} :: chunks)
  end.

(** What follows the choice of [thisFile] and [prevFile], with the arguments
    [updPrev] and [updNew] of the final [Update].  The outcome of [Validate] is
    only logged. *)
Definition complete_version (thisFile prevFile : FileInfoResponse) (updPrev : option string)
    (updNew : string) : Go (option error) :=
  let fillerChunks :=
    if decide (fir_NChunks thisFile = fir_NChunks prevFile)
    then RestOfChunks thisFile prevFile else ∅ in
  let thisFile := ReconstructChunks thisFile prevFile in
  let isValid := Validate thisFile prevFile in
  if decide (size fillerChunks = 0) then
    MetadataRepository_Update mq updPrev updNew StatusCompleted
  else
    chunks ← filler_loop thisFile (range fillerChunks);
    err ← (if decide (0 < length chunks) then UserFileRepository_CreateBatch cq chunks
           else mret None);
    let uploadStatus := match err with Some _ => StatusFailed | None => StatusCompleted end in
    MetadataRepository_Update mq updPrev updNew uploadStatus.

(** From the rows of the two versions to the final [Update]: the code of
    [ExecuteEach] after its first test, which the manual reconciler repeats. *)
Definition merge_versions (id0 id1 : string) (updPrev : option string) (updNew : string) :
    Go (option error) :=
  filesWithChunks ← MetadataRepository_SelectFiles mq [Some id0; Some id1];
  match filesWithChunks with
  | Err e => mret (Some e)
  | Val filesWithChunks =>
    resps ← eval (BuildFilesInfoResponse (Some <$> filesWithChunks));
    match resps with
    | r0 :: r1 :: _ =>
      let '(thisFile, prevFile) := if decide (fir_ID r0 = id0) then (r0, r1) else (r1, r0) in
      complete_version thisFile prevFile updPrev updNew
    | _ => mret (Some "file_merge_conflict")
    end
  end.

Definition ExecuteEach (cachedData : CacheMetadata) : Go (option error) :=
  match cm_PrevID cachedData with
  | None => MetadataRepository_Update mq None (cm_ID cachedData) StatusCompleted
  | Some prevID =>
    merge_versions (cm_ID cachedData) prevID (Some prevID) (cm_ID cachedData)
  end.

Context `{Q : Queuer} `{GC : Gob CacheMetadata} `{GE : Gob MetadataUpdateStatusEvent}.

(** The loop over the payloads: it stops at the first error, and then no event
    of the batch is announced. *)
Fixpoint execute_loop (payloads : list Payload) :
    Go (list MetadataUpdateStatusEvent + error) :=
  match payloads with
  | [] => mret (inl [])
  | p :: rest =>
    match gob_Decode (pl_Message p) with
    | Err e => mret (inr e)
    | Val cachedData =>
      err ← ExecuteEach cachedData;
      match err with
      | Some e => mret (inr e)
      | None =>
        events ← execute_loop rest;
        match events with
        | inr e => mret (inr e)
        | inl events => mret (inl (
            {| ev_FileID := cm_ID cachedData; ev_UserID := cm_UserID cachedData;
               ev_PrevFileID := cm_PrevID cachedData; ev_DeviceID := cm_DeviceID cachedData |}
            :: events))
        end
      end
    end
  end.

(** The error of [Execute]: of a payload, or of the notification. *)
Definition Execute (payloads : list Payload) : Go (option (error + PartialError)) :=
  r ← execute_loop payloads;
  match r with
  | inr e => mret (Some (inl e))
  | inl updateSuccessEvents =>
    err ← Notify updateSuccessEvents;
    mret (match err with Some perr => Some (inr perr) | None => None end)
  end.

(** [MetadataChangelog.Produce], one demand of [d] messages on the queue of
    the worker: [None] when an error of the queue ends the producer. *)
Fixpoint produce_batch (d : nat) : Go (option (list Payload)) :=
  match d with
  | O => mret (Some [])
  | S d =>
    r ← ReadMsg "" "";
    match r with
    | Err _ => mret None
    | Val p =>
      rest ← produce_batch d;
      mret (match rest with
            | None => None
            | Some l => Some (match p with Some p => p :: l | None => l end)
            end)
    end
  end.

End executor.

(** * core/workers/metadata.manualreconcile.go

    The identifiers are constants of the source: first the new version, then
    the previous one; [Update] is given them the other way round. *)
Section reconciler.
Context `{E : Env} `{MR : MapRange}.
Context (mq cq : QueryMapper).

Definition ManualChunkMetadataReconciler : Go (option error) :=
  let id0 := "01HY38Y6X2GHW56X39N2Y2T8HQ" in
  let id1 := "01HY38X7WT2NS3Z130FXX930E4" in
  merge_versions mq cq id0 id1 (Some id0) id1.

End reconciler.

(** * What a new version takes over

    [takeover d id p added]: the rows [added] give the file [id] exactly the
    chunk numbers the file [p] has and [id] has not, one row each, and every
    row is a copy of a row of [p] under the identifier and user of [id]. *)
Definition has_chunk (d : DB) (file : string) (k : Z) : Prop :=
  ∃ uf, uf ∈ db_user_files d ∧ uf_FileID uf = file ∧ uf_ChunkID uf = k.

Definition copied_from (d : DB) (id p : string) (uf : UserFile) : Prop :=
  uf_FileID uf = id ∧
  (∃ m, m ∈ db_file_metadatas d ∧ fm_ID m = id ∧ uf_UserID uf = fm_UserID m) ∧
  ∃ old, old ∈ db_user_files d ∧ uf_FileID old = p ∧ uf_ChunkID uf = uf_ChunkID old ∧
    uf_ChunkBlobUrl uf = uf_ChunkBlobUrl old ∧ uf_ChunkHash uf = uf_ChunkHash old ∧
    uf_NextChunkID uf = uf_NextChunkID old.

Record takeover (d : DB) (id p : string) (added : list UserFile) : Prop := {
  tk_once : NoDup (uf_ChunkID <$> added);
  tk_copied : ∀ uf, uf ∈ added → copied_from d id p uf;
  tk_missing : ∀ k, k ∈ uf_ChunkID <$> added ↔ has_chunk d p k ∧ ¬ has_chunk d id k;
}.

(** The rows of [filler_loop], one per entry. *)
Definition filler_row (this : FileInfoResponse) (c : FilesWithChunks) (uf : UserFile) : Prop :=
  uf_UserID uf = fir_UserID this ∧ uf_FileID uf = fir_ID this ∧
  uf_ChunkID uf = fwc_ChunkID c ∧ uf_ChunkBlobUrl uf = fwc_ChunkBlobUrl c ∧
  uf_ChunkHash uf = fwc_ChunkHash c ∧ uf_NextChunkID uf = fwc_NextChunkID c.

Definition filler_of `{MR : MapRange} (this prev : FileInfoResponse) : gmap string FilesWithChunks :=
  if decide (fir_NChunks this = fir_NChunks prev) then RestOfChunks this prev else ∅.

Section completing.
Context `{E : Env} `{MR : MapRange}.
Implicit Types w : World.

Lemma wp_filler_loop this entries w (Q : ret (list UserFile) → World → Prop) :
  (∀ added w', later w w' → Forall2 (λ e uf, filler_row this e.2 uf) entries added →
    Q (Ret added) w') →
  wp (filler_loop this entries) w Q.
Proof.
  revert w Q. induction entries as [|[k c] entries IH]; intros w Q HQ; simpl.
  - apply wp_ret, HQ; [solve_later | constructor].
  - wp_step. wp_step. wp_step. apply IH. intros added w1 ? Ha. wp_step.
    apply HQ; [solve_later |]. by constructor.
Qed.

Lemma add_chunks_nil d : add_chunks [] d = d.
Proof. unfold add_chunks, with_user_files. destruct d. simpl. by rewrite app_nil_r. Qed.

(** Completing a version comes down to its final [Update]. *)
Lemma wp_complete_version mq cq this prev updPrev updNew w (Q : ret (option error) → World → Prop) :
  (∀ added status w',
    (status = StatusCompleted ∧
       Forall2 (λ e uf, filler_row this e.2 uf) (range (filler_of this prev)) added ∧
       (added = [] ∨ has_query cq CreateFileChunkStmt)
     ∨ status = StatusFailed ∧ added = [] ∧ filler_of this prev ≠ ∅ ∧
       ¬ (no_fault ∧ has_query cq CreateFileChunkStmt)) →
    later (world_with_db (add_chunks added (w_db w)) w) w' →
    wp (MetadataRepository_Update mq updPrev updNew status) w' Q) →
  wp (complete_version mq cq this prev updPrev updNew) w Q.
Proof.
  intros HQ. unfold complete_version. cbv zeta. fold (filler_of this prev).
  case_decide as Hsize.
  - apply map_size_empty_inv in Hsize. apply (HQ []); [left; split; [done |] |].
    + assert (range (filler_of this prev) = []) as ->; [| split; [constructor | by left]].
      apply Permutation_nil_r. rewrite range_perm, Hsize. by rewrite map_to_list_empty.
    + rewrite add_chunks_nil. destruct w. apply later_refl.
  - assert (Hne : filler_of this prev ≠ ∅) by (intros Heq; by rewrite Heq in Hsize).
    wp_step. apply wp_filler_loop. intros added w1 ? Ha.
    assert (Hlen : 0 < length added).
    { apply Forall2_length in Ha. rewrite <- Ha, length_range. lia. }
    rewrite decide_True by done. wp_step. apply wp_CreateBatch.
    + intros e w2 ? Hno. cbv beta iota. apply (HQ []); [by right |].
      rewrite add_chunks_nil. later_subst. solve_later.
    + intros w2 ? ?. cbv beta iota. apply (HQ added); [left; split_and!; [done | | by right] |].
      * eapply Forall2_impl; [done |]. intros [k c] uf Hrow. rewrite ReconstructChunks_eq in Hrow.
        exact Hrow.
      * later_subst. solve_later.
Qed.

End completing.

Section takeover.
Context `{E : Env} {EO : EnvOk E} `{MR : MapRange}.
Context (d : DB) (id p : string) (Hne : id ≠ p).

#[local] Abbreviation rows := (sql_SelectFilesForUser [Some id; Some p] d).

Lemma rows_two r : r ∈ rows → fwc_ID r = id ∨ fwc_ID r = p.
Proof.
  intros Hr%SelectFiles_id. apply elem_of_cons in Hr as [[= ->]|Hr]; [by left |].
  apply list_elem_of_singleton in Hr. right. congruence.
Qed.

(** The chunks of a record are rows of user_files. *)
Lemma group_chunk f k c :
  f ∈ group_by_file rows → fir_Chunks f !! k = Some c →
  k = Itoa (fwc_ChunkID c) ∧
  ∃ uf, uf ∈ db_user_files d ∧ uf_FileID uf = fir_ID f ∧ fwc_ChunkID c = uf_ChunkID uf ∧
    fwc_ChunkBlobUrl c = uf_ChunkBlobUrl uf ∧ fwc_ChunkHash c = uf_ChunkHash uf ∧
    fwc_NextChunkID c = uf_NextChunkID uf.
Proof.
  intros [-> _]%group_by_file_Some [Hc ->]%chunk_map_Some. split; [done |].
  apply list_elem_of_filter in Hc as [Hid Hc].
  apply elem_of_SelectFiles in Hc as (fm & uf & _ & Huf & Heq & _ & ->). exists uf.
  simpl in *. by rewrite Heq.
Qed.

(** A record has an entry for a number exactly when the file has that chunk. *)
Lemma group_has_chunk f k :
  f ∈ group_by_file rows →
  is_Some (fir_Chunks f !! Itoa k) ↔ has_chunk d (fir_ID f) k.
Proof.
  intros Hf. split.
  - intros [c Hc]. apply group_chunk in Hc as (Hk & uf & Huf & Hid & Hcid & _); [| done].
    apply Itoa_inj in Hk. exists uf. split_and!; [done | done | congruence].
  - intros (uf & Huf & Hid & Hk).
    apply elem_of_group in Hf as (r & Hr & ->). simpl in *. rewrite chunk_map_is_Some.
    apply elem_of_SelectFiles in Hr as (fm & uf' & Hfm & _ & Heq & Hin & ->). simpl in *.
    exists (select_columns (fm, uf)). simpl. split; [| by rewrite Hk].
    apply list_elem_of_filter. split; [done |]. apply elem_of_SelectFiles.
    exists fm, uf. by split_and!.
Qed.

Lemma group_user f :
  f ∈ group_by_file rows →
  ∃ m, m ∈ db_file_metadatas d ∧ fm_ID m = fir_ID f ∧ fir_UserID f = fm_UserID m ∧
       fir_NChunks f = fm_NChunks m.
Proof.
  intros (r & Hr & ->)%elem_of_group.
  apply elem_of_SelectFiles in Hr as (fm & uf & Hfm & _ & _ & _ & ->). by exists fm.
Qed.

(** The rows the worker adds are what the new version takes over. *)
Lemma filler_takeover this prev added :
  this ∈ group_by_file rows → prev ∈ group_by_file rows →
  fir_ID this = id → fir_ID prev = p → fir_NChunks this = fir_NChunks prev →
  Forall2 (λ e uf, filler_row this e.2 uf) (range (filler_of this prev)) added →
  takeover d id p added.
Proof.
  intros Hthis Hprev Hid Hp Hn Hrows. unfold filler_of in Hrows.
  rewrite decide_True in Hrows by done. rewrite RestOfChunks_difference in Hrows.
  set (missing := fir_Chunks prev ∖ fir_Chunks this) in *.
  assert (Hmiss : ∀ k c, missing !! k = Some c →
    fir_Chunks prev !! k = Some c ∧ fir_Chunks this !! k = None)
    by (intros k c; unfold missing; by rewrite lookup_difference_Some).
  assert (Hentry : ∀ i k c, range missing !! i = Some (k, c) → missing !! k = Some c)
    by (intros i k c Hi; by eapply elem_of_range, list_elem_of_lookup_2).
  assert (Hkeys : (range missing).*1 = Itoa <$> (uf_ChunkID <$> added)).
  { rewrite <- list_fmap_compose. apply list_eq_Forall2, Forall2_fmap_2, Forall2_lookup.
    intros i. pose proof (proj1 (Forall2_lookup _ _ _) Hrows i) as Hi.
    destruct (range missing !! i) as [[k c]|] eqn:Hk, (added !! i) as [uf|];
      inversion Hi as [? ? Hrow|]; constructor.
    apply Hentry, Hmiss in Hk as [Hk _]. apply group_chunk in Hk as [-> _]; [| done].
    destruct Hrow as (_ & _ & Hc & _). simpl in *. congruence. }
  split.
  - pose proof (NoDup_fst_range missing) as Hnd. rewrite Hkeys in Hnd.
    by apply NoDup_fmap_1 in Hnd.
  - intros uf [i Hi]%list_elem_of_lookup_1.
    destruct (Forall2_lookup_r _ _ _ _ _ Hrows Hi) as ([k c] & Hk & Hu & Hfile & Hc & Hurl & Hh & Hnx).
    apply Hentry, Hmiss in Hk as [Hk _].
    apply group_chunk in Hk as (_ & old & Hold & Hofile & Hoc & Hourl & Hoh & Honx); [| done].
    destruct (group_user this Hthis) as (m & Hm & Hmid & Hmu & _). simpl in *.
    split_and!; [congruence | exists m; split_and!; congruence |].
    exists old. split_and!; congruence.
  - intros k. rewrite <- Hid, <- Hp, <- !group_has_chunk by done.
    assert (Hk : k ∈ uf_ChunkID <$> added ↔ is_Some (missing !! Itoa k)).
    { rewrite <- (list_elem_of_fmap_inj Itoa (uf_ChunkID <$> added) k), <- Hkeys, list_elem_of_fmap. split.
      - intros ([k' c] & -> & Hin%elem_of_range). by exists c.
      - intros [c Hc%elem_of_range]. by exists (Itoa k, c). }
    rewrite Hk. unfold missing. rewrite lookup_difference_is_Some. by rewrite eq_None_not_Some.
Qed.

End takeover.

Section execute_each.
Context `{E : Env} {EO : EnvOk E} `{MR : MapRange}.
Implicit Types w : World.

(** Merging two versions: an early error, or one [Update] after the rows taken
    over were added (all of them, or none). *)
Lemma wp_merge_versions mq cq id p updPrev updNew w (Q : ret (option error) → World → Prop) :
  id ≠ p →
  (∀ e w', later w w' →
    ¬ (no_fault ∧ has_query mq SelectFilesForUserStmt ∧
       (∃ k, has_chunk (w_db w) id k) ∧ (∃ k, has_chunk (w_db w) p k) ∧
       (∃ m, m ∈ db_file_metadatas (w_db w) ∧ fm_ID m = id) ∧
       (∃ m, m ∈ db_file_metadatas (w_db w) ∧ fm_ID m = p)) → Q (Ret (Some e)) w') →
  (∀ m1 m2 added status w',
    m1 ∈ db_file_metadatas (w_db w) → fm_ID m1 = id →
    m2 ∈ db_file_metadatas (w_db w) → fm_ID m2 = p →
    (status = StatusCompleted ∧ fm_NChunks m1 = fm_NChunks m2 ∧ takeover (w_db w) id p added ∧
       (added = [] ∨ has_query cq CreateFileChunkStmt)
     ∨ status = StatusCompleted ∧ fm_NChunks m1 ≠ fm_NChunks m2 ∧ added = []
     ∨ status = StatusFailed ∧ fm_NChunks m1 = fm_NChunks m2 ∧ added = [] ∧
       ¬ takeover (w_db w) id p [] ∧ ¬ (no_fault ∧ has_query cq CreateFileChunkStmt)) →
    later (world_with_db (add_chunks added (w_db w)) w) w' →
    wp (MetadataRepository_Update mq updPrev updNew status) w' Q) →
  wp (merge_versions mq cq id p updPrev updNew) w Q.
Proof.
  intros Hne Herr Hupd. unfold merge_versions. wp_step. apply wp_SelectFiles; [done | |].
  { intros e w1 ? ?. wp_go. apply Herr; [done | tauto]. }
  intros w1 Hw1. wp_step. wp_step. rewrite build_rows. cbv beta iota.
  set (rows := sql_SelectFilesForUser _ _) in *.
  pose proof (group_by_file_two id p rows Hne (rows_two (w_db w) id p)) as Htwo.
  assert (Hrow : ∀ f k, has_chunk (w_db w) f k → (f = id ∨ f = p) →
    (∃ m, m ∈ db_file_metadatas (w_db w) ∧ fm_ID m = f) → ∃ r, r ∈ rows ∧ fwc_ID r = f).
  { intros f k (uf & Huf & Hid & _) Hf (m & Hm & Hmid). exists (select_columns (m, uf)).
    split; [| done]. apply elem_of_SelectFiles. exists m, uf.
    split_and!; [done | done | congruence | rewrite Hmid | done].
    destruct Hf as [-> | ->]; [left | right; left]. }
  destruct (group_by_file rows) as [|r0 [|r1 l]] eqn:Hg.
  1-2: wp_step; apply Herr; [done |]; intros (_ & _ & [k1 H1] & [k2 H2] & Hm1 & Hm2);
    destruct (Hrow id k1) as (ra & Hra & Hida), (Hrow p k2) as (rb & Hrb & Hidb); auto;
    destruct Htwo as [Htwo|Htwo]; [exact (Htwo ra Hra Hida) | exact (Htwo rb Hrb Hidb)].
  destruct (if decide (fir_ID r0 = id) then (r0, r1) else (r1, r0)) as [this prev].
  destruct Htwo as (Hid & Hp & Hthis & Hprev). rewrite <- Hg in Hthis, Hprev.
  destruct (group_user (w_db w) id p this Hthis) as (m1 & Hm1 & Hm1id & _ & Hn1).
  destruct (group_user (w_db w) id p prev Hprev) as (m2 & Hm2 & Hm2id & _ & Hn2).
  apply wp_complete_version. intros added status w2 Hcase Hw2.
  apply (Hupd m1 m2 added status); [done | congruence | done | congruence | |].
  - unfold filler_of in Hcase. rewrite Hn1, Hn2 in Hcase.
    destruct (decide (fm_NChunks m1 = fm_NChunks m2)) as [Hn|Hn].
    + destruct Hcase as [(-> & Ha & Hc)|(-> & -> & Hfill & Hno)].
      * left. split_and!; [done | done | | done]. eapply (filler_takeover _ _ _ this prev); try done.
        { congruence. }
        unfold filler_of. rewrite Hn1, Hn2. by rewrite decide_True.
      * right. right. split_and!; [done | done | done | | done]. intros [_ _ Hmiss].
        rewrite RestOfChunks_difference in Hfill.
        apply map_choose in Hfill as (k & c & Hk). apply lookup_difference_Some in Hk as [Hk Hkn].
        pose proof (group_chunk _ _ _ _ _ _ Hprev Hk) as [-> _].
        apply (not_elem_of_nil (fwc_ChunkID c)). change [] with (uf_ChunkID <$> []).
        apply Hmiss. rewrite <- Hid, <- Hp.
        rewrite <- !(group_has_chunk (w_db w) id p) by done.
        rewrite Hk, Hkn. split; [by eexists | by intros [? ?]].
    + destruct Hcase as [(-> & Ha & _)|(_ & _ & Hfill & _)]; [| done].
      right. left. split_and!; [done | done |].
      assert (range ∅ = ([] : list (string * FilesWithChunks))) as Hnil
        by (apply Permutation_nil_r; by rewrite range_perm, map_to_list_empty).
      rewrite Hnil in Ha. by inversion Ha.
  - later_subst. solve_later.
Qed.

End execute_each.

(** * Properties of the worker *)

(** The rows of file_metadatas after a version was promoted. *)
Definition promoted (id p status : string) (now : time) (m : FileMetadata) : FileMetadata :=
  if decide (fm_ID m = id) then set_flags true None status m
  else if decide (fm_ID m = p) then set_flags false (Some now) status m
  else m.

Lemma update_row_promoted id p status now m :
  id ≠ p → (fm_ID m = id → fm_PrevID m = Some p) →
  update_row (Some p) id status now m = promoted id p status now m.
Proof.
  intros Hne Hprev. rewrite update_row_spec by congruence. unfold promoted.
  destruct (decide (fm_ID m = id)) as [Hid|Hid].
  - by rewrite decide_True by auto.
  - rewrite decide_False by tauto. destruct (decide (fm_ID m = p)) as [->|Hp];
      [by rewrite decide_True | by rewrite decide_False by congruence].
Qed.

(** (C1) A finished upload of a new version.  When no external call fails, the
    statements are in the store, both versions are in the tables under unique
    identifiers, the new one is linked to the previous one, and each has at
    least one chunk, [ExecuteEach] returns [nil] and:
    - with equal chunk counts the new version is given exactly the chunk
      numbers the previous version has and it has not, each by one row copied
      from a row of the previous version, so that every chunk of the previous
      version is a chunk of the new one; with different counts no row is added;
    - no row of user_files is changed or removed;
    - the new version becomes current and completed, the previous one is
      closed with an end date, and no other metadata row changes. *)
Theorem ExecuteEach_completes `{E : Env} {EO : EnvOk E} `{MR : MapRange} mq cq id p user device
    new old w :
  no_fault → has_query mq SelectFilesForUserStmt → has_query mq UpdateCurrentFlagStmt →
  has_query cq CreateFileChunkStmt → id ≠ p →
  new ∈ db_file_metadatas (w_db w) → fm_ID new = id → fm_PrevID new = Some p →
  (∀ m, m ∈ db_file_metadatas (w_db w) → fm_ID m = id → m = new) →
  old ∈ db_file_metadatas (w_db w) → fm_ID old = p →
  (∀ m, m ∈ db_file_metadatas (w_db w) → fm_ID m = p → m = old) →
  (∃ k, has_chunk (w_db w) id k) → (∃ k, has_chunk (w_db w) p k) →
  wp (ExecuteEach mq cq {| cm_UserID := user; cm_PrevID := Some p; cm_DeviceID := device;
                           cm_ID := id |}) w (λ r w',
    r = Ret None ∧ ∃ added now,
      db_user_files (w_db w') = db_user_files (w_db w) ++ added ∧
      (if decide (fm_NChunks new = fm_NChunks old) then takeover (w_db w) id p added
       else added = []) ∧
      (fm_NChunks new = fm_NChunks old →
        ∀ k, has_chunk (w_db w) p k → has_chunk (w_db w') id k) ∧
      db_file_metadatas (w_db w')
      = promoted id p StatusCompleted now <$> db_file_metadatas (w_db w) ∧
      db_tokens (w_db w') = db_tokens (w_db w) ∧ db_users (w_db w') = db_users (w_db w)).
Proof.
  intros Hf Hqs Hqu Hqc Hne Hnew Hnid Hlink Hnuniq Hold Hoid Houniq Hchunk1 Hchunk2.
  apply wp_merge_versions; [done | |].
  { intros e w1 _ Hno. exfalso. apply Hno. split_and!; eauto. }
  intros m1 m2 added status w1 Hm1 Hm1id Hm2 Hm2id Hcase Hw1.
  rewrite (Hnuniq m1), (Houniq m2) in Hcase by done.
  apply wp_Update; [by intros e w2 _ [] | intros why w2 _ [e He]; quiet |].
  intros now w2 Hw2. apply later_db in Hw1, Hw2. rewrite Hw2, Hw1. split; [done |].
  assert (status = StatusCompleted ∧
    (if decide (fm_NChunks new = fm_NChunks old) then takeover (w_db w) id p added
     else added = [])) as [-> Ha].
  { destruct Hcase as [(-> & Hn & Ht & _)|[(-> & Hn & ->)|(_ & _ & _ & _ & Hno)]].
    - by rewrite decide_True.
    - by rewrite decide_False.
    - by destruct Hno. }
  exists added, now. split_and!; [done | done | | | done | done].
  - intros Hn k Hk. rewrite decide_True in Ha by done.
    destruct (decide (k ∈ uf_ChunkID <$> added)) as [Hin|Hnot].
    + apply list_elem_of_fmap in Hin as (uf & -> & Huf). exists uf.
      split_and!; [simpl; apply elem_of_app; by right | | done].
      by apply (tk_copied _ _ _ _ Ha) in Huf as [? _].
    + assert (Hdec : ¬ ¬ has_chunk (w_db w) id k).
      { intros Hno. apply Hnot. by apply (tk_missing _ _ _ _ Ha). }
      destruct (decide (Exists (λ uf, uf_FileID uf = id ∧ uf_ChunkID uf = k)
        (db_user_files (w_db w)))) as [(uf & Huf & Hid & Hk')%Exists_exists|Hno].
      * exists uf. split_and!; [simpl; apply elem_of_app; by left | done | done].
      * exfalso. apply Hdec. intros (uf & Huf & Hid & Hk'). apply Hno, Exists_exists. by exists uf.
  - simpl. apply list_fmap_ext. intros i m Hm. apply update_row_promoted; [done |].
    intros Hid. rewrite (Hnuniq m); [done | by eapply list_elem_of_lookup_2 | done].
Qed.

Lemma ExecuteEach_completes_witness :
  wp (ExecuteEach (E := quiet_env) (MR := list_range) metadataQueryStore chunkQs
        {| cm_UserID := "U11223455"; cm_PrevID := Some "F1"; cm_DeviceID := "1"; cm_ID := "F2" |})
    sample_world (λ r w', r = Ret None ∧ has_chunk (w_db w') "F2" 0%Z ∧
      fm_CurrentFlag <$> db_file_metadatas (w_db w') = [false; true]).
Proof.
  eapply wp_mono.
  - apply (ExecuteEach_completes (E := quiet_env) (MR := list_range) metadataQueryStore chunkQs
      "F2" "F1" "U11223455" "1" (sample_file "F2" (Some "F1") false StatusUploading 20%Z)
      (sample_file "F1" None true StatusCompleted 10%Z) sample_world); try done.
    1-3: by apply (bool_decide_unpack _); vm_compute.
    + right. by left.
    + intros m Hm Hid. simpl in Hm. rewrite !elem_of_cons, elem_of_nil in Hm.
      by destruct Hm as [->|[->|[]]].
    + by left.
    + intros m Hm Hid. simpl in Hm. rewrite !elem_of_cons, elem_of_nil in Hm.
      by destruct Hm as [->|[->|[]]].
    + exists 1%Z, (sample_chunk "F2" 1%Z (-1)%Z "/data/F2/1" "c1b").
      split; [right; right; by left | done].
    + exists 0%Z, (sample_chunk "F1" 0%Z 1%Z "/data/F1/0" "c0"). split; [by left | done].
  - intros r w' (-> & added & now & _ & _ & Hall & Hrows & _). split_and!; [done | |].
    + apply Hall; [done |]. exists (sample_chunk "F1" 0%Z 1%Z "/data/F1/0" "c0").
      split; [by left | done].
    + rewrite Hrows. by vm_compute.
Defined.

(** (C16) Whatever external call fails, at whatever point, [ExecuteEach] leaves
    consistent tables: it only adds to user_files, and what it adds is nothing
    or a complete takeover from the previous version; it reports success only
    after the flags of both versions were switched together, and if it reports
    an error or panics no flag has changed.  The status "failed" is written only
    when nothing could be taken over. *)
Theorem ExecuteEach_any_failure `{E : Env} {EO : EnvOk E} `{MR : MapRange} mq cq id p user device w :
  id ≠ p →
  wp (ExecuteEach mq cq {| cm_UserID := user; cm_PrevID := Some p; cm_DeviceID := device;
                           cm_ID := id |}) w (λ r w',
    db_tokens (w_db w') = db_tokens (w_db w) ∧ db_users (w_db w') = db_users (w_db w) ∧
    ∃ added, db_user_files (w_db w') = db_user_files (w_db w) ++ added ∧
      (added = [] ∨ takeover (w_db w) id p added) ∧
      match r with
      | Ret None => ∃ now status,
          db_file_metadatas (w_db w')
          = update_row (Some p) id status now <$> db_file_metadatas (w_db w) ∧
          (status = StatusCompleted ∨ status = StatusFailed ∧ added = [])
      | _ => db_file_metadatas (w_db w') = db_file_metadatas (w_db w)
      end).
Proof.
  intros Hne. apply wp_merge_versions; [done | |].
  { intros e w1 ->%later_db _. split_and!; [done | done |]. exists []. by rewrite app_nil_r; auto. }
  intros m1 m2 added status w1 _ _ _ _ Hcase Hw1.
  assert (Hadded : added = [] ∨ takeover (w_db w) id p added) by (intuition congruence).
  assert (Hstatus : status = StatusCompleted ∨ status = StatusFailed ∧ added = []) by tauto.
  apply later_db in Hw1. apply wp_Update.
  - intros e w2 ->%later_db _. rewrite Hw1. split_and!; [done | done |]. by exists added.
  - intros why w2 ->%later_db _. rewrite Hw1. split_and!; [done | done |]. by exists added.
  - intros now w2 ->%later_db. simpl. rewrite Hw1. split_and!; [done | done |].
    exists added. split_and!; [done | done |]. by exists now, status.
Qed.

Lemma ExecuteEach_any_failure_witness :
  let busy := sample_env (λ n, if decide (n = 4) then Some "database is locked" else None) in
  wp (ExecuteEach (E := busy) (MR := list_range) metadataQueryStore chunkQs
        {| cm_UserID := "U11223455"; cm_PrevID := Some "F1"; cm_DeviceID := "1"; cm_ID := "F2" |})
    sample_world (λ r w', db_tokens (w_db w') = [] ∧
      ∃ added, db_user_files (w_db w') = db_user_files sample_db ++ added ∧
               (added = [] ∨ takeover sample_db "F2" "F1" added)).
Proof.
  intros busy. eapply wp_mono.
  - by apply (ExecuteEach_any_failure (E := busy) (MR := list_range) metadataQueryStore chunkQs
      "F2" "F1" "U11223455" "1" sample_world).
  - intros r w' (Htok & _ & added & Huf & Ha & _). split; [done |]. by exists added.
Defined.

(** A version whose missing chunks could not be stored is published all
    the same: when the insertion of the chunks fails (here because the
    statement is missing) and everything else works, [ExecuteEach] returns
    [nil], the new version is current although it lacks chunks of the previous
    one, which is closed, and only its status says "failed". *)
Theorem ExecuteEach_publishes_incomplete `{E : Env} {EO : EnvOk E} `{MR : MapRange} mq cq id p
    user device new old w k :
  no_fault → has_query mq SelectFilesForUserStmt → has_query mq UpdateCurrentFlagStmt →
  ¬ has_query cq CreateFileChunkStmt → id ≠ p →
  db_file_metadatas (w_db w) = [old; new] → fm_ID new = id → fm_PrevID new = Some p →
  fm_ID old = p → fm_NChunks new = fm_NChunks old →
  (∃ j, has_chunk (w_db w) id j) → has_chunk (w_db w) p k → ¬ has_chunk (w_db w) id k →
  wp (ExecuteEach mq cq {| cm_UserID := user; cm_PrevID := Some p; cm_DeviceID := device;
                           cm_ID := id |}) w (λ r w',
    r = Ret None ∧ ¬ has_chunk (w_db w') id k ∧
    ∃ now, db_file_metadatas (w_db w')
           = [set_flags false (Some now) StatusFailed old; set_flags true None StatusFailed new]).
Proof.
  intros Hf Hqs Hqu Hqc Hne Hdb Hnid Hlink Hoid Hn Hj Hk Hmissing.
  assert (Hpick : ∀ m, m ∈ db_file_metadatas (w_db w) →
    (fm_ID m = id → m = new) ∧ (fm_ID m = p → m = old)).
  { intros m. rewrite Hdb, !elem_of_cons, elem_of_nil.
    intros [->|[->|[]]]; split; intros ?; congruence. }
  apply wp_merge_versions; [done | |].
  { intros e w1 _ Hno. exfalso. apply Hno. split_and!; [done | done | done | by exists k | |];
      rewrite Hdb; [exists new | exists old]; (split; [| done]); [right; by left | by left]. }
  intros m1 m2 added status w1 Hm1 Hm1id Hm2 Hm2id Hcase Hw1.
  assert (m1 = new) as -> by by apply Hpick. assert (m2 = old) as -> by by apply Hpick.
  apply wp_Update; [by intros e w2 _ [] | intros why w2 _ [e He]; quiet |].
  intros now w2 Hw2. apply later_db in Hw1, Hw2. rewrite Hw2, Hw1. split; [done |].
  assert (status = StatusFailed ∧ added = []) as [-> ->].
  { destruct Hcase as [(_ & _ & Ht & [->|])|[(_ & ? & _)|(-> & _ & -> & _)]]; [| done..].
    exfalso. apply (not_elem_of_nil k). change [] with (uf_ChunkID <$> []).
    by apply (tk_missing _ _ _ _ Ht). }
  rewrite add_chunks_nil. split; [done |]. exists now.
  cbn [db_file_metadatas with_file_metadatas w_db world_with_db]. rewrite Hdb. cbn [fmap list_fmap].
  rewrite !update_row_promoted by (done || congruence). unfold promoted.
  rewrite Hnid, Hoid, (decide_False (P := p = id)) by congruence. by rewrite !decide_True by done.
Qed.

Lemma ExecuteEach_publishes_incomplete_witness :
  wp (ExecuteEach (E := quiet_env) (MR := list_range) metadataQueryStore ∅
        {| cm_UserID := "U11223455"; cm_PrevID := Some "F1"; cm_DeviceID := "1"; cm_ID := "F2" |})
    sample_world (λ r w', r = Ret None ∧ ¬ has_chunk (w_db w') "F2" 0%Z).
Proof.
  eapply wp_mono.
  - apply (ExecuteEach_publishes_incomplete (E := quiet_env) (MR := list_range) metadataQueryStore
      ∅ "F2" "F1" "U11223455" "1" (sample_file "F2" (Some "F1") false StatusUploading 20%Z)
      (sample_file "F1" None true StatusCompleted 10%Z) sample_world 0%Z); try done.
    1-2: by apply (bool_decide_unpack _); vm_compute.
    + by intros [? ?].
    + exists 1%Z, (sample_chunk "F2" 1%Z (-1)%Z "/data/F2/1" "c1b").
      split; [right; right; by left | done].
    + exists (sample_chunk "F1" 0%Z 1%Z "/data/F1/0" "c0"). split; [by left | done].
    + intros (uf & Huf & Hid & Hk). simpl in Huf. rewrite !elem_of_cons, elem_of_nil in Huf.
      by destruct Huf as [->|[->|[->|[]]]].
  - intros r w' (-> & Hno & _). done.
Defined.

(** The manual reconciler gives [Update] its arguments the wrong way
    round: on tables with the two versions it is written for, the first being
    the new version of the second, it returns [nil] having made nothing
    current: the new version is closed with an end date, and the previous
    version is left as it was. *)
Theorem ManualChunkMetadataReconciler_closes_new `{E : Env} {EO : EnvOk E} `{MR : MapRange} mq cq
    new old w :
  no_fault → has_query mq SelectFilesForUserStmt → has_query mq UpdateCurrentFlagStmt →
  db_file_metadatas (w_db w) = [old; new] →
  fm_ID new = "01HY38Y6X2GHW56X39N2Y2T8HQ" → fm_ID old = "01HY38X7WT2NS3Z130FXX930E4" →
  fm_PrevID new = Some (fm_ID old) → fm_PrevID old ≠ Some (fm_ID new) →
  (∃ j, has_chunk (w_db w) (fm_ID new) j) → (∃ j, has_chunk (w_db w) (fm_ID old) j) →
  wp (ManualChunkMetadataReconciler mq cq) w (λ r w',
    r = Ret None ∧ ∃ now status,
      db_file_metadatas (w_db w') = [old; set_flags false (Some now) status new]).
Proof.
  intros Hf Hqs Hqu Hdb Hnid Hoid _ Hlink Hn Ho. unfold ManualChunkMetadataReconciler.
  cbv zeta. rewrite <- Hnid, <- Hoid. assert (Hne : fm_ID new ≠ fm_ID old) by congruence.
  apply wp_merge_versions; [done | |].
  { intros e w1 _ Hno. exfalso. apply Hno. split_and!; [done | done | done | done | |];
      rewrite Hdb; [exists new | exists old]; (split; [| done]); [right; by left | by left]. }
  intros m1 m2 added status w1 _ _ _ _ _ Hw1.
  apply wp_Update; [by intros e w2 _ [] | intros why w2 _ [e He]; quiet |].
  intros now w2 Hw2. apply later_db in Hw1, Hw2. rewrite Hw2, Hw1. split; [done |].
  exists now, status.
  cbn [db_file_metadatas with_file_metadatas w_db world_with_db add_chunks with_user_files].
  rewrite Hdb. cbn [fmap list_fmap]. rewrite !update_row_spec by congruence.
  rewrite (decide_False (P := fm_ID old = fm_ID old ∧ _)) by tauto.
  rewrite (decide_False (P := Some (fm_ID old) = _)) by congruence.
  rewrite (decide_False (P := fm_ID new = fm_ID old ∧ _)) by tauto.
  by rewrite decide_True.
Qed.

Lemma ManualChunkMetadataReconciler_closes_new_witness :
  let new := sample_file "01HY38Y6X2GHW56X39N2Y2T8HQ" (Some "01HY38X7WT2NS3Z130FXX930E4") false
               StatusUploading 20%Z in
  let old := sample_file "01HY38X7WT2NS3Z130FXX930E4" None true StatusCompleted 10%Z in
  wp (ManualChunkMetadataReconciler (E := quiet_env) (MR := list_range) metadataQueryStore chunkQs)
    (world_with_db
      {| db_file_metadatas := [old; new]; db_users := []; db_tokens := [];
         db_user_files := [sample_chunk (fm_ID old) 0%Z (-1)%Z "/data/o/0" "c";
                           sample_chunk (fm_ID new) 0%Z (-1)%Z "/data/n/0" "d"] |} empty_world)
    (λ r w', r = Ret None ∧ fm_CurrentFlag <$> db_file_metadatas (w_db w') = [true; false]).
Proof.
  intros new old. eapply wp_mono.
  - apply (ManualChunkMetadataReconciler_closes_new (E := quiet_env) (MR := list_range)
      metadataQueryStore chunkQs new old); try done.
    1-2: by apply (bool_decide_unpack _); vm_compute.
    + exists 0%Z, (sample_chunk (fm_ID new) 0%Z (-1)%Z "/data/n/0" "d").
      split; [right; by left | done].
    + exists 0%Z, (sample_chunk (fm_ID old) 0%Z (-1)%Z "/data/o/0" "c"). split; [by left | done].
  - intros r w' (-> & now & status & ->). done.
Defined.

(** * Notifying the devices *)

Section notifying.
Context `{E : Env} `{Q : Queuer} {QO : QueuerOk Q} `{GE : Gob MetadataUpdateStatusEvent}
  {GO : GobOk MetadataUpdateStatusEvent event_sendable}.
Implicit Types w : World.

(** The messages a partition gets from a list of events. *)
Definition delivered (msgs : list string) (events : list MetadataUpdateStatusEvent) (k : string) :
    Prop :=
  Forall2 (λ m e, gob_Decode m = Val e) msgs (filter (λ e, q_key (ev_UserID e) = k) events).

Lemma wp_notify_loop payloads w (Post : ret (list Payload) → World → Prop) :
  (∀ failed w', w_db w' = w_db w → (no_fault → failed = []) →
    (failed = [] → ∀ k, q_list w' k
      = q_list w k ++ (pl_Message ∘ pm_payload <$>
          filter (λ p, q_key (pm_userID p) = k) (omap id payloads))) →
    Post (Ret failed) w') →
  wp (notify_loop payloads) w Post.
Proof.
  revert w Post. induction payloads as [|[p|] payloads IH]; intros w Post HP; simpl.
  - apply wp_ret, HP; [done | done |]. intros _ k. by rewrite app_nil_r.
  - wp_step. apply wp_EnqueueMsg.
    + intros e w1 Hw1 Hno. wp_step. apply IH. intros failed w2 Hdb _ _. wp_step.
      apply HP; [by rewrite Hdb; apply later_db | done | done].
    + intros w1 (_ & Hdb1 & _) Hq1. wp_step. apply IH. intros failed w2 Hdb2 Hf Hq2. wp_step.
      apply HP; [congruence | done |]. intros Hnil k. rewrite Hq2, Hq1 by done.
      change (omap id (Some p :: payloads)) with (p :: omap id payloads).
      rewrite filter_cons. case_decide; simpl; [by rewrite <- app_assoc | done].
  - apply IH. intros failed w1 Hdb Hf Hq. by apply HP.
Qed.

Lemma wp_Notify events w (Post : ret (option PartialError) → World → Prop) :
  Forall event_sendable events →
  (∀ w', w_db w' = w_db w →
    (∀ k, ∃ msgs, q_list w' k = q_list w k ++ msgs ∧ delivered msgs events k) →
    Post (Ret None) w') →
  (∀ perr w', w_db w' = w_db w → ¬ no_fault → pe_Err perr = None → pe_Failed perr ≠ [] →
    Post (Ret (Some perr)) w') →
  wp (Notify events) w Post.
Proof.
  intros Hok Hv He. unfold Notify. cbv zeta. wp_step. apply wp_notify_loop.
  intros failed w1 Hdb Hf Hq. cbv beta iota. destruct failed as [|p failed].
  - wp_step. apply Hv; [done |]. intros k. rewrite Hq by done. eexists. split; [done |].
    clear Hq Hf Hv He. unfold delivered, rho_Map.
    assert (Himap : ∀ (f : MetadataUpdateStatusEvent → option PayloadMap) l,
      imap (λ _ el, f el) l = f <$> l).
    { intros f l. apply list_eq. intros i. rewrite list_lookup_imap, list_lookup_fmap.
      by destruct (l !! i). }
    rewrite Himap. induction Hok as [|e events He Hok IH]; [constructor |].
    destruct (gob_roundtrip e He) as (b & Hb & Hd).
    rewrite fmap_cons, Hb. cbn [omap list_omap id]. rewrite !filter_cons. simpl pm_userID.
    case_decide; [by constructor | done].
  - wp_step. apply He; [done | | done..]. intros Hn. by specialize (Hf Hn).
Qed.

End notifying.

(** Every event is announced to its user.  When no call fails, [Notify]
    returns [nil] and the queue of every partition grows, at its end, by
    messages that decode to the events of that user, in their order; the tables
    do not change.  When something fails it returns an error whose [Error]
    method panics, because the error inside it is [nil]. *)
Theorem Notify_delivers `{E : Env} `{Q : Queuer} {QO : QueuerOk Q}
    `{GE : Gob MetadataUpdateStatusEvent} {GO : GobOk MetadataUpdateStatusEvent event_sendable}
    events w :
  Forall event_sendable events →
  wp (Notify events) w (λ r w', w_db w' = w_db w ∧
    match r with
    | Ret None => ∀ k, ∃ msgs, q_list w' k = q_list w k ++ msgs ∧ delivered msgs events k
    | Ret (Some perr) => ¬ no_fault ∧ pe_Failed perr ≠ [] ∧
        PartialError_Error perr = Panics "nil pointer dereference"
    | Panics _ => False
    end).
Proof.
  intros Hok. apply wp_Notify; [done | by intros w' Hdb Hq |].
  intros perr w' Hdb Hf Hnil Hne. split; [done |]. split_and!; [done.. |].
  unfold PartialError_Error. by rewrite Hnil.
Qed.

Lemma Notify_delivers_witness :
  let Q := RedisQ (E := quiet_env) MetadataUpdateClientsNotifierQueue in
  let ev := {| ev_FileID := "F2"; ev_UserID := "U1"; ev_PrevFileID := Some "F1";
               ev_DeviceID := "1" |} in
  wp (Notify (Q := Q) (GE := event_gob) [ev]) empty_world (λ r w',
    r = Ret None ∧ ∃ msg, redis_queue w' "q::metadata::update::clients::U1" = [msg] ∧
      gob_Decode (Gob := event_gob) msg = Val ev).
Proof.
  intros Q ev. pose proof (Notify_delivers (E := quiet_env)
    (QO := RedisQ_ok (E := quiet_env) MetadataUpdateClientsNotifierQueue)
    (GE := event_gob) (GO := countable_gob_ok event_sendable) [ev] empty_world) as H.
  unfold wp in *.
  assert (Hr : (Notify (Q := Q) (GE := event_gob) [ev] empty_world).1 = Ret None) by by vm_compute.
  split; [done |]. destruct H as [_ H]; [by repeat constructor |]. simpl in H.
  destruct (H "q::metadata::update::clients::U1") as (msgs & Hq & Hd).
  unfold delivered in Hd. rewrite filter_cons, decide_True in Hd by by vm_compute.
  inversion Hd as [|m ? l ? Hm Hnil]; subst. inversion Hnil; subst. exists m. split; [exact Hq | done].
Defined.
