(* ===== verification/Users.v ===== *)
(** Packages core/users and core/database/crypter.go: the account of a user.

    [bcrypt.GenerateFromPassword] is the function [bcrypt_at] of the
    environment: it draws its salt from the system, so it depends on the event;
    it is an external call, so it may fail. *)
From S2P Require Import Prelude GoStd Model World Squirtle Queries Tokens.

(** * core/database/crypter.go *)
Section crypter.
Context `{E : Env}.

Definition HashPassword (password : string) : Go (res string) :=
  err ← call;
  match err with
  | Some e => mret (Err e)
  | None => λ w, (Ret (Val (bcrypt_at (w_tick w) password)), tick w)
  end.

End crypter.

(** [bcrypt.CompareHashAndPassword]: what was made of a password matches it. *)
Class Bcrypt := { CompareHashAndPassword : string → string → option error }.
Class BcryptOk `{E : Env} (BC : Bcrypt) : Prop := {
  bcrypt_matches : ∀ n password, CompareHashAndPassword (bcrypt_at n password) password = None;
}.

Definition ValidPassword `{BC : Bcrypt} (hashedPassword password : string) : bool :=
  match CompareHashAndPassword hashedPassword password with None => true | Some _ => false end.

(** * core/users/user.go *)

Definition UserTypeNormal : string := "normal".
Definition ErrIDGenerationFailed : error := "id_gen_failed".
Definition ErrPasswordHashFailed : error := "password_gen_failed".

(** * core/users/service.go *)

Definition CreateUserQueryKey : string := "CreateUserQuery".
Definition UserCreationFailed : error := "user_creation_failed:1001:500".

(** CreateUserQuery on the tables, [users.id] being the primary key: [None] is
    the error of the constraint. *)
Definition sql_CreateUser (user : User) (d : DB) : option DB :=
  if decide (usr_ID user ∈ (usr_ID <$> db_users d)) then None
  else Some (with_users (λ l, l ++ [user]) d).

Section users.
Context `{E : Env}.

Definition NewUser (email password : string) : Go (res User) :=
  r ← NewID;
  match r with
  | Err _ => mret (Err ErrIDGenerationFailed)
  | Val id =>
    r ← HashPassword password;
    match r with
    | Err _ => mret (Err ErrPasswordHashFailed)
    | Val hashedPassword =>
      now ← Now;
      mret (Val {| usr_ID := id; usr_Type := UserTypeNormal; usr_Email := email;
                   usr_HashedPassword := hashedPassword;
                   usr_CreatedAt := now; usr_UpdatedAt := now |})
    end
  end.

(** [NamedExecContext] of CreateUserQuery *)
Definition exec_CreateUser (user : User) : Go (res unit) :=
  err ← call;
  match err with
  | Some e => mret (Err e)
  | None =>
    w ← get;
    match sql_CreateUser user (w_db w) with
    | None => mret (Err "UNIQUE constraint failed: users.id")
    | Some d => modify (world_with_db d);; mret (Val ())
    end
  end.

Section service.
Context (boot : time) (querier : QueryMapper).

Definition UserService_Create (email password : string) : Go (res Token) :=
  r ← NewUser email password;
  match r with
  | Err _ => mret (Err UserCreationFailed)
  | Val user =>
    match GetQuery querier CreateUserQueryKey with
    | None => mret (Err "query_retriever_failed:1002:500")
    | Some _ =>
      r ← exec_CreateUser user;
      mret (Val (AdminToken boot))
    end
  end.

End service.
End users.

(** * Properties *)
Section properties.
Context `{E : Env} (boot : time) (querier : QueryMapper).

(** The row that the account created from [w] gets. *)
Definition new_user (email password : string) (w : World) : User :=
  let t := w_tick w in
  {| usr_ID := ulid_at (2 + t); usr_Type := UserTypeNormal; usr_Email := email;
     usr_HashedPassword := bcrypt_at (4 + t) password;
     usr_CreatedAt := now_at (5 + t); usr_UpdatedAt := now_at (5 + t) |}.

(** The calls that decide whether the account can be built. *)
Definition user_builds (w : World) : Prop :=
  fault (1 + w_tick w) = None ∧ fault (3 + w_tick w) = None.

Lemma wp_NewUser email password w (Q : ret (res User) → World → Prop) :
  (¬ user_builds w → ∀ e w', w_db w' = w_db w → Q (Ret (Err e)) w') →
  (user_builds w → Q (Ret (Val (new_user email password w))) (world_with_tick (6 + w_tick w) w)) →
  wp (NewUser email password) w Q.
Proof.
  intros He Hv. unfold NewUser, HashPassword, user_builds in *. simpl in *.
  do 2 wp_step; [intros e H1; wp_step; apply He; [intros []; congruence | done] |].
  intros H1. do 3 wp_step. simpl in *.
  destruct (fault (S (S (S (w_tick w))))) eqn:H3; cbv beta iota.
  - do 2 wp_step. apply He; [intros []; congruence | done].
  - by apply Hv.
Qed.

End properties.

(** An account is stored when, and only when, its identifier and its
    hash were made, the statement was found, the database took it and no
    account has its identifier; it then holds the hash of the password, never
    the password.  The answer does not tell: once the statement is tried, the
    caller gets the token of the built-in administrator, whoever it is and
    whether or not the account was stored. *)
Theorem UserService_Create_spec `{E : Env} boot querier email password w :
  wp (UserService_Create boot querier email password) w (λ r w',
    if decide (user_builds w) then
      match GetQuery querier CreateUserQueryKey with
      | None => r = Ret (Err "query_retriever_failed:1002:500") ∧ w_db w' = w_db w
      | Some _ =>
        r = Ret (Val (AdminToken boot)) ∧
        w_db w' =
          if decide (fault (6 + w_tick w) = None ∧
                     ulid_at (2 + w_tick w) ∉ (usr_ID <$> db_users (w_db w)))
          then with_users (λ l, l ++ [new_user email password w]) (w_db w) else w_db w
      end
    else r = Ret (Err UserCreationFailed) ∧ w_db w' = w_db w).
Proof.
  unfold UserService_Create. wp_step. apply wp_NewUser.
  - intros Hnb e w' Hdb. wp_step. by destruct (decide (user_builds w)).
  - intros Hb. destruct (decide (user_builds w)); [| done]. wp_step; [| by wp_step].
    unfold exec_CreateUser, sql_CreateUser. do 3 wp_step.
    change (w_tick (world_with_tick (6 + w_tick w) w)) with (6 + w_tick w).
    destruct (fault (6 + w_tick w)) eqn:H6; cbv beta iota.
    { do 2 wp_step. split; [done |]. by rewrite decide_False by (by intros []). }
    wp_step. wp_step. cbn [w_db tick world_with_tick usr_ID new_user].
    case_decide as Hin; cbv beta iota.
    + do 2 wp_step. split; [done |]. rewrite decide_False; [done | by intros [_ Hn]].
    + do 4 wp_step. split; [done |]. rewrite decide_True; [done | by split].
Qed.

(** The account that is stored can be logged in to: its hash is one the password
    is valid for, whatever salt was drawn. *)
Theorem created_user_password_valid `{E : Env} `{BC : Bcrypt} {BO : BcryptOk BC} email password w :
  wp (NewUser email password) w (λ r _,
    ∀ user, r = Ret (Val user) → ValidPassword (usr_HashedPassword user) password = true).
Proof.
  apply wp_NewUser; [done |]. intros _ user [= <-]. unfold ValidPassword, new_user. simpl. by rewrite bcrypt_matches.
Qed.

Definition sample_bcrypt : Bcrypt :=
  {| CompareHashAndPassword hash password :=
       if decide (hash = "hash:" +:+ password) then None
       else Some "crypto/bcrypt: hashedPassword is not the hash of the given password" |}.

#[global] Instance sample_bcrypt_ok f : BcryptOk (E := sample_env f) sample_bcrypt.
Proof. split. intros n password. simpl. by rewrite decide_True. Qed.

Lemma created_user_password_valid_witness :
  wp (NewUser (E := quiet_env) "a@b" "secret") empty_world (λ r _,
    ∀ user, r = Ret (Val user) → ValidPassword (BC := sample_bcrypt) (usr_HashedPassword user) "secret" = true).
Proof. exact (created_user_password_valid (E := quiet_env) (BC := sample_bcrypt) "a@b" "secret" empty_world). Defined.
