(* ===== verification/Auth.v ===== *)
(** Package web/middlewares: authnz.go.  A request is what echo gives the
    middlewares; a handler answers with a reply; a middleware turns a handler
    into a handler. *)
From S2P Require Import Prelude GoStd Api Model World Squirtle Queries Tokens.
From Stdlib Require Import Ascii.

(** * Requests and replies (echo)

    [Header.Get] gives the first value of a key, [Header.Add] appends one;
    [QueryParam] and [Param] are "" when the key is absent; [rq_token] is what
    [c.Set(TokenContextKey, token)] stored. *)
Record Request := {
  rq_header : gmap string (list string);
  rq_query : gmap string string;
  rq_param : gmap string string;
  rq_token : option Token;
}.

Definition Header_Get (c : Request) (key : string) : string :=
  match rq_header c !! key with
  | Some (v :: _) => v
  | _ => ""
  end.

Definition Header_Add (key value : string) (c : Request) : Request :=
  {| rq_header := <[key := default [] (rq_header c !! key) ++ [value]]> (rq_header c);
     rq_query := rq_query c; rq_param := rq_param c; rq_token := rq_token c |}.

Definition QueryParam (c : Request) (key : string) : string := default "" (rq_query c !! key).
Definition Param (c : Request) (key : string) : string := default "" (rq_param c !! key).

Definition set_token (token : Token) (c : Request) : Request :=
  {| rq_header := rq_header c; rq_query := rq_query c; rq_param := rq_param c;
     rq_token := Some token |}.

(** [http.Cookie]; the other attributes are the same for every cookie. *)
Record Cookie := { ck_Name : string; ck_Value : string; ck_MaxAge : Z }.

(** A reply: a status alone, a status with a body (and the cookies set before
    it), a file, a text, and a stream of events, with its headers, that stays
    open for a device. *)
Inductive Reply (D : Type) : Type :=
| NoContent (status : Z)
| JSON (cookies : list Cookie) (status : Z) (body : Response D)
| Attachment (name content : string)
| Text (status : Z) (body : string)
| EventStream (headers : list (string * string)) (userID deviceID : string).
Arguments NoContent {D} status.
Arguments JSON {D} cookies status body.
Arguments Attachment {D} name content.
Arguments Text {D} status body.
Arguments EventStream {D} headers userID deviceID.

Definition HandlerFunc (D : Type) : Type := Request → Go (Reply D).

(** * authnz.go *)

Definition AccessTokenHeaderKey : string := "X-Access-Token".
Definition StreamTokenHeaderKey : string := "X-Stream-Token".
Definition BearerKey : string := "Bearer ".
Definition DownloadTokenHeaderAuthKey : string := StreamTokenHeaderKey.
Definition DownloadTokenHeader : string := "Bearer %s".

Definition StatusBadRequest : Z := 400.
Definition StatusUnauthorized : Z := 401.

Definition getBearerToken (token : string) : option string :=
  if negb (HasPrefix token BearerKey) then None
  else Some (TrimSpace (TrimPrefix token BearerKey)).

Section middleware.
Context `{E : Env} (boot : time) (querier : QueryMapper) {D : Type}.

Definition ValidateAccessToken (next : HandlerFunc D) : HandlerFunc D := λ c,
  let accessTokenHeader := Header_Get c AccessTokenHeaderKey in
  let accessTokenHeader :=
    if decide (accessTokenHeader = "") then QueryParam c AccessTokenHeaderKey
    else accessTokenHeader in
  if decide (accessTokenHeader = "") then mret (NoContent StatusUnauthorized)
  else match getBearerToken accessTokenHeader with
  | None => mret (NoContent StatusBadRequest)
  | Some accessToken =>
    token ← FindByAccessToken boot querier
      {| fbc_AccessToken := accessToken; fbc_StreamToken := ""; fbc_ResourceID := "";
         fbc_ResourceType := "user"; fbc_UserID := None; fbc_TestMode := true |};
    match token with
    | Err _ => mret (NoContent StatusUnauthorized)
    | Val token => next (set_token token c)
    end
  end.

(** The second part of the signature token is read before the token is tested
    for being there. *)
Definition AddTokenFromUrlToHeader (next : HandlerFunc D) : HandlerFunc D := λ c,
  let downloadSignatureToken := QueryParam c "X-Sig-Token" in
  let splits := Split downloadSignatureToken ":" in
  first ← eval (index splits 0);
  let toBearerToken := Sprintf DownloadTokenHeader [AStr first] in
  second ← eval (index splits 1);
  let toBearerAccessToken := Sprintf DownloadTokenHeader [AStr second] in
  if decide (downloadSignatureToken = "") then next c
  else next (Header_Add DownloadTokenHeaderAuthKey toBearerToken
               (Header_Add AccessTokenHeaderKey toBearerAccessToken c)).

Definition ValidateStreamToken (next : HandlerFunc D) : HandlerFunc D := λ c,
  let accessTokenHeader := Header_Get c AccessTokenHeaderKey in
  let streamTokenHeader := Header_Get c StreamTokenHeaderKey in
  if decide (accessTokenHeader = "" ∨ streamTokenHeader = "")
  then mret (NoContent StatusUnauthorized)
  else match getBearerToken accessTokenHeader with
  | None => mret (NoContent StatusBadRequest)
  | Some accessToken =>
    match getBearerToken streamTokenHeader with
    | None => mret (NoContent StatusBadRequest)
    | Some streamToken =>
      let fileID := QueryParam c "fileID" in
      let fileID := if decide (fileID = "") then Param c "fileID" else fileID in
      let deviceID :=
        if decide (accessToken = tok_AccessToken (AnotherToken boot)) then "2" else "1" in
      token ← FindByStreamToken querier
        {| fbc_AccessToken := accessToken; fbc_StreamToken := streamToken;
           fbc_ResourceID := fileID; fbc_ResourceType := "stream";
           fbc_UserID := Some (tok_ResourceID (AdminToken boot)); fbc_TestMode := true |};
      match token with
      | Err _ => mret (NoContent StatusUnauthorized)
      | Val token => next (set_token (set_device_id deviceID token) c)
      end
    end
  end.

End middleware.

Example getBearerToken_tests :
  getBearerToken "Bearer  abc " = Some "abc" ∧ getBearerToken "Basic abc" = None ∧
  getBearerToken "Bearer " = Some "".
Proof. by vm_compute. Qed.

(** * Rules *)
Section rules.
Context `{E : Env} {EO : EnvOk E} (boot : time) (querier : QueryMapper).
Implicit Types w : World.

(** The instant the built-in tokens expire. *)
Definition builtin_expiry : time := (boot + 60 * nanos_per_minute)%Z.

(** The test mode accepts the two built-in tokens while they live. *)
Lemma wp_findByTestMode clause w (Q : ret (res Token) → World → Prop) :
  (∀ e w', later w w' → Q (Ret (Err e)) w') →
  (∀ t n w', later w w' → t = AdminToken boot ∨ t = AnotherToken boot →
    tok_AccessToken t = fbc_AccessToken clause → w_tick w ≤ n →
    (now_at n ≤ builtin_expiry)%Z → Q (Ret (Val t)) w') →
  wp (findByTestMode boot clause) w Q.
Proof.
  intros He Hv. unfold findByTestMode. cbn [test_mode_loop].
  unfold IsExpired, HasAccessExpired, Before. wp_go; simplify_eq; try (apply He; solve_later).
  all: repeat match goal with H : bool_decide _ = _ |- _ =>
    first [apply bool_decide_eq_true in H | apply bool_decide_eq_false in H] end.
  - eapply (Hv _ (w_tick w)); [solve_later | by left | done | done |].
    unfold builtin_expiry. simpl in *. lia.
  - eapply (Hv _ (w_tick w)); [solve_later | by right | done | done |].
    unfold builtin_expiry. simpl in *. lia.
Qed.

(** What lets a stream token pass. *)
Lemma wp_FindByStreamToken clause w (Q : ret (res Token) → World → Prop) :
  (∀ e w', later w w' → Q (Ret (Err e)) w') →
  (∀ t n w', later w w' → t ∈ db_tokens (w_db w) →
    stream_token_row (fbc_StreamToken clause) (fbc_ResourceID clause) (fbc_UserID clause)
      "stream" t → w_tick w ≤ n → (now_at n ≤ tok_AccessExpiresAt t)%Z → Q (Ret (Val t)) w') →
  wp (FindByStreamToken querier clause) w Q.
Proof.
  intros He Hv. unfold FindByStreamToken. wp_step; [| wp_go; apply He; solve_later].
  wp_step; [wp_go; apply He; solve_later |].
  wp_go; [apply He; solve_later |]. apply wp_scan_token; [intros; apply He; solve_later |].
  intros t k w1 Hw1 Ht Hk Hexp. apply elem_of_sql_GetStreamToken in Ht as [Ht Hrow].
  apply (Hv t k); [solve_later | done | done | simpl in Hk; lia | done].
Qed.

(** The file a request names. *)
Definition named_file (c : Request) : string :=
  if decide (QueryParam c "fileID" = "") then Param c "fileID" else QueryParam c "fileID".

(** What passes the middlewares. *)
Lemma wp_ValidateStreamToken {D} (next : HandlerFunc D) c w (Q : ret (Reply D) → World → Prop) :
  (∀ status w', later w w' → (status = 400 ∨ status = 401)%Z → Q (Ret (NoContent status)) w') →
  (∀ token device w1 n, later w w1 → token ∈ db_tokens (w_db w) →
    getBearerToken (Header_Get c StreamTokenHeaderKey) = Some (tok_AccessToken token) →
    tok_ResourceID token = named_file c → tok_UserID token = Some "U11223455" →
    tok_ResouceType token = ResourceTypeStream →
    w_tick w ≤ n → (now_at n ≤ tok_AccessExpiresAt token)%Z →
    wp (next (set_token (set_device_id device token) c)) w1 Q) →
  wp (ValidateStreamToken boot querier next c) w Q.
Proof.
  intros He Hv. unfold ValidateStreamToken. cbv zeta.
  wp_step; [wp_step; apply He; auto using later_refl |].
  destruct (getBearerToken (Header_Get c AccessTokenHeaderKey)) as [access|];
    [| wp_step; apply He; auto using later_refl].
  destruct (getBearerToken (Header_Get c StreamTokenHeaderKey)) as [stream|] eqn:Hs;
    [| wp_step; apply He; auto using later_refl].
  wp_step. apply wp_FindByStreamToken; simpl.
  - intros e w1 Hw1. wp_step. apply He; auto.
  - intros t k w1 Hw1 Ht (Ha & Hr & _ & Hu & Hty) Hn Hexp. cbv beta iota.
    eapply (Hv t); try done. by rewrite Ha.
Qed.

Lemma wp_ValidateAccessToken {D} (next : HandlerFunc D) c w (Q : ret (Reply D) → World → Prop) :
  (∀ status w', later w w' → (status = 400 ∨ status = 401)%Z → Q (Ret (NoContent status)) w') →
  (∀ token header w1 n, later w w1 →
    token = AdminToken boot ∨ token = AnotherToken boot →
    header = Header_Get c AccessTokenHeaderKey ∨
      Header_Get c AccessTokenHeaderKey = "" ∧ header = QueryParam c AccessTokenHeaderKey →
    getBearerToken header = Some (tok_AccessToken token) →
    w_tick w ≤ n → (now_at n ≤ builtin_expiry)%Z →
    wp (next (set_token token c)) w1 Q) →
  wp (ValidateAccessToken boot querier next c) w Q.
Proof.
  intros He Hv. unfold ValidateAccessToken. cbv zeta.
  set (header := if decide (Header_Get c AccessTokenHeaderKey = "") then _ else _).
  assert (Hh : header = Header_Get c AccessTokenHeaderKey ∨
       Header_Get c AccessTokenHeaderKey = "" ∧ header = QueryParam c AccessTokenHeaderKey)
    by (unfold header; case_decide; auto).
  clearbody header. wp_step; [wp_step; apply He; auto using later_refl |].
  destruct (getBearerToken header) as [secret|] eqn:Hb;
    [| wp_step; apply He; auto using later_refl].
  unfold FindByAccessToken. simpl fbc_TestMode. cbv iota. wp_step. apply wp_findByTestMode.
  - intros e w1 ?. wp_step. apply He; auto.
  - intros t k w1 Hw1 Ht Hsecret Hn Hexp. cbv beta iota. eapply Hv; try done.
    simpl in Hsecret. by rewrite Hb, Hsecret.
Qed.

End rules.

(** * Properties *)

(** No handler behind [ValidateAccessToken] runs without a valid access
    token: the middleware answers 400 or 401 itself, having changed nothing, or
    it hands the request on with one of the two built-in tokens, whose secret
    the request carried in the header (or, without a header, in the query)
    after "Bearer ", and which had not expired when it was looked at. *)
Theorem ValidateAccessToken_sound `{E : Env} {EO : EnvOk E} boot querier {D}
    (next : HandlerFunc D) c w :
  wp (ValidateAccessToken boot querier next c) w (λ r w',
    (∃ status, r = Ret (NoContent status) ∧ (status = 400 ∨ status = 401)%Z ∧ later w w') ∨
    (∃ token header w1 n,
      (token = AdminToken boot ∨ token = AnotherToken boot) ∧
      (header = Header_Get c AccessTokenHeaderKey ∨
       Header_Get c AccessTokenHeaderKey = "" ∧ header = QueryParam c AccessTokenHeaderKey) ∧
      getBearerToken header = Some (tok_AccessToken token) ∧
      later w w1 ∧ w_tick w ≤ n ∧ (now_at n ≤ builtin_expiry boot)%Z ∧
      next (set_token token c) w1 = (r, w'))).
Proof.
  apply wp_ValidateAccessToken; [by left; eauto |].
  intros t header w1 k Hw1 Ht Hh Hb Hk Hexp. apply wp_self. intros r w' Hrun. right.
  exists t, header, w1, k. by split_and!.
Qed.

Definition sample_get (header : string) : Request :=
  {| rq_header := {[AccessTokenHeaderKey := [header]]}; rq_query := ∅; rq_param := ∅;
     rq_token := None |}.

Lemma ValidateAccessToken_sound_witness :
  wp (ValidateAccessToken (E := quiet_env) 0%Z tokensQs
        (λ c, mret (NoContent 204) : Go (Reply unit)) (sample_get "Bearer trial_access_token"))
    empty_world (λ r w', r = Ret (NoContent 204) ∧ ∃ token,
      getBearerToken "Bearer trial_access_token" = Some (tok_AccessToken token) ∧
      (token = AdminToken 0%Z ∨ token = AnotherToken 0%Z)).
Proof.
  pose proof (ValidateAccessToken_sound (E := quiet_env) 0%Z tokensQs
    (λ c, mret (NoContent 204) : Go (Reply unit)) (sample_get "Bearer trial_access_token")
    empty_world) as H.
  unfold wp in *.
  assert (Hr : (ValidateAccessToken (E := quiet_env) 0%Z tokensQs
    (λ c, mret (NoContent 204) : Go (Reply unit)) (sample_get "Bearer trial_access_token")
    empty_world).1 = Ret (NoContent 204)) by by vm_compute.
  rewrite Hr in *. split; [done |].
  destruct H as [(status & Hst & [->| ->] & _)|(token & header & w1 & n & Ht & Hh & Hb & _)];
    [done | done |].
  exists token. split; [| done]. destruct Hh as [->|[Hh _]]; [exact Hb | by vm_compute in Hh].
Defined.

(** Once the built-in tokens have expired, an hour after the process
    started, every request is refused: there is no other way in. *)
Theorem ValidateAccessToken_locked_out `{E : Env} {EO : EnvOk E} boot querier {D}
    (next : HandlerFunc D) c w :
  (∀ n, w_tick w ≤ n → (builtin_expiry boot < now_at n)%Z) →
  wp (ValidateAccessToken boot querier next c) w (λ r w',
    ∃ status, r = Ret (NoContent status) ∧ (status = 400 ∨ status = 401)%Z ∧ w_db w' = w_db w).
Proof.
  intros Hlate. apply wp_ValidateAccessToken.
  - intros status w' Hw'%later_db Hst. eauto.
  - intros t header w1 k _ _ _ _ Hk Hexp. specialize (Hlate k). lia.
Qed.

Lemma ValidateAccessToken_locked_out_witness :
  wp (ValidateAccessToken (E := quiet_env) (- 61 * nanos_per_minute)%Z tokensQs
        (λ c, mret (NoContent 204) : Go (Reply unit)) (sample_get "Bearer trial_access_token"))
    empty_world (λ r w', ∃ status, r = Ret (NoContent status) ∧ (status = 400 ∨ status = 401)%Z ∧
      w_db w' = empty_db).
Proof.
  apply (ValidateAccessToken_locked_out (E := quiet_env) (- 61 * nanos_per_minute)%Z tokensQs).
  intros n _. unfold builtin_expiry, nanos_per_minute.
  change (now_at n) with (1000 + Z.of_nat n)%Z. lia.
Defined.

(** No handler behind [ValidateStreamToken] runs without a stream token
    of the tables: the middleware answers 400 or 401 itself, or it hands the
    request on with a row of the tokens table that carries the secret of the
    stream header, the file of the query (or else of the path) and the user of
    the built-in token, and had not expired when it was looked at.  In either
    case nothing changes before the handler but the count of events. *)
Theorem ValidateStreamToken_sound `{E : Env} {EO : EnvOk E} boot querier {D}
    (next : HandlerFunc D) c w :
  wp (ValidateStreamToken boot querier next c) w (λ r w',
    (∃ status, r = Ret (NoContent status) ∧ (status = 400 ∨ status = 401)%Z ∧
      later w w') ∨
    (∃ token device w1 n,
      token ∈ db_tokens (w_db w) ∧
      getBearerToken (Header_Get c StreamTokenHeaderKey) = Some (tok_AccessToken token) ∧
      tok_ResourceID token = named_file c ∧
      tok_UserID token = Some "U11223455" ∧ tok_ResouceType token = ResourceTypeStream ∧
      w_tick w ≤ n ∧ (now_at n ≤ tok_AccessExpiresAt token)%Z ∧ later w w1 ∧
      next (set_token (set_device_id device token) c) w1 = (r, w'))).
Proof.
  apply wp_ValidateStreamToken; [by left; eauto |].
  intros t device w1 k Hw1 Ht Hs Hr Hu Hty Hk Hexp. apply wp_self. intros r w' Hrun. right.
  exists t, device, w1, k. by split_and!.
Qed.

Definition sample_put (access stream file : string) : Request :=
  {| rq_header := <[AccessTokenHeaderKey := [access]]> {[StreamTokenHeaderKey := [stream]]};
     rq_query := ∅; rq_param := {["fileID" := file]}; rq_token := None |}.

Lemma ValidateStreamToken_sound_witness :
  wp (ValidateStreamToken (E := quiet_env) 0%Z tokensQs
        (λ c, mret (NoContent 204) : Go (Reply unit)) (sample_put "Bearer x" "Bearer s3cret" "F1"))
    token_world (λ r w', r = Ret (NoContent 204) ∧ ∃ token,
      token ∈ [sample_token] ∧ tok_ResourceID token = "F1").
Proof.
  pose proof (ValidateStreamToken_sound (E := quiet_env) 0%Z tokensQs
    (λ c, mret (NoContent 204) : Go (Reply unit)) (sample_put "Bearer x" "Bearer s3cret" "F1")
    token_world) as H.
  unfold wp in *.
  assert (Hr : (ValidateStreamToken (E := quiet_env) 0%Z tokensQs
    (λ c, mret (NoContent 204) : Go (Reply unit)) (sample_put "Bearer x" "Bearer s3cret" "F1")
    token_world).1 = Ret (NoContent 204)) by by vm_compute.
  rewrite Hr in *. split; [done |].
  destruct H as [(status & Hst & [->| ->] & _)|(token & device & w1 & n & Ht & _ & Hres & _)];
    [done | done |]. exists token. split; [exact Ht | by rewrite Hres].
Defined.

(** What the two headers of a download become. *)
Lemma getBearerToken_header s :
  getBearerToken (Sprintf DownloadTokenHeader [AStr s]) = Some (TrimSpace s).
Proof.
  assert (Sprintf DownloadTokenHeader [AStr s] = BearerKey +:+ s) as ->.
  { change DownloadTokenHeader with (BearerKey +:+ "%s").
    rewrite Sprintf_plain by done. f_equal. apply sapp_nil_r. }
  unfold getBearerToken, HasPrefix. by destruct s.
Qed.

(** The access token is never checked by [ValidateStreamToken]: for a
    handler that looks at the token found, any two access headers of the form
    "Bearer ..." give the same outcome and the same world, as long as neither
    is the second built-in token, which only changes the device. *)
Theorem ValidateStreamToken_ignores_access `{E : Env} boot querier {D}
    (k : option Token → Go (Reply D)) c1 c2 w :
  (∀ key, key ≠ AccessTokenHeaderKey → rq_header c1 !! key = rq_header c2 !! key) →
  rq_query c1 = rq_query c2 → rq_param c1 = rq_param c2 →
  Forall (λ c, ∃ secret, getBearerToken (Header_Get c AccessTokenHeaderKey) = Some secret ∧
            secret ≠ tok_AccessToken (AnotherToken boot)) [c1; c2] →
  ValidateStreamToken boot querier (λ c, k (rq_token c)) c1 w
  = ValidateStreamToken boot querier (λ c, k (rq_token c)) c2 w.
Proof.
  intros Hh Hq Hp [(s1 & Hb1 & Hs1) [(s2 & Hb2 & Hs2) _]%Forall_cons]%Forall_cons.
  assert (Hst : Header_Get c1 StreamTokenHeaderKey = Header_Get c2 StreamTokenHeaderKey)
    by (unfold Header_Get; by rewrite (Hh StreamTokenHeaderKey) by done).
  assert (Hqf : QueryParam c1 "fileID" = QueryParam c2 "fileID")
    by (unfold QueryParam; by rewrite Hq).
  assert (Hpf : Param c1 "fileID" = Param c2 "fileID") by (unfold Param; by rewrite Hp).
  assert (Hne : ∀ c s, getBearerToken (Header_Get c AccessTokenHeaderKey) = Some s →
    Header_Get c AccessTokenHeaderKey ≠ "") by (intros c s Hb Heq; by rewrite Heq in Hb).
  unfold ValidateStreamToken. cbv beta zeta. rewrite Hst, Hqf, Hpf, Hb1, Hb2.
  rewrite (decide_False (P := _ = tok_AccessToken _)) by done.
  rewrite (decide_False (P := s2 = tok_AccessToken _)) by done.
  pose proof (Hne _ _ Hb1). pose proof (Hne _ _ Hb2).
  repeat case_decide; first [reflexivity | exfalso; tauto].
Qed.

Lemma ValidateStreamToken_ignores_access_witness :
  ValidateStreamToken (E := quiet_env) 0%Z tokensQs (λ _, mret (NoContent 204) : Go (Reply unit))
    (sample_put "Bearer no such token" "Bearer s3cret" "F1") token_world
  = ValidateStreamToken (E := quiet_env) 0%Z tokensQs (λ _, mret (NoContent 204) : Go (Reply unit))
    (sample_put "Bearer trial_access_token" "Bearer s3cret" "F1") token_world.
Proof.
  apply (ValidateStreamToken_ignores_access (E := quiet_env) 0%Z tokensQs
    (λ _, mret (NoContent 204) : Go (Reply unit))); [| done | done |].
  - intros key Hk. unfold sample_put. simpl. by rewrite !lookup_insert_ne by done.
  - repeat constructor; eexists; (split; [by vm_compute | by vm_compute]).
Defined.

(** The signature token of a download is taken apart before it is
    tested for being there: without one, or with one that has no ':', the
    request panics and never reaches the handler, whatever the handler is. *)
Theorem AddTokenFromUrlToHeader_panics {D} (next : HandlerFunc D) c w :
  no_char ":"%char (QueryParam c "X-Sig-Token") = true →
  ∃ why, AddTokenFromUrlToHeader next c w = (Panics why, w).
Proof.
  intros Hc. unfold AddTokenFromUrlToHeader. cbv zeta.
  change ":" with (String ":"%char ""). rewrite Split_char_last by done.
  eexists. reflexivity.
Qed.

Lemma AddTokenFromUrlToHeader_panics_witness :
  ∃ why, AddTokenFromUrlToHeader (λ c, mret (NoContent 204) : Go (Reply unit))
    (sample_get "Bearer trial_access_token") empty_world = (Panics why, empty_world).
Proof. apply AddTokenFromUrlToHeader_panics. reflexivity. Defined.

(** A signature token "stream:access" becomes exactly the two bearer headers
    that the middlewares after it read: on a request without those headers,
    both tokens come back out whole. *)
Theorem AddTokenFromUrlToHeader_headers {D} (next : HandlerFunc D) c w stream access :
  QueryParam c "X-Sig-Token" = stream +:+ ":" +:+ access →
  no_char ":"%char stream = true → no_char ":"%char access = true →
  rq_header c !! AccessTokenHeaderKey = None → rq_header c !! StreamTokenHeaderKey = None →
  ∃ c', AddTokenFromUrlToHeader next c w = next c' w ∧
    getBearerToken (Header_Get c' StreamTokenHeaderKey) = Some (TrimSpace stream) ∧
    getBearerToken (Header_Get c' AccessTokenHeaderKey) = Some (TrimSpace access) ∧
    rq_query c' = rq_query c ∧ rq_param c' = rq_param c.
Proof.
  intros Hq Hs Ha Hna Hns. unfold AddTokenFromUrlToHeader. cbv zeta. rewrite Hq.
  change (stream +:+ ":" +:+ access) with (stream +:+ String ":" access).
  change (Split (stream +:+ String ":" access) ":")
    with (Split (stream +:+ String ":" access) (String ":" "")).
  rewrite Split_char_app, Split_char_last by done.
  set (c' := Header_Add DownloadTokenHeaderAuthKey (Sprintf DownloadTokenHeader [AStr stream])
    (Header_Add AccessTokenHeaderKey (Sprintf DownloadTokenHeader [AStr access]) c)).
  exists c'. split.
  { transitivity ((if decide (stream +:+ String ":" access = "") then next c else next c') w);
      [reflexivity |]. by rewrite decide_False by (by destruct stream). }
  unfold c',  Header_Get, Header_Add. cbn [rq_header rq_query rq_param].
  assert (AccessTokenHeaderKey ≠ StreamTokenHeaderKey) by done.
  unfold DownloadTokenHeaderAuthKey. rewrite Hna. simplify_map_eq.
  simpl. by rewrite !getBearerToken_header.
Qed.
