(* ===== verification/Routes.v ===== *)
(** Package web/routes: the request handlers of metadatahandler.go,
    chunkhandler.go and sharehandler.go, and the way cmd/server/main.go puts
    the middlewares of Auth.v before them. *)
From S2P Require Import Prelude GoStd Api Model World Squirtle Queries.
From S2P Require Import Tokens FilesRepo Queue Gob FilesInfo FilesService Blob.
From S2P Require Import Transfer Auth.
From Stdlib Require Import Ascii.

(** What echo reads from the body of a request. *)
Class Echo := {
  bind_MetadataRequest : Request → res MetadataRequest;
  bind_FileUpdateMetadataRequest : Request → res FileUpdateMetadataRequest;
  bind_FileChunkRequest : Request → res FileChunkRequest;
  (** [c.FormFile(name)]: the content of the part *)
  FormFile : Request → string → res string;
}.

Definition StatusOK : Z := 200.
Definition StatusCreated : Z := 201.
Definition StatusForbidden : Z := 403.
Definition StatusNotFound : Z := 404.
Definition StatusInternalServerError : Z := 500.

(** [return c.JSON(resp.Error.HttpStatus, resp)] *)
Definition reply_error {D} (resp : Response D) : Go (Reply D) :=
  match rsp_Error resp with
  | Some e => mret (JSON [] (er_HttpStatus e) resp)
  | None => panic "nil pointer dereference"
  end.

(** The end of most handlers: [ok] is the status of a success. *)
Definition reply {D} (ok : Z) (resp : Response D) : Go (Reply D) :=
  if rsp_Success resp then mret (JSON [] ok resp) else reply_error resp.

(** [strconv.Atoi] with its error replaced by 0 *)
Definition atoi_or_zero (s : string) : Z :=
  match Atoi s with (n, None) => n | (_, Some _) => 0%Z end.

Section handlers.
Context `{E : Env} `{MR : MapRange} `{SG : SliceGrowth} `{Q : Queuer} `{G : Gob CacheMetadata}.
Context `{OS : OsEnv} `{EC : Echo}.
Context (mq tq cq : QueryMapper).

(** * metadatahandler.go *)

Definition MetadataHandler_MarkUploadComplete : HandlerFunc (gmap string bool) := λ c,
  match rq_token c with
  | None => mret (NoContent StatusUnauthorized)
  | Some token =>
    if decide (tok_ResourceID token ≠ Param c "fileID") then mret (NoContent StatusBadRequest)
    else
      resp ← MarkUploadComplete mq
        {| ufd_UserID := ""; ufd_DeviceID := tok_DeviceID token;
           ufd_FileID := tok_ResourceID token; ufd_ChunkID := "" |};
      reply StatusOK resp
  end.

(** A path as the kernel finds it from the working directory [cwd], when the
    directories on the way are there and are no links. *)
Definition resolve (cwd path : string) : string :=
  if HasPrefix path "/" then Clean path else Clean (cwd +:+ "/" +:+ path).

Definition os_Remove (path : string) : Go unit :=
  err ← call;
  match err with
  | Some _ => mret ()
  | None => modify (λ w, world_with_fs (delete path (w_fs w)) w)
  end.

(** From [outputFilePath := ...] to the end of both download handlers: the
    buffer goes to a file named by the user, which is sent and then removed;
    [c.Attachment] answers "not found" for a file it cannot open. *)
Definition send_file {D} (cwd name buffer : string) : Go (Reply D) :=
  let outputFilePath := resolve cwd (Sprintf "./tmp/outdir/%s" [AStr name]) in
  err ← os_Create outputFilePath;
  match err with
  | Some _ => mret (NoContent StatusInternalServerError)
  | None =>
    copied ← io_Copy {| rs_data := buffer; rs_pos := 0 |};
    modify (λ w, world_with_fs (<[outputFilePath := copied.1.1]> (w_fs w)) w);;
    answer ← match copied.2 with
      | Some _ => mret (NoContent StatusInternalServerError)
      | None =>
        file ← os_Open outputFilePath;
        mret (match file with
              | Err _ => NoContent StatusNotFound
              | Val data => Attachment name data
              end)
      end;
    os_Remove outputFilePath;;
    mret answer
  end.

Definition DownloadFileV2 (cwd : string) : HandlerFunc unit := λ c,
  match rq_token c with
  | None => mret (NoContent StatusUnauthorized)
  | Some token =>
    let fileID := Param c "fileID" in
    r ← ListOrderedFileChunks mq fileID (tok_ResourceID token);
    match r with
    | Err err => reply_error (failed err)
    | Val (downloadUrls, infoResp) =>
      buffer ← Download (fir_Size infoResp) downloadUrls;
      match buffer with
      | Err _ => mret (NoContent StatusInternalServerError)
      | Val buffer => send_file cwd (fir_Name infoResp) buffer
      end
    end
  end.

(** The loop of [DownloadFile], which does not use the cache. *)
Fixpoint copy_loop (buffer : string) (downloadUrls : list string) : Go (res string) :=
  match downloadUrls with
  | [] => mret (Val buffer)
  | filePath :: rest =>
    file ← os_Open filePath;
    match file with
    | Err e => mret (Err e)
    | Val content =>
      copied ← io_Copy {| rs_data := content; rs_pos := 0 |};
      match copied.2 with
      | Some e => mret (Err e)
      | None => copy_loop (buffer +:+ copied.1.1) rest
      end
    end
  end.

Definition DownloadFile (cwd : string) : HandlerFunc unit := λ c,
  match rq_token c with
  | None => mret (NoContent StatusUnauthorized)
  | Some token =>
    let fileID := Param c "fileID" in
    r ← ListOrderedFileChunks mq fileID (tok_ResourceID token);
    match r with
    | Err err => reply_error (failed err)
    | Val (downloadUrls, infoResp) =>
      eval (if decide (0 ≤ fir_Size infoResp ≤ 2 ^ 48)%Z then Ret ()
            else Panics "makeslice: cap out of range");;
      buffer ← copy_loop "" downloadUrls;
      match buffer with
      | Err _ => mret (NoContent StatusInternalServerError)
      | Val buffer => send_file cwd (fir_Name infoResp) buffer
      end
    end
  end.

Definition WriteSessionCookie (maxAge : Z) (key value : string) : Cookie :=
  {| ck_Name := key; ck_Value := value; ck_MaxAge := maxAge |}.

Definition PostFileMetadata : HandlerFunc MetadataTokenResponse := λ c,
  match bind_MetadataRequest c with
  | Err _ => mret (NoContent StatusBadRequest)
  | Val req =>
    match rq_token c with
    | None => mret (NoContent StatusUnauthorized)
    | Some token =>
      resp ← PrepareFileForUpload mq tq
        {| mr_UserID := tok_ResourceID token; mr_FileName := mr_FileName req;
           mr_FileType := mr_FileType req; mr_FileSize := mr_FileSize req;
           mr_Digest := mr_Digest req; mr_UploadStatus := StatusUploading;
           mr_Chunks := mr_Chunks req; mr_AccessToken := "" |};
      if rsp_Success resp then
        match rsp_Data resp with
        | None => panic "nil pointer dereference"
        | Some data =>
          mret (JSON [WriteSessionCookie (mtr_ExpiresIn data) "stream_token" (mtr_StreamToken data)]
                  StatusCreated resp)
        end
      else reply_error resp
    end
  end.

(** The token is only looked for. *)
Definition MetadataHandler_GetFileChunks : HandlerFunc FilesWithChunks := λ c,
  match rq_token c with
  | None => mret (NoContent StatusForbidden)
  | Some _ =>
    let fileID := Param c "fileID" in
    if decide (fileID = "") then mret (NoContent StatusBadRequest)
    else
      r ← GetFileChunks mq fileID;
      match r with
      | Err err => reply_error (BuildResponse (Some err) None)
      | Val fileWithChunks => mret (JSON [] StatusOK (BuildResponse None (Some fileWithChunks)))
      end
  end.

Definition ListFilesWithMetadata : HandlerFunc ListResponse := λ c,
  match rq_token c with
  | None => mret (NoContent StatusForbidden)
  | Some token =>
    let offset := atoi_or_zero (QueryParam c "offset") in
    let limit := atoi_or_zero (QueryParam c "limit") in
    resp ← ListFilesForUser mq (tok_ResourceID token) {| po_Offset := offset; po_Limit := limit |};
    reply StatusOK resp
  end.

Definition MetadataHandler_UpdateFileMetadata : HandlerFunc MetadataTokenResponse := λ c,
  match bind_FileUpdateMetadataRequest c with
  | Err _ => mret (NoContent StatusBadRequest)
  | Val req =>
    match rq_token c with
    | None => mret (NoContent StatusForbidden)
    | Some token =>
      resp ← UpdateFileMetadata mq tq
        {| fur_FileName := fur_FileName req; fur_FileID := fur_FileID req;
           fur_Digest := fur_Digest req; fur_Chunks := fur_Chunks req;
           fur_FileSize := fur_FileSize req; fur_FileType := fur_FileType req;
           fur_UploadStatus := fur_UploadStatus req; fur_UserID := tok_ResourceID token |};
      reply StatusOK resp
    end
  end.

(** * chunkhandler.go *)

Definition with_part (data file user : string) (req : FileChunkRequest) : FileChunkRequest :=
  {| fcr_ChunkID := fcr_ChunkID req; fcr_NextChunkID := fcr_NextChunkID req;
     fcr_ChunkDigest := fcr_ChunkDigest req; fcr_ChunkSize := fcr_ChunkSize req;
     fcr_FileDigest := fcr_FileDigest req; fcr_Data := data; fcr_FileID := file;
     fcr_UserID := user |}.

Definition UpsertChunks (dirPath : string) : HandlerFunc ChunkUploadResponse := λ c,
  match rq_token c with
  | None => mret (NoContent StatusForbidden)
  | Some token =>
    match tok_UserID token with
    | None => mret (NoContent StatusForbidden)
    | Some user =>
      match bind_FileChunkRequest c with
      | Err _ => mret (NoContent StatusInternalServerError)
      | Val req =>
        match FormFile c "data" with
        | Err _ => mret (NoContent StatusBadRequest)
        | Val data =>
          err ← call;
          match err with
          | Some _ => mret (NoContent StatusInternalServerError)
          | None =>
            resp ← FileChunkService_Create dirPath cq (with_part data (tok_ResourceID token) user req);
            reply StatusCreated resp
          end
        end
      end
    end
  end.

(** * sharehandler.go *)

Definition ShareFile : HandlerFunc unit := λ _, mret (NoContent StatusForbidden).

(** * The routes of cmd/server/main.go

    echo applies the middlewares of a route from the first to the last. *)
Section routes.
Context (boot : time) (cwd dirPath : string).

Definition get_file := ValidateAccessToken boot tq MetadataHandler_GetFileChunks.
Definition patch_file := ValidateAccessToken boot tq MetadataHandler_UpdateFileMetadata.
Definition post_file := ValidateAccessToken boot tq PostFileMetadata.
Definition list_files := ValidateAccessToken boot tq ListFilesWithMetadata.
Definition put_eof := ValidateStreamToken boot tq MetadataHandler_MarkUploadComplete.
Definition patch_chunks := ValidateStreamToken boot tq (UpsertChunks dirPath).
Definition put_share := ValidateAccessToken boot tq ShareFile.
Definition get_download :=
  AddTokenFromUrlToHeader (ValidateAccessToken boot tq (DownloadFile cwd)).
Definition get_download_v2 :=
  AddTokenFromUrlToHeader (ValidateAccessToken boot tq (DownloadFileV2 cwd)).

End routes.
End handlers.

(** * Rules *)
Section rules.
Context `{E : Env} `{OS : OsEnv}.
Implicit Types w : World.

Lemma wp_reply {D} ok (resp : Response D) w (P : ret (Reply D) → World → Prop) :
  (rsp_Success resp = true → P (Ret (JSON [] ok resp)) w) →
  (∀ e, rsp_Success resp = false → rsp_Error resp = Some e →
    P (Ret (JSON [] (er_HttpStatus e) resp)) w) →
  (rsp_Success resp = false → rsp_Error resp = None → P (Panics "nil pointer dereference") w) →
  wp (reply ok resp) w P.
Proof.
  intros Hs He Hn. unfold reply, reply_error.
  destruct (rsp_Success resp); [by apply wp_ret, Hs |].
  destruct (rsp_Error resp); [by apply wp_ret, He | by apply wp_panic, Hn].
Qed.

Lemma wp_os_Open path w (P : ret (res string) → World → Prop) :
  (∀ e w', later w w' → (no_fault → w_fs w !! path = None) → P (Ret (Err e)) w') →
  (∀ data w', later w w' → w_fs w !! path = Some data → P (Ret (Val data)) w') →
  wp (os_Open path) w P.
Proof.
  intros He Hv. unfold os_Open. wp_go.
  - apply He; [solve_later | intros ?; quiet].
  - change (w_fs (tick w)) with (w_fs w).
    destruct (w_fs w !! path) eqn:Hp; [apply Hv | apply He]; try done; solve_later.
Qed.

(** The file sent is made and removed under the path of its name; nothing else
    on the disk changes, and the tables do not. *)
Definition outdir_path (cwd name : string) : string :=
  resolve cwd (Sprintf "./tmp/outdir/%s" [AStr name]).

Lemma wp_send_file {D} cwd name buffer w (P : ret (Reply D) → World → Prop) :
  (∀ r w', w_db w' = w_db w → w_cache w' = w_cache w →
    (∀ p, p ≠ outdir_path cwd name → w_fs w' !! p = w_fs w !! p) →
    (no_fault → r = Attachment name buffer ∧ w_fs w' = delete (outdir_path cwd name) (w_fs w)) →
    P (Ret r) w') →
  wp (send_file cwd name buffer) w P.
Proof.
  intros HP. unfold send_file. fold (outdir_path cwd name). cbv zeta. wp_step. apply wp_os_Create.
  { intros e w1 Hw1 Hnf. wp_go. later_subst. apply HP; done. }
  intros w1 Hw1. wp_step. apply wp_io_Copy.
  - intros got pos e w2 Hw2 Hfault. cbv beta iota. wp_step. wp_step. simpl. wp_step. wp_step. wp_step.
    unfold os_Remove. wp_go; later_subst; (apply HP; [done | done | | intros ?; quiet]);
      intros p Hp; simpl; by rewrite ?lookup_delete_ne, !lookup_insert_ne.
  - intros pos w2 Hw2 _. cbv beta iota. wp_step. wp_step. simpl. wp_step. wp_step.
    apply wp_os_Open; intros x w3 Hw3 Hopen; wp_step; wp_step;
      unfold os_Remove; wp_go; later_subst; simpl in *; rewrite ?lookup_insert_eq in Hopen;
      (apply HP; [done | done | |]); try (intros p Hp; simpl; by rewrite ?lookup_delete_ne, !lookup_insert_ne);
      intros Hnf; try quiet; try (by specialize (Hopen Hnf)).
    simplify_eq. split; [done |]. simpl. by rewrite !delete_insert_eq.
Qed.

End rules.

(** An announcement that succeeds gives a token with the short expiry. *)
Lemma PrepareFileForUpload_returns `{E : Env} mq tq req :
  returns (λ resp, (rsp_Success resp = false ∧ rsp_Error resp ≠ None) ∨
    ∃ d, resp = succeeded d ∧ mtr_ExpiresIn d = ShortExpiryDuration)
    (PrepareFileForUpload mq tq req).
Proof. unfold PrepareFileForUpload. returns_go; first [left; done | right; by eexists]. Qed.

Section download.
Context `{E : Env} {EO : EnvOk E} `{OS : OsEnv} `{MR : MapRange}.

Lemma wp_copy_loop_quiet buffer paths (data : string → string) w (P : ret (res string) → World → Prop) :
  no_fault → (∀ p, p ∈ paths → w_fs w !! p = Some (data p)) →
  (∀ w', later w w' → P (Ret (Val (buffer +:+ foldr String.append "" (data <$> paths)))) w') →
  wp (copy_loop buffer paths) w P.
Proof.
  intros Hf. revert buffer w P. induction paths as [|p paths IH]; intros buffer w P Hfs HP.
  { wp_go. simpl in HP. rewrite sapp_nil_r in HP. by apply HP, later_refl. }
  simpl. wp_step. apply wp_os_Open_quiet; [done |]. intros w1 ?. later_subst.
  rewrite (Hfs p) by by left. wp_step. apply wp_io_Copy; [intros; quiet |].
  intros pos w2 ? _. cbv beta iota. simpl. later_subst. apply IH.
  - intros q Hq. simpl. apply Hfs. by right.
  - intros w' Hw'. simpl in HP. rewrite sapp_assoc. apply HP. solve_later.
Qed.

(** The paths of an uploaded file, read from the disk, are its parts. *)
Lemma part_paths_data dir file (parts : list string) (fs : gmap string string) :
  (∀ i part, parts !! i = Some part → fs !! chunk_file dir file (Z.of_nat i) = Some part) →
  (λ p, default "" (fs !! p)) <$> part_paths dir file (length parts) = parts.
Proof.
  intros Hfs. unfold part_paths. apply list_eq_same_length with (length parts);
    [done | by rewrite !length_fmap, length_seq |].
  intros i x y Hi Hx Hy. rewrite !list_lookup_fmap, lookup_seq_lt in Hx by done.
  apply Hfs in Hy. simpl in Hx. rewrite Hy in Hx. by injection Hx.
Qed.

End download.

(** * Properties *)

(** (C27) A request to store a chunk ([PATCH /my/files/:fileID/chunks], behind
    its middleware) changes nothing unless it carries a stream token.  Either
    no table and no file of the disk changes, or there is a row of the tokens
    table with the secret of the stream header, for the file the request names
    and not expired, and then at most one chunk row is added, of that file and
    of that token's user (not of what the body says), and only files of that
    file's chunk change on the disk. *)
Theorem patch_chunks_authorised `{E : Env} {EO : EnvOk E} `{OS : OsEnv} `{EC : Echo}
    tq cq boot dir c w :
  wp (patch_chunks tq cq boot (abs_path dir) c) w (λ _ w',
    later w w' ∨
    ∃ token n id, token ∈ db_tokens (w_db w) ∧
      getBearerToken (Header_Get c StreamTokenHeaderKey) = Some (tok_AccessToken token) ∧
      tok_ResourceID token = named_file c ∧
      w_tick w ≤ n ∧ (now_at n ≤ tok_AccessExpiresAt token)%Z ∧
      (w_db w' = w_db w ∨ ∃ uf, w_db w' = sql_CreateFileChunk uf (w_db w) ∧
         uf_FileID uf = tok_ResourceID token ∧ Some (uf_UserID uf) = tok_UserID token) ∧
      ∀ p, p ≠ chunk_file dir (tok_ResourceID token) id → w_fs w' !! p = w_fs w !! p).
Proof.
  unfold patch_chunks. apply wp_ValidateStreamToken; [by left |].
  intros token device w1 n Hw1 Hin Hs Hr Hu _ Hn Hexp.
  unfold UpsertChunks. simpl. rewrite Hu.
  destruct (bind_FileChunkRequest _) as [req|]; [| by wp_step; left].
  destruct (FormFile _ _) as [data|]; [| by wp_step; left].
  wp_step. wp_step. wp_step; [wp_step; left; later_subst; solve_later |].
  assert (Hout : ∀ w', (w_db w' = w_db w1 ∨ ∃ uf, w_db w' = sql_CreateFileChunk uf (w_db w1) ∧
      uf_FileID uf = tok_ResourceID token ∧ Some (uf_UserID uf) = tok_UserID token) →
    (∃ id, ∀ p, p ≠ chunk_file dir (tok_ResourceID token) id → w_fs w' !! p = w_fs w1 !! p) →
    later w w' ∨ ∃ token n id, token ∈ db_tokens (w_db w) ∧
      getBearerToken (Header_Get c StreamTokenHeaderKey) = Some (tok_AccessToken token) ∧
      tok_ResourceID token = named_file c ∧
      w_tick w ≤ n ∧ (now_at n ≤ tok_AccessExpiresAt token)%Z ∧
      (w_db w' = w_db w ∨ ∃ uf, w_db w' = sql_CreateFileChunk uf (w_db w) ∧
         uf_FileID uf = tok_ResourceID token ∧ Some (uf_UserID uf) = tok_UserID token) ∧
      ∀ p, p ≠ chunk_file dir (tok_ResourceID token) id → w_fs w' !! p = w_fs w !! p).
  { intros w' Hdb (id & Hfs). right. exists token, n, id. later_subst. by split_and!. }
  wp_step. apply wp_FileChunkService_Create; simpl.
  - intros e w2 Hdb Hfs. cbv beta iota. apply wp_reply; intros; apply Hout; auto.
  - intros rsp uf w2 Hf Huser Hdb Hfs. cbv beta iota.
    apply wp_reply; intros; (apply Hout; [| done]); right; exists uf; by rewrite Huser, Hu.
Qed.

(** A request as the middleware hands it on. *)
Definition sample_request_for (token : Token) (file : string) : Request :=
  {| rq_header := ∅; rq_query := ∅; rq_param := {["fileID" := file]}; rq_token := Some token |}.

(** A client whose chunk says it belongs to another user's file. *)
Definition sample_echo : Echo :=
  {| bind_MetadataRequest _ := Err "bad request";
     bind_FileUpdateMetadataRequest _ := Err "bad request";
     bind_FileChunkRequest _ := Val (part_request (E := quiet_env) "U2" "F9" 0 true "x");
     FormFile _ _ := Val "x" |}.

Lemma patch_chunks_authorised_witness :
  wp (patch_chunks (E := quiet_env) (OS := sample_os)
        (EC := sample_echo)
        tokensQs chunkQs 0%Z (abs_path ["srv"]) (sample_put "Bearer x" "Bearer s3cret" "F1"))
    token_world (λ _ w', ∃ uf, w_db w' = sql_CreateFileChunk uf (w_db token_world) ∧
      uf_FileID uf = "F1" ∧ Some (uf_UserID uf) = tok_UserID sample_token).
Proof.
  pose proof (patch_chunks_authorised (E := quiet_env) (OS := sample_os) (EC := sample_echo)
    tokensQs chunkQs 0%Z ["srv"] (sample_put "Bearer x" "Bearer s3cret" "F1") token_world) as H.
  assert (Hne : db_user_files (w_db (patch_chunks (E := quiet_env) (OS := sample_os) (EC := sample_echo)
    tokensQs chunkQs 0%Z (abs_path ["srv"]) (sample_put "Bearer x" "Bearer s3cret" "F1")
    token_world).2) ≠ []) by by vm_compute.
  unfold wp in *. destruct H as [Hl|(t & n & id & Ht & _ & _ & _ & _ & Hdb & _)].
  - apply later_db in Hl. by rewrite Hl in Hne.
  - apply list_elem_of_singleton in Ht as ->. destruct Hdb as [Hdb|(uf & Hdb & Hf & Hu)].
    + by rewrite Hdb in Hne.
    + by exists uf.
Defined.

(** (C29) A download answers with the file and leaves nothing behind, but where
    it works is up to the user: when no call fails, the request for a file
    whose parts are on the disk is answered with an attachment, under the name
    the file was announced with, of the parts joined in order; the tables do
    not change, and on the disk exactly the path made of "./tmp/outdir/" and
    that name is removed.  The name is not checked, so a name with ".." in it
    removes a file elsewhere, such as a chunk of another user's file. *)
Theorem DownloadFile_serves `{E : Env} {EO : EnvOk E} `{OS : OsEnv} `{MR : MapRange}
    mq cwd dir user file parts m rows token c w :
  no_fault → has_query mq SelectFilesForUserStmt →
  uploaded dir user file (w_db w) m rows parts → parts ≠ [] →
  (Z.of_nat (length parts) ≤ 2 ^ 44)%Z → (0 ≤ fm_FileSize m ≤ 2 ^ 48)%Z →
  (∀ i part, parts !! i = Some part → w_fs w !! chunk_file dir file (Z.of_nat i) = Some part) →
  rq_token c = Some token → tok_ResourceID token = user → Param c "fileID" = file →
  wp (DownloadFile mq cwd c) w (λ r w',
    r = Ret (Attachment (fm_Filename m) (foldr String.append "" parts)) ∧
    w_db w' = w_db w ∧ w_fs w' = delete (outdir_path cwd (fm_Filename m)) (w_fs w)).
Proof.
  intros Hf Hmq Hup Hne Hlen Hsize Hfs Htok Huser Hfile. unfold DownloadFile.
  rewrite Htok, Huser, Hfile. cbv zeta. wp_step. apply wp_ListOrderedFileChunks; [done | done |].
  intros r w1 Hw1 Hr. apply (uploaded_answer dir user file _ m rows parts) in Hr
    as (info & -> & Hinfo & Hname); [| done..].
  cbv beta iota. wp_step. wp_step. rewrite Hinfo, decide_True by done. cbv beta iota. later_subst.
  wp_step. apply (wp_copy_loop_quiet _ _ (λ p, default "" (w_fs w !! p))); [done | |].
  - intros p (j & -> & Hj)%list_elem_of_fmap. apply elem_of_seq in Hj as [_ Hj].
    destruct (lookup_lt_is_Some_2 parts j) as [part Hp]; [done |]. simpl.
    by rewrite (Hfs _ _ Hp).
  - intros w2 Hw2. cbv beta iota. rewrite part_paths_data by done.
    apply wp_send_file. intros r w3 Hdb _ _ Hdone. destruct (Hdone Hf) as [-> Hfs3].
    rewrite Hname in *. later_subst. done.
Qed.

(** A file of one part whose name climbs to a chunk of another file. *)
Definition climbing_file : FileMetadata :=
  {| fm_ID := "F3"; fm_UserID := "U11223455"; fm_Filename := "../arbokdata/F9/0"; fm_FileSize := 4%Z;
     fm_FileType := ""; fm_FileHash := "h"; fm_NChunks := 1%Z; fm_CurrentFlag := true;
     fm_UploadStaus := StatusCompleted; fm_PrevID := None; fm_EndDate := None;
     fm_CreatedAt := 1%Z; fm_UpdatedAt := 1%Z |}.

Definition climbing_chunk : UserFile :=
  {| uf_UserID := "U11223455"; uf_FileID := "F3"; uf_ChunkID := 0%Z;
     uf_ChunkBlobUrl := "/srv/tmp/arbokdata/F3/0"; uf_ChunkHash := "c"; uf_NextChunkID := Some (-1)%Z;
     uf_CreatedAt := 1%Z; uf_UpdatedAt := 1%Z |}.

Definition climbing_world : World :=
  world_with_fs (<["/srv/tmp/arbokdata/F3/0" := "mine"]> {["/srv/tmp/arbokdata/F9/0" := "theirs"]})
    (world_with_db {| db_file_metadatas := [climbing_file]; db_users := [];
                      db_user_files := [climbing_chunk]; db_tokens := [] |} empty_world).

Lemma DownloadFile_serves_witness :
  w_fs climbing_world !! "/srv/tmp/arbokdata/F9/0" = Some "theirs" ∧
  wp (DownloadFile (E := quiet_env) (OS := sample_os) (MR := list_range) metadataQueryStore "/srv"
        (sample_request_for (AdminToken 0%Z) "F3")) climbing_world
    (λ r w', r = Ret (Attachment "../arbokdata/F9/0" "mine") ∧
      w_fs w' !! "/srv/tmp/arbokdata/F9/0" = None).
Proof.
  split; [by vm_compute |]. eapply wp_mono.
  - apply (DownloadFile_serves (E := quiet_env) (OS := sample_os) (MR := list_range)
      metadataQueryStore "/srv" ["srv"; "tmp"; "arbokdata"] "U11223455" "F3" ["mine"] climbing_file
      [climbing_chunk] (AdminToken 0%Z)); try done;
      try by (apply (bool_decide_unpack _); vm_compute).
    + split_and!; try done; [by left | by intros m' ->%list_elem_of_singleton | |].
      * intros uf. simpl. split; [by intros [? _] |].
        intros ->%list_elem_of_singleton. split; [by left | done].
      * split; [done |]. intros [|j] uf Hj; simpl in Hj; simplify_eq. by vm_compute.
    + intros [|i] part Hi; simpl in Hi; simplify_eq. by vm_compute.
  - intros r w' (-> & _ & ->). split; [by vm_compute |].
    replace (outdir_path "/srv" (fm_Filename climbing_file)) with "/srv/tmp/arbokdata/F9/0"
      by by vm_compute. by rewrite lookup_delete_eq.
Defined.

(** What the announcement of a file answers: with status 201 a cookie
    that holds the stream token the body holds, otherwise the status of the
    error and no cookie.  The life of the cookie, which is given in seconds, is
    the short expiry in nanoseconds: 1 200 000 000 000 seconds, thirty-eight
    thousand years, for a token of a day. *)
Theorem PostFileMetadata_cookie `{E : Env} `{EC : Echo} mq tq c :
  returns (λ r,
    match r with
    | NoContent status => status = StatusBadRequest ∨ status = StatusUnauthorized
    | JSON cookies status body =>
      (status = StatusCreated ∧ ∃ d, body = succeeded d ∧
         cookies = [{| ck_Name := "stream_token"; ck_Value := mtr_StreamToken d;
                       ck_MaxAge := 1200000000000 |}]) ∨
      (cookies = [] ∧ rsp_Success body = false ∧
         ∃ e, rsp_Error body = Some e ∧ status = er_HttpStatus e)
    | _ => False
    end) (PostFileMetadata mq tq c).
Proof.
  unfold PostFileMetadata. destruct (bind_MetadataRequest c) as [req|]; [| by apply returns_ret; left].
  destruct (rq_token c) as [token|]; [| by apply returns_ret; right].
  eapply returns_bind; [apply PrepareFileForUpload_returns |].
  intros resp [[Hs He]|(d & -> & Hd)].
  - rewrite Hs. unfold reply_error. destruct (rsp_Error resp) as [e|] eqn:Hr; [| done].
    apply returns_ret. right. split_and!; [done.. |]. by exists e.
  - apply returns_ret. left. split; [done |]. exists d. split; [done |].
    unfold WriteSessionCookie. by rewrite Hd.
Qed.

(** Reading the record of a file asks for a token, and for nothing of it: the
    answer is the same whoever asks. *)
Lemma GetFileChunks_any_user `{E : Env} mq c t1 t2 :
  MetadataHandler_GetFileChunks mq (set_token t1 c) = MetadataHandler_GetFileChunks mq (set_token t2 c).
Proof. reflexivity. Qed.
