(* ===== verification/Proc.v ===== *)
(** Operations cut into actions.  The other files model an operation as one
    function of the world; the requests and the jobs of the program run at the
    same time, and between two statements of one the others go on.  Here an
    operation is a process ([Proc]), a tree of actions; an action is one
    statement or transaction of the database, one command of Redis, one call of
    the system. *)
From S2P Require Import Prelude GoStd Model World Squirtle Queries.
From S2P Require Import Tokens FilesRepo Queue Blob Transfer Users Routes.

(** * Actions

    A transaction is one action: [_txlock=immediate] keeps other writers out
    from its begin to its end, and readers see the tables before it. *)
Section actions.
Context `{E : Env} `{OS : OsEnv}.

Inductive action : ∀ {X : Type}, Go X → Prop :=
| act_call : action call
| act_Now : action Now
| act_ulid : action (λ w, (Ret (Val (ulid_at (w_tick w))), tick w))
| act_rand n : action (λ w, (Ret (Val (rand_at (w_tick w) n)), tick w))
| act_bcrypt password : action (λ w, (Ret (Val (bcrypt_at (w_tick w) password)), tick w))
| act_query {X} (f : DB → X) : action (db_query f)
| act_exec f : action (db_exec f)
| act_CreateUser user : action (exec_CreateUser user)
| act_CreateMetadataToken mq tq m t : action (CreateMetadataToken mq tq m t)
| act_Update mq prev id status : action (MetadataRepository_Update mq prev id status)
| act_CreateBatch cq chunks : action (UserFileRepository_CreateBatch cq chunks)
| act_EnqueueMsg (Q : Queuer) p d : action (EnqueueMsg p d)
| act_EnsureDir path : action (EnsureDir path)
| act_Create path : action (os_Create path)
| act_Open path : action (os_Open path)
| act_Remove path : action (os_Remove path)
| act_Copy r : action (io_Copy r)
| act_Write path data : action (modify (λ w, world_with_fs (<[path := data]> (w_fs w)) w))
| act_Get key : action (cache_Get key)
| act_SetEx key data : action (cache_SetEx key data).

(** * Processes *)

Inductive Proc (A : Type) : Type :=
| Done (r : ret A)
| Act {X : Type} (m : Go X) (a : action m) (k : ret X → Proc A).
Arguments Done {A} r.
Arguments Act {A X} m a k.

(** One action; what follows is told whether it panicked. *)
Definition proc_step {A} (p : Proc A) (w : World) : option (Proc A * World) :=
  match p with
  | Done _ => None
  | Act m _ k =>
    Some (k (m w).1, (m w).2)
  end.

(** A process that nobody interrupts. *)
Fixpoint run {A} (p : Proc A) : Go A :=
  match p with
  | Done r => eval r
  | Act m _ k => λ w, run (k (m w).1) (m w).2
  end.

Inductive alone {A} : Proc A → World → ret A → World → Prop :=
| alone_done r w : alone (Done r) w r w
| alone_act p w p' w' r w'' :
    proc_step p w = Some (p', w') → alone p' w' r w'' → alone p w r w''.

Lemma run_alone {A} (p : Proc A) w : alone p w (run p w).1 (run p w).2.
Proof.
  revert w. induction p as [r|X m a k IH]; intros w; [constructor |].
  eapply alone_act; [done | apply IH].
Qed.

Fixpoint bindP {A B} (p : Proc A) (f : A → Proc B) : Proc B :=
  match p with
  | Done (Ret a) => f a
  | Done (Panics why) => Done (Panics why)
  | Act m a k => Act m a (λ r, bindP (k r) f)
  end.

Lemma run_bindP {A B} (p : Proc A) (f : A → Proc B) w :
  run (bindP p f) w = bindM (λ a, run (f a)) (run p) w.
Proof.
  revert w. induction p as [[a|why]|X m a k IH]; intros w; [done.. |]. apply IH.
Qed.

End actions.
Arguments Done {E OS A} r.
Arguments Act {E OS A X} m a k.
