(* ===== verification/Chan.v ===== *)
(** Go channels: the state of one channel and the operations on it.

    The goroutines of a component are a transition system whose steps are the
    channel operations; this file says when an operation blocks, when it goes
    through and when it panics.  A send on a channel without buffer goes through
    only together with a receive, so it is one step of the system, not an
    operation here. *)
From S2P Require Import Prelude.

Record Chan (A : Type) := { ch_cap : nat; ch_buf : list A; ch_closed : bool }.
Arguments ch_cap {A} c.
Arguments ch_buf {A} c.
Arguments ch_closed {A} c.
Arguments Build_Chan {A}.

(** What an operation does now: it waits, it goes through, it panics. *)
Inductive Comm (A : Type) : Type :=
| Blocks
| Goes (x : A)
| Breaks (why : string).
Arguments Blocks {A}.
Arguments Goes {A} x.
Arguments Breaks {A} why.

Section chan.
Context {A : Type}.
Implicit Types (c : Chan A) (x : A).

Definition make_chan (n : nat) : Chan A := {| ch_cap := n; ch_buf := []; ch_closed := false |}.

Definition with_buf (l : list A) c : Chan A :=
  {| ch_cap := ch_cap c; ch_buf := l; ch_closed := ch_closed c |}.

(** [c <- x] *)
Definition send c x : Comm (Chan A) :=
  if ch_closed c then Breaks "send on closed channel"
  else if decide (length (ch_buf c) < ch_cap c) then Goes (with_buf (ch_buf c ++ [x]) c)
  else Blocks.

(** [x, ok := <-c]: [None] is the zero value of a closed channel, [ok = false]. *)
Definition recv c : Comm (option A * Chan A) :=
  match ch_buf c with
  | x :: l => Goes (Some x, with_buf l c)
  | [] => if ch_closed c then Goes (None, c) else Blocks
  end.

(** [close(c)] *)
Definition close c : Comm (Chan A) :=
  if ch_closed c then Breaks "close of closed channel"
  else Goes {| ch_cap := ch_cap c; ch_buf := ch_buf c; ch_closed := true |}.

(** An operation that goes through, or no step; the components show that their
    operations never panic. *)
Definition goes {B} (o : Comm B) : option B :=
  match o with Goes x => Some x | _ => None end.

Lemma send_inv c x c' :
  send c x = Goes c' →
  ch_closed c = false ∧ length (ch_buf c) < ch_cap c ∧ c' = with_buf (ch_buf c ++ [x]) c.
Proof. unfold send. destruct (ch_closed c); [done |]. case_decide; naive_solver. Qed.

Lemma recv_inv c x c' :
  recv c = Goes (Some x, c') → ∃ l, ch_buf c = x :: l ∧ c' = with_buf l c.
Proof. unfold recv. destruct (ch_buf c), (ch_closed c); naive_solver. Qed.

(** An open channel never gives the zero value, and is never broken. *)
Lemma recv_open c r c' :
  ch_closed c = false → recv c = Goes (r, c') → ∃ x l, r = Some x ∧ ch_buf c = x :: l ∧ c' = with_buf l c.
Proof. unfold recv. intros ->. destruct (ch_buf c); naive_solver. Qed.

Lemma send_open c x why : ch_closed c = false → send c x ≠ Breaks why.
Proof. unfold send. intros ->. by case_decide. Qed.

Lemma recv_never_breaks c why : recv c ≠ Breaks why.
Proof. unfold recv. by destruct (ch_buf c), (ch_closed c). Qed.

Lemma close_open c why : ch_closed c = false → close c ≠ Breaks why.
Proof. unfold close. by intros ->. Qed.

End chan.

Lemma goes_Some {A} (o : Comm A) x : goes o = Some x → o = Goes x.
Proof. by destruct o; intros [= ->]. Qed.

(** What a receive, a send, a close that went through did. *)
Lemma goes_recv {A} (c : Chan A) r c' :
  goes (recv c) = Some (r, c') →
  ch_cap c' = ch_cap c ∧ ch_closed c' = ch_closed c ∧
  match r with Some x => ch_buf c = x :: ch_buf c' | None => ch_closed c = true ∧ c' = c end.
Proof.
  intros H%goes_Some. unfold recv in H. destruct (ch_buf c) as [|x l] eqn:Hb.
  - destruct (ch_closed c) eqn:Hc; simplify_eq. by rewrite Hc.
  - by simplify_eq.
Qed.

Lemma goes_recv_end {A} (c : Chan A) c' :
  goes (recv c) = Some (None, c') → ch_buf c = [] ∧ ch_closed c = true ∧ c' = c.
Proof. unfold recv. destruct (ch_buf c), (ch_closed c); simpl; intros [= <-]; done. Qed.

Lemma goes_send {A} (c : Chan A) x c' :
  goes (send c x) = Some c' →
  ch_cap c' = ch_cap c ∧ ch_closed c' = ch_closed c ∧ ch_closed c = false ∧
  length (ch_buf c) < ch_cap c ∧ ch_buf c' = ch_buf c ++ [x].
Proof. by intros (? & ? & ->)%goes_Some%send_inv. Qed.

Lemma goes_close {A} (c c' : Chan A) :
  goes (close c) = Some c' →
  ch_cap c' = ch_cap c ∧ ch_closed c = false ∧ ch_closed c' = true ∧ ch_buf c' = ch_buf c.
Proof. unfold close. destruct (ch_closed c); simpl; [done |]. by intros [= <-]. Qed.
