(* ===== verification/BatchCreate.v ===== *)
(** [LocalFS.BatchCreateChunk] of pkg/blobstore/localfs.go: the chunks of a file
    stored by one goroutine each, a [sync.WaitGroup] and a channel for what they
    have stored.

    A step is one operation of one goroutine on the channel or the group, or one
    phase of its [UpdateChunk]: the phases of different goroutines interleave in
    every way.  The parts are separate readers, one per chunk. *)
From S2P Require Import Prelude GoStd Model World FilesRepo Blob Chan.

(** Where the goroutine of a chunk is: in [UpdateChunk] (before [EnsureDir],
    before [os.Create], before the copy), at the send, at the deferred
    [wg.Done()], or over. *)
Inductive UploaderAt :=
| UpEnsure
| UpCreate
| UpCopy
| UpSend (filePath : string) (data : ReadSeeker)
| UpDone
| UpGone.

(** Where [BatchCreateChunk] itself is: in the loop that starts the goroutines,
    at [wg.Wait()], at [close], in the loop over the channel, or over. *)
Inductive BatchAt :=
| BatchSpawn (index : nat)
| BatchWait
| BatchClose
| BatchRange (chunkData : list ChunkedFile)
| BatchReturned (r : res (list ChunkedFile)).

Record Batch := {
  bt_world : World;
  bt_uploaders : list UploaderAt;
  bt_wg : nat;
  chunksReceiver : Chan ChunkedFile;
  bt_at : BatchAt;
}.

Definition batch_goes (a : BatchAt) (s : Batch) : Batch :=
  {| bt_world := bt_world s; bt_uploaders := bt_uploaders s; bt_wg := bt_wg s;
     chunksReceiver := chunksReceiver s; bt_at := a |}.
Definition batch_receiver (c : Chan ChunkedFile) (s : Batch) : Batch :=
  {| bt_world := bt_world s; bt_uploaders := bt_uploaders s; bt_wg := bt_wg s;
     chunksReceiver := c; bt_at := bt_at s |}.
Definition batch_world (w : World) (s : Batch) : Batch :=
  {| bt_world := w; bt_uploaders := bt_uploaders s; bt_wg := bt_wg s;
     chunksReceiver := chunksReceiver s; bt_at := bt_at s |}.
Definition batch_group (us : list UploaderAt) (wg : nat) (s : Batch) : Batch :=
  {| bt_world := bt_world s; bt_uploaders := us; bt_wg := wg;
     chunksReceiver := chunksReceiver s; bt_at := bt_at s |}.

Definition ErrFileUpload : error := "file_upload_failed".

(** [BatchMain] is a step of [BatchCreateChunk], [BatchUpload i] one of the
    goroutine of chunk [i]. *)
Inductive BatchEvent :=
| BatchMain
| BatchUpload (i : nat).

Section batch.
Context `{E : Env} `{OS : OsEnv} (dirPath fileID : string) (chunks : list ChunkedFile).

(** [UpdateChunk] of Blob.v a phase at a time: where the goroutine goes on.  The
    error of a phase is logged. *)
Definition UpdateChunk_phase (chunk : ChunkedFile) (a : UploaderAt) : Go UploaderAt :=
  let path := filepath_Join [dirPath; fileID; Sprintf "%d" [AInt (cf_chunkID chunk)]] in
  match a with
  | UpEnsure =>
    err ← EnsureDir (filepath_Join [dirPath; fileID]);
    mret (match err with Some _ => UpDone | None => UpCreate end)
  | UpCreate =>
    err ← os_Create path;
    mret (match err with Some _ => UpDone | None => UpCopy end)
  | UpCopy =>
    data ← SeekStart (cf_data chunk);
    byt ← io_Copy data;
    data ← SeekStart byt.1.2;
    copied ← io_Copy data;
    modify (λ w, world_with_fs (<[path := copied.1.1]> (w_fs w)) w);;
    mret (UpSend (match copied.2 with Some _ => "" | None => path end) copied.1.2)
  | _ => mret a
  end.

(** The goroutine of chunk [i]; what it sends has the index for an identifier. *)
Definition uploader_step (i : nat) (s : Batch) : option Batch :=
  chunk ← chunks !! i;
  a ← bt_uploaders s !! i;
  match a with
  | UpEnsure | UpCreate | UpCopy =>
    match UpdateChunk_phase chunk a (bt_world s) with
    | (Ret a', w) =>
      Some (batch_group (<[i := a']> (bt_uploaders s)) (bt_wg s) (batch_world w s))
    | (Panics _, _) => None
    end
  | UpSend filePath data =>
    c ← goes (send (chunksReceiver s)
                {| cf_data := data; cf_chunkID := Z.of_nat i; cf_chunkPath := filePath |});
    mret (batch_group (<[i := UpDone]> (bt_uploaders s)) (bt_wg s) (batch_receiver c s))
  | UpDone => Some (batch_group (<[i := UpGone]> (bt_uploaders s)) (pred (bt_wg s)) s)
  | UpGone => None
  end.

Definition BatchCreateChunk (s : Batch) : option Batch :=
  match bt_at s with
  | BatchSpawn index =>
    match chunks !! index with
    | Some _ => Some (batch_goes (BatchSpawn (S index))
                        (batch_group (bt_uploaders s ++ [UpEnsure]) (S (bt_wg s)) s))
    | None => Some (batch_goes BatchWait s)
    end
  | BatchWait => if decide (bt_wg s = 0) then Some (batch_goes BatchClose s) else None
  | BatchClose =>
    c ← goes (close (chunksReceiver s));
    mret (batch_goes (BatchRange []) (batch_receiver c s))
  | BatchRange chunkData =>
    r ← goes (recv (chunksReceiver s));
    match r.1 with
    | Some chunk =>
      mret (batch_goes (BatchRange (chunkData ++ [chunk])) (batch_receiver r.2 s))
    | None =>
      mret (batch_goes (BatchReturned
        (if decide (length chunkData = length chunks) then Val chunkData else Err ErrFileUpload)) s)
    end
  | BatchReturned _ => None
  end.

Definition batch_start (w : World) : Batch :=
  {| bt_world := w; bt_uploaders := []; bt_wg := 0;
     chunksReceiver := make_chan (length chunks); bt_at := BatchSpawn 0 |}.

Definition batch_step (e : BatchEvent) (s : Batch) : option Batch :=
  match e with
  | BatchMain => BatchCreateChunk s
  | BatchUpload i => uploader_step i s
  end.

Definition batch_reach : Batch → Batch → Prop := rtc (λ s s', ∃ e, batch_step e s = Some s').

Fixpoint batch_run (es : list BatchEvent) (s : Batch) : option Batch :=
  match es with
  | [] => Some s
  | e :: es' => match batch_step e s with Some s' => batch_run es' s' | None => None end
  end.

Lemma batch_run_reach es s s' : batch_run es s = Some s' → batch_reach s s'.
Proof.
  revert s. induction es as [|e es IH]; intros s; simpl; [by intros [= ->]; constructor |].
  destruct (batch_step e s) as [s1|] eqn:He; [| done].
  intros Hr. eapply rtc_l; [by exists e | by apply IH].
Qed.

End batch.

(** What is left to do, in steps. *)
Definition uploader_work (a : UploaderAt) : nat :=
  match a with
  | UpEnsure => 6 | UpCreate => 5 | UpCopy => 4 | UpSend _ _ => 3 | UpDone => 1 | UpGone => 0
  end.

Definition batch_work (n : nat) (s : Batch) : nat :=
  match bt_at s with
  | BatchSpawn index => 7 * (n - index) + 4
  | BatchWait => 3 | BatchClose => 2 | BatchRange _ => 1 | BatchReturned _ => 0
  end + sum_list_with uploader_work (bt_uploaders s) + length (ch_buf (chunksReceiver s)).

(** The goroutine has left [UpdateChunk] and the send behind. *)
Definition settled (a : UploaderAt) : bool :=
  match a with UpDone | UpGone => true | _ => false end.

Definition alive (a : UploaderAt) : nat := match a with UpGone => 0 | _ => 1 end.

Definition settled_at (us : list UploaderAt) (i : nat) : Prop :=
  ∃ a, us !! i = Some a ∧ settled a = true.

(** * One phase *)
Section phases.
Context `{E : Env} `{OS : OsEnv}.

Definition uploaded (a : UploaderAt) : option string :=
  match a with UpSend filePath _ => Some filePath | _ => None end.

(** The phases, one after the other, are [UpdateChunk]. *)
Lemma UpdateChunk_phases dirPath fileID chunk w :
  (a ← UpdateChunk_phase dirPath fileID chunk UpEnsure;
   a ← UpdateChunk_phase dirPath fileID chunk a;
   a ← UpdateChunk_phase dirPath fileID chunk a;
   mret (uploaded a)) w =
  (r ← UpdateChunk dirPath fileID chunk;
   mret (match r with Val filePath => Some filePath | Err _ => None end)) w.
Proof.
  unfold UpdateChunk, UpdateChunk_phase, mbind, M_bind, bindM, mret, M_ret, modify.
  destruct (EnsureDir _ w) as [[[e|]|why] w1]; try done.
  destruct (os_Create _ w1) as [[[e|]|why] w2]; try done.
  destruct (SeekStart _ w2) as [[r|why] w3]; try done.
  destruct (io_Copy r w3) as [[byt|why] w4]; try done.
  destruct (SeekStart _ w4) as [[r2|why] w5]; try done.
  destruct (io_Copy r2 w5) as [[copied|why] w6]; try done.
  by destruct copied.2.
Qed.

(** What a phase does. *)
Inductive phase_effect (path : string) (chunk : ChunkedFile) (w : World) :
    UploaderAt → UploaderAt → World → Prop :=
| effect_fails a w' :
    settled a = false → later w w' → ¬ no_fault → phase_effect path chunk w a UpDone w'
| effect_dir w' :
    later w w' → phase_effect path chunk w UpEnsure UpCreate w'
| effect_create w' :
    later (world_with_fs (<[path := ""]> (w_fs w)) w) w' →
    phase_effect path chunk w UpCreate UpCopy w'
| effect_copy got filePath data w' :
    later (world_with_fs (<[path := got]> (w_fs w)) w) w' →
    rs_data data = rs_data (cf_data chunk) → filePath = path ∨ filePath = "" →
    (no_fault → filePath = path ∧ got = rs_data (cf_data chunk)) →
    phase_effect path chunk w UpCopy (UpSend filePath data) w'.

Definition uploading (a : UploaderAt) : bool :=
  match a with UpEnsure | UpCreate | UpCopy => true | _ => false end.

Lemma wp_UpdateChunk_phase dir f chunk a w (Q : ret UploaderAt → World → Prop) :
  uploading a = true →
  (∀ a' w', phase_effect (chunk_file dir f (cf_chunkID chunk)) chunk w a a' w' → Q (Ret a') w') →
  wp (UpdateChunk_phase (abs_path dir) f chunk a) w Q.
Proof.
  intros Ha HQ. destruct a; try done; clear Ha; unfold UpdateChunk_phase;
    fold (chunk_file dir f (cf_chunkID chunk)).
  - wp_step. apply wp_EnsureDir; intros; wp_go; apply HQ; by constructor.
  - wp_step. apply wp_os_Create; intros; wp_go; apply HQ; by constructor.
  - assert (Hstore : ∀ got w', later w w' →
      later (world_with_fs (<[chunk_file dir f (cf_chunkID chunk) := got]> (w_fs w)) w)
            (world_with_fs (<[chunk_file dir f (cf_chunkID chunk) := got]> (w_fs w')) w')).
    { intros got w' ?. solve_later. }
    wp_step. apply wp_SeekStart; intros; wp_step; apply wp_io_Copy; intros; wp_step; simpl;
      apply wp_SeekStart; intros; wp_step; apply wp_io_Copy; intros; wp_go; simplify_eq/=;
      apply HQ; (eapply effect_copy; [apply Hstore; solve_later | done | by auto |]);
      intros ?; try (exfalso; quiet; done); try done.
Qed.

End phases.

(** * The invariant *)
Section invariant.
Context `{E : Env} `{OS : OsEnv} (dir : list string) (f : string) (chunks : list ChunkedFile).
Implicit Types (s : Batch) (us : list UploaderAt).

#[local] Abbreviation step := (batch_step (abs_path dir) f chunks).
#[local] Abbreviation reach := (batch_reach (abs_path dir) f chunks).
#[local] Abbreviation file_of chunk := (chunk_file dir f (cf_chunkID chunk)).

(** What goroutine [i] may send. *)
Definition entry_of (i : nat) (x : ChunkedFile) : Prop :=
  ∃ chunk, chunks !! i = Some chunk ∧ cf_chunkID x = Z.of_nat i ∧
    (cf_chunkPath x = file_of chunk ∨ cf_chunkPath x = "") ∧
    (no_fault → cf_chunkPath x = file_of chunk) ∧
    rs_data (cf_data x) = rs_data (cf_data chunk).

(** [l] holds what the settled goroutines have sent, each at most once. *)
Record collected us (l : list ChunkedFile) : Prop := {
  col_nodup : NoDup (cf_chunkID <$> l);
  col_entry : ∀ x, x ∈ l → ∃ i, settled_at us i ∧ entry_of i x;
  col_all : ∀ i, settled_at us i → Z.of_nat i ∈ cf_chunkID <$> l ∨ ¬ no_fault;
}.

Record BInv s : Prop := {
  bi_cap : ch_cap (chunksReceiver s) = length chunks;
  bi_wg : bt_wg s = sum_list_with alive (bt_uploaders s);
  bi_len : length (bt_uploaders s) ≤ length chunks ∧
    match bt_at s with
    | BatchSpawn k => k = length (bt_uploaders s)
    | _ => length (bt_uploaders s) = length chunks
    end;
  bi_closed : ch_closed (chunksReceiver s) =
    match bt_at s with BatchRange _ | BatchReturned _ => true | _ => false end;
  bi_gone : match bt_at s with
    | BatchSpawn _ | BatchWait => True
    | _ => Forall (λ a, a = UpGone) (bt_uploaders s)
    end;
  bi_send : ∀ i filePath data, bt_uploaders s !! i = Some (UpSend filePath data) →
    entry_of i {| cf_data := data; cf_chunkID := Z.of_nat i; cf_chunkPath := filePath |};
  bi_got : match bt_at s with
    | BatchRange l => collected (bt_uploaders s) (l ++ ch_buf (chunksReceiver s))
    | BatchReturned r => ∃ l, collected (bt_uploaders s) l ∧
        r = if decide (length l = length chunks) then Val l else Err ErrFileUpload
    | _ => collected (bt_uploaders s) (ch_buf (chunksReceiver s))
    end;
}.

Lemma entry_of_ID i j x : entry_of i x → entry_of j x → i = j.
Proof. intros (? & _ & Hi & _) (? & _ & Hj & _). lia. Qed.

Lemma collected_mono us us' l :
  (∀ i, settled_at us i → settled_at us' i) →
  (∀ i, settled_at us' i → settled_at us i ∨ ¬ no_fault) →
  collected us l → collected us' l.
Proof.
  intros Hto Hfrom [Hnd He Ha]. split; [done | |].
  - intros x (i & ? & ?)%He. eauto.
  - intros i [?|?]%Hfrom; auto.
Qed.

Lemma settled_insert us i a a' j :
  us !! i = Some a → settled_at (<[i := a']> us) j ↔
  if decide (i = j) then settled a' = true else settled_at us j.
Proof.
  intros Hi. unfold settled_at. case_decide; subst.
  - rewrite list_lookup_insert_eq by by eapply lookup_lt_Some. split; [by intros (? & [= <-] & ?) | eauto].
  - by rewrite list_lookup_insert_ne.
Qed.

Lemma collected_spawn us l : collected us l → collected (us ++ [UpEnsure]) l.
Proof.
  assert (Hiff : ∀ i, settled_at (us ++ [UpEnsure]) i ↔ settled_at us i).
  { intros i. unfold settled_at. split; intros (a & Ha & Hs).
    - apply lookup_app_Some in Ha as [?|[_ Ha]]; [eauto |].
      apply list_lookup_singleton_Some in Ha as [_ <-]. done.
    - exists a. split; [by apply lookup_app_l_Some | done]. }
  apply collected_mono; intros i; rewrite Hiff; auto.
Qed.

(** The goroutine [i] sends. *)
Lemma collected_send us i a x l :
  us !! i = Some a → settled a = false → entry_of i x →
  collected us l → collected (<[i := UpDone]> us) (l ++ [x]).
Proof.
  intros Hi Ha Hx [Hnd He Hall].
  assert (Hid : cf_chunkID x = Z.of_nat i) by by destruct Hx as (? & _ & ? & _).
  assert (Hnew : ¬ settled_at us i). { intros (b & Hb & ?). simplify_eq; congruence. }
  split.
  - rewrite fmap_app. apply NoDup_app. split_and!; [done | | apply NoDup_singleton].
    intros z (y & -> & Hy)%list_elem_of_fmap. simpl. rewrite list_elem_of_singleton, Hid.
    intros Heq. destruct (He y Hy) as (j & Hj & (? & _ & Hjd & _)).
    by assert (j = i) as -> by lia.
  - intros y [Hy|Hy]%elem_of_app.
    + destruct (He y Hy) as (j & Hj & ?). exists j. split; [| done].
      apply (settled_insert us i a); [done |]. by case_decide.
    + apply list_elem_of_singleton in Hy as ->. exists i. split; [| done].
      apply (settled_insert us i a); [done |]. by case_decide.
  - intros j Hj%(settled_insert us i a); [| done]. rewrite fmap_app, elem_of_app. case_decide; subst.
    + left. right. simpl. rewrite Hid. by apply list_elem_of_singleton.
    + destruct (Hall j Hj); auto.
Qed.

(** Something sent is not sent yet by a goroutine that has not settled, so the
    channel has room for it. *)
Lemma collected_IDs us l :
  length us ≤ length chunks → collected us l →
  cf_chunkID <$> l ⊆+ Z.of_nat <$> seq 0 (length chunks).
Proof.
  intros Hlen [Hnd He _]. apply NoDup_submseteq; [done |].
  intros z (x & -> & Hx)%list_elem_of_fmap. destruct (He x Hx) as (i & (a & Ha & _) & Hi).
  destruct Hi as (? & _ & -> & _). apply list_elem_of_fmap. exists i. split; [done |].
  apply lookup_lt_Some in Ha. apply elem_of_seq. lia.
Qed.

Lemma collected_length us l :
  length us ≤ length chunks → collected us l → length l ≤ length chunks.
Proof.
  intros Hlen Hc. apply collected_IDs, submseteq_length in Hc; [| done].
  by rewrite !length_fmap, length_seq in Hc.
Qed.

(** As long as a goroutine runs, [BatchCreateChunk] is in its loop or waits. *)
Lemma running_at s i a :
  BInv s → bt_uploaders s !! i = Some a → a ≠ UpGone →
  (∃ k, bt_at s = BatchSpawn k) ∨ bt_at s = BatchWait.
Proof.
  intros HI Hi Ha. pose proof (bi_gone s HI) as Hg.
  destruct (bt_at s); eauto; rewrite Forall_lookup in Hg; by apply Hg in Hi.
Qed.

Lemma running_got s i a :
  BInv s → bt_uploaders s !! i = Some a → a ≠ UpGone →
  ch_closed (chunksReceiver s) = false ∧ collected (bt_uploaders s) (ch_buf (chunksReceiver s)).
Proof.
  intros HI Hi Ha. pose proof (bi_closed s HI) as Hc. pose proof (bi_got s HI) as Hg.
  destruct (running_at s i a HI Hi Ha) as [[k Hat]|Hat]; by rewrite Hat in Hc, Hg.
Qed.

Lemma BInv_goroutine s i a a' wg c w :
  BInv s → bt_uploaders s !! i = Some a → a ≠ UpGone →
  wg + alive a = bt_wg s + alive a' →
  ch_cap c = ch_cap (chunksReceiver s) → ch_closed c = ch_closed (chunksReceiver s) →
  (∀ filePath data, a' = UpSend filePath data →
    entry_of i {| cf_data := data; cf_chunkID := Z.of_nat i; cf_chunkPath := filePath |}) →
  collected (<[i := a']> (bt_uploaders s)) (ch_buf c) →
  BInv {| bt_world := w; bt_uploaders := <[i := a']> (bt_uploaders s); bt_wg := wg;
          chunksReceiver := c; bt_at := bt_at s |}.
Proof.
  intros HI Hi Ha Hwg Hcap Hcl Hsend Hgot.
  pose proof (running_at s i a HI Hi Ha) as Hat. destruct HI as [? Hw Hlen Hclosed ? Hs ?].
  pose proof (sum_insert alive _ i a a' Hi).
  split; simpl; rewrite ?length_insert; try congruence; try lia.
  - by destruct Hat as [[k ->]| ->].
  - intros j filePath data Hj. destruct (decide (i = j)) as [<-|Hne].
    + rewrite list_lookup_insert_eq in Hj by by eapply lookup_lt_Some. injection Hj as ->. by apply Hsend.
    + rewrite list_lookup_insert_ne in Hj by done. by apply Hs.
  - by destruct Hat as [[k ->]| ->].
Qed.

Lemma phase_run chunk a w :
  uploading a = true →
  ∃ a' w', UpdateChunk_phase (abs_path dir) f chunk a w = (Ret a', w') ∧
    phase_effect (file_of chunk) chunk w a a' w'.
Proof.
  intros Ha. apply (wp_UpdateChunk_phase dir f chunk a w (λ r w', ∃ a', r = Ret a' ∧
    phase_effect (file_of chunk) chunk w a a' w')) in Ha; [| by eauto].
  apply wp_exists in Ha as (r & w' & Hrun & a' & -> & He). eauto.
Qed.

(** The steps of a goroutine, by what they change. *)
Lemma uploader_step_inv i s s' :
  uploader_step (abs_path dir) f chunks i s = Some s' →
  ∃ chunk a, chunks !! i = Some chunk ∧ bt_uploaders s !! i = Some a ∧
  ((∃ a' w', phase_effect (file_of chunk) chunk (bt_world s) a a' w' ∧ uploading a = true ∧
      s' = batch_group (<[i := a']> (bt_uploaders s)) (bt_wg s) (batch_world w' s)) ∨
   (∃ filePath data c, a = UpSend filePath data ∧
      goes (send (chunksReceiver s)
        {| cf_data := data; cf_chunkID := Z.of_nat i; cf_chunkPath := filePath |}) = Some c ∧
      s' = batch_group (<[i := UpDone]> (bt_uploaders s)) (bt_wg s) (batch_receiver c s)) ∨
   (a = UpDone ∧
      s' = batch_group (<[i := UpGone]> (bt_uploaders s)) (pred (bt_wg s)) s)).
Proof.
  unfold uploader_step. intros H. apply bind_Some in H as (chunk & Hc & H).
  apply bind_Some in H as (a & Ha & H). exists chunk, a. split_and!; [done.. |].
  destruct (uploading a) eqn:Hu.
  - left. destruct (phase_run chunk a (bt_world s) Hu) as (a' & w' & Hrun & He).
    exists a', w'. split_and!; [done.. |]. destruct a; try done; rewrite Hrun in H; by simplify_eq.
  - right. destruct a; try done; [left | right].
    + unpack H. eauto 6.
    + by simplify_eq.
Qed.

Lemma BInv_uploader i s s' :
  uploader_step (abs_path dir) f chunks i s = Some s' → BInv s → BInv s'.
Proof.
  intros H HI. destruct (uploader_step_inv i s s' H) as (chunk & a & Hc & Ha & Hcase).
  assert (Hrun : a ≠ UpGone).
  { intros ->. by destruct Hcase as [(? & ? & _ & ? & _)|[(? & ? & ? & ? & _)|[? _]]]. }
  destruct (running_got s i a HI Ha Hrun) as [Hopen Hgot].
  destruct Hcase as [(a' & w' & He & Hu & ->)|[(p & d & c & -> & Hsend & ->)|[-> ->]]].
  - apply (BInv_goroutine s i a a' (bt_wg s) (chunksReceiver s) w'); try done.
    + inversion He; subst; simpl; try done. by destruct a.
    + intros p d ->. inversion He as [| | |? ? ? ? ? Hd Hp Hq]; subst. exists chunk. simpl.
      split_and!; try done. by intros [? _]%Hq.
    + eapply collected_mono; [..| exact Hgot]; intros j; rewrite (settled_insert _ _ _ _ _ Ha);
        case_decide; subst; auto.
      * intros (b & Hb & ?). destruct a; simplify_eq/=; done.
      * destruct He; simpl; intros ?; try done. by right.
  - apply goes_send in Hsend as (? & ? & _ & _ & Hb). apply (BInv_goroutine s i (UpSend p d) UpDone (bt_wg s) c (bt_world s)); try done.
    rewrite Hb. eapply collected_send; [done | done | by apply (bi_send s HI) | done].
  - assert (0 < bt_wg s).
    { rewrite (bi_wg s HI). pose proof (sum_insert alive _ i UpDone UpGone Ha). simpl in *. lia. }
    apply (BInv_goroutine s i UpDone UpGone (pred (bt_wg s)) (chunksReceiver s) (bt_world s));
      try done; [simpl; lia |].
    eapply collected_mono; [..| exact Hgot]; intros j; rewrite (settled_insert _ _ _ _ _ Ha);
      case_decide; subst; auto. intros _. left. by exists UpDone.
Qed.

Lemma BInv_start w : BInv (batch_start chunks w).
Proof.
  split; simpl; try done; [lia |]. split; simpl; [constructor | |].
  - by intros x ?%elem_of_nil.
  - by intros i (a & ? & _).
Qed.

Lemma BInv_main s s' : BatchCreateChunk chunks s = Some s' → BInv s → BInv s'.
Proof.
  intros H HI. destruct HI as [Hcap Hwg [Hle Hlen] Hcl Hgone Hsend Hgot].
  unfold BatchCreateChunk in H. destruct (bt_at s) as [k| | |l|r] eqn:Hat; [| | | |done].
  - destruct (chunks !! k) as [chunk|] eqn:Hk; injection H as <-.
    + apply lookup_lt_Some in Hk. split; simpl; try done.
      * rewrite Hwg. clear. induction (bt_uploaders s); simpl; lia.
      * rewrite length_app. simpl. lia.
      * intros i p d Hi. apply lookup_app_Some in Hi as [?|[_ Hi]]; [by apply Hsend |].
        by apply list_lookup_singleton_Some in Hi as [_ ?].
      * by apply collected_spawn.
    + apply lookup_ge_None in Hk. split; simpl; try done. lia.
  - case_decide as Hz; [| done]. injection H as <-. split; simpl; try done.
    apply Forall_lookup. intros i a Hi. rewrite Hwg in Hz.
    pose proof (sum_insert alive _ i a UpGone Hi). destruct a; simpl in *; lia || done.
  - unpack H. destruct (goes_close _ _ Hx) as (? & ? & ? & Hb).
    split; simpl; try done; [congruence | by rewrite Hb].
  - apply bind_Some in H as ([[x|] c] & Hx & H); simpl in H; injection H as <-.
    + apply goes_recv in Hx as (? & ? & Hb). split; simpl; try done; [congruence.. |].
      by rewrite Hb, cons_middle, app_assoc in Hgot.
    + apply goes_recv_end in Hx as (Hb & _). rewrite Hb, app_nil_r in Hgot.
      split; simpl; eauto.
Qed.

Lemma BInv_step e s s' : step e s = Some s' → BInv s → BInv s'.
Proof. destruct e; [apply BInv_main | apply BInv_uploader]. Qed.

Lemma batch_keeps (I : Batch → Prop) s s' :
  (∀ e s s', BInv s → I s → step e s = Some s' → I s') →
  BInv s → I s → reach s s' → BInv s' ∧ I s'.
Proof.
  intros Hstep HB HI Hr. revert HB HI. induction Hr as [|s s1 s' (e & He) Hr IH]; [done |].
  intros HB HI. apply IH; [by eapply BInv_step | by eapply Hstep].
Qed.

Lemma batch_reach_BInv s w : reach (batch_start chunks w) s → BInv s.
Proof.
  intros Hr. apply (batch_keeps (λ _, True)) in Hr as [? _]; [done.. | apply BInv_start | done].
Qed.

(** * It ends *)

Lemma batch_work_decreases e s s' :
  BInv s → step e s = Some s' → batch_work (length chunks) s' < batch_work (length chunks) s.
Proof.
  intros HI H. destruct e as [|i]; simpl in H.
  - unfold BatchCreateChunk in H. unfold batch_work. destruct (bt_at s) as [k| | |l|r]; [| | | |done].
    + destruct (chunks !! k) as [chunk|] eqn:Hk; injection H as <-; simpl; [| lia].
      apply lookup_lt_Some in Hk. rewrite sum_list_with_app. simpl. lia.
    + case_decide; [| done]. injection H as <-. simpl. lia.
    + unpack H. destruct (goes_close _ _ Hx) as (_ & _ & _ & Hb). simpl. rewrite Hb. lia.
    + apply bind_Some in H as ([[x|] c] & Hx & H); simpl in H; injection H as <-; simpl.
      * apply goes_recv in Hx as (_ & _ & ->). simpl. lia.
      * lia.
  - destruct (uploader_step_inv i s s' H) as (chunk & a & _ & Ha & Hcase). unfold batch_work.
    destruct Hcase as [(a' & w' & He & Hu & ->)|[(p & d & c & -> & Hsend & ->)|[-> ->]]]; simpl.
    + pose proof (sum_insert uploader_work _ i a a' Ha).
      inversion He; subst; simpl in *; try lia. destruct a; try done; simpl in *; lia.
    + pose proof (sum_insert uploader_work _ i _ UpDone Ha). simpl in *.
      apply goes_send in Hsend as (_ & _ & _ & _ & ->). rewrite length_app. simpl. lia.
    + pose proof (sum_insert uploader_work _ i _ UpGone Ha). simpl in *. lia.
Qed.

(** A goroutine that has not returned can make a step: the channel has room for
    what it sends. *)
Lemma uploader_progress s i a :
  BInv s → bt_uploaders s !! i = Some a → a ≠ UpGone → is_Some (step (BatchUpload i) s).
Proof.
  intros HI Ha Hne. destruct (running_got s i a HI Ha Hne) as [Hopen Hgot].
  destruct (bi_len s HI) as [Hle _].
  assert (is_Some (chunks !! i)) as [chunk Hc].
  { apply lookup_lt_is_Some. apply lookup_lt_Some in Ha. lia. }
  simpl. unfold uploader_step. rewrite Hc, Ha. simpl.
  destruct (uploading a) eqn:Hu.
  { destruct (phase_run chunk a (bt_world s) Hu) as (a' & w' & Hrun & _).
    destruct a; try done; rewrite Hrun; eauto. }
  destruct a as [| | |p d| |]; try done.
  set (x := {| cf_data := d; cf_chunkID := Z.of_nat i; cf_chunkPath := p |}).
  assert (Hlen : length (ch_buf (chunksReceiver s) ++ [x]) ≤ length chunks).
  { eapply collected_length; [| eapply collected_send; [exact Ha | done | | exact Hgot]].
    - by rewrite length_insert.
    - by apply (bi_send s HI). }
  rewrite length_app in Hlen. simpl in Hlen. unfold send. rewrite Hopen.
  rewrite decide_True by (rewrite (bi_cap s HI); lia). simpl. by eexists.
Qed.

Lemma batch_progress s :
  BInv s → (∀ e, step e s = None) → ∃ r, bt_at s = BatchReturned r.
Proof.
  intros HI Hstuck. pose proof (Hstuck BatchMain) as H. simpl in H. unfold BatchCreateChunk in H.
  pose proof (bi_closed s HI) as Hcl. destruct (bt_at s) as [k| | |l|r] eqn:Hat; [| | | |eauto].
  - by destruct (chunks !! k).
  - case_decide as Hz; [done |]. exfalso.
    assert (∃ i a, bt_uploaders s !! i = Some a ∧ a ≠ UpGone) as (i & a & Ha & Hne).
    { rewrite (bi_wg s HI) in Hz. clear -Hz. induction (bt_uploaders s) as [|b us IH]; [done |].
      destruct (decide (alive b = 0)) as [Hb|Hb].
      - simpl in Hz. rewrite Hb in Hz. destruct (IH Hz) as (i & a & ? & ?). by exists (S i), a.
      - exists 0, b. split; [done |]. by intros ->. }
    destruct (uploader_progress s i a HI Ha Hne) as [s' Hs]. by rewrite Hstuck in Hs.
  - unfold close in H. by rewrite Hcl in H.
  - unfold recv in H. rewrite Hcl in H. by destruct (ch_buf (chunksReceiver s)).
Qed.

(** What is returned. *)
Lemma batch_answer s r :
  BInv s → bt_at s = BatchReturned r →
  (∀ i a, bt_uploaders s !! i = Some a → a = UpGone) ∧
  match r with
  | Val l => cf_chunkID <$> l ≡ₚ Z.of_nat <$> seq 0 (length chunks) ∧
      (∀ x, x ∈ l → ∃ i, entry_of i x)
  | Err e => e = ErrFileUpload ∧ ¬ no_fault
  end.
Proof.
  intros HI Hat. destruct (bi_len s HI) as [Hle Hlen]. pose proof (bi_gone s HI) as Hg.
  pose proof (bi_got s HI) as Hgot. rewrite Hat in Hlen, Hg, Hgot. destruct Hgot as (l & Hl & ->).
  rewrite Forall_lookup in Hg. split; [done |].
  pose proof (collected_IDs _ l Hle Hl) as Hsub. case_decide as Hn.
  - split.
    + apply submseteq_length_Permutation; [done |]. by rewrite !length_fmap, length_seq, Hn.
    + intros x (i & _ & ?)%(col_entry _ _ Hl). eauto.
  - split; [done |]. intros Hq. apply Hn.
    assert (Hall : Z.of_nat <$> seq 0 (length chunks) ⊆+ cf_chunkID <$> l).
    { apply NoDup_submseteq; [apply NoDup_fmap_2; [apply _ | apply NoDup_seq] |].
      intros z (i & -> & Hi%elem_of_seq)%list_elem_of_fmap.
      assert (is_Some (bt_uploaders s !! i)) as [a Ha] by (apply lookup_lt_is_Some; lia).
      destruct (col_all _ _ Hl i) as [?|?]; [| done | done]. exists a. split; [done |].
      by rewrite (Hg i a Ha). }
    apply submseteq_length in Hsub, Hall. rewrite !length_fmap, length_seq in *. lia.
Qed.

(** * The disk *)

(** The files of two chunks are different. *)
Definition distinct_files : Prop := ∀ i j c d,
  chunks !! i = Some c → chunks !! j = Some d → file_of c = file_of d → i = j.

Record DInv (w : World) s : Prop := {
  di_frame : w_db (bt_world s) = w_db w ∧ w_redis (bt_world s) = w_redis w ∧
    w_cache (bt_world s) = w_cache w;
  di_others : ∀ p, (∀ chunk, chunk ∈ chunks → p ≠ file_of chunk) →
    w_fs (bt_world s) !! p = w_fs w !! p;
  di_stored : no_fault → distinct_files → ∀ i chunk a,
    chunks !! i = Some chunk → bt_uploaders s !! i = Some a → uploading a = false →
    w_fs (bt_world s) !! file_of chunk = Some (rs_data (cf_data chunk));
}.

(** A phase writes to the file of its chunk only. *)
Lemma phase_effect_disk path chunk w a a' w' :
  phase_effect path chunk w a a' w' → uploading a = true →
  w_db w' = w_db w ∧ w_redis w' = w_redis w ∧ w_cache w' = w_cache w ∧
  (∀ p, p ≠ path → w_fs w' !! p = w_fs w !! p) ∧
  (no_fault → uploading a' = false → w_fs w' !! path = Some (rs_data (cf_data chunk))).
Proof.
  intros He Hu. destruct He as [? ? ? ? Hf|? ?|? ?|got p d w' ? ? ? Hq]; later_subst; simpl;
    split_and!; try done; try (intros q Hne; by rewrite lookup_insert_ne).
  intros Hnf _. destruct (Hq Hnf) as [_ ->]. by rewrite lookup_insert_eq.
Qed.

Lemma DInv_step w e s s' : BInv s → DInv w s → step e s = Some s' → DInv w s'.
Proof.
  intros HB HD H.
  assert (Hsame : ∀ us, bt_world s' = bt_world s → bt_uploaders s' = us →
    (∀ i a, us !! i = Some a → uploading a = false →
       ∃ b, bt_uploaders s !! i = Some b ∧ uploading b = false) → DInv w s').
  { intros us Hw Hus Hback. destruct HD as [Hf Ho Hs]. split; rewrite Hw; try done.
    intros Hnf Hdist i chunk a Hc Ha Hu. rewrite Hus in Ha.
    destruct (Hback i a Ha Hu) as (b & ? & ?). by eapply Hs. }
  destruct e as [|i]; simpl in H.
  - unfold BatchCreateChunk in H. destruct (bt_at s) as [k| | |l|r]; [| | | |done].
    + destruct (chunks !! k); injection H as <-; eapply Hsame; try done; simpl; [| by eauto].
      intros i a Hi Hu. apply lookup_app_Some in Hi as [?|[_ Hi]]; [by eauto |].
      by apply list_lookup_singleton_Some in Hi as [_ <-].
    + case_decide; [| done]. injection H as <-. eapply Hsame; try done. simpl. by eauto.
    + unpack H. eapply Hsame; try done. simpl. by eauto.
    + apply bind_Some in H as ([[x|] c] & Hx & H); simpl in H; injection H as <-;
        (eapply Hsame; try done; simpl; by eauto).
  - destruct (uploader_step_inv i s s' H) as (chunk & a & Hc & Ha & Hcase).
    assert (Hset : ∀ b b', bt_uploaders s !! i = Some b → uploading b = false →
      ∀ j x, <[i := b']> (bt_uploaders s) !! j = Some x → uploading x = false →
        ∃ y, bt_uploaders s !! j = Some y ∧ uploading y = false).
    { intros b b' Hb Hub j x Hj Hx. destruct (decide (i = j)) as [<-|Hne]; [by eauto |].
      rewrite list_lookup_insert_ne in Hj by done. by eauto. }
    destruct Hcase as [(a' & w' & He & Hu & ->)|[(p & d & c & -> & _ & ->)|[-> ->]]];
      [| by eapply Hsame, Hset.. ].
    destruct (phase_effect_disk _ _ _ _ _ _ He Hu) as (Hdb & Hr & Hca & Hne & Hst).
    destruct HD as [(? & ? & ?) Ho Hs]. split; simpl.
    + split_and!; congruence.
    + intros p Hp. rewrite Hne by by apply Hp; eapply list_elem_of_lookup_2. by apply Ho.
    + intros Hnf Hdist j chunk' b Hc' Hb Hub. destruct (decide (i = j)) as [<-|Hij].
      * rewrite list_lookup_insert_eq in Hb by by eapply lookup_lt_Some.
        simplify_eq. by apply Hst.
      * rewrite list_lookup_insert_ne in Hb by done.
        rewrite Hne by (intros Heq; by apply Hij, (Hdist i j chunk chunk')). by eapply Hs.
Qed.

Lemma batch_reach_DInv s w : reach (batch_start chunks w) s → BInv s ∧ DInv w s.
Proof.
  apply (batch_keeps (DInv w)); [by intros; eapply DInv_step | apply BInv_start |].
  split; simpl; done.
Qed.

End invariant.

(** (C31) BatchCreateChunk returns, and what it returns.  However the goroutines are
    scheduled and whatever fails, at most [7 * n + 4] steps are made for [n]
    chunks, no send or [close] panics, and when no step is left
    [BatchCreateChunk] has returned and every goroutine has: either one record
    per chunk, each with its index for an identifier and the path of its file
    (or, when a copy failed, an empty path), or [ErrFileUpload], and then
    something has failed. *)
Theorem BatchCreateChunk_returns `{E : Env} `{OS : OsEnv} dir f chunks w es s :
  batch_run (abs_path dir) f chunks es (batch_start chunks w) = Some s →
  length es ≤ 7 * length chunks + 4 ∧
  ((∀ e, batch_step (abs_path dir) f chunks e s = None) →
    (∀ i a, bt_uploaders s !! i = Some a → a = UpGone) ∧
    ∃ r, bt_at s = BatchReturned r ∧
    match r with
    | Val l => cf_chunkID <$> l ≡ₚ Z.of_nat <$> seq 0 (length chunks) ∧
        (∀ x, x ∈ l → ∃ i, entry_of dir f chunks i x)
    | Err e => e = ErrFileUpload ∧ ¬ no_fault
    end).
Proof.
  intros Hrun. split.
  - assert (Hw : ∀ es s0 s, BInv dir f chunks s0 →
      batch_run (abs_path dir) f chunks es s0 = Some s →
      length es ≤ batch_work (length chunks) s0).
    { clear. induction es as [|e es IH]; intros s0 s HI Hr; simpl in *; [lia |].
      destruct (batch_step _ _ _ e s0) as [s1|] eqn:He; [| done].
      pose proof (batch_work_decreases dir f chunks e s0 s1 HI He).
      pose proof (IH s1 s (BInv_step dir f chunks e s0 s1 He HI) Hr). lia. }
    pose proof (Hw es _ s (BInv_start dir f chunks w) Hrun) as Hle.
    unfold batch_work in Hle. simpl in Hle. lia.
  - intros Hstuck. apply batch_run_reach, batch_reach_BInv in Hrun.
    destruct (batch_progress dir f chunks s Hrun Hstuck) as [r Hr].
    destruct (batch_answer dir f chunks s r Hrun Hr). eauto.
Qed.

(** BatchCreateChunk stores the chunks.  When nothing fails and the chunks
    have different identifiers, whatever the schedule, what is returned is, in
    some order, one record per chunk: its index, the path of its file and its
    data.  Each file then holds the data of its chunk, and every other file, the
    tables, the queues and the cache are as they were; they are so whatever
    fails. *)
Theorem BatchCreateChunk_stores `{E : Env} `{OS : OsEnv} dir f chunks w s r :
  plain_dir dir → plain f = true → NoDup (cf_chunkID <$> chunks) →
  batch_reach (abs_path dir) f chunks (batch_start chunks w) s → bt_at s = BatchReturned r →
  w_db (bt_world s) = w_db w ∧ w_redis (bt_world s) = w_redis w ∧
  w_cache (bt_world s) = w_cache w ∧
  (∀ p, (∀ chunk, chunk ∈ chunks → p ≠ chunk_file dir f (cf_chunkID chunk)) →
     w_fs (bt_world s) !! p = w_fs w !! p) ∧
  (no_fault →
     (∀ chunk, chunk ∈ chunks →
        w_fs (bt_world s) !! chunk_file dir f (cf_chunkID chunk) = Some (rs_data (cf_data chunk))) ∧
     ∃ l, r = Val l ∧
       (λ x, (cf_chunkID x, cf_chunkPath x, rs_data (cf_data x))) <$> l ≡ₚ
       imap (λ i chunk, (Z.of_nat i, chunk_file dir f (cf_chunkID chunk), rs_data (cf_data chunk)))
         chunks).
Proof.
  intros Hd Hf Hnd Hr Hat. destruct (batch_reach_DInv dir f chunks s w Hr) as [HB HD].
  destruct (batch_answer dir f chunks s r HB Hat) as [Hgone Hans].
  destruct HD as [(? & ? & ?) Ho Hs]. split_and!; [done.. |]. intros Hnf.
  assert (Hdist : distinct_files dir f chunks).
  { intros i j c d Hi Hj [_ Heq]%chunk_file_inj; [| done..].
    eapply (NoDup_lookup _ i j); [exact Hnd | by rewrite list_lookup_fmap, Hi |].
    by rewrite list_lookup_fmap, Hj, Heq. }
  destruct (bi_len _ _ _ _ HB) as [_ Hlen]. rewrite Hat in Hlen. split.
  - intros chunk (i & Hi)%list_elem_of_lookup_1.
    assert (is_Some (bt_uploaders s !! i)) as [a Ha].
    { apply lookup_lt_is_Some. apply lookup_lt_Some in Hi. lia. }
    eapply Hs; [done.. |]. by rewrite (Hgone i a Ha).
  - destruct r as [l|e]; [| by destruct Hans]. exists l. split; [done |].
    destruct Hans as [Hids Hl]. apply submseteq_length_Permutation.
    + apply NoDup_submseteq.
      * apply (NoDup_fmap_1 (λ y, y.1.1)). rewrite <- list_fmap_compose.
        rewrite (list_fmap_ext _ cf_chunkID l) by done. rewrite Hids.
        apply NoDup_fmap_2; [apply _ | apply NoDup_seq].
      * intros y (x & -> & Hx)%list_elem_of_fmap.
        destruct (Hl x Hx) as (i & chunk & Hi & -> & _ & Hp & ->). rewrite (Hp Hnf).
        apply list_elem_of_lookup_2 with i. by rewrite list_lookup_imap, Hi.
    + apply (f_equal length) in Hids || apply Permutation_length in Hids.
      rewrite !length_fmap, length_seq in Hids. rewrite length_fmap, length_imap. lia.
Qed.

(** Two parts; the goroutine of the second overtakes the first. *)
Definition two_parts : list ChunkedFile :=
  [NewChunkedFile (sample_part "hello") 7%Z; NewChunkedFile (sample_part "world") 3%Z].

Definition overtaking : list BatchEvent :=
  [BatchMain; BatchMain; BatchUpload 0; BatchUpload 1; BatchUpload 1; BatchUpload 1; BatchUpload 0;
   BatchUpload 1; BatchMain; BatchUpload 0; BatchUpload 0; BatchUpload 0; BatchUpload 1;
   BatchMain; BatchMain; BatchMain; BatchMain; BatchMain].

Definition overtaken : Batch :=
  default (batch_start two_parts sample_world)
    (batch_run (E := quiet_env) (OS := sample_os) (abs_path ["srv"; "data"]) "F2" two_parts
       overtaking (batch_start two_parts sample_world)).

Definition overtaken_parts : list ChunkedFile :=
  [{| cf_data := {| rs_data := "world"; rs_pos := 5 |}; cf_chunkID := 1;
      cf_chunkPath := "/srv/data/F2/3" |};
   {| cf_data := {| rs_data := "hello"; rs_pos := 5 |}; cf_chunkID := 0;
      cf_chunkPath := "/srv/data/F2/7" |}].

Example overtaken_answer : bt_at overtaken = BatchReturned (Val overtaken_parts).
Proof. by vm_compute. Qed.

Lemma overtaken_reach :
  batch_run (E := quiet_env) (OS := sample_os) (abs_path ["srv"; "data"]) "F2" two_parts
    overtaking (batch_start two_parts sample_world) = Some overtaken.
Proof.
  unfold overtaken. destruct (batch_run _ _ _ _ _) eqn:Hr; [done |].
  by vm_compute in Hr.
Qed.

Lemma BatchCreateChunk_returns_witness :
  length overtaking ≤ 18 ∧ ∃ r, bt_at overtaken = BatchReturned r ∧
    match r with
    | Val l => cf_chunkID <$> l ≡ₚ [0; 1]%Z
    | Err e => e = ErrFileUpload
    end.
Proof.
  pose proof (BatchCreateChunk_returns (E := quiet_env) (OS := sample_os) ["srv"; "data"] "F2"
    two_parts sample_world overtaking overtaken overtaken_reach) as [Hlen Hend].
  split; [exact Hlen |].
  destruct Hend as (_ & r & Hr & Hans).
  - intros [|i]; [by vm_compute |]. destruct i as [|[|i]]; by vm_compute.
  - exists r. split; [exact Hr |]. destruct r; [exact (proj1 Hans) | exact (proj1 Hans)].
Defined.

Lemma BatchCreateChunk_stores_witness :
  w_fs (bt_world overtaken) !! "/srv/data/F2/7" = Some "hello" ∧
  w_fs (bt_world overtaken) !! "/srv/data/F2/3" = Some "world".
Proof.
  assert (H7 : chunk_file ["srv"; "data"] "F2" 7 = "/srv/data/F2/7") by by vm_compute.
  assert (H3 : chunk_file ["srv"; "data"] "F2" 3 = "/srv/data/F2/3") by by vm_compute.
  destruct (BatchCreateChunk_stores (E := quiet_env) (OS := sample_os) ["srv"; "data"] "F2"
    two_parts sample_world overtaken (Val overtaken_parts)) as (_ & _ & _ & _ & H).
  - split; [done | by repeat constructor].
  - by vm_compute.
  - apply (bool_decide_unpack _). by vm_compute.
  - eapply batch_run_reach, overtaken_reach.
  - exact overtaken_answer.
  - destruct (H (λ _, eq_refl)) as [Hst _]. rewrite <- H7, <- H3. split.
    + apply (Hst (NewChunkedFile (sample_part "hello") 7%Z)). by left.
    + apply (Hst (NewChunkedFile (sample_part "world") 3%Z)). by right; left.
Defined.
