(* ===== verification/Broker.v ===== *)
(** Package pkg/brokers, sse_broker.go: the broker of server-sent events, as a
    transition system.

    The goroutines are the loop of [Start] and the callers of [Subscribe],
    [Unsubscribe], [SendMessage] and of the receivers.  A step is one channel
    operation of one of them, named by an [Event]; the event says what the
    scheduler, the [select], the clock and the order of a map decide, so [step]
    is a function.  A step that cannot be made now (a blocked operation) gives
    [None]. *)
From S2P Require Import Prelude GoStd Chan.
From Stdlib Require Import Ascii.

(** * Data *)

Record Message := { m_UserID : string; m_DeviceID : string; m_Content : string }.

Definition Key (m : Message) : string := Sprintf "%s_%s" [AStr (m_UserID m); AStr (m_DeviceID m)].

(** A channel is known by a number, its address.  [Partition] and [Running] of
    the struct are never read. *)
Record Topic := { t_Ch : nat; t_Name : string; t_Done : option nat }.

(** [map[chan *Message]string] *)
Abbreviation DeviceConnections := (gmap nat string).

Record SSEBroker := {
  messagesCh : Chan Message;
  subsciberCh : Chan Topic;
  unsubscribeCh : Chan Topic;
}.

Definition NewSSEBroker : SSEBroker :=
  {| messagesCh := make_chan 1; subsciberCh := make_chan 1; unsubscribeCh := make_chan 1 |}.

(** Where the loop is: at its [select], at [ch <- &msg], at [subs.Done <- true],
    after it; or it has returned, or the process has panicked. *)
Inductive Loop : Type :=
| Selecting
| Sending (ch : nat) (msg : Message)
| Acking (subs : Topic)
| Cleaning (subs : Topic)
| Stopped
| Panicked (why : string).

(** Where a call of [Unsubscribe] is: at [unsubscribeCh <- ...], at [<-doneCh],
    or it has returned. *)
Inductive Waiting : Type := AtSend | AtDone | Returned.

Record Unsub := { u_ch : nat; u_at : Waiting; u_done : Chan bool }.

(** A call of [Subscribe]: the name, and whether it has returned. *)
Record Sub := { sub_name : string; sub_returned : bool }.

(** The last three fields are history: the messages taken into [messagesCh], what
    the loop did with each one, in order, and what was received. *)
Record State := {
  s_broker : SSEBroker;
  s_topics : DeviceConnections;
  s_loop : Loop;
  s_chans : gmap nat (Chan Message);
  s_subs : gmap nat Sub;
  s_unsubs : gmap nat Unsub;
  s_sent : list Message;
  s_log : list (Message * option nat);
  s_received : list (nat * Message);
}.

Definition init : State :=
  {| s_broker := NewSSEBroker; s_topics := ∅; s_loop := Selecting; s_chans := ∅; s_subs := ∅;
     s_unsubs := ∅; s_sent := []; s_log := []; s_received := [] |}.

#[global] Instance Message_eq_dec : EqDecision Message.
Proof. solve_decision. Defined.
#[global] Instance Topic_eq_dec : EqDecision Topic.
Proof. solve_decision. Defined.
#[global] Instance Loop_eq_dec : EqDecision Loop.
Proof. solve_decision. Defined.
#[global] Instance Waiting_eq_dec : EqDecision Waiting.
Proof. solve_decision. Defined.

(** Updates of one field. *)
Definition set_messagesCh (c : Chan Message) (b : SSEBroker) : SSEBroker :=
  {| messagesCh := c; subsciberCh := subsciberCh b; unsubscribeCh := unsubscribeCh b |}.
Definition set_subsciberCh (c : Chan Topic) (b : SSEBroker) : SSEBroker :=
  {| messagesCh := messagesCh b; subsciberCh := c; unsubscribeCh := unsubscribeCh b |}.
Definition set_unsubscribeCh (c : Chan Topic) (b : SSEBroker) : SSEBroker :=
  {| messagesCh := messagesCh b; subsciberCh := subsciberCh b; unsubscribeCh := c |}.

Definition set_broker (f : SSEBroker → SSEBroker) (s : State) : State :=
  {| s_broker := f (s_broker s); s_topics := s_topics s; s_loop := s_loop s;
     s_chans := s_chans s; s_subs := s_subs s; s_unsubs := s_unsubs s;
     s_sent := s_sent s; s_log := s_log s; s_received := s_received s |}.
Definition set_topics (t : DeviceConnections) (s : State) : State :=
  {| s_broker := s_broker s; s_topics := t; s_loop := s_loop s;
     s_chans := s_chans s; s_subs := s_subs s; s_unsubs := s_unsubs s;
     s_sent := s_sent s; s_log := s_log s; s_received := s_received s |}.
Definition set_loop (l : Loop) (s : State) : State :=
  {| s_broker := s_broker s; s_topics := s_topics s; s_loop := l;
     s_chans := s_chans s; s_subs := s_subs s; s_unsubs := s_unsubs s;
     s_sent := s_sent s; s_log := s_log s; s_received := s_received s |}.
Definition set_chan (ch : nat) (c : Chan Message) (s : State) : State :=
  {| s_broker := s_broker s; s_topics := s_topics s; s_loop := s_loop s;
     s_chans := <[ch := c]> (s_chans s); s_subs := s_subs s; s_unsubs := s_unsubs s;
     s_sent := s_sent s; s_log := s_log s; s_received := s_received s |}.
Definition set_sub (ch : nat) (u : Sub) (s : State) : State :=
  {| s_broker := s_broker s; s_topics := s_topics s; s_loop := s_loop s;
     s_chans := s_chans s; s_subs := <[ch := u]> (s_subs s); s_unsubs := s_unsubs s;
     s_sent := s_sent s; s_log := s_log s; s_received := s_received s |}.
Definition set_unsub (done : nat) (u : Unsub) (s : State) : State :=
  {| s_broker := s_broker s; s_topics := s_topics s; s_loop := s_loop s;
     s_chans := s_chans s; s_subs := s_subs s; s_unsubs := <[done := u]> (s_unsubs s);
     s_sent := s_sent s; s_log := s_log s; s_received := s_received s |}.
Definition note_sent (m : Message) (s : State) : State :=
  {| s_broker := s_broker s; s_topics := s_topics s; s_loop := s_loop s;
     s_chans := s_chans s; s_subs := s_subs s; s_unsubs := s_unsubs s;
     s_sent := s_sent s ++ [m]; s_log := s_log s; s_received := s_received s |}.
Definition note_log (m : Message) (o : option nat) (s : State) : State :=
  {| s_broker := s_broker s; s_topics := s_topics s; s_loop := s_loop s;
     s_chans := s_chans s; s_subs := s_subs s; s_unsubs := s_unsubs s;
     s_sent := s_sent s; s_log := s_log s ++ [(m, o)]; s_received := s_received s |}.
Definition note_received (ch : nat) (m : Message) (s : State) : State :=
  {| s_broker := s_broker s; s_topics := s_topics s; s_loop := s_loop s;
     s_chans := s_chans s; s_subs := s_subs s; s_unsubs := s_unsubs s;
     s_sent := s_sent s; s_log := s_log s; s_received := s_received s ++ [(ch, m)] |}.

(** An operation that blocks is no step; one that panics ends the process. *)
Definition attempt {A} (o : Comm A) (s : State) (k : A → State) : option State :=
  match o with
  | Blocks => None
  | Goes x => Some (k x)
  | Breaks why => Some (set_loop (Panicked why) s)
  end.

(** * The callers *)

(** [Subscribe]: makes the channel, then sends the topic. *)
Definition Subscribe_make (ch : nat) (topicName : string) (s : State) : option State :=
  if decide (s_chans s !! ch = None) then
    Some (set_sub ch {| sub_name := topicName; sub_returned := false |}
            (set_chan ch (make_chan 1) s))
  else None.

Definition Subscribe_send (ch : nat) (s : State) : option State :=
  match s_subs s !! ch with
  | Some {| sub_name := topicName; sub_returned := false |} =>
    attempt (send (subsciberCh (s_broker s))
               {| t_Ch := ch; t_Name := topicName; t_Done := None |}) s
      (λ c, set_sub ch {| sub_name := topicName; sub_returned := true |}
              (set_broker (set_subsciberCh c) s))
  | _ => None
  end.

(** [Unsubscribe]: makes [doneCh], sends the topic, waits on [doneCh]; the last
    goes through with the send of the loop, or finds the channel closed. *)
Definition Unsubscribe_make (deviceChan doneCh : nat) (s : State) : option State :=
  if decide (s_unsubs s !! doneCh = None) then
    Some (set_unsub doneCh {| u_ch := deviceChan; u_at := AtSend; u_done := make_chan 0 |} s)
  else None.

Definition Unsubscribe_send (doneCh : nat) (s : State) : option State :=
  match s_unsubs s !! doneCh with
  | Some {| u_ch := deviceChan; u_at := AtSend; u_done := d |} =>
    attempt (send (unsubscribeCh (s_broker s))
               {| t_Ch := deviceChan; t_Name := ""; t_Done := Some doneCh |}) s
      (λ c, set_unsub doneCh {| u_ch := deviceChan; u_at := AtDone; u_done := d |}
              (set_broker (set_unsubscribeCh c) s))
  | _ => None
  end.

Definition Unsubscribe_closed (doneCh : nat) (s : State) : option State :=
  match s_unsubs s !! doneCh with
  | Some {| u_ch := deviceChan; u_at := AtDone; u_done := d |} =>
    attempt (recv d) s
      (λ r, set_unsub doneCh {| u_ch := deviceChan; u_at := Returned; u_done := r.2 |} s)
  | _ => None
  end.

(** [SendMessage]: the message is taken, or nine seconds pass. *)
Definition SendMessage (data : Message) (s : State) : option State :=
  attempt (send (messagesCh (s_broker s)) data) s
    (λ c, note_sent data (set_broker (set_messagesCh c) s)).

Definition SendMessage_timeout (data : Message) (s : State) : option State := Some s.

(** The holder of a receiver takes what is there. *)
Definition Receive (ch : nat) (s : State) : option State :=
  match s_chans s !! ch with
  | None => None
  | Some c =>
    attempt (recv c) s (λ r,
      match r.1 with
      | Some m => note_received ch m (set_chan ch r.2 s)
      | None => s
      end)
  end.

(** * The loop of [Start] *)

(** [findTopicByName], the map being visited in the order [topics]. *)
Fixpoint findTopicByName (topics : list (nat * string)) (topicName : string) : option nat :=
  match topics with
  | [] => None
  | (ch, name) :: topics' =>
    if decide (name = topicName) then Some ch else findTopicByName topics' topicName
  end.

Definition loop_subscribe (s : State) : option State :=
  attempt (recv (subsciberCh (s_broker s))) s (λ '(subs, c),
    let s := set_broker (set_subsciberCh c) s in
    match subs with
    | None => s
    | Some subs =>
      match s_topics s !! t_Ch subs with
      | Some _ => s
      | None => set_topics (<[t_Ch subs := t_Name subs]> (s_topics s)) s
      end
    end).

Definition loop_unsubscribe (s : State) : option State :=
  attempt (recv (unsubscribeCh (s_broker s))) s (λ '(subs, c),
    let s := set_broker (set_unsubscribeCh c) s in
    match subs with
    | None => s
    | Some subs =>
      match s_topics s !! t_Ch subs with
      | None => s
      | Some _ => set_loop (Acking subs) s
      end
    end).

(** [subs.Done <- true] meets [<-doneCh]. *)
Definition loop_ack (subs : Topic) (s : State) : option State :=
  match t_Done subs with
  | None => None
  | Some doneCh =>
    match s_unsubs s !! doneCh with
    | None => None
    | Some u =>
      if ch_closed (u_done u) then Some (set_loop (Panicked "send on closed channel") s)
      else match u_at u with
           | AtDone =>
             Some (set_loop (Cleaning subs)
               (set_unsub doneCh {| u_ch := u_ch u; u_at := Returned; u_done := u_done u |} s))
           | _ => None
           end
    end
  end.

(** [close(subs.Done); delete(topics, subs.Ch); close(subs.Ch)] *)
Definition loop_clean (subs : Topic) (s : State) : option State :=
  match t_Done subs with
  | None => None
  | Some doneCh =>
    match s_unsubs s !! doneCh, s_chans s !! t_Ch subs with
    | Some u, Some c =>
      match close (u_done u), close c with
      | Goes d, Goes c =>
        Some (set_loop Selecting (set_chan (t_Ch subs) c
          (set_topics (delete (t_Ch subs) (s_topics s))
            (set_unsub doneCh {| u_ch := u_ch u; u_at := u_at u; u_done := d |} s))))
      | _, _ => Some (set_loop (Panicked "close of closed channel") s)
      end
    | _, _ => None
    end
  end.

(** [order] is the order in which the map is visited. *)
Definition loop_message (order : list (nat * string)) (s : State) : option State :=
  if decide (NoDup order.*1 ∧ list_to_map order = s_topics s) then
    attempt (recv (messagesCh (s_broker s))) s (λ '(msg, c),
      let s := set_broker (set_messagesCh c) s in
      match msg with
      | None => s
      | Some msg =>
        match findTopicByName order (Key msg) with
        | None => note_log msg None s
        | Some ch => set_loop (Sending ch msg) s
        end
      end)
  else None.

Definition loop_deliver (ch : nat) (msg : Message) (s : State) : option State :=
  match s_chans s !! ch with
  | None => None
  | Some c =>
    attempt (send c msg) s (λ c,
      set_loop Selecting (note_log msg (Some ch) (set_chan ch c s)))
  end.

(** Ten seconds pass. *)
Definition loop_drop (msg : Message) (s : State) : State := set_loop Selecting (note_log msg None s).

(** * The system *)

Inductive Event : Type :=
| ESubscribe_make (ch : nat) (topicName : string)
| ESubscribe_send (ch : nat)
| EUnsubscribe_make (deviceChan doneCh : nat)
| EUnsubscribe_send (doneCh : nat)
| EUnsubscribe_closed (doneCh : nat)
| ESendMessage (data : Message)
| ESendMessage_timeout (data : Message)
| EReceive (ch : nat)
| ECancel
| ELoop_subscribe
| ELoop_unsubscribe
| ELoop_ack
| ELoop_clean
| ELoop_message (order : list (nat * string))
| ELoop_deliver
| ELoop_drop.

Definition step_caller (e : Event) (s : State) : option State :=
  match e with
  | ESubscribe_make ch name => Subscribe_make ch name s
  | ESubscribe_send ch => Subscribe_send ch s
  | EUnsubscribe_make ch done => Unsubscribe_make ch done s
  | EUnsubscribe_send done => Unsubscribe_send done s
  | EUnsubscribe_closed done => Unsubscribe_closed done s
  | ESendMessage data => SendMessage data s
  | ESendMessage_timeout data => SendMessage_timeout data s
  | EReceive ch => Receive ch s
  | _ => None
  end.

Definition step_loop (e : Event) (s : State) : option State :=
  match s_loop s, e with
  | Selecting, ECancel => Some (set_loop Stopped s)
  | Selecting, ELoop_subscribe => loop_subscribe s
  | Selecting, ELoop_unsubscribe => loop_unsubscribe s
  | Selecting, ELoop_message order => loop_message order s
  | Sending ch msg, ELoop_deliver => loop_deliver ch msg s
  | Sending ch msg, ELoop_drop => Some (loop_drop msg s)
  | Acking subs, ELoop_ack => loop_ack subs s
  | Cleaning subs, ELoop_clean => loop_clean subs s
  | _, _ => None
  end.

Definition step (e : Event) (s : State) : option State :=
  match s_loop s with
  | Panicked _ => None
  | _ => match step_caller e s with Some s' => Some s' | None => step_loop e s end
  end.

Fixpoint run (es : list Event) (s : State) : option State :=
  match es with
  | [] => Some s
  | e :: es' => match step e s with Some s' => run es' s' | None => None end
  end.

Definition steps (s s' : State) : Prop := ∃ e, step e s = Some s'.
Definition reach : State → State → Prop := rtc steps.

(** * Who holds a channel *)

Definition open_chan {A} (m : gmap nat (Chan A)) (ch : nat) : Prop :=
  ∃ c, m !! ch = Some c ∧ ch_closed c = false.

Definition waiting (s : State) (d : nat) (a : Waiting) : Prop :=
  ∃ u, s_unsubs s !! d = Some u ∧ u_at u = a ∧ ch_closed (u_done u) = false.

Definition loop_ok (s : State) : Prop :=
  match s_loop s with
  | Sending ch m => s_topics s !! ch = Some (Key m)
  | Acking t => is_Some (s_topics s !! t_Ch t) ∧
                (t_Done t ∉ t_Done <$> ch_buf (unsubscribeCh (s_broker s))) ∧
                ∃ d, t_Done t = Some d ∧ waiting s d AtDone
  | Cleaning t => is_Some (s_topics s !! t_Ch t) ∧ ∃ d, t_Done t = Some d ∧ waiting s d Returned
  | Panicked _ => False
  | _ => True
  end.

(** The topics are the channels whose subscription the loop has taken and not
    yet taken back; a channel is closed only after it has left them, and enters
    them at most once. *)
Record Inv (s : State) : Prop := {
  inv_own :
    ch_closed (messagesCh (s_broker s)) = false ∧
    ch_closed (subsciberCh (s_broker s)) = false ∧
    ch_closed (unsubscribeCh (s_broker s)) = false;
  inv_topic : ∀ ch n, s_topics s !! ch = Some n →
    open_chan (s_chans s) ch ∧ s_subs s !! ch = Some {| sub_name := n; sub_returned := true |};
  inv_queued : ∀ t, t ∈ ch_buf (subsciberCh (s_broker s)) →
    open_chan (s_chans s) (t_Ch t) ∧ s_topics s !! t_Ch t = None ∧
    s_subs s !! t_Ch t = Some {| sub_name := t_Name t; sub_returned := true |};
  inv_once : NoDup (t_Ch <$> ch_buf (subsciberCh (s_broker s)));
  inv_new : ∀ ch n, s_subs s !! ch = Some {| sub_name := n; sub_returned := false |} →
    open_chan (s_chans s) ch;
  inv_fresh : ∀ ch, s_chans s !! ch = None → s_subs s !! ch = None;
  inv_unsub : ∀ t, t ∈ ch_buf (unsubscribeCh (s_broker s)) →
    ∃ d, t_Done t = Some d ∧ waiting s d AtDone;
  inv_unsub_once : NoDup (t_Done <$> ch_buf (unsubscribeCh (s_broker s)));
  inv_done : ∀ d u, s_unsubs s !! d = Some u →
    ch_buf (u_done u) = [] ∧ (u_at u ≠ Returned → ch_closed (u_done u) = false);
  inv_loop : loop_ok s;
}.

Lemma Inv_init : Inv init.
Proof. split; simpl; try done; try (intros; set_solver); constructor. Qed.

Lemma attempt_inv {A} (o : Comm A) s k s' :
  attempt o s k = Some s' →
  (∃ x, o = Goes x ∧ s' = k x) ∨ (∃ why, o = Breaks why ∧ s' = set_loop (Panicked why) s).
Proof. destruct o; naive_solver. Qed.

(** A send, a receive on a channel that is known to be open. *)
Lemma attempt_send {A} (c : Chan A) x s k s' :
  ch_closed c = false → attempt (send c x) s k = Some s' →
  s' = k (with_buf (ch_buf c ++ [x]) c).
Proof.
  intros Hc [(c' & Hs & ->)|(why & Hs & _)]%attempt_inv.
  - by apply send_inv in Hs as (_ & _ & ->).
  - by apply send_open in Hs.
Qed.

Lemma attempt_recv {A} (c : Chan A) s k s' :
  ch_closed c = false → attempt (recv c) s k = Some s' →
  ∃ x l, ch_buf c = x :: l ∧ s' = k (Some x, with_buf l c).
Proof.
  intros Hc [([r c'] & Hs & ->)|(why & Hs & _)]%attempt_inv.
  - apply recv_open in Hs as (x & l & -> & ? & ->); [eauto | done].
  - by apply recv_never_breaks in Hs.
Qed.

(** The map visited in any order: what is found is a topic of that name, and
    nothing is found only if there is none. *)
Lemma findTopicByName_Some order (topics : DeviceConnections) name ch :
  NoDup order.*1 → list_to_map order = topics →
  findTopicByName order name = Some ch → topics !! ch = Some name.
Proof.
  intros Hnd <- Hf. apply elem_of_list_to_map_1; [done |]. clear Hnd.
  induction order as [|[c n] l IH]; simpl in Hf; [done |].
  case_decide; simplify_eq; [by left | right; auto].
Qed.

Lemma findTopicByName_None order (topics : DeviceConnections) name ch :
  list_to_map order = topics → findTopicByName order name = None → topics !! ch ≠ Some name.
Proof.
  intros <- Hf Hch%elem_of_list_to_map_2.
  induction order as [|[c n] l IH]; simpl in Hf; [by apply elem_of_nil in Hch |].
  case_decide; [done |]. apply elem_of_cons in Hch as [|]; [by simplify_eq | auto].
Qed.

(** What a step of the callers does to the things the loop relies on. *)
Lemma open_chan_insert {A} (m : gmap nat (Chan A)) k c ch :
  open_chan m ch → ch_closed c = false → open_chan (<[k := c]> m) ch.
Proof.
  intros (c0 & Hc & Ho) ?. destruct (decide (k = ch)) as [->|]; unfold open_chan.
  - rewrite lookup_insert_eq. eauto.
  - rewrite lookup_insert_ne by done. eauto.
Qed.

Lemma loop_ok_insert s s' :
  s_loop s' = s_loop s → s_topics s' = s_topics s →
  ch_buf (unsubscribeCh (s_broker s')) = ch_buf (unsubscribeCh (s_broker s)) →
  (∀ d a, a ≠ AtSend → waiting s d a → waiting s' d a) → loop_ok s → loop_ok s'.
Proof.
  unfold loop_ok. intros -> -> -> Hw. destruct (s_loop s); try done.
  - intros (? & ? & d & ? & ?). split_and!; [done.. |]. exists d. split; [done | by apply Hw].
  - intros (? & d & ? & ?). split; [done |]. exists d. split; [done | by apply Hw].
Qed.

Lemma Inv_Subscribe_make ch name s s' :
  Subscribe_make ch name s = Some s' → Inv s → Inv s'.
Proof.
  unfold Subscribe_make. intros H [? Ht Hq ? Hn Hf Hu ? ? Hl]. case_decide as Hch; [| done].
  simplify_eq. pose proof (Hf _ Hch) as Hsub.
  assert (∀ c, open_chan (s_chans s) c → open_chan (<[ch := make_chan 1]> (s_chans s)) c)
    by (intros; by apply open_chan_insert).
  split; simpl; try done.
  - intros c n Hc. apply Ht in Hc as [? Hc]. split; [auto |].
    rewrite lookup_insert_ne; [done | congruence].
  - intros t Hin. apply Hq in Hin as (? & ? & Hs). split_and!; [auto | done |].
    rewrite lookup_insert_ne; [done | congruence].
  - intros c n [[-> ?]|[? Hc]]%lookup_insert_Some; [| by eauto].
    eexists. by rewrite lookup_insert_eq.
  - intros c [? ?]%lookup_insert_None. rewrite lookup_insert_ne by done. auto.
Qed.

Lemma Inv_Subscribe_send ch s s' : Subscribe_send ch s = Some s' → Inv s → Inv s'.
Proof.
  unfold Subscribe_send. intros H [(?&Hc&?) Ht Hq Ho Hn Hf Hu ? ? Hl].
  destruct (s_subs s !! ch) as [[name []]|] eqn:Hs; [done | | done].
  apply attempt_send in H as ->; [| done].
  assert (ch ∉ (t_Ch <$> ch_buf (subsciberCh (s_broker s)))).
  { intros (t & -> & Hin)%list_elem_of_fmap. apply Hq in Hin as (_ & _ & ?). congruence. }
  assert (s_topics s !! ch = None).
  { destruct (s_topics s !! ch) eqn:E; [| done]. apply Ht in E as [_ ?]. congruence. }
  split; simpl; try done.
  - intros c n E. destruct (Ht _ _ E) as [? Hsub]. split; [done |].
    rewrite lookup_insert_ne; [done | congruence].
  - intros t [Hin| ->%list_elem_of_singleton]%elem_of_app; simpl.
    + destruct (Hq t Hin) as (? & ? & Hsub). split_and!; [done.. |].
      rewrite lookup_insert_ne; [done | congruence].
    + split_and!; [by eapply Hn | done | by rewrite lookup_insert_eq].
  - rewrite fmap_app. apply NoDup_app. split_and!; [done | | apply NoDup_singleton].
    by intros c ? ->%list_elem_of_singleton.
  - intros c n [[]|[? ?]]%lookup_insert_Some; [simplify_eq | eauto].
  - intros c E. rewrite lookup_insert_ne; [auto |]. intros ->. rewrite Hf in Hs; done.
Qed.

(** The unsubscription [d] is changed: the others are as they were. *)
Lemma waiting_other s d d' a u :
  waiting s d' a → d ≠ d' → waiting (set_unsub d u s) d' a.
Proof. intros (v & ? & ?) ?. exists v. simpl. by rewrite lookup_insert_ne. Qed.

Lemma waiting_this s d a u :
  u_at u = a → ch_closed (u_done u) = false → waiting (set_unsub d u s) d a.
Proof. intros. exists u. simpl. by rewrite lookup_insert_eq. Qed.

(** [waiting] looks only at the unsubscriptions. *)
Lemma waiting_same s s' d a : s_unsubs s' = s_unsubs s → waiting s d a → waiting s' d a.
Proof. unfold waiting. by intros ->. Qed.

Lemma Inv_Unsubscribe_make ch d s s' : Unsubscribe_make ch d s = Some s' → Inv s → Inv s'.
Proof.
  unfold Unsubscribe_make. intros H [? ? ? ? ? ? Hu ? Hd Hl]. case_decide as Hnew; [| done].
  simplify_eq.
  assert (Hw : ∀ d' a, waiting s d' a → waiting
    (set_unsub d {| u_ch := ch; u_at := AtSend; u_done := make_chan 0 |} s) d' a).
  { intros d' a Hw. apply waiting_other; [done |]. intros <-. destruct Hw as (? & ? & _).
    congruence. }
  split; simpl; try done.
  - intros t Hin. destruct (Hu t Hin) as (d' & ? & ?). eauto.
  - intros d' u [[-> <-]|[? ?]]%lookup_insert_Some; [done | by eapply Hd].
  - eapply loop_ok_insert, Hl; [done.. |]. auto.
Qed.

Lemma Inv_Unsubscribe_send d s s' : Unsubscribe_send d s = Some s' → Inv s → Inv s'.
Proof.
  unfold Unsubscribe_send. intros H [(?&?&Hc) ? ? ? ? ? Hu Ho Hd Hl].
  destruct (s_unsubs s !! d) as [[ch [] dn]|] eqn:Hs; [| done..].
  apply attempt_send in H as ->; [| done].
  destruct (Hd _ _ Hs) as [Hb Hop]. simpl in Hb, Hop.
  assert (Hw : ∀ d' a, a ≠ AtSend → waiting s d' a → d ≠ d').
  { intros d' a Ha (u & Hu' & Hat & _) <-. rewrite Hs in Hu'. by simplify_eq. }
  assert (Hfresh : Some d ∉ t_Done <$> ch_buf (unsubscribeCh (s_broker s))).
  { intros (t & Ht & Hin)%list_elem_of_fmap. destruct (Hu t Hin) as (d' & Hd' & Hwt).
    rewrite Hd' in Ht. simplify_eq. by eapply Hw in Hwt. }
  split; simpl; try done.
  - intros t [Hin| ->%list_elem_of_singleton]%elem_of_app; simpl.
    + destruct (Hu t Hin) as (d' & ? & Hwt). exists d'. split; [done |].
      apply waiting_other; [by apply (waiting_same s) | by eapply Hw, Hwt].
    + exists d. split; [done |]. apply waiting_this; [done | by apply Hop].
  - rewrite fmap_app. apply NoDup_app. split_and!; [done | | apply NoDup_singleton].
    by intros c ? ->%list_elem_of_singleton.
  - intros d' u [[-> <-]|[? ?]]%lookup_insert_Some; [| by eapply Hd]; simpl.
    split; [done | by intros _; apply Hop].
  - unfold loop_ok in *. simpl. destruct (s_loop s) as [| |t|t| |]; try done.
    + destruct Hl as (? & Hn & d' & Hdn & Hwt). split_and!; [done | |].
      * rewrite fmap_app. intros [?| Heq%list_elem_of_singleton]%elem_of_app; [done |].
        rewrite Hdn in Heq. injection Heq as ->. by eapply Hw in Hwt.
      * exists d'. split; [done |].
        apply waiting_other; [by apply (waiting_same s) | by eapply Hw, Hwt].
    + destruct Hl as (? & d' & ? & Hwt). split; [done |]. exists d'. split; [done |].
      apply waiting_other; [by apply (waiting_same s) | by eapply Hw, Hwt].
Qed.

(** [doneCh] is open while the caller waits, so it only learns of its release
    from the send of the loop. *)
Lemma Inv_Unsubscribe_closed d s s' : Inv s → Unsubscribe_closed d s ≠ Some s'.
Proof.
  unfold Unsubscribe_closed. intros HI H.
  destruct (s_unsubs s !! d) as [[ch [] dn]|] eqn:Hs; [done | | done..].
  destruct (inv_done s HI _ _ Hs) as [Hb Ho]. simpl in *.
  apply attempt_recv in H as (x & l & ? & _); [congruence | by apply Ho].
Qed.

Lemma Inv_SendMessage m s s' : SendMessage m s = Some s' → Inv s → Inv s'.
Proof.
  unfold SendMessage. intros H [(?&?&?) ? ? ? ? ? ? ? ? ?].
  apply attempt_send in H as ->; [| done]. by split.
Qed.

Lemma Inv_Receive ch s s' : Receive ch s = Some s' → Inv s → Inv s'.
Proof.
  unfold Receive. intros H HI. destruct (s_chans s !! ch) as [c|] eqn:Hs; [| done].
  apply attempt_inv in H as [([r c'] & Hr & ->)|(why & Hr & _)];
    [| by apply recv_never_breaks in Hr].
  destruct r as [m|]; simpl; [| done]. apply recv_inv in Hr as (l & Hb & ->).
  destruct HI as [? Ht Hq ? Hn Hf ? ? ? ?].
  assert (Hop : ∀ k, open_chan (s_chans s) k → open_chan (<[ch := with_buf l c]> (s_chans s)) k).
  { intros k (c0 & Hk & Ho). destruct (decide (ch = k)) as [->|]; unfold open_chan.
    - rewrite lookup_insert_eq. exists (with_buf l c). simplify_eq. done.
    - rewrite lookup_insert_ne by done. eauto. }
  split; simpl; try done.
  - intros k n Hk. destruct (Ht k n Hk). auto.
  - intros t Hin. destruct (Hq t Hin) as (? & ? & ?). auto.
  - eauto.
  - intros k [? ?]%lookup_insert_None. auto.
Qed.

Lemma Inv_loop_subscribe s s' :
  s_loop s = Selecting → loop_subscribe s = Some s' → Inv s → Inv s'.
Proof.
  unfold loop_subscribe. intros Hsel H [(?&?&?) Ht Hq Ho ? ? ? ? ? ?].
  apply attempt_recv in H as (t & l & Hb & ->); [| done]. simpl.
  rewrite Hb in *. simpl in Ho. apply NoDup_cons in Ho as [Hnin ?].
  destruct (Hq t) as (Hop & Hnone & Hsub); [by left |]. rewrite Hnone.
  split; simpl; try done.
  - intros ch n [[<- <-]|[? ?]]%lookup_insert_Some; [done | by apply Ht].
  - intros t' Hin. destruct (Hq t') as (? & ? & ?); [by right |].
    split_and!; [done | | done]. rewrite lookup_insert_ne; [done |]. intros Heq. apply Hnin.
    rewrite Heq. by apply list_elem_of_fmap_2.
  - unfold loop_ok in *. simpl. by rewrite Hsel.
Qed.

(** "existing subscriber found" is dead code. *)
Lemma loop_subscribe_new s t :
  Inv s → t ∈ ch_buf (subsciberCh (s_broker s)) → s_topics s !! t_Ch t = None.
Proof. intros HI Ht. by destruct (inv_queued s HI t Ht) as (_ & ? & _). Qed.

Lemma Inv_loop_unsubscribe s s' :
  s_loop s = Selecting → loop_unsubscribe s = Some s' → Inv s → Inv s'.
Proof.
  unfold loop_unsubscribe. intros Hsel H [(?&?&?) ? ? ? ? ? Hu Ho ? ?].
  apply attempt_recv in H as (t & l & Hb & ->); [| done]. simpl.
  rewrite Hb in *. simpl in Ho. apply NoDup_cons in Ho as [Hnin ?].
  assert (Hu' : ∀ t, t ∈ l → ∃ d, t_Done t = Some d ∧ waiting s d AtDone)
    by (intros; apply Hu; by right).
  destruct (Hu t) as (d & ? & ?); [by left |].
  destruct (s_topics s !! t_Ch t) eqn:Hin; split; simpl; try done.
  - unfold loop_ok. simpl. rewrite Hin. split_and!; [done.. |]. by exists d.
  - unfold loop_ok in *. simpl. by rewrite Hsel.
Qed.

Lemma Inv_loop_ack t s s' : s_loop s = Acking t → loop_ack t s = Some s' → Inv s → Inv s'.
Proof.
  unfold loop_ack. intros Hack H [? ? ? ? ? ? Hu ? Hd Hl].
  unfold loop_ok in Hl. rewrite Hack in Hl. destruct Hl as (Htop & Hnin & d & Hdn & u & Hs & Hat & Hop).
  rewrite Hdn, Hs, Hop, Hat in H. simplify_eq.
  split; simpl; try done.
  - intros t' Hin. destruct (Hu t' Hin) as (d' & Hd' & Hw). exists d'. split; [done |].
    apply waiting_other; [done |]. intros <-. apply Hnin. rewrite Hdn, <- Hd'.
    by apply list_elem_of_fmap_2.
  - intros d' v [[-> <-]|[? ?]]%lookup_insert_Some; [| by eapply Hd].
    simpl. by apply Hd in Hs as [? _].
  - unfold loop_ok. simpl. split; [done |]. exists d. split; [done |]. by apply waiting_this.
Qed.

Lemma Inv_loop_clean t s s' : s_loop s = Cleaning t → loop_clean t s = Some s' → Inv s → Inv s'.
Proof.
  unfold loop_clean. intros Hcl H [? Ht Hq ? Hn Hf Hu ? Hd Hl].
  unfold loop_ok in Hl. rewrite Hcl in Hl. destruct Hl as ([n Htop] & d & Hdn & u & Hs & Hat & Hop).
  destruct (Ht _ _ Htop) as [(c & Hc & Hco) Hsub].
  rewrite Hdn, Hs, Hc in H. unfold close in H. rewrite Hop, Hco in H. simplify_eq.
  assert (Hoc : ∀ k, k ≠ t_Ch t → ∀ c, open_chan (s_chans s) k →
            open_chan (<[t_Ch t := c]> (s_chans s)) k).
  { intros k Hk c0 (c1 & ? & ?). exists c1. by rewrite lookup_insert_ne. }
  split; simpl; try done.
  - intros k m [Hk ?]%lookup_delete_Some. destruct (Ht k m) as [? ?]; [done |]. auto.
  - intros t' Hin. destruct (Hq t' Hin) as (? & Hnone & ?).
    assert (t_Ch t' ≠ t_Ch t) by (intros E; rewrite E in Hnone; congruence).
    split_and!; [auto | by rewrite lookup_delete_ne | done].
  - intros k m Hk. apply Hoc; [| eauto]. intros ->. congruence.
  - intros k [? ?]%lookup_insert_None. auto.
  - intros t' Hin. destruct (Hu t' Hin) as (d' & Hd' & Hw). exists d'. split; [done |].
    apply (waiting_same (set_unsub d {| u_ch := u_ch u; u_at := u_at u;
      u_done := {| ch_cap := ch_cap (u_done u); ch_buf := ch_buf (u_done u); ch_closed := true |} |} s));
      [done |].
    apply waiting_other; [done |]. intros <-. destruct Hw as (v & Hv & Hat' & _).
    congruence.
  - intros d' v [[-> <-]|[? ?]]%lookup_insert_Some; [| by eapply Hd].
    simpl. rewrite Hat. apply Hd in Hs as [? _]. by split.
Qed.

Lemma Inv_loop_message order s s' :
  s_loop s = Selecting → loop_message order s = Some s' → Inv s → Inv s'.
Proof.
  unfold loop_message. intros Hsel H [(?&?&?) Ht ? ? ? ? ? ? ? ?].
  case_decide as Hord; [| done]. destruct Hord as [Hnd Hord].
  apply attempt_recv in H as (m & l & Hb & ->); [| done]. simpl.
  destruct (findTopicByName order (Key m)) as [ch|] eqn:Hf; split; simpl; try done.
  - unfold loop_ok. simpl. by eapply findTopicByName_Some.
Qed.

Lemma Inv_loop_deliver ch m s s' :
  s_loop s = Sending ch m → loop_deliver ch m s = Some s' → Inv s → Inv s'.
Proof.
  unfold loop_deliver. intros Hse H [? Ht Hq ? Hn Hf ? ? ? Hl].
  unfold loop_ok in Hl. rewrite Hse in Hl. destruct (Ht _ _ Hl) as [(c & Hc & Hco) Hsub].
  rewrite Hc in H. apply attempt_send in H as ->; [| done].
  assert (Hoc : ∀ k, open_chan (s_chans s) k →
      open_chan (<[ch := with_buf (ch_buf c ++ [m]) c]> (s_chans s)) k)
    by (intros; by apply open_chan_insert).
  split; simpl; try done.
  - intros k n Hk. destruct (Ht k n Hk). auto.
  - intros t Hin. destruct (Hq t Hin) as (? & ? & ?). auto.
  - eauto.
  - intros k [? ?]%lookup_insert_None. auto.
Qed.

Lemma Inv_set_loop l s : (l = Selecting ∨ l = Stopped) → Inv s → Inv (set_loop l s).
Proof. intros Hl []. split; simpl; try done. unfold loop_ok. by destruct Hl as [-> | ->]. Qed.

Lemma step_Inv e s s' : step e s = Some s' → Inv s → Inv s'.
Proof.
  unfold step. intros H HI. destruct (s_loop s) as [|ch m|t|t| |why] eqn:Hl; [..| done].
  all: destruct (step_caller e s) as [s1|] eqn:Hc; [injection H as <- | unfold step_loop in H; rewrite Hl in H].
  all: try (destruct e; simpl in Hc; try done;
    eauto using Inv_Subscribe_make, Inv_Subscribe_send, Inv_Unsubscribe_make, Inv_Unsubscribe_send,
      Inv_SendMessage, Inv_Receive; [by apply Inv_Unsubscribe_closed in Hc | by injection Hc as <-]).
  all: destruct e; try done.
  all: eauto using Inv_loop_subscribe, Inv_loop_unsubscribe, Inv_loop_message, Inv_loop_deliver,
    Inv_loop_ack, Inv_loop_clean.
  - injection H as <-. apply Inv_set_loop; auto.
  - injection H as <-. unfold loop_drop. apply Inv_set_loop; [by left |]. by destruct HI.
Qed.

(** What the steps keep, every reachable state has. *)
Lemma reach_keeps (P : State → Prop) s s' :
  (∀ e s s', step e s = Some s' → P s → P s') → reach s s' → P s → P s'.
Proof. intros Hstep. induction 1 as [|s1 s2 s3 [e He] _ IH]; eauto. Qed.

Lemma reach_Inv s : reach init s → Inv s.
Proof. intros Hr. eapply reach_keeps, Inv_init; [apply step_Inv | done]. Qed.

Lemma run_reach es s s' : run es s = Some s' → reach s s'.
Proof.
  revert s. induction es as [|e es IH]; intros s H; simpl in H; [by simplify_eq |].
  destruct (step e s) as [s1|] eqn:He; [| done].
  eapply rtc_l; [by exists e | by apply IH].
Qed.

(** * What happens to the messages *)

Definition chan_buf (s : State) (ch : nat) : list Message :=
  match s_chans s !! ch with Some c => ch_buf c | None => [] end.

(** The messages taken from the channel [ch], in order. *)
Definition received (s : State) (ch : nat) : list Message :=
  snd <$> filter (λ e, e.1 = ch) (s_received s).

(** The messages the loop put into [ch], in order. *)
Definition delivered_to (l : list (Message * option nat)) (ch : nat) : list Message :=
  fst <$> filter (λ e, e.2 = Some ch) l.

Definition in_progress (l : Loop) : list Message :=
  match l with Sending _ m => [m] | _ => [] end.

Record Hist (s : State) : Prop := {
  hist_sent : s_sent s = (s_log s).*1 ++ in_progress (s_loop s) ++ ch_buf (messagesCh (s_broker s));
  hist_name : ∀ m ch, (m, Some ch) ∈ s_log s →
    ∃ r, s_subs s !! ch = Some {| sub_name := Key m; sub_returned := r |};
  hist_chan : ∀ ch, received s ch ++ chan_buf s ch = delivered_to (s_log s) ch;
  hist_known : ∀ m ch, (m, Some ch) ∈ s_log s → s_chans s !! ch ≠ None;
}.

Lemma delivered_to_snoc l m o ch :
  delivered_to (l ++ [(m, o)]) ch = delivered_to l ch ++ (if decide (o = Some ch) then [m] else []).
Proof.
  unfold delivered_to. rewrite filter_app, fmap_app. f_equal. simpl.
  rewrite filter_cons. simpl. by case_decide.
Qed.

Lemma chan_buf_set ch c s k :
  chan_buf (set_chan ch c s) k = if decide (ch = k) then ch_buf c else chan_buf s k.
Proof.
  unfold chan_buf. simpl. case_decide as E; [subst k; by rewrite lookup_insert_eq |].
  by rewrite lookup_insert_ne.
Qed.

(** A step that leaves the messages alone. *)
Lemma Hist_same s s' :
  s_sent s' = s_sent s → s_log s' = s_log s → s_received s' = s_received s →
  ch_buf (messagesCh (s_broker s')) = ch_buf (messagesCh (s_broker s)) →
  in_progress (s_loop s') = in_progress (s_loop s) →
  (∀ ch, chan_buf s' ch = chan_buf s ch) →
  (∀ ch, s_chans s !! ch ≠ None → s_chans s' !! ch ≠ None) →
  (∀ ch n r, s_chans s !! ch ≠ None → s_subs s !! ch = Some {| sub_name := n; sub_returned := r |} →
    ∃ r, s_subs s' !! ch = Some {| sub_name := n; sub_returned := r |}) →
  Hist s → Hist s'.
Proof.
  intros Hs Hl Hr Hb Hp Hc Hk Hn [H1 H2 H3 H4]. split; unfold received in *.
  - by rewrite Hs, Hl, Hb, Hp.
  - rewrite Hl. intros m ch Hin. destruct (H2 m ch Hin) as [r Hr']. eauto.
  - intros ch. by rewrite Hr, Hl, Hc.
  - rewrite Hl. eauto.
Qed.

Lemma Hist_caller e s s' : step_caller e s = Some s' → Inv s → Hist s → Hist s'.
Proof.
  intros H HI. destruct e; simpl in H; try done.
  - unfold Subscribe_make in H. case_decide as Hch; [| done]. simplify_eq.
    apply Hist_same; try done.
    + intros k. change (chan_buf (set_chan ch (make_chan 1) s) k = chan_buf s k).
      rewrite chan_buf_set. case_decide; [subst k | done]. unfold chan_buf. by rewrite Hch.
    + intros k Hk. simpl. by rewrite lookup_insert_ne by (by intros ->).
    + intros k n r Hk Hs. exists r. simpl. by rewrite lookup_insert_ne by (by intros ->).
  - unfold Subscribe_send in H. destruct (s_subs s !! ch) as [[name []]|] eqn:Hs; [done | | done].
    apply attempt_send in H as ->; [| by apply HI]. apply Hist_same; try done.
    intros k n r _ Hk. simpl. destruct (decide (ch = k)) as [->|].
    + rewrite Hs in Hk. simplify_eq. rewrite lookup_insert_eq. eauto.
    + rewrite lookup_insert_ne by done. eauto.
  - unfold Unsubscribe_make in H. case_decide; simplify_eq. apply Hist_same; eauto.
  - unfold Unsubscribe_send in H. destruct (s_unsubs s !! doneCh) as [[? [] ?]|]; [| done..].
    apply attempt_send in H as ->; [| by apply HI]. apply Hist_same; eauto.
  - by apply Inv_Unsubscribe_closed in H.
  - unfold SendMessage in H. apply attempt_send in H as ->; [| by apply HI].
    intros [H1 ? ? ?]. split; simpl; try done. by rewrite H1, <- !(assoc_L (++)).
  - by injection H as <-.
  - unfold Receive in H. destruct (s_chans s !! ch) as [c|] eqn:Hc; [| done].
    apply attempt_inv in H as [([r c'] & Hr & ->)|(why & Hr & _)];
      [| by apply recv_never_breaks in Hr].
    destruct r as [m|]; simpl; [| done]. apply recv_inv in Hr as (l & Hb & ->).
    intros [H1 H2 H3 H4]. split; simpl; try done.
    + intros k. rewrite <- H3. unfold received. simpl.
      change (chan_buf (note_received ch m (set_chan ch (with_buf l c) s)) k)
        with (chan_buf (set_chan ch (with_buf l c) s) k).
      rewrite filter_app, fmap_app, chan_buf_set, filter_cons. simpl.
      case_decide as E; [subst k | by rewrite app_nil_r].
      unfold chan_buf. rewrite Hc, Hb. by rewrite <- (assoc_L (++)).
    + intros m' k Hin. destruct (decide (ch = k)) as [->|];
        [by rewrite lookup_insert_eq | rewrite lookup_insert_ne by done; eauto].
Qed.

(** The loop has decided about the message: it is logged. *)
Lemma Hist_note m o s s' :
  s_sent s' = s_sent s → s_log s' = s_log s ++ [(m, o)] → s_received s' = s_received s →
  in_progress (s_loop s) ++ ch_buf (messagesCh (s_broker s)) = m :: ch_buf (messagesCh (s_broker s')) →
  in_progress (s_loop s') = [] → s_subs s' = s_subs s →
  (∀ ch, s_chans s !! ch ≠ None → s_chans s' !! ch ≠ None) →
  (∀ ch, chan_buf s' ch = chan_buf s ch ++ (if decide (o = Some ch) then [m] else [])) →
  (∀ ch, o = Some ch → s_chans s !! ch ≠ None ∧
    ∃ r, s_subs s !! ch = Some {| sub_name := Key m; sub_returned := r |}) →
  Hist s → Hist s'.
Proof.
  intros Hs Hl Hr Hp Hp' Hsub Hk Hc Ho [H1 H2 H3 H4]. split; unfold received in *.
  - rewrite Hs, H1, Hl, Hp, Hp', fmap_app. simpl. by rewrite <- (assoc_L (++)).
  - intros m' ch. rewrite Hl, Hsub. intros [Hin|[=]%list_elem_of_singleton]%elem_of_app; [auto |].
    subst. by apply Ho.
  - intros ch. by rewrite Hr, Hl, Hc, delivered_to_snoc, (assoc_L (++)), H3.
  - intros m' ch. rewrite Hl. intros [Hin|[=]%list_elem_of_singleton]%elem_of_app; [eauto |].
    subst. apply Hk. by apply Ho.
Qed.

Lemma Hist_loop e s s' : step_loop e s = Some s' → Inv s → Hist s → Hist s'.
Proof.
  unfold step_loop. intros H HI. pose proof (inv_own s HI) as (? & ? & ?).
  pose proof (inv_loop s HI) as Hl. unfold loop_ok in Hl.
  destruct (s_loop s) as [|ch m|t|t| |why] eqn:Hloop; destruct e; try done.
  - injection H as <-. apply Hist_same; simpl; rewrite ?Hloop; eauto.
  - unfold loop_subscribe in H. apply attempt_recv in H as (t & l & _ & ->); [| done]. simpl.
    destruct (s_topics s !! t_Ch t); apply Hist_same; eauto.
  - unfold loop_unsubscribe in H. apply attempt_recv in H as (t & l & _ & ->); [| done]. simpl.
    destruct (s_topics s !! t_Ch t); apply Hist_same; simpl; rewrite ?Hloop; eauto.
  - unfold loop_message in H. case_decide; [| done].
    apply attempt_recv in H as (m & l & Hb & ->); [| done]. simpl.
    destruct (findTopicByName order (Key m)) as [ch|].
    + intros [Hs ? ? ?]. split; simpl; try done. by rewrite Hs, Hloop, Hb.
    + apply (Hist_note m None); simpl; rewrite ?Hloop, ?Hb; eauto; [| done].
      intros ch. by rewrite app_nil_r.
  - unfold loop_deliver in H. destruct (inv_topic s HI _ _ Hl) as [(c & Hc & Hop) Hsub].
    rewrite Hc in H. apply attempt_send in H as ->; [| done].
    apply (Hist_note m (Some ch)); simpl; rewrite ?Hloop; try done.
    + intros k ?. destruct (decide (ch = k)) as [->|];
        [by rewrite lookup_insert_eq | by rewrite lookup_insert_ne].
    + intros k. change (chan_buf (set_chan ch (with_buf (ch_buf c ++ [m]) c) s) k
        = chan_buf s k ++ if decide (Some ch = Some k) then [m] else []).
      rewrite chan_buf_set. destruct (decide (ch = k)) as [->|].
      * rewrite decide_True by done. unfold chan_buf. by rewrite Hc.
      * rewrite decide_False by congruence. by rewrite app_nil_r.
    + intros k [= <-]. split; [congruence | eauto].
  - injection H as <-. apply (Hist_note m None); simpl; rewrite ?Hloop; try done.
    intros k. by rewrite app_nil_r.
  - unfold loop_ack in H. destruct Hl as (_ & _ & d & Hd & u & Hu & Hat & Hop).
    rewrite Hd, Hu, Hop, Hat in H. simplify_eq. apply Hist_same; simpl; rewrite ?Hloop; eauto.
  - unfold loop_clean in H. destruct Hl as ([n Htop] & d & Hd & u & Hu & Hat & Hop).
    destruct (inv_topic s HI _ _ Htop) as [(c & Hc & Hco) _].
    rewrite Hd, Hu, Hc in H. unfold close in H. rewrite Hop, Hco in H. simplify_eq.
    apply Hist_same; simpl; rewrite ?Hloop; eauto.
    + intros k. unfold chan_buf. simpl. destruct (decide (t_Ch t = k)) as [<-|];
        [by rewrite lookup_insert_eq, Hc | by rewrite lookup_insert_ne].
    + intros k ?. destruct (decide (t_Ch t = k)) as [->|];
        [by rewrite lookup_insert_eq | by rewrite lookup_insert_ne].
Qed.

Lemma step_split e s s' :
  step e s = Some s' → step_caller e s = Some s' ∨ step_loop e s = Some s'.
Proof.
  unfold step. destruct (s_loop s); destruct (step_caller e s); naive_solver.
Qed.

Lemma reach_Hist s : reach init s → Inv s ∧ Hist s.
Proof.
  intros Hr. eapply (reach_keeps (λ s, Inv s ∧ Hist s)); [| done |].
  - intros e s1 s2 He [HI HH]. split; [by eapply step_Inv |].
    apply step_split in He as [He|He]; [by eapply Hist_caller | by eapply Hist_loop].
  - split; [apply Inv_init |]. split; simpl; try done; by intros ? ? ?%elem_of_nil.
Qed.

(** What a channel got is, in order, what was sent to its name. *)
Lemma delivered_sublist s ch name r :
  reach init s → s_subs s !! ch = Some {| sub_name := name; sub_returned := r |} →
  received s ch ++ chan_buf s ch `sublist_of` filter (λ m, Key m = name) (s_sent s).
Proof.
  intros [_ HH]%reach_Hist Hsub. rewrite (hist_chan s HH), (hist_sent s HH), filter_app.
  apply sublist_inserts_r. pose proof (hist_name s HH) as Hn.
  assert (Hall : ∀ m, (m, Some ch) ∈ s_log s → Key m = name).
  { intros m Hin. destruct (Hn m ch Hin) as [r' Hr']. rewrite Hsub in Hr'. by simplify_eq. }
  clear Hn HH. unfold delivered_to. induction (s_log s) as [|[m o] l IH]; [done |].
  rewrite fmap_cons, !filter_cons. simpl. case_decide as Ho.
  - rewrite decide_True by (apply Hall; rewrite Ho; by left). simpl.
    apply sublist_skip, IH. intros m' Hin. apply Hall. by right.
  - assert (IH' := IH ltac:(intros m' Hin; apply Hall; by right)).
    case_decide; [by apply sublist_cons | done].
Qed.

(** Two keys are equal only for the same user and device when the user
    identifiers hold no '_', as those of [ulid] do. *)
Lemma Key_inj m m' :
  no_char "_"%char (m_UserID m) = true → no_char "_"%char (m_UserID m') = true →
  Key m = Key m' → m_UserID m = m_UserID m' ∧ m_DeviceID m = m_DeviceID m'.
Proof.
  intros Hm Hm'. unfold Key.
  change (m_UserID m +:+ String "_" (m_DeviceID m +:+ "")
          = m_UserID m' +:+ String "_" (m_DeviceID m' +:+ "") →
          m_UserID m = m_UserID m' ∧ m_DeviceID m = m_DeviceID m').
  rewrite !sapp_nil_r. intros Heq.
  assert (Hu : m_UserID m = m_UserID m').
  { pose proof (Split_char_app "_"%char (m_UserID m) (m_DeviceID m) Hm) as Hs.
    rewrite Heq, Split_char_app in Hs by done. by injection Hs. }
  split; [done |]. rewrite Hu in Heq. apply (inj (String.append _)) in Heq. by injection Heq.
Qed.

Example Key_not_injective :
  Key {| m_UserID := "a_b"; m_DeviceID := "c"; m_Content := "" |}
  = Key {| m_UserID := "a"; m_DeviceID := "b_c"; m_Content := "" |}.
Proof. reflexivity. Qed.

(** A call of [Unsubscribe] that nobody will answer. *)
Definition abandoned (d : nat) (s : State) : Prop :=
  waiting s d AtDone ∧ (Some d ∉ t_Done <$> ch_buf (unsubscribeCh (s_broker s))) ∧
  match s_loop s with
  | Acking t => t_Done t ≠ Some d
  | Cleaning t => t_Done t ≠ Some d
  | _ => True
  end.

Lemma abandoned_step d e s s' : step e s = Some s' → Inv s → abandoned d s → abandoned d s'.
Proof.
  intros [H|H]%step_split HI Hab; pose proof (inv_own s HI) as (? & ? & ?).
  - destruct Hab as (Hw & Hn & Hl). destruct e; simpl in H; try done.
    + unfold Subscribe_make in H. case_decide; simplify_eq. done.
    + unfold Subscribe_send in H. destruct (s_subs s !! ch) as [[name []]|]; [done | | done].
      apply attempt_send in H as ->; done.
    + unfold Unsubscribe_make in H. case_decide as Hnew; simplify_eq. split_and!; [| done..].
      apply waiting_other; [done |]. intros <-. destruct Hw as (? & ? & _). congruence.
    + unfold Unsubscribe_send in H. destruct (s_unsubs s !! doneCh) as [[ch [] dn]|] eqn:Hs; [| done..].
      apply attempt_send in H as ->; [| done].
      assert (doneCh ≠ d).
      { intros ->. destruct Hw as (u & Hu & Hat & _). rewrite Hs in Hu. by simplify_eq. }
      split_and!; [| | done].
      * apply waiting_other; [by apply (waiting_same s) | done].
      * simpl. rewrite fmap_app.
        intros [?|Heq%list_elem_of_singleton]%elem_of_app; [done | by injection Heq].
    + by apply Inv_Unsubscribe_closed in H.
    + unfold SendMessage in H. apply attempt_send in H as ->; done.
    + by injection H as <-.
    + unfold Receive in H. destruct (s_chans s !! ch) as [c|]; [| done].
      apply attempt_inv in H as [([[m|] c'] & _ & ->)|(why & Hr & _)]; [done.. |].
      by apply recv_never_breaks in Hr.
  - unfold step_loop in H. destruct Hab as (Hw & Hn & Hl).
    destruct (s_loop s) as [|ch m|t|t| |why] eqn:Hloop; destruct e; try done.
    + by injection H as <-.
    + unfold loop_subscribe in H. apply attempt_recv in H as (t & l & _ & ->); [| done]. simpl.
      destruct (s_topics s !! t_Ch t); split_and!; try done; simpl; by rewrite Hloop.
    + unfold loop_unsubscribe in H. apply attempt_recv in H as (t & l & Hb & ->); [| done]. simpl.
      rewrite Hb in Hn. apply not_elem_of_cons in Hn as [? ?].
      destruct (s_topics s !! t_Ch t); split_and!; try done; simpl; by rewrite ?Hloop.
    + unfold loop_message in H. case_decide; [| done].
      apply attempt_recv in H as (m & l & Hb & ->); [| done]. simpl.
      destruct (findTopicByName order (Key m)); split_and!; try done; simpl; by rewrite Hloop.
    + unfold loop_deliver in H. destruct (s_chans s !! ch); [| done].
      apply attempt_inv in H as [(c' & _ & ->)|(why & _ & ->)]; done.
    + by injection H as <-.
    + unfold loop_ack in H. destruct (t_Done t) as [d'|] eqn:Hd; [| done].
      destruct (s_unsubs s !! d') as [u|] eqn:Hu; [| done].
      destruct (ch_closed (u_done u)), (u_at u); simplify_eq; split_and!; try done; simpl; try congruence.
      apply waiting_other; [done | congruence].
    + unfold loop_clean in H. destruct (t_Done t) as [d'|] eqn:Hd; [| done].
      destruct (s_unsubs s !! d') as [u|] eqn:Hu, (s_chans s !! t_Ch t) as [c|]; try done.
      destruct (close (u_done u)), (close c); simplify_eq; try done.
      split_and!; try done. eapply waiting_same; [reflexivity |].
      eapply waiting_other; [done | congruence].
Qed.

Lemma abandoned_forever d s s' : Inv s → abandoned d s → reach s s' → abandoned d s'.
Proof.
  intros HI Hab Hr. eapply (reach_keeps (λ s, Inv s ∧ abandoned d s)) in Hr as [_ ?]; [done | | done].
  intros e s1 s2 He [? ?]. split; [by eapply step_Inv | by eapply abandoned_step].
Qed.

(** * Properties *)

(** (C23) In every state the broker can reach, whatever the callers, the
    scheduler and the clock do, nothing has panicked: no send on a closed
    channel, no channel closed twice.  The channels registered in the topics are
    open and stand under the name they were subscribed with, and a call of
    [Unsubscribe] returns only when the loop has released it. *)
Theorem SSEBroker_safe s :
  reach init s →
  (∀ why, s_loop s ≠ Panicked why) ∧
  (∀ ch name, s_topics s !! ch = Some name →
    open_chan (s_chans s) ch ∧ s_subs s !! ch = Some {| sub_name := name; sub_returned := true |}) ∧
  (∀ t, t ∈ ch_buf (subsciberCh (s_broker s)) → s_topics s !! t_Ch t = None) ∧
  (∀ d s', Unsubscribe_closed d s ≠ Some s').
Proof.
  intros HI%reach_Inv. split_and!.
  - intros why Hl. pose proof (inv_loop s HI) as Hok. unfold loop_ok in Hok. by rewrite Hl in Hok.
  - apply (inv_topic s HI).
  - intros t. by apply loop_subscribe_new.
  - intros d s'. by apply Inv_Unsubscribe_closed.
Qed.

Definition hello (n : string) : Message :=
  {| m_UserID := "U1"; m_DeviceID := "1"; m_Content := n |}.

(** A device connects, two messages arrive, it disconnects. *)
Definition session : list Event :=
  [ESubscribe_make 0 "U1_1"; ESubscribe_send 0; ELoop_subscribe;
   ESendMessage (hello "a"); ELoop_message [(0, "U1_1")]; ELoop_deliver; EReceive 0;
   ESendMessage (hello "b"); ELoop_message [(0, "U1_1")]; ELoop_deliver;
   EUnsubscribe_make 0 0; EUnsubscribe_send 0; ELoop_unsubscribe; ELoop_ack; ELoop_clean].

Definition session_state : State := default init (run session init).

Lemma session_reach : reach init session_state.
Proof. apply (run_reach session). by vm_compute. Qed.

Lemma SSEBroker_safe_witness : s_loop session_state = Selecting ∧ s_loop session_state ≠ Panicked "".
Proof.
  split; [by vm_compute |]. apply (SSEBroker_safe session_state). apply session_reach.
Defined.

(** (C22) A device gets its own messages only, in the order in which they were
    sent, and none twice: what a receiver made for user [u] and device [d] has
    received, followed by what waits in it, is a sublist of the messages sent
    for that user and device.  The users' identifiers must not hold '_' (those
    of [ulid] do not), since it separates the two parts of a topic.  Every
    message sent is accounted for: the loop has put it into one channel or
    dropped it, or is sending it, or has not looked at it. *)
Theorem SSEBroker_isolates s ch u d r :
  reach init s →
  s_subs s !! ch
  = Some {| sub_name := Key {| m_UserID := u; m_DeviceID := d; m_Content := "" |}; sub_returned := r |} →
  no_char "_"%char u = true → Forall (λ m, no_char "_"%char (m_UserID m) = true) (s_sent s) →
  received s ch ++ chan_buf s ch
    `sublist_of` filter (λ m, m_UserID m = u ∧ m_DeviceID m = d) (s_sent s) ∧
  s_sent s = (s_log s).*1 ++ in_progress (s_loop s) ++ ch_buf (messagesCh (s_broker s)).
Proof.
  intros Hr Hsub Hu Hall. split; [| by apply hist_sent, reach_Hist].
  pose proof (delivered_sublist s ch _ r Hr Hsub) as Hd.
  assert (filter (λ m, Key m = Key {| m_UserID := u; m_DeviceID := d; m_Content := "" |}) (s_sent s)
          = filter (λ m, m_UserID m = u ∧ m_DeviceID m = d) (s_sent s)) as <-; [| done].
  apply filter_iff_Forall. eapply Forall_impl; [exact Hall |]. intros m Hm. split.
  - intros Hk. by apply Key_inj in Hk.
  - intros [Hmu Hmd]. unfold Key. simpl. by rewrite Hmu, Hmd.
Qed.

Lemma SSEBroker_isolates_witness :
  received session_state 0 = [hello "a"] ∧ chan_buf session_state 0 = [hello "b"] ∧
  received session_state 0 ++ chan_buf session_state 0
    `sublist_of` filter (λ m, m_UserID m = "U1" ∧ m_DeviceID m = "1") (s_sent session_state).
Proof.
  split; [by vm_compute |]. split; [by vm_compute |].
  apply (SSEBroker_isolates session_state 0 "U1" "1" true).
  - apply session_reach.
  - by vm_compute.
  - by vm_compute.
  - repeat constructor; by vm_compute.
Defined.

(** A device that leaves as soon as it has come can be forgotten: the
    [select] may take the unsubscription before the subscription that was sent
    earlier.  The loop then answers it with nothing, the caller of [Unsubscribe]
    waits for ever, whatever happens afterwards, and the dead channel stays
    registered for the device. *)
Theorem Unsubscribe_overtakes name :
  ∃ s, run [ESubscribe_make 0 name; ESubscribe_send 0; EUnsubscribe_make 0 0; EUnsubscribe_send 0;
            ELoop_unsubscribe; ELoop_subscribe] init = Some s ∧
    s_topics s !! 0 = Some name ∧
    ∀ s', reach s s' → ∃ u, s_unsubs s' !! 0 = Some u ∧ u_at u = AtDone.
Proof.
  destruct (run _ init) as [s|] eqn:Hrun; [| by vm_compute in Hrun].
  assert (s_topics s !! 0 = Some name ∧ abandoned 0 s) as [Htop Hab].
  { vm_compute in Hrun. injection Hrun as <-. split; [reflexivity |].
    split_and!; [by eexists | by intros ?%elem_of_nil | done]. }
  exists s. split_and!; [done.. |]. intros s' Hr.
  eapply (abandoned_forever 0) in Hr as [(u & ? & ? & _) _]; [by eauto | | done].
  by eapply reach_Inv, run_reach.
Qed.

(** (C40) An unsubscription of a registered channel that the loop takes is
    answered: if its caller waits, the next three steps of the loop release it,
    remove exactly that channel from the topics and close it, and the loop is
    back at its [select]. *)
Theorem Unsubscribe_completes s t l :
  reach init s → s_loop s = Selecting → ch_buf (unsubscribeCh (s_broker s)) = t :: l →
  is_Some (s_topics s !! t_Ch t) →
  ∃ s' d u c, run [ELoop_unsubscribe; ELoop_ack; ELoop_clean] s = Some s' ∧
    t_Done t = Some d ∧ s_unsubs s' !! d = Some u ∧ u_at u = Returned ∧
    s_topics s' = delete (t_Ch t) (s_topics s) ∧
    s_chans s' !! t_Ch t = Some c ∧ ch_closed c = true ∧ s_loop s' = Selecting.
Proof.
  intros HI%reach_Inv Hsel Hb [n Htop]. pose proof (inv_own s HI) as (_ & _ & Hopen).
  destruct (inv_unsub s HI t) as (d & Hd & u & Hu & Hat & Hop); [rewrite Hb; by left |].
  destruct (inv_topic s HI _ _ Htop) as [(c & Hc & Hco) _].
  set (s1 := set_loop (Acking t) (set_broker (set_unsubscribeCh (with_buf l
    (unsubscribeCh (s_broker s)))) s)).
  set (s2 := set_loop (Cleaning t) (set_unsub d
    {| u_ch := u_ch u; u_at := Returned; u_done := u_done u |} s1)).
  assert (step ELoop_unsubscribe s = Some s1) as H1.
  { unfold step, step_loop. rewrite Hsel. cbn [step_caller].
    unfold loop_unsubscribe, recv. rewrite Hb. simpl. by rewrite Htop. }
  assert (step ELoop_ack s1 = Some s2) as H2.
  { unfold step, step_loop. cbn [s_loop s1 set_loop step_caller].
    unfold loop_ack. rewrite Hd. simpl. by rewrite Hu, Hop, Hat. }
  unfold run. rewrite H1, H2. unfold step, step_loop. cbn [s_loop s2 set_loop step_caller].
  unfold loop_clean, close. rewrite Hd. simpl. rewrite lookup_insert_eq, Hc. simpl. rewrite Hop, Hco.
  do 4 eexists. split; [reflexivity |]. simpl. rewrite !lookup_insert_eq. by split_and!.
Qed.

(** The session up to the sending of the unsubscription. *)
Lemma Unsubscribe_completes_witness :
  let s := default init (run (take 12 session) init) in
  ∃ s', run [ELoop_unsubscribe; ELoop_ack; ELoop_clean] s = Some s' ∧ s_topics s' = ∅.
Proof.
  intros s.
  destruct (Unsubscribe_completes s {| t_Ch := 0; t_Name := ""; t_Done := Some 0 |} [])
    as (s' & d & u & c & Hrun & _ & _ & _ & Htop & _).
  - apply (run_reach (take 12 session)). by vm_compute.
  - by vm_compute.
  - by vm_compute.
  - exists "U1_1". by vm_compute.
  - exists s'. split; [exact Hrun |]. rewrite Htop. by vm_compute.
Defined.
