(* ===== verification/Pool.v ===== *)
(** Package pkg/workerpool: the pool of workers and its dispatcher, as a
    transition system over an arbitrary processor.

    A step is one channel operation of one goroutine: the dispatcher, a worker,
    the caller of [Stop], or the producer that feeds [receiveCh].  A step that
    cannot be made now gives [None]. *)
From S2P Require Import Prelude Chan.

(** Where a worker is: at [Pool <- w.Bench], at its [select], running its
    processor on a job, at [resultCh <- result], or it has returned. *)
Inductive WorkerAt (E V : Type) : Type :=
| AtPut
| AtSelect
| AtWork (job : E)
| AtResult (result : V)
| Left.
Arguments AtPut {E V}.
Arguments AtSelect {E V}.
Arguments AtWork {E V} job.
Arguments AtResult {E V} result.
Arguments Left {E V}.

Record Worker (E V : Type) := {
  Bench : Chan E;
  resultCh : Chan V;
  w_at : WorkerAt E V;
}.
Arguments Bench {E V} _.
Arguments resultCh {E V} _.
Arguments w_at {E V} _.
Arguments Build_Worker {E V}.

(** Where the dispatcher is: at its [select], at [<-pool.Pool], at
    [jobChan <- job], or it has returned. *)
Inductive DispatcherAt (E : Type) : Type :=
| AtReceive
| AtPool (job : E)
| AtGive (jobChan : nat) (job : E)
| Gone.
Arguments AtReceive {E}.
Arguments AtPool {E} job.
Arguments AtGive {E} jobChan job.
Arguments Gone {E}.

(** A worker's [Bench] in the pool is known by the worker's index.  [p_stop] is
    how far [Stop] is: the index of the worker whose [Quit] it sends to.  The
    last two fields are history: the jobs taken by the dispatcher and the jobs
    a processor was run on. *)
Record WorkerPool (E V : Type) := {
  p_receive : Chan E;
  p_pool : Chan nat;
  p_workers : list (Worker E V);
  p_dispatch : DispatcherAt E;
  p_done : bool;
  p_stop : option nat;
  p_taken : list E;
  p_processed : list E;
}.
Arguments p_receive {E V} _.
Arguments p_pool {E V} _.
Arguments p_workers {E V} _.
Arguments p_dispatch {E V} _.
Arguments p_done {E V} _.
Arguments p_stop {E V} _.
Arguments p_taken {E V} _.
Arguments p_processed {E V} _.
Arguments Build_WorkerPool {E V}.

Inductive PoolEvent (E : Type) : Type :=
| Feed (job : E)
| CloseFeed
| Cancel
| DispatchTake
| DispatchDone
| DispatchWait
| DispatchGive
| WorkerPut (i : nat)
| WorkerTake (i : nat)
| WorkerProcess (i : nat)
| WorkerResult (i : nat)
| WorkerQuit (i : nat)
| WorkerDone (i : nat)
| ReadResult (i : nat)
| StopCall.
Arguments Feed {E} job.
Arguments CloseFeed {E}.
Arguments Cancel {E}.
Arguments DispatchTake {E}.
Arguments DispatchDone {E}.
Arguments DispatchWait {E}.
Arguments DispatchGive {E}.
Arguments WorkerPut {E} i.
Arguments WorkerTake {E} i.
Arguments WorkerProcess {E} i.
Arguments WorkerResult {E} i.
Arguments WorkerQuit {E} i.
Arguments WorkerDone {E} i.
Arguments ReadResult {E} i.
Arguments StopCall {E}.

Section pool.
Context {E V : Type} (zero : E) (processorFunc : E → V) (captureResult : bool).
Local Abbreviation P := (WorkerPool E V).
Implicit Types p : WorkerPool E V.

Definition new_worker : Worker E V :=
  {| Bench := make_chan 1; resultCh := make_chan 1; w_at := AtPut |}.

(** [NewWorkerPool], the workers started, fed by a channel of capacity [m]. *)
Definition NewWorkerPool (poolSize m : nat) : P :=
  {| p_receive := make_chan m; p_pool := make_chan poolSize;
     p_workers := replicate poolSize new_worker; p_dispatch := AtReceive;
     p_done := false; p_stop := None; p_taken := []; p_processed := [] |}.

(** [Start] starts the workers of a new pool (they are so in [NewWorkerPool])
    and keeps their result channels; a pool without workers keeps none. *)
Definition WorkerPool_Start p : list (Chan V) :=
  match p_workers p with
  | [] => []
  | workers => resultCh <$> workers
  end.

Definition with_receive (c : Chan E) p : P :=
  {| p_receive := c; p_pool := p_pool p; p_workers := p_workers p; p_dispatch := p_dispatch p;
     p_done := p_done p; p_stop := p_stop p; p_taken := p_taken p; p_processed := p_processed p |}.
Definition with_pool (c : Chan nat) p : P :=
  {| p_receive := p_receive p; p_pool := c; p_workers := p_workers p; p_dispatch := p_dispatch p;
     p_done := p_done p; p_stop := p_stop p; p_taken := p_taken p; p_processed := p_processed p |}.
Definition with_worker (i : nat) (w : Worker E V) p : P :=
  {| p_receive := p_receive p; p_pool := p_pool p; p_workers := <[i := w]> (p_workers p);
     p_dispatch := p_dispatch p; p_done := p_done p; p_stop := p_stop p;
     p_taken := p_taken p; p_processed := p_processed p |}.
Definition with_dispatch (d : DispatcherAt E) p : P :=
  {| p_receive := p_receive p; p_pool := p_pool p; p_workers := p_workers p; p_dispatch := d;
     p_done := p_done p; p_stop := p_stop p; p_taken := p_taken p; p_processed := p_processed p |}.
Definition with_done p : P :=
  {| p_receive := p_receive p; p_pool := p_pool p; p_workers := p_workers p;
     p_dispatch := p_dispatch p; p_done := true; p_stop := p_stop p;
     p_taken := p_taken p; p_processed := p_processed p |}.
Definition with_stop (k : nat) p : P :=
  {| p_receive := p_receive p; p_pool := p_pool p; p_workers := p_workers p;
     p_dispatch := p_dispatch p; p_done := p_done p; p_stop := Some k;
     p_taken := p_taken p; p_processed := p_processed p |}.
Definition note_taken (job : E) p : P :=
  {| p_receive := p_receive p; p_pool := p_pool p; p_workers := p_workers p;
     p_dispatch := p_dispatch p; p_done := p_done p; p_stop := p_stop p;
     p_taken := p_taken p ++ [job]; p_processed := p_processed p |}.
Definition note_processed (job : E) p : P :=
  {| p_receive := p_receive p; p_pool := p_pool p; p_workers := p_workers p;
     p_dispatch := p_dispatch p; p_done := p_done p; p_stop := p_stop p;
     p_taken := p_taken p; p_processed := p_processed p ++ [job] |}.

Definition at_ (a : WorkerAt E V) (w : Worker E V) : Worker E V :=
  {| Bench := Bench w; resultCh := resultCh w; w_at := a |}.
Definition with_bench (c : Chan E) (w : Worker E V) : Worker E V :=
  {| Bench := c; resultCh := resultCh w; w_at := w_at w |}.

(** * Dispatch *)

(** [case job := <-receiveCh]: a closed channel gives the zero value. *)
Definition dispatch_take p : option P :=
  r ← goes (recv (p_receive p));
  let job := default zero r.1 in
  mret (with_dispatch (AtPool job) (note_taken job (with_receive r.2 p))).

Definition dispatch_wait (job : E) p : option P :=
  r ← goes (recv (p_pool p));
  jobChan ← r.1;
  mret (with_dispatch (AtGive jobChan job) (with_pool r.2 p)).

Definition dispatch_give (jobChan : nat) (job : E) p : option P :=
  w ← p_workers p !! jobChan;
  c ← goes (send (Bench w) job);
  mret (with_dispatch AtReceive (with_worker jobChan (with_bench c w) p)).

Definition Dispatch (e : PoolEvent E) p : option P :=
  match p_dispatch p, e with
  | AtReceive, DispatchTake => dispatch_take p
  | AtReceive, DispatchDone => if p_done p then Some (with_dispatch Gone p) else None
  | AtPool job, DispatchWait => dispatch_wait job p
  | AtGive jobChan job, DispatchGive => dispatch_give jobChan job p
  | _, _ => None
  end.

(** * Worker.Start *)

(** The deferred [close(resultCh)]. *)
Definition worker_leave (i : nat) (w : Worker E V) p : option P :=
  c ← goes (close (resultCh w));
  mret (with_worker i {| Bench := Bench w; resultCh := c; w_at := Left |} p).

(** [w.Quit <- true], without buffer: the send of the caller of [Stop] meets
    [case <-w.Quit] of the worker, which returns; the caller goes on to the next
    worker. *)
Definition Worker_Stop (i : nat) (w : Worker E V) p : option P :=
  if decide (p_stop p = Some i) then p' ← worker_leave i w p; mret (with_stop (S i) p') else None.

Definition Worker_Start (e : PoolEvent E) p : option P :=
  match e with
  | WorkerPut i =>
    w ← p_workers p !! i;
    match w_at w with
    | AtPut => c ← goes (send (p_pool p) i); mret (with_worker i (at_ AtSelect w) (with_pool c p))
    | _ => None
    end
  | WorkerTake i =>
    w ← p_workers p !! i;
    match w_at w with
    | AtSelect =>
      r ← goes (recv (Bench w));
      job ← r.1;
      mret (with_worker i (at_ (AtWork job) (with_bench r.2 w)) p)
    | _ => None
    end
  | WorkerProcess i =>
    w ← p_workers p !! i;
    match w_at w with
    | AtWork job =>
      let result := processorFunc job in
      mret (with_worker i (at_ (if captureResult then AtResult result else AtPut) w)
              (note_processed job p))
    | _ => None
    end
  | WorkerResult i =>
    w ← p_workers p !! i;
    match w_at w with
    | AtResult result =>
      c ← goes (send (resultCh w) result);
      mret (with_worker i {| Bench := Bench w; resultCh := c; w_at := AtPut |} p)
    | _ => None
    end
  | WorkerQuit i =>
    w ← p_workers p !! i;
    match w_at w with
    | AtSelect => Worker_Stop i w p
    | _ => None
    end
  | WorkerDone i =>
    w ← p_workers p !! i;
    if p_done p then
      match w_at w with
      | AtSelect | AtResult _ => worker_leave i w p
      | _ => None
      end
    else None
  | _ => None
  end.

(** * The surroundings *)

(** The producer of [receiveCh], the reader of the results, the context, and the call of [Stop], which
    then calls [Worker.Stop] of each worker in turn ([Worker_Stop]). *)
Definition surroundings (e : PoolEvent E) p : option P :=
  match e with
  | Feed job => c ← goes (send (p_receive p) job); mret (with_receive c p)
  | CloseFeed => c ← goes (close (p_receive p)); mret (with_receive c p)
  | Cancel => mret (with_done p)
  | ReadResult i =>
    w ← p_workers p !! i;
    r ← goes (recv (resultCh w));
    mret (with_worker i {| Bench := Bench w; resultCh := r.2; w_at := w_at w |} p)
  | StopCall => if decide (p_stop p = None) then Some (with_stop 0 p) else None
  | _ => None
  end.

Definition pool_step (e : PoolEvent E) p : option P :=
  match surroundings e p with
  | Some p' => Some p'
  | None => match Dispatch e p with
            | Some p' => Some p'
            | None => Worker_Start e p
            end
  end.

Definition pool_reach : P → P → Prop := rtc (λ p p', ∃ e, pool_step e p = Some p').

Fixpoint pool_run (es : list (PoolEvent E)) p : option P :=
  match es with
  | [] => Some p
  | e :: es' => match pool_step e p with Some p' => pool_run es' p' | None => None end
  end.

(** * Who holds a job, who is free *)

Definition held (w : Worker E V) : list E :=
  ch_buf (Bench w) ++ match w_at w with AtWork job => [job] | _ => [] end.

Definition held_by_dispatch (d : DispatcherAt E) : list E :=
  match d with AtPool job | AtGive _ job => [job] | _ => [] end.

Definition in_flight p : list E :=
  held_by_dispatch (p_dispatch p) ++ (p_workers p ≫= held).

Definition at_rest (w : Worker E V) : Prop := w_at w = AtSelect ∨ w_at w = Left.

(** A worker whose bench may be given away: nothing lies on it and nobody else
    will put anything there. *)
Definition free p (i : nat) : Prop :=
  ∃ w, p_workers p !! i = Some w ∧ ch_buf (Bench w) = [] ∧ at_rest w.

Record worker_ok (w : Worker E V) : Prop := {
  wo_bench : ch_cap (Bench w) = 1 ∧ ch_closed (Bench w) = false ∧ length (ch_buf (Bench w)) ≤ 1;
  wo_rest : ch_buf (Bench w) ≠ [] → at_rest w;
  wo_result : w_at w ≠ Left → ch_closed (resultCh w) = false;
}.

Record PInv (n : nat) p : Prop := {
  pi_workers : length (p_workers p) = n;
  pi_pool : ch_cap (p_pool p) = n ∧ ch_closed (p_pool p) = false;
  pi_once : NoDup (ch_buf (p_pool p));
  pi_free : ∀ i, i ∈ ch_buf (p_pool p) → free p i;
  pi_give : ∀ i job, p_dispatch p = AtGive i job → free p i ∧ (i ∉ ch_buf (p_pool p));
  pi_ok : ∀ i w, p_workers p !! i = Some w → worker_ok w;
  pi_jobs : p_taken p ≡ₚ p_processed p ++ in_flight p;
}.

Lemma workers_split (ws : list (Worker E V)) i w :
  ws !! i = Some w →
  ∃ rest, (ws ≫= held) ≡ₚ held w ++ rest ∧ ∀ w', (<[i := w']> ws ≫= held) ≡ₚ held w' ++ rest.
Proof.
  intros Hi. exists ((take i ws ≫= held) ++ (drop (S i) ws ≫= held)). split.
  - rewrite <- (take_drop_middle ws i w Hi) at 1. rewrite bind_app, bind_cons. solve_Permutation.
  - intros w'. rewrite insert_take_drop by (by eapply lookup_lt_Some).
    rewrite bind_app, bind_cons. solve_Permutation.
Qed.

Lemma PInv_init n m : PInv n (NewWorkerPool n m).
Proof.
  split; simpl; try done.
  - by rewrite length_replicate.
  - constructor.
  - by intros i ?%elem_of_nil.
  - intros i w [-> _]%lookup_replicate. split; simpl; [split_and!; [done..| lia] | done | done].
  - unfold in_flight. simpl. induction n as [|n IH]; [done |]. simpl. exact IH.
Qed.

Lemma free_other p i k w : free p k → k ≠ i → free (with_worker i w p) k.
Proof. intros (v & ? & ?) ?. exists v. simpl. by rewrite list_lookup_insert_ne. Qed.

Lemma free_this p i w0 w :
  p_workers p !! i = Some w0 → ch_buf (Bench w) = [] → at_rest w → free (with_worker i w p) i.
Proof.
  intros Hi%lookup_lt_Some ? ?. exists w. simpl. by rewrite list_lookup_insert_eq.
Qed.

(** A worker changes; what holds of the pool, the dispatcher and the benches is
    said for the one that changes. *)
Lemma PInv_worker n p p' i w w' :
  PInv n p → p_workers p !! i = Some w →
  p_workers p' = <[i := w']> (p_workers p) →
  p_taken p' = p_taken p →
  ch_cap (p_pool p') = ch_cap (p_pool p) ∧ ch_closed (p_pool p') = ch_closed (p_pool p) →
  NoDup (ch_buf (p_pool p')) →
  (∀ k, k ∈ ch_buf (p_pool p') → k ≠ i → k ∈ ch_buf (p_pool p)) →
  (i ∈ ch_buf (p_pool p') → ch_buf (Bench w') = [] ∧ at_rest w') →
  (∀ k job, p_dispatch p' = AtGive k job →
     p_dispatch p = AtGive k job ∧ (k ∉ ch_buf (p_pool p')) ∧
     (k = i → ch_buf (Bench w') = [] ∧ at_rest w')) →
  worker_ok w' →
  (∃ l, p_processed p' ≡ₚ p_processed p ++ l ∧
     held_by_dispatch (p_dispatch p) ++ held w ≡ₚ l ++ held_by_dispatch (p_dispatch p') ++ held w') →
  PInv n p'.
Proof.
  intros [Hn [? ?] ? Hf Hg Hok Hj] Hi Hw Ht [Hcap Hcl] Hnd Hin Hi' Hd Hok' (l & Hp & Hh).
  assert (Hfree : ∀ k, free p k → (k = i → ch_buf (Bench w') = [] ∧ at_rest w') → free p' k).
  { intros k Hk Hki. destruct (decide (k = i)) as [->|Hne].
    - destruct (Hki eq_refl). exists w'. rewrite Hw. split; [| done].
      apply list_lookup_insert_eq. by eapply lookup_lt_Some.
    - destruct Hk as (v & ? & ?). exists v. by rewrite Hw, list_lookup_insert_ne. }
  split.
  - by rewrite Hw, length_insert.
  - by rewrite Hcap, Hcl.
  - done.
  - intros k Hk. destruct (decide (k = i)) as [->|Hne].
    + destruct (Hi' Hk). exists w'. rewrite Hw. split; [| done].
      apply list_lookup_insert_eq. by eapply lookup_lt_Some.
    + apply Hfree; [apply Hf; auto | done].
  - intros k job Hk. destruct (Hd k job Hk) as (Hk' & ? & ?).
    destruct (Hg k job Hk'). split; [by apply Hfree | done].
  - intros k v Hk. rewrite Hw in Hk.
    apply list_lookup_insert_Some in Hk as [(-> & -> & _)|[_ Hk]]; [done | by eapply Hok].
  - destruct (workers_split _ _ _ Hi) as (rest & Hr & Hr').
    rewrite Ht, Hj, Hp. unfold in_flight. rewrite Hw, Hr, (Hr' w').
    transitivity (p_processed p ++ (held_by_dispatch (p_dispatch p) ++ held w) ++ rest);
      [solve_Permutation |]. rewrite Hh. solve_Permutation.
Qed.

Lemma PInv_surroundings n e p p' : surroundings e p = Some p' → PInv n p → PInv n p'.
Proof.
  intros H HI. destruct e; simpl in H; try done.
  - apply bind_Some in H as (c & _ & [= <-]). by destruct HI.
  - apply bind_Some in H as (c & _ & [= <-]). by destruct HI.
  - injection H as <-. by destruct HI.
  - apply bind_Some in H as (w & Hw & H). apply bind_Some in H as ([r c] & Hr & [= <-]).
    apply goes_recv in Hr as (_ & Hc & _). pose proof (pi_ok n p HI _ _ Hw) as [? ? Hres].
    eapply (PInv_worker n p _ i); try done; try apply HI.
    + intros k. by destruct (pi_free n p HI i k) as (v & Hv & ?); simplify_eq.
    + intros k job Hk. destruct (pi_give n p HI k job Hk) as [(v & Hv & ?) ?].
      split_and!; [done.. |]. intros ->. by simplify_eq.
    + split; simpl; [done.. |]. by rewrite Hc.
    + exists []. by rewrite app_nil_r.
  - case_decide; simplify_eq. by destruct HI.
Qed.

(** Whoever is in the pool or in the dispatcher's hand is free; so a worker that
    is busy, or has a job on its bench, is in neither. *)
Lemma busy_not_pool n p i w :
  PInv n p → p_workers p !! i = Some w → ch_buf (Bench w) ≠ [] ∨ ¬ at_rest w →
  (i ∉ ch_buf (p_pool p)) ∧ ∀ job, p_dispatch p ≠ AtGive i job.
Proof.
  intros HI Hw Hb. split.
  - intros Hin. destruct (pi_free n p HI i Hin) as (v & Hv & ? & ?). simplify_eq. tauto.
  - intros job Hd. destruct (pi_give n p HI i job Hd) as [(v & Hv & ? & ?) _]. simplify_eq. tauto.
Qed.

Lemma PInv_Dispatch n e p p' : Dispatch e p = Some p' → PInv n p → PInv n p'.
Proof.
  unfold Dispatch. intros H HI. destruct (p_dispatch p) as [|job|k job|] eqn:Hd; destruct e; try done.
  - apply bind_Some in H as ([r c] & _ & [= <-]).
    destruct HI as [? ? ? ? ? ? Hj]. split; simpl; try done. unfold in_flight in *. simpl in *.
    rewrite Hd in Hj. rewrite Hj. simpl. solve_Permutation.
  - destruct (p_done p); simplify_eq. destruct HI as [? ? ? ? ? ? Hj]. split; simpl; try done.
    unfold in_flight in *. simpl in *. by rewrite Hd in Hj.
  - apply bind_Some in H as ([r c] & Hr & H). apply bind_Some in H as (k & Hk & [= <-]).
    simpl in Hk. subst r. apply goes_recv in Hr as (Hcap & Hcl & Hb).
    destruct HI as [? [? ?] Hnd Hf Hg ? Hj]. rewrite Hb in *. apply NoDup_cons in Hnd as [Hnin ?].
    split; simpl; try done.
    + by rewrite Hcap, Hcl.
    + intros i Hi. apply Hf. by right.
    + intros i j [= <- <-]. split; [apply Hf; by left | done].
    + unfold in_flight in *. simpl in *. by rewrite Hd in Hj.
  - apply bind_Some in H as (w & Hw & H). apply bind_Some in H as (c & Hc & [= <-]).
    apply goes_send in Hc as (Hcap & Hcl & Hop & Hlen & Hb).
    destruct (pi_give n p HI k job Hd) as [(v & Hv & Hbe & Hat) Hnin]. simplify_eq.
    pose proof (pi_ok n p HI _ _ Hw) as [(Hc1 & _ & _) ? ?].
    eapply (PInv_worker n p _ k); try done; try apply HI.
    + split; simpl; [| done..]. split_and!; [by rewrite Hcap | by rewrite Hcl |].
      rewrite Hb, Hbe. simpl. lia.
    + exists []. rewrite app_nil_r. split; [done |]. rewrite Hd. unfold held. simpl.
      rewrite Hb, Hbe. simpl. destruct (w_at w); solve_Permutation.
Qed.

(** A worker that is busy changes. *)
Lemma PInv_busy n p p' i w w' :
  PInv n p → p_workers p !! i = Some w → ch_buf (Bench w) ≠ [] ∨ ¬ at_rest w →
  p_workers p' = <[i := w']> (p_workers p) → p_pool p' = p_pool p →
  p_dispatch p' = p_dispatch p → p_taken p' = p_taken p → worker_ok w' →
  (∃ l, p_processed p' ≡ₚ p_processed p ++ l ∧ held w ≡ₚ l ++ held w') →
  PInv n p'.
Proof.
  intros HI Hw Hb Hws Hp Hd Ht Hok (l & Hl & Hh).
  destruct (busy_not_pool n p i w HI Hw Hb) as [Hin Hgive].
  eapply (PInv_worker n p p' i); try done; rewrite ?Hp, ?Hd; try done; try apply HI.
  - intros k job Hk. destruct (pi_give n p HI k job Hk) as [_ ?]. split_and!; [done.. |].
    intros ->. by apply Hgive in Hk.
  - exists l. split; [done |]. rewrite Hh. solve_Permutation.
Qed.

Lemma bench_empty w : worker_ok w → ¬ at_rest w → ch_buf (Bench w) = [].
Proof.
  intros [_ Hr _] Hat. destruct (ch_buf (Bench w)); [done |]. by destruct Hat; apply Hr.
Qed.

Lemma PInv_leave n p p' i w :
  worker_leave i w p = Some p' → p_workers p !! i = Some w →
  (w_at w = AtSelect ∨ ∃ r, w_at w = AtResult r) → PInv n p → PInv n p'.
Proof.
  intros H Hw Hat HI. apply bind_Some in H as (c & _ & [= <-]).
  pose proof (pi_ok n p HI _ _ Hw) as [? ? ?].
  eapply (PInv_worker n p _ i); try done; try apply HI.
  - intros Hin. destruct (pi_free n p HI i Hin) as (v & Hv & ? & ?). simplify_eq.
    split; [done | by right].
  - intros k job Hk. destruct (pi_give n p HI k job Hk) as [(v & Hv & ? & ?) ?].
    split_and!; [done.. |]. intros ->. simplify_eq. split; [done | by right].
  - split; simpl; [done | by right | done].
  - exists []. rewrite app_nil_r. split; [done |]. unfold held. simpl.
    by destruct Hat as [-> |[r ->]].
Qed.

Lemma PInv_Worker n e p p' : Worker_Start e p = Some p' → PInv n p → PInv n p'.
Proof.
  intros H HI. destruct e; try done; simpl in H; apply bind_Some in H as (w & Hw & H);
    pose proof (pi_ok n p HI _ _ Hw) as Hok.
  - destruct (w_at w) eqn:Hat; try done. apply bind_Some in H as (c & Hc & [= <-]).
    apply goes_send in Hc as (Hcap & Hcl & _ & _ & Hb).
    assert (Hnr : ¬ at_rest w) by (unfold at_rest; rewrite Hat; by intros []).
    destruct (busy_not_pool n p i w HI Hw) as [Hin Hgive]; [by right |].
    pose proof (bench_empty w Hok Hnr) as Hbe.
    eapply (PInv_worker n p _ i); try done; simpl; rewrite ?Hb.
    + apply NoDup_app. split_and!; [apply HI | | apply NoDup_singleton].
      by intros k ? ->%list_elem_of_singleton.
    + by intros k [?|?%list_elem_of_singleton]%elem_of_app.
    + intros _. split; [done | by left].
    + intros k job Hk. destruct (pi_give n p HI k job Hk) as [_ ?].
      assert (k ≠ i) by (intros ->; by apply Hgive in Hk).
      split_and!; [done | | done]. by intros [?|?%list_elem_of_singleton]%elem_of_app.
    + destruct Hok as [? ? Hres]. split; simpl; [done | by left |]. intros _. apply Hres.
      by rewrite Hat.
    + exists []. rewrite app_nil_r. split; [done |]. unfold held. simpl. by rewrite Hat.
  - destruct (w_at w) eqn:Hat; try done. apply bind_Some in H as ([r c] & Hr & H).
    apply bind_Some in H as (job & Hj & [= <-]). simpl in Hj. subst r.
    apply goes_recv in Hr as (Hcap & Hcl & Hb). destruct Hok as [(? & ? & Hlen) ? Hres].
    rewrite Hb in Hlen. simpl in Hlen. assert (ch_buf c = []) as Hc by (destruct (ch_buf c); [done | simpl in *; lia]).
    eapply (PInv_busy n p _ i w); try done; [left; by rewrite Hb | |].
    + split; simpl; [| by rewrite Hc |].
      * rewrite Hcap, Hcl, Hc. split_and!; [done.. | simpl; lia].
      * intros _. apply Hres. by rewrite Hat.
    + exists []. rewrite app_nil_r. split; [done |]. unfold held. simpl. by rewrite Hb, Hc, Hat.
  - destruct (w_at w) as [| |job| |] eqn:Hat; try done. injection H as <-.
    assert (Hnr : ¬ at_rest w) by (unfold at_rest; rewrite Hat; by intros []).
    pose proof (bench_empty w Hok Hnr) as Hbe. destruct Hok as [? ? Hres].
    eapply (PInv_busy n p _ i w); try done; [by right | |].
    + split; simpl; [done | by rewrite Hbe |]. intros _. apply Hres. by rewrite Hat.
    + exists [job]. split; [done |]. unfold held. simpl. rewrite Hbe, Hat. by destruct captureResult.
  - destruct (w_at w) as [| | |v|] eqn:Hat; try done. apply bind_Some in H as (c & Hc & [= <-]).
    apply goes_send in Hc as (_ & Hcl & Hop & _).
    assert (Hnr : ¬ at_rest w) by (unfold at_rest; rewrite Hat; by intros []).
    pose proof (bench_empty w Hok Hnr) as Hbe. destruct Hok as [? ? Hres].
    eapply (PInv_busy n p _ i w); try done; [by right | |].
    + split; simpl; [done | by rewrite Hbe |]. by rewrite Hcl.
    + exists []. rewrite app_nil_r. split; [done |]. unfold held. simpl. by rewrite Hbe, Hat.
  - destruct (w_at w) eqn:Hat; try done. unfold Worker_Stop in H. case_decide; [| done].
    apply bind_Some in H as (p1 & H & [= <-]).
    eapply PInv_leave in H; [by destruct H | done | by left | done].
  - destruct (p_done p); [| done].
    destruct (w_at w) eqn:Hat; try done; (eapply PInv_leave in H; [done | done | rewrite Hat; eauto | done]).
Qed.

Lemma PInv_step n e p p' : pool_step e p = Some p' → PInv n p → PInv n p'.
Proof.
  unfold pool_step. destruct (surroundings e p) eqn:Hs; [| destruct (Dispatch e p) eqn:Hd].
  - intros [= <-]. by eapply PInv_surroundings.
  - intros [= <-]. by eapply PInv_Dispatch.
  - by apply PInv_Worker.
Qed.

Lemma pool_reach_Inv n m p : pool_reach (NewWorkerPool n m) p → PInv n p.
Proof.
  assert (∀ p0 p, pool_reach p0 p → PInv n p0 → PInv n p) as Hk.
  { induction 1 as [|p1 p2 p3 [e He] _ IH]; [done |]. intros. eapply IH, PInv_step; done. }
  intros Hr. eapply Hk, PInv_init. done.
Qed.

Lemma NoDup_indices_room n (l : list nat) i :
  NoDup l → (∀ k, k ∈ l → k < n) → i < n → i ∉ l → length l < n.
Proof.
  intros Hnd Hl Hi Hin.
  assert (length (i :: l) ≤ length (seq 0 n)) as Hlen.
  { apply submseteq_length, NoDup_submseteq; [by constructor |].
    intros k [->|Hk]%elem_of_cons; apply elem_of_seq; [lia | apply Hl in Hk; lia]. }
  rewrite length_seq in Hlen. simpl in Hlen. lia.
Qed.

(** What a worker that is at [Pool <- w.Bench] finds. *)
Lemma pool_room n p i w :
  PInv n p → p_workers p !! i = Some w → w_at w = AtPut →
  length (ch_buf (p_pool p)) < n.
Proof.
  intros HI Hw Hat. apply (NoDup_indices_room n _ i); [apply HI | | |].
  - intros k (v & Hv%lookup_lt_Some & _)%(pi_free n p HI). by rewrite <- (pi_workers n p HI).
  - rewrite <- (pi_workers n p HI). by eapply lookup_lt_Some.
  - eapply busy_not_pool; [done.. |]. right. unfold at_rest. rewrite Hat. by intros [].
Qed.
End pool.

Arguments pool_reach {E V} zero processorFunc captureResult.
Arguments pool_run {E V} zero processorFunc captureResult.
Arguments pool_step {E V} zero processorFunc captureResult.

(** * Properties *)

(** (C25) However the goroutines interleave, every job the dispatcher took is in
    exactly one place: it has been given to the processor, or it is in the
    dispatcher's hand, on the bench of one worker or being processed by one.  So
    no job is lost or processed twice while the workers run. *)
Theorem pool_exactly_once {E V} zero (f : E → V) capture n m p :
  pool_reach zero f capture (NewWorkerPool n m) p →
  p_taken p ≡ₚ p_processed p ++ in_flight p.
Proof. intros Hr. eapply pi_jobs, pool_reach_Inv, Hr. Qed.

(** The pool of the program, of one worker without results, given two jobs. *)
Definition pool_session : list (PoolEvent nat) :=
  [Feed 7; WorkerPut 0; DispatchTake; Feed 8; DispatchWait; DispatchGive; DispatchTake;
   WorkerTake 0; WorkerProcess 0; WorkerPut 0; DispatchWait].

Definition pool_state : WorkerPool nat nat :=
  default (NewWorkerPool 1 1) (pool_run 0 S false pool_session (NewWorkerPool 1 1)).

Lemma pool_run_reach {E V} zero (f : E → V) capture es p p' :
  pool_run zero f capture es p = Some p' → pool_reach zero f capture p p'.
Proof.
  revert p. induction es as [|e es IH]; intros p H; simpl in H; [by simplify_eq |].
  destruct (pool_step zero f capture e p) as [p1|] eqn:He; [| done].
  eapply rtc_l; [by exists e | by apply IH].
Qed.

Lemma pool_state_reach : pool_reach 0 S false (NewWorkerPool 1 1) pool_state.
Proof. apply (pool_run_reach 0 S false pool_session). by vm_compute. Qed.

Lemma pool_exactly_once_witness :
  p_processed pool_state = [7] ∧ in_flight pool_state = [8] ∧
  p_taken pool_state ≡ₚ p_processed pool_state ++ in_flight pool_state.
Proof.
  split; [by vm_compute |]. split; [by vm_compute |].
  apply (pool_exactly_once 0 S false 1 1). apply pool_state_reach.
Defined.

(** The channels of the pool are large enough: the dispatcher that holds a
    bench can always put its job there, and a worker that is ready can always
    put its bench back, so neither waits on the other; and a worker that is
    told to leave can close its results. *)
Theorem pool_never_blocks {E V} zero (f : E → V) capture n m p :
  pool_reach zero f capture (NewWorkerPool n m) p →
  (∀ k job, p_dispatch p = AtGive k job →
     ∃ p', Dispatch zero DispatchGive p = Some p' ∧ p_dispatch p' = AtReceive) ∧
  (∀ i w, p_workers p !! i = Some w → w_at w = AtPut →
     ∃ p', Worker_Start f capture (WorkerPut i) p = Some p' ∧ (i ∈ ch_buf (p_pool p'))) ∧
  (∀ i w, p_workers p !! i = Some w → w_at w ≠ Left → is_Some (worker_leave i w p)).
Proof.
  intros HI%pool_reach_Inv. split_and!.
  - intros k job Hd. unfold Dispatch. rewrite Hd.
    destruct (pi_give n p HI k job Hd) as [(w & Hw & Hb & _) _].
    destruct (pi_ok n p HI _ _ Hw) as [(Hcap & Hop & _) _ _].
    unfold dispatch_give. rewrite Hw. simpl. unfold send. rewrite Hop, Hb, Hcap. simpl. eauto.
  - intros i w Hw Hat. pose proof (pool_room zero f n p i w HI Hw Hat) as Hroom.
    destruct (pi_pool n p HI) as [Hcap Hop]. unfold Worker_Start. rewrite Hw. simpl. rewrite Hat.
    unfold send. rewrite Hop, Hcap, decide_True by done. simpl.
    eexists. split; [done |]. simpl. set_solver.
  - intros i w Hw Hat. destruct (pi_ok n p HI _ _ Hw) as [_ _ Hres].
    unfold worker_leave, close. rewrite Hres by done. by eexists.
Qed.

Lemma pool_never_blocks_witness :
  p_dispatch pool_state = AtGive 0 8 ∧
  ∃ p', Dispatch 0 DispatchGive pool_state = Some p' ∧ p_dispatch p' = AtReceive.
Proof.
  split; [by vm_compute |].
  destruct (pool_never_blocks 0 S false 1 1 pool_state pool_state_reach) as [H _].
  by apply (H 0 8).
Defined.

(** When its source is closed, the dispatcher does not stop: it goes on handing
    out the zero job, as often as you like. *)
Definition spin {E} : list (PoolEvent E) :=
  [DispatchTake; DispatchWait; DispatchGive; WorkerTake 0; WorkerProcess 0; WorkerPut 0].

Definition spun {E V} (zero : E) (k : nat) : WorkerPool E V :=
  {| p_receive := {| ch_cap := 1; ch_buf := []; ch_closed := true |};
     p_pool := {| ch_cap := 1; ch_buf := [0]; ch_closed := false |};
     p_workers := [{| Bench := make_chan 1; resultCh := make_chan 1; w_at := AtSelect |}];
     p_dispatch := AtReceive; p_done := false; p_stop := None;
     p_taken := replicate k zero; p_processed := replicate k zero |}.

Lemma spin_step {E V} (zero : E) (f : E → V) k :
  pool_run zero f false spin (spun zero k) = Some (spun zero (S k)).
Proof. unfold spun. rewrite (replicate_S_end k zero). reflexivity. Qed.

Theorem Dispatch_spins {E V} (zero : E) (f : E → V) k :
  pool_reach zero f false (NewWorkerPool 1 1) (spun zero k).
Proof.
  induction k as [|k IH].
  - apply (pool_run_reach zero f false [CloseFeed; WorkerPut 0]). reflexivity.
  - unfold pool_reach in *. etrans; [exact IH |]. eapply (pool_run_reach zero f false spin), spin_step.
Qed.
