(* ===== verification/PoolDrain.v ===== *)
(** The pool of Pool.v does its work: when its source stays open and nobody
    cancels or stops it, the steps of the dispatcher and the workers come to an
    end, and then every job has been processed. *)
From S2P Require Import Prelude Chan Pool.

(** The steps the goroutines of the pool make by themselves. *)
Definition internal {E} (e : PoolEvent E) : bool :=
  match e with
  | DispatchTake | DispatchWait | DispatchGive
  | WorkerPut _ | WorkerTake _ | WorkerProcess _ | WorkerResult _ => true
  | _ => false
  end.

(** * Work left *)

Definition worker_work {E V} (w : Worker E V) : nat :=
  4 * length (ch_buf (Bench w)) +
  match w_at w with AtWork _ => 3 | AtResult _ => 2 | AtPut => 1 | AtSelect | Left => 0 end.

Definition dispatcher_work {E} (d : DispatcherAt E) : nat :=
  match d with AtPool _ => 7 | AtGive _ _ => 6 | AtReceive | Gone => 0 end.

Definition work {E V} (p : WorkerPool E V) : nat :=
  10 * length (ch_buf (p_receive p)) + dispatcher_work (p_dispatch p)
  + sum_list_with worker_work (p_workers p).

Section drain.
Context {E V : Type} (zero : E) (f : E → V).
Implicit Types p : WorkerPool E V.

Context (capture : bool).

#[local] Abbreviation pool_step := (pool_step zero f capture).
#[local] Abbreviation reach := (pool_reach zero f capture).

(** The internal steps, by what they change. *)
Inductive change p : WorkerPool E V → Prop :=
| change_take r c :
    p_dispatch p = AtReceive → goes (recv (p_receive p)) = Some (r, c) →
    change p (with_dispatch (AtPool (default zero r)) (note_taken (default zero r) (with_receive c p)))
| change_wait job k c :
    p_dispatch p = AtPool job → goes (recv (p_pool p)) = Some (Some k, c) →
    change p (with_dispatch (AtGive k job) (with_pool c p))
| change_give k job w c :
    p_dispatch p = AtGive k job → p_workers p !! k = Some w → goes (send (Bench w) job) = Some c →
    change p (with_dispatch AtReceive (with_worker k (with_bench c w) p))
| change_put i w c :
    p_workers p !! i = Some w → w_at w = AtPut → goes (send (p_pool p) i) = Some c →
    change p (with_worker i (at_ AtSelect w) (with_pool c p))
| change_start i w job c :
    p_workers p !! i = Some w → w_at w = AtSelect → goes (recv (Bench w)) = Some (Some job, c) →
    change p (with_worker i (at_ (AtWork job) (with_bench c w)) p)
| change_process i w job :
    p_workers p !! i = Some w → w_at w = AtWork job →
    change p (with_worker i (at_ (if capture then AtResult (f job) else AtPut) w)
                (note_processed job p))
| change_result i w v c :
    p_workers p !! i = Some w → w_at w = AtResult v → goes (send (resultCh w) v) = Some c →
    change p (with_worker i {| Bench := Bench w; resultCh := c; w_at := AtPut |} p).

Lemma Dispatch_change e p p' :
  internal e = true → Dispatch zero e p = Some p' → change p p'.
Proof.
  unfold Dispatch, dispatch_take, dispatch_wait, dispatch_give. intros Hi H.
  destruct (p_dispatch p) eqn:Hd, e; try done; unpack H;
    repeat match goal with x : _ * _ |- _ => destruct x end; simpl in *; subst;
    by econstructor.
Qed.

Lemma Worker_change e p p' :
  internal e = true → Worker_Start f capture e p = Some p' → change p p'.
Proof.
  unfold Worker_Start. intros Hi H. destruct e; try done; unpack H;
    repeat match goal with x : _ * _ |- _ => destruct x end; simpl in *; subst;
    by econstructor.
Qed.

Lemma internal_change e p p' : internal e = true → pool_step e p = Some p' → change p p'.
Proof.
  intros Hi. unfold Pool.pool_step. destruct (surroundings e p) eqn:Hs; [by destruct e |].
  destruct (Dispatch zero e p) eqn:Hd; [intros [= <-]; by eapply Dispatch_change |].
  by apply Worker_change.
Qed.

(** Every internal step leaves less work. *)
Lemma work_decreases p p' :
  ch_closed (p_receive p) = false → change p p' →
  work p' < work p ∧ ch_closed (p_receive p') = false.
Proof.
  intros Ho H.
  assert (Hworker : ∀ p1 i w w', p_workers p !! i = Some w →
    p_workers p1 = <[i := w']> (p_workers p) → p_receive p1 = p_receive p →
    dispatcher_work (p_dispatch p1) + worker_work w'
      < dispatcher_work (p_dispatch p) + worker_work w →
    work p1 < work p ∧ ch_closed (p_receive p1) = false).
  { intros p1 i w w' Hw Hws Hr Hlt. unfold work. rewrite Hws, Hr. split; [| done].
    pose proof (sum_insert worker_work _ i w w' Hw). lia. }
  destruct H as [r c Hd Hr|job k c Hd Hr|k job w c Hd Hw Hs|i w c Hw Hat Hs|i w job c Hw Hat Hr
    |i w job Hw Hat|i w v c Hw Hat Hs].
  - apply goes_recv in Hr as (_ & Hc & Hb). destruct r as [x|]; [| destruct Hb; congruence].
    unfold work. simpl. rewrite Hb, Hd. simpl. split; [lia | congruence].
  - unfold work. simpl. rewrite Hd. simpl. split; [lia | done].
  - apply goes_send in Hs as (_ & _ & _ & _ & Hb). eapply Hworker; [exact Hw | done | done |].
    unfold worker_work. simpl. rewrite Hd, Hb, length_app. simpl. lia.
  - eapply Hworker; [exact Hw | done | done |]. unfold worker_work. simpl. rewrite Hat. lia.
  - apply goes_recv in Hr as (_ & _ & Hb). eapply Hworker; [exact Hw | done | done |].
    unfold worker_work. simpl. rewrite Hat, Hb. simpl. lia.
  - eapply Hworker; [exact Hw | done | done |]. unfold worker_work. simpl. rewrite Hat.
    destruct capture; lia.
  - eapply Hworker; [exact Hw | done | done |]. unfold worker_work. simpl. rewrite Hat. lia.
Qed.

(** * No bench is mislaid

    Until the pool is cancelled or stopped the dispatcher and every worker are
    there, results are handed over only if they are wanted, and a worker that waits with an empty bench has put its bench in the
    pool, or the dispatcher has it in its hand. *)
Definition at_post (w : Worker E V) : Prop :=
  match w_at w with Left => False | AtResult _ => capture = true | _ => True end.

Record Tended p : Prop := {
  tn_dispatch : p_dispatch p ≠ Gone;
  tn_post : ∀ i w, p_workers p !! i = Some w → at_post w;
  tn_bench : ∀ i w, p_workers p !! i = Some w → w_at w = AtSelect → ch_buf (Bench w) = [] →
    i ∈ ch_buf (p_pool p) ∨ ∃ job, p_dispatch p = AtGive i job;
}.

(** One worker changes. *)
Lemma Tended_worker p p' i w' :
  Tended p → p_workers p' = <[i := w']> (p_workers p) → p_dispatch p' ≠ Gone → at_post w' →
  (∀ k, k ∈ ch_buf (p_pool p) → k ∈ ch_buf (p_pool p')) →
  (∀ k job, k ≠ i → p_dispatch p = AtGive k job → p_dispatch p' = AtGive k job) →
  (w_at w' = AtSelect → ch_buf (Bench w') = [] →
    i ∈ ch_buf (p_pool p') ∨ ∃ job, p_dispatch p' = AtGive i job) →
  Tended p'.
Proof.
  intros [Hd Hl Hb] Hws Hd' Hl' Hpool Hgive Hi. split; [done | |].
  - intros k w. rewrite Hws. intros [(_ & <- & _)|[_ Hk]]%list_lookup_insert_Some; [done | by eapply Hl].
  - intros k w. rewrite Hws. intros [(<- & <- & _)|[Hne Hk]]%list_lookup_insert_Some; [done |].
    intros Hat Hbe. destruct (Hb k w Hk Hat Hbe) as [?|[job Hj]]; [left; auto | right].
    exists job. by apply Hgive.
Qed.

Lemma Tended_change p p' : Tended p → change p p' → Tended p'.
Proof.
  intros HT [r c Hd Hr|job k c Hd Hr|k job w c Hd Hw Hs|i w c Hw Hat Hs|i w job c Hw Hat Hr
    |i w job Hw Hat|i w v c Hw Hat Hs].
  - destruct HT as [? Hl Hb]. split; simpl; try done.
    intros i w Hi Hat Hbe. destruct (Hb i w Hi Hat Hbe) as [?|[j Hj]]; [by left | congruence].
  - apply goes_recv in Hr as (_ & _ & Hb). destruct HT as [? Hl Hbench]. split; simpl; try done.
    intros i w Hi Hat Hbe. destruct (Hbench i w Hi Hat Hbe) as [Hin|[j Hj]]; [| congruence].
    rewrite Hb in Hin. apply elem_of_cons in Hin as [->|]; [right; by eexists | by left].
  - pose proof (tn_post p HT k w Hw). apply goes_send in Hs as (_ & _ & _ & _ & Hb).
    eapply Tended_worker; try done; simpl.
    + intros i j Hne. rewrite Hd. intros [= <- _]. done.
    + intros _. rewrite Hb. by intros [_ ?]%app_eq_nil.
  - apply goes_send in Hs as (_ & _ & _ & _ & Hb).
    eapply Tended_worker; try done; simpl; [by apply HT | |].
    + intros k Hk. rewrite Hb. apply elem_of_app. by left.
    + intros _ _. left. rewrite Hb. apply elem_of_app. right. by left.
  - eapply Tended_worker; try done. by apply HT.
  - eapply Tended_worker; try done; [by apply HT | |]; unfold at_post; simpl;
      by destruct capture.
  - eapply Tended_worker; try done. by apply HT.
Qed.

Lemma change_flags p p' : change p p' → p_done p' = p_done p ∧ p_stop p' = p_stop p.
Proof. by intros []. Qed.

(** Only a cancellation or [Stop] makes anyone leave. *)
Lemma leave_flags e p p' :
  internal e = false → Dispatch zero e p = Some p' ∨ Worker_Start f capture e p = Some p' →
  p_done p' = true ∨ p_stop p' ≠ None.
Proof.
  unfold Dispatch, Worker_Start, Worker_Stop, worker_leave. intros Hi [H|H].
  - destruct (p_dispatch p), e; try discriminate; unpack H; simpl; auto.
  - destruct e; try discriminate; unpack H; simpl; auto.
Qed.

(** The surroundings leave the benches alone. *)
Lemma surroundings_Tended e p p' :
  surroundings e p = Some p' → p_done p' = false → p_stop p' = None →
  p_done p = false ∧ p_stop p = None ∧ (Tended p → Tended p').
Proof.
  intros H Hdone Hstop. destruct e; simpl in H; try done; unpack H; simpl in *; try done;
    split_and!; try done; intros HT.
  - by destruct HT.
  - by destruct HT.
  - match goal with Hw : p_workers p !! i = Some ?w |- _ =>
      eapply Tended_worker; try done; simpl;
        [by apply HT | exact (tn_post p HT i w Hw) | exact (tn_bench p HT i w Hw)]
    end.
Qed.

Lemma Tended_step e p p' :
  pool_step e p = Some p' → p_done p' = false → p_stop p' = None →
  p_done p = false ∧ p_stop p = None ∧ (Tended p → Tended p').
Proof.
  intros H Hdone Hstop. destruct (internal e) eqn:Hi.
  { apply internal_change in H; [| done]. destruct (change_flags _ _ H). split_and!; [congruence.. |].
    intros HT. by eapply Tended_change. }
  unfold Pool.pool_step in H. destruct (surroundings e p) as [p1|] eqn:Hs.
  { injection H as ->. by eapply surroundings_Tended. }
  assert (Hor : Dispatch zero e p = Some p' ∨ Worker_Start f capture e p = Some p').
  { destruct (Dispatch zero e p); [left | right]; congruence. }
  apply leave_flags in Hor as [?|?]; [congruence | done | done].
Qed.

Lemma Tended_init n m : Tended (NewWorkerPool n m).
Proof.
  split; simpl; [done | |]; intros i w [-> _]%lookup_replicate; [done | by intros ?].
Qed.

Lemma reach_Tended n m p :
  reach (NewWorkerPool n m) p → p_done p = false → p_stop p = None → Tended p.
Proof.
  intros Hr. revert p Hr. apply (rtc_ind_r (λ p, p_done p = false → p_stop p = None → Tended p)).
  - intros _ _. apply Tended_init.
  - intros p p' _ [e He] IH Hd Hs. destruct (Tended_step e p p' He Hd Hs) as (? & ? & HT). auto.
Qed.

(** * Progress *)

(** A worker that has something to do, and what it does. *)
Definition ready (w : Worker E V) : bool :=
  match w_at w with
  | AtPut | AtWork _ => true
  | AtSelect => negb (bool_decide (length (ch_buf (Bench w)) = 0))
  | _ => false
  end.

Lemma ready_steps n p i w :
  PInv n p → p_workers p !! i = Some w → ready w = true → ∃ p', change p p'.
Proof.
  intros HI Hw. unfold ready. destruct (w_at w) as [| |job| |] eqn:Hat; try done; intros Hr.
  - pose proof (pool_room zero f n p i w HI Hw Hat) as Hroom. destruct (pi_pool n p HI) as [Hcap Hop].
    eexists. eapply change_put; [done | done |]. unfold send. rewrite Hop, Hcap.
    by rewrite decide_True.
  - destruct (ch_buf (Bench w)) as [|job l] eqn:Hb; [done |].
    eexists. eapply change_start; [done | done |]. unfold recv. by rewrite Hb.
  - eexists. by eapply change_process.
Qed.

(** Either somebody can move, or nothing is left to do. *)
Lemma progress n p :
  capture = false → 0 < n → PInv n p → Tended p → ch_closed (p_receive p) = false →
  (∃ p', change p p') ∨ (ch_buf (p_receive p) = [] ∧ in_flight p = []).
Proof.
  intros Hcapt Hn HI HT Ho.
  destruct (decide (Exists (λ w, ready w = true) (p_workers p))) as [Hex|Hidle].
  { left. apply Exists_exists in Hex as (w & Hin & Hr). apply list_elem_of_lookup in Hin as [i Hi].
    by eapply ready_steps. }
  assert (Hrest : ∀ i w, p_workers p !! i = Some w → w_at w = AtSelect ∧ ch_buf (Bench w) = []).
  { intros i w Hi. rewrite <- Forall_Exists_neg, Forall_lookup in Hidle.
    specialize (Hidle i w Hi). pose proof (tn_post p HT i w Hi) as Hat. unfold ready, at_post in *.
    destruct (w_at w); try congruence; try done. split; [done |]. by destruct (ch_buf (Bench w)). }
  destruct (p_dispatch p) as [|job|k job|] eqn:Hd.
  - destruct (ch_buf (p_receive p)) as [|job l] eqn:Hb.
    + right. split; [done |]. unfold in_flight. rewrite Hd. simpl.
      assert (Hheld : Forall (λ w, held w = []) (p_workers p)).
      { apply Forall_lookup. intros i w Hi. destruct (Hrest i w Hi) as [Hat Hbe].
        unfold held. by rewrite Hat, Hbe. }
      clear -Hheld. induction Hheld as [|w ws Hw _ IH]; [done |]. simpl. by rewrite Hw.
    + left. eexists. eapply change_take; [done |]. unfold recv. by rewrite Hb.
  - left. destruct (lookup_lt_is_Some_2 (p_workers p) 0) as [w Hw];
      [by rewrite (pi_workers n p HI) |].
    destruct (Hrest 0 w Hw) as [Hat Hbe].
    destruct (tn_bench p HT 0 w Hw Hat Hbe) as [Hin|[j Hj]]; [| congruence].
    destruct (ch_buf (p_pool p)) as [|k l] eqn:Hb; [by apply elem_of_nil in Hin |].
    eexists. eapply change_wait; [done |]. unfold recv. by rewrite Hb.
  - left. destruct (pi_give n p HI k job Hd) as [(w & Hw & Hb & _) _].
    destruct (pi_ok n p HI _ _ Hw) as [(Hcap & Hop & _) _ _].
    eexists. eapply change_give; [done | done |]. unfold send. by rewrite Hop, Hb, Hcap.
  - by destruct (tn_dispatch p HT).
Qed.

Lemma change_internal p p' : change p p' → ∃ e, internal e = true ∧ pool_step e p = Some p'.
Proof.
  intros [r c Hd Hr|job k c Hd Hr|k job w c Hd Hw Hs|i w c Hw Hat Hs|i w job c Hw Hat Hr
    |i w job Hw Hat|i w v c Hw Hat Hs];
    [exists DispatchTake | exists DispatchWait | exists DispatchGive | exists (WorkerPut i)
    | exists (WorkerTake i) | exists (WorkerProcess i) | exists (WorkerResult i)];
    (split; [done |]); unfold Pool.pool_step, Dispatch, dispatch_take, dispatch_wait,
      dispatch_give, Worker_Start; simpl; rewrite ?Hd; simpl; rewrite ?Hr; simpl; rewrite ?Hw; simpl;
    rewrite ?Hat; simpl; rewrite ?Hr, ?Hs; simpl; try done; by destruct (p_dispatch p).
Qed.

(** The jobs to come and the jobs taken, in order, stay the same. *)
Lemma change_jobs p p' :
  ch_closed (p_receive p) = false → change p p' →
  p_taken p' ++ ch_buf (p_receive p') = p_taken p ++ ch_buf (p_receive p).
Proof.
  intros Ho [r c Hd Hr| | | | | |]; try done. simpl.
  apply goes_recv in Hr as (_ & _ & Hb). destruct r as [x|]; [| destruct Hb; congruence].
  by rewrite Hb, <- app_assoc.
Qed.

(** A run of internal steps. *)
Lemma run_internal es p p' :
  ch_closed (p_receive p) = false → forallb internal es = true →
  pool_run zero f capture es p = Some p' →
  work p' + length es ≤ work p ∧ rtc change p p' ∧ ch_closed (p_receive p') = false ∧
  p_taken p' ++ ch_buf (p_receive p') = p_taken p ++ ch_buf (p_receive p).
Proof.
  revert p. induction es as [|e es IH]; intros p Ho Hes Hrun; simpl in *.
  - simplify_eq. split_and!; [lia | done..].
  - apply andb_prop in Hes as [He Hes]. destruct (pool_step e p) as [p1|] eqn:Hstep; [| done].
    apply internal_change in Hstep; [| done].
    pose proof (change_jobs _ _ Ho Hstep) as Hj. destruct (work_decreases _ _ Ho Hstep) as [Hw Ho1].
    destruct (IH p1 Ho1 Hes Hrun) as (? & ? & ? & ?).
    split_and!; [lia | by eapply rtc_l | done | congruence].
Qed.

(** What holds along a run of internal steps. *)
Lemma Tended_run n p p' :
  rtc change p p' → PInv n p ∧ Tended p → PInv n p' ∧ Tended p'.
Proof.
  induction 1 as [|p p1 p' Hc _ IH]; [done |]. intros [HI HT]. apply IH.
  split; [| by eapply Tended_change]. apply change_internal in Hc as (e & _ & He).
  by eapply PInv_step.
Qed.

Lemma drain n p :
  capture = false → 0 < n → PInv n p → Tended p → ch_closed (p_receive p) = false →
  ∃ es p', forallb internal es = true ∧ pool_run zero f capture es p = Some p' ∧
    ch_buf (p_receive p') = [] ∧ in_flight p' = [].
Proof.
  intros Hcapt Hn. remember (work p) as k eqn:Hk. revert p Hk.
  induction (lt_wf k) as [k _ IH]. intros p -> HI HT Ho.
  destruct (progress n p Hcapt Hn HI HT Ho) as [(p1 & Hc)|[Hb Hf]]; [| by exists [], p].
  destruct (work_decreases _ _ Ho Hc) as [Hlt Ho1].
  destruct (change_internal _ _ Hc) as (e & He & Hstep).
  destruct (IH (work p1) Hlt p1) as (es & p' & Hes & Hrun & Hend); [done | | | done |].
  - by eapply PInv_step.
  - by eapply Tended_change.
  - exists (e :: es), p'. simpl. by rewrite He, Hstep.
Qed.

(** * One worker keeps the order *)
Definition in_order p : Prop :=
  p_taken p = p_processed p ++ (p_workers p ≫= held) ++ held_by_dispatch (p_dispatch p).

Lemma one_worker p i w :
  length (p_workers p) = 1 → p_workers p !! i = Some w →
  i = 0 ∧ p_workers p = [w] ∧ ∀ w', <[i := w']> (p_workers p) = [w'].
Proof.
  intros Hl Hi. destruct (p_workers p) as [|v [|]]; try done. destruct i; simplify_eq/=. done.
Qed.

Lemma in_order_change p p' : PInv 1 p → in_order p → change p p' → in_order p'.
Proof.
  unfold in_order. intros HI Ho Hc. pose proof (pi_workers 1 p HI) as Hl.
  assert (Hw : ∀ i w, p_workers p !! i = Some w → p_workers p = [w] ∧
    (∀ w', <[i := w']> (p_workers p) = [w']) ∧ worker_ok w).
  { intros i w Hi. destruct (one_worker p i w Hl Hi) as (_ & ? & ?). split_and!; [done.. |].
    by eapply (pi_ok 1 p HI). }
  destruct Hc as [r c Hd Hr|job k c Hd Hr|k job w c Hd Hk Hs|i w c Hi Hat Hs|i w job c Hi Hat Hr
    |i w job Hi Hat|i w v c Hi Hat Hs]; simpl; try rewrite Hd in Ho; simpl in Ho.
  - rewrite Ho. by rewrite <- !app_assoc.
  - done.
  - destruct (pi_give 1 p HI k job Hd) as [(w0 & ? & Hbe & Hrest) _]. simplify_eq.
    destruct (Hw k w Hk) as (Hws & -> & _). rewrite Hws in Ho. simpl in *.
    apply goes_send in Hs as (_ & _ & _ & _ & Hb). rewrite Ho. unfold held. simpl.
    rewrite Hb, Hbe. by destruct Hrest as [-> | ->].
  - destruct (Hw i w Hi) as (Hws & -> & _). rewrite Hws in Ho. unfold held in *. simpl in *.
    by rewrite Hat in Ho.
  - destruct (Hw i w Hi) as (Hws & -> & [(_ & _ & Hlen) _ _]). rewrite Hws in Ho.
    apply goes_recv in Hr as (_ & _ & Hb). rewrite Hb in Hlen. simpl in Hlen.
    unfold held in *. simpl in *. rewrite Hat, Hb in Ho. destruct (ch_buf c); [done | simpl in *; lia].
  - destruct (Hw i w Hi) as (Hws & -> & Hok). rewrite Hws in Ho. unfold held in *. simpl in *.
    rewrite Hat, (bench_empty w Hok) in Ho by (unfold at_rest; rewrite Hat; by intros []).
    rewrite (bench_empty w Hok) by (unfold at_rest; rewrite Hat; by intros []).
    rewrite Ho. simpl. rewrite <- app_assoc. by destruct capture.
  - destruct (Hw i w Hi) as (Hws & -> & _). rewrite Hws in Ho. unfold held in *. simpl in *.
    by rewrite Hat in Ho.
Qed.

Lemma in_order_leave i w p p' :
  worker_leave i w p = Some p' → p_workers p !! i = Some w → PInv 1 p → in_order p →
  match w_at w with AtWork _ => False | _ => True end → in_order p'.
Proof.
  unfold worker_leave, in_order. intros H Hi HI Ho Hat. unpack H. simpl.
  destruct (one_worker p i w) as (-> & Hws & ->); [apply HI | done |].
  rewrite Hws in Ho. rewrite Ho. unfold held. simpl. by destruct (w_at w).
Qed.

Lemma in_order_step e p p' : PInv 1 p → in_order p → pool_step e p = Some p' → in_order p'.
Proof.
  intros HI Ho H. destruct (internal e) eqn:Hi.
  { eapply in_order_change; [done | done |]. by eapply internal_change. }
  unfold Pool.pool_step in H.
  destruct (surroundings e p) as [p1|] eqn:Hs.
  - injection H as <-. destruct e; simpl in Hs; try done; unpack Hs; try done.
    unfold in_order in *. simpl. destruct (one_worker p i x) as (-> & Hws & ->); [apply HI | done |]. by rewrite Hws in Ho.
  - clear Hs. destruct (Dispatch zero e p) as [p1|] eqn:Hd.
    + injection H as <-. unfold Dispatch in Hd. destruct (p_dispatch p) eqn:Hdp, e; try discriminate;
        unpack Hd; unfold in_order in *; simpl; by rewrite Hdp in Ho.
    + unfold Worker_Start, Worker_Stop in H. destruct e; try discriminate; unpack H;
        try match goal with Hx : worker_leave _ _ _ = Some _ |- _ =>
          eapply in_order_leave in Hx; [exact Hx | done | done | done |] end;
        try (eapply in_order_leave; [done | done | done | done |]);
        match goal with Hat : w_at _ = _ |- _ => by rewrite Hat end.
Qed.

Lemma reach_in_order m p : reach (NewWorkerPool 1 m) p → in_order p.
Proof.
  intros Hr. revert p Hr. apply (rtc_ind_r in_order); [done |].
  intros p p' Hr [e He] Ho. eapply in_order_step; [| done..].
  eapply pool_reach_Inv, Hr.
Qed.
End drain.

(** (C24) The pool finishes its work.  In every reachable state in which the
    context is not cancelled, [Stop] was not called and the source is open, a
    pool of at least one worker that keeps no results comes to rest by itself:
    every run of steps of the dispatcher and the workers is at most as long as
    the work left; whenever such a run cannot be continued, every job taken or
    waiting has been given to the processor, exactly once; and there is such a
    run. *)
Theorem pool_drains {E V} (zero : E) (f : E → V) n m p :
  pool_reach zero f false (NewWorkerPool n m) p → 0 < n →
  p_done p = false → p_stop p = None → ch_closed (p_receive p) = false →
  let jobs := p_taken p ++ ch_buf (p_receive p) in
  (∀ es p', forallb internal es = true → pool_run zero f false es p = Some p' →
     length es ≤ work p ∧
     ((∀ e, internal e = true → pool_step zero f false e p' = None) →
        p_processed p' ≡ₚ jobs)) ∧
  ∃ es p', forallb internal es = true ∧ pool_run zero f false es p = Some p' ∧
    p_processed p' ≡ₚ jobs.
Proof.
  intros Hr Hn Hd Hs Ho jobs. pose proof (pool_reach_Inv zero f false n m p Hr) as HI.
  pose proof (reach_Tended zero f false n m p Hr Hd Hs) as HT.
  assert (Hend : ∀ es p', forallb internal es = true → pool_run zero f false es p = Some p' →
    ch_buf (p_receive p') = [] → in_flight p' = [] → p_processed p' ≡ₚ jobs).
  { intros es p' Hes Hrun Hb Hf.
    destruct (run_internal zero f false es p p' Ho Hes Hrun) as (_ & Hc & _ & Hj).
    destruct (Tended_run zero f false n p p' Hc (conj HI HT)) as [HI' _].
    unfold jobs. rewrite <- Hj, Hb, app_nil_r, (pi_jobs n p' HI'), Hf. by rewrite app_nil_r. }
  split.
  - intros es p' Hes Hrun.
    destruct (run_internal zero f false es p p' Ho Hes Hrun) as (Hlen & Hc & Ho' & _).
    split; [lia |]. intros Hstuck.
    destruct (Tended_run zero f false n p p' Hc (conj HI HT)) as [HI' HT'].
    destruct (progress zero f false n p' eq_refl Hn HI' HT' Ho') as [(p1 & H1)|[Hb Hf]].
    + apply (change_internal zero f false) in H1 as (e & He & H1). by rewrite Hstuck in H1.
    + by apply (Hend es).
  - destruct (drain zero f false n p) as (es & p' & Hes & Hrun & Hb & Hf); [done.. |].
    exists es, p'. split_and!; [done | done | by apply (Hend es)].
Qed.

Lemma pool_drains_witness :
  p_taken pool_state = [7; 8] ∧ work pool_state = 6 ∧
  ∃ es p', forallb internal es = true ∧ pool_run 0 S false es pool_state = Some p' ∧
    p_processed p' ≡ₚ [7; 8].
Proof.
  split; [by vm_compute |]. split; [by vm_compute |].
  destruct (pool_drains 0 S 1 1 pool_state pool_state_reach) as [_ H];
    [lia | by vm_compute | by vm_compute | by vm_compute | exact H].
Defined.
