(* ===== verification/Merge.v ===== *)
(** [Merge] of pkg/workerpool: several channels forwarded to one, by a goroutine
    each, and a [sync.WaitGroup] to close it.

    A step is one operation of one goroutine; [out] has a buffer (a send on a
    channel without one goes through with its receive, one step later). *)
From S2P Require Import Prelude Chan.

(** Where the goroutine of a channel is: at [range c], at the select with a
    value, or over, with [wg.Done()] done. *)
Inductive ForwarderAt (V : Type) := FwRange | FwSelect (v : V) | FwGone.
Arguments FwRange {V}.
Arguments FwSelect {V} v.
Arguments FwGone {V}.

(** [fw_fed] is history: what was ever put on the channel. *)
Record Forwarder (V : Type) := {
  fw_chan : Chan V;
  fw_at : ForwarderAt V;
  fw_fed : list V;
}.
Arguments fw_chan {V} _.
Arguments fw_at {V} _.
Arguments fw_fed {V} _.
Arguments Build_Forwarder {V}.

(** The goroutine that closes [out]; there is none when there are no channels. *)
Inductive CloserAt := NoCloser | AtWait | AtClose | Closed.

(** [mg_given] is history: what was sent on [out], with the number of the
    channel it came from. *)
Record MergeState (V : Type) := {
  mg_fwd : list (Forwarder V);
  mg_out : Chan V;
  mg_wg : nat;
  mg_closer : CloserAt;
  mg_ctx : bool;
  mg_given : list (nat * V);
}.
Arguments mg_fwd {V} _.
Arguments mg_out {V} _.
Arguments mg_wg {V} _.
Arguments mg_closer {V} _.
Arguments mg_ctx {V} _.
Arguments mg_given {V} _.
Arguments Build_MergeState {V}.

Inductive MergeEvent (V : Type) :=
| FeedInput (i : nat) (v : V)
| CloseInput (i : nat)
| CancelMerge
| Forward (i : nat)
| ForwardSend (i : nat)
| ForwardDone (i : nat)
| WaitReturns
| CloseOut
| ReadOut.
Arguments FeedInput {V} i v.
Arguments CloseInput {V} i.
Arguments CancelMerge {V}.
Arguments Forward {V} i.
Arguments ForwardSend {V} i.
Arguments ForwardDone {V} i.
Arguments WaitReturns {V}.
Arguments CloseOut {V}.
Arguments ReadOut {V}.

Section merge.
Context {V : Type}.
Implicit Types (f : Forwarder V) (s : MergeState V).

Definition fw_goes (a : ForwarderAt V) (c : Chan V) f : Forwarder V :=
  {| fw_chan := c; fw_at := a; fw_fed := fw_fed f |}.

Definition merge_fwd (i : nat) f s : MergeState V :=
  {| mg_fwd := <[i := f]> (mg_fwd s); mg_out := mg_out s; mg_wg := mg_wg s;
     mg_closer := mg_closer s; mg_ctx := mg_ctx s; mg_given := mg_given s |}.
Definition merge_out (c : Chan V) (given : list (nat * V)) s : MergeState V :=
  {| mg_fwd := mg_fwd s; mg_out := c; mg_wg := mg_wg s;
     mg_closer := mg_closer s; mg_ctx := mg_ctx s; mg_given := given |}.
Definition merge_done s : MergeState V :=
  {| mg_fwd := mg_fwd s; mg_out := mg_out s; mg_wg := pred (mg_wg s);
     mg_closer := mg_closer s; mg_ctx := mg_ctx s; mg_given := mg_given s |}.
Definition merge_closer (a : CloserAt) s : MergeState V :=
  {| mg_fwd := mg_fwd s; mg_out := mg_out s; mg_wg := mg_wg s;
     mg_closer := a; mg_ctx := mg_ctx s; mg_given := mg_given s |}.
Definition merge_cancelled s : MergeState V :=
  {| mg_fwd := mg_fwd s; mg_out := mg_out s; mg_wg := mg_wg s;
     mg_closer := mg_closer s; mg_ctx := true; mg_given := mg_given s |}.

(** The call: [wg.Add(1)] and a goroutine per channel, and the one that closes
    [out]; nothing when there are no channels. *)
Definition Merge (chans : list (Chan V)) (out : Chan V) : MergeState V :=
  {| mg_fwd := (λ c, {| fw_chan := c; fw_at := FwRange; fw_fed := ch_buf c |}) <$> chans;
     mg_out := out; mg_wg := length chans;
     mg_closer := match chans with [] => NoCloser | _ => AtWait end;
     mg_ctx := false; mg_given := [] |}.

(** The goroutine of channel [i]; the range ends when the channel is closed
    and empty. *)
Definition forwarder_step (e : MergeEvent V) s : option (MergeState V) :=
  match e with
  | Forward i =>
    f ← mg_fwd s !! i;
    match fw_at f with
    | FwRange =>
      r ← goes (recv (fw_chan f));
      match r.1 with
      | Some v => mret (merge_fwd i (fw_goes (FwSelect v) r.2 f) s)
      | None => mret (merge_done (merge_fwd i (fw_goes FwGone r.2 f) s))
      end
    | _ => None
    end
  | ForwardSend i =>
    f ← mg_fwd s !! i;
    match fw_at f with
    | FwSelect v =>
      c ← goes (send (mg_out s) v);
      mret (merge_out c (mg_given s ++ [(i, v)]) (merge_fwd i (fw_goes FwRange (fw_chan f) f) s))
    | _ => None
    end
  | ForwardDone i =>
    f ← mg_fwd s !! i;
    match fw_at f with
    | FwSelect v =>
      if mg_ctx s then mret (merge_done (merge_fwd i (fw_goes FwGone (fw_chan f) f) s)) else None
    | _ => None
    end
  | _ => None
  end.

(** [wg.Wait(); close(out)] *)
Definition closer_step (e : MergeEvent V) s : option (MergeState V) :=
  match e, mg_closer s with
  | WaitReturns, AtWait => if decide (mg_wg s = 0) then Some (merge_closer AtClose s) else None
  | CloseOut, AtClose =>
    c ← goes (close (mg_out s));
    mret (merge_closer Closed (merge_out c (mg_given s) s))
  | _, _ => None
  end.

(** Those who feed and close the channels, the reader, the context. *)
Definition merge_outside (e : MergeEvent V) s : option (MergeState V) :=
  match e with
  | FeedInput i v =>
    f ← mg_fwd s !! i;
    c ← goes (send (fw_chan f) v);
    mret (merge_fwd i {| fw_chan := c; fw_at := fw_at f; fw_fed := fw_fed f ++ [v] |} s)
  | CloseInput i =>
    f ← mg_fwd s !! i;
    c ← goes (close (fw_chan f));
    mret (merge_fwd i (fw_goes (fw_at f) c f) s)
  | CancelMerge => Some (merge_cancelled s)
  | ReadOut => r ← goes (recv (mg_out s)); mret (merge_out r.2 (mg_given s) s)
  | _ => None
  end.

Definition merge_step (e : MergeEvent V) s : option (MergeState V) :=
  match e with
  | Forward _ | ForwardSend _ | ForwardDone _ => forwarder_step e s
  | WaitReturns | CloseOut => closer_step e s
  | _ => merge_outside e s
  end.

Definition merge_reach : MergeState V → MergeState V → Prop :=
  rtc (λ s s', ∃ e, merge_step e s = Some s').

Fixpoint merge_run (es : list (MergeEvent V)) s : option (MergeState V) :=
  match es with
  | [] => Some s
  | e :: es => s' ← merge_step e s; merge_run es s'
  end.

Lemma merge_run_reach es s s' : merge_run es s = Some s' → merge_reach s s'.
Proof.
  revert s. induction es as [|e es IH]; intros s H; simpl in H; [by injection H as <- |].
  apply bind_Some in H as (s1 & Hs1 & H). eapply rtc_l; [by exists e | by apply IH].
Qed.

(** * The invariant *)

(** What was sent of channel [i], and what its goroutine holds. *)
Definition from (i : nat) (given : list (nat * V)) : list V := (filter (λ p, p.1 = i) given).*2.

Definition fw_held f : list V := match fw_at f with FwSelect v => [v] | _ => [] end.
Definition live f : nat := match fw_at f with FwGone => 0 | _ => 1 end.

Record fw_ok (ctx : bool) (given : list V) f : Prop := {
  fo_fed : ∃ lost, fw_fed f = given ++ fw_held f ++ lost ++ ch_buf (fw_chan f) ∧
    (lost ≠ [] → ctx = true ∧ fw_at f = FwGone);
  fo_gone : fw_at f = FwGone → ctx = true ∨ (ch_closed (fw_chan f) = true ∧ ch_buf (fw_chan f) = []);
}.

Record MInv s : Prop := {
  mi_fwd : ∀ i f, mg_fwd s !! i = Some f → fw_ok (mg_ctx s) (from i (mg_given s)) f;
  mi_wg : mg_wg s = sum_list_with live (mg_fwd s);
  mi_wait : mg_closer s = AtClose ∨ mg_closer s = Closed → mg_wg s = 0;
  mi_out : ch_closed (mg_out s) = true ↔ mg_closer s = Closed;
  mi_none : mg_closer s = NoCloser ↔ mg_fwd s = [];
  mi_from : ∀ i v, (i, v) ∈ mg_given s → i < length (mg_fwd s);
}.

Lemma from_snoc i j v given :
  from i (given ++ [(j, v)]) = from i given ++ (if decide (j = i) then [v] else []).
Proof. unfold from. rewrite filter_app, fmap_app, filter_cons. simpl. by case_decide. Qed.

Lemma live_zero s i f : MInv s → mg_wg s = 0 → mg_fwd s !! i = Some f → fw_at f = FwGone.
Proof.
  intros [_ Hwg _ _ _ _] H0 Hi. rewrite Hwg in H0. clear Hwg. revert i Hi.
  induction (mg_fwd s) as [|g l IH]; intros [|i] Hi; simplify_eq/=.
  - unfold live in H0. destruct (fw_at f); [lia..| done].
  - apply (IH ltac:(lia) i Hi).
Qed.

Lemma MInv_start chans out : ch_closed out = false → MInv (Merge chans out).
Proof.
  intros Ho. split; simpl.
  - intros i f (c & -> & _)%list_lookup_fmap_Some. split; simpl; [| done]. by exists [].
  - induction chans as [|c l IH]; simpl; [done |]. by rewrite IH.
  - destruct chans; naive_solver.
  - rewrite Ho. by destruct chans.
  - by destruct chans.
  - intros i v []%elem_of_nil.
Qed.

(** The forwarder of channel [i] alone is replaced. *)
Lemma MInv_fwd s i f f' given :
  MInv s → mg_fwd s !! i = Some f → live f' = live f →
  (∀ j, j ≠ i → from j given = from j (mg_given s)) → fw_ok (mg_ctx s) (from i given) f' →
  (∀ j v, (j, v) ∈ given → j < length (mg_fwd s)) →
  ∀ out, ch_closed out = ch_closed (mg_out s) → MInv (merge_out out given (merge_fwd i f' s)).
Proof.
  intros HI Hi Hl Hgiven Hok Hfrom out Hout. pose proof HI as [Hf Hwg Hwait Ho Hn _].
  split; simpl; rewrite ?Hout; try done.
  - intros j g Hj. destruct (decide (j = i)) as [->|Hne].
    + rewrite list_lookup_insert_eq in Hj by (by eapply lookup_lt_Some). by simplify_eq.
    + rewrite list_lookup_insert_ne in Hj by done. rewrite Hgiven by done. by apply Hf.
  - pose proof (sum_insert live (mg_fwd s) i f f' Hi). lia.
  - rewrite Hn. by destruct (mg_fwd s), i.
  - intros j v Hj. rewrite length_insert. by eapply Hfrom.
Qed.

(** It is over. *)
Lemma MInv_gone s i f f' :
  MInv s → mg_fwd s !! i = Some f → live f = 1 → live f' = 0 →
  fw_ok (mg_ctx s) (from i (mg_given s)) f' → MInv (merge_done (merge_fwd i f' s)).
Proof.
  intros HI Hi Hl Hl' Hok. pose proof HI as [Hf Hwg Hwait Ho Hn Hfrom].
  pose proof (sum_insert live (mg_fwd s) i f f' Hi).
  split; simpl; try done.
  - intros j g Hj. destruct (decide (j = i)) as [->|Hne].
    + rewrite list_lookup_insert_eq in Hj by (by eapply lookup_lt_Some). by simplify_eq.
    + rewrite list_lookup_insert_ne in Hj by done. by apply Hf.
  - lia.
  - intros Hc. by rewrite Hwait.
  - rewrite Hn. by destruct (mg_fwd s), i.
  - intros j v Hj. rewrite length_insert. by eapply Hfrom.
Qed.

(** Channels are neither added nor taken away. *)
Lemma merge_no_channels s s' : merge_reach s s' → mg_fwd s = [] → mg_fwd s' = [].
Proof.
  induction 1 as [|s s1 s' (e & He) _ IH]; [done |]. intros Hs. apply IH. clear IH.
  destruct e; cbn [merge_step forwarder_step closer_step merge_outside] in He;
    rewrite ?Hs in He; try done; unpack He; done.
Qed.

Lemma merge_same s : merge_out (mg_out s) (mg_given s) s = s.
Proof. by destruct s. Qed.

Lemma MInv_forwarder e s s' : MInv s → forwarder_step e s = Some s' → MInv s'.
Proof.
  intros HI H. destruct e as [| | |i|i|i| | |]; try done; cbn [forwarder_step] in H;
    apply bind_Some in H as (f & Hi & H); destruct (fw_at f) as [|v|] eqn:Ha; try done;
    pose proof (mi_fwd _ HI i f Hi) as [(lost & Hfed & Hlost) Hgone];
    assert (Hnl : lost = []) by (destruct lost; [done | by destruct Hlost as [_ ?]; [done | congruence]]);
    subst lost; unfold fw_held in Hfed; rewrite Ha in Hfed.
  - apply bind_Some in H as ([[v|] c] & Hr & H); simpl in H; injection H as <-.
    + apply goes_recv in Hr as (_ & Hc & Hb). rewrite <- (merge_same (merge_fwd _ _ s)). apply (MInv_fwd s i f); try done.
      * unfold live. by rewrite Ha.
      * split; simpl; [| done]. exists []. split; [| done]. by rewrite Hfed, Hb.
      * apply (mi_from _ HI).
    + apply goes_recv_end in Hr as (Hb & Hclosed & ->).
      apply (MInv_gone s i f); try done; [unfold live; by rewrite Ha |].
      split; simpl; [exists []; split; [| done]; by rewrite Hfed, Hb | by right].
  - apply bind_Some in H as (c & Hc & H). injection H as <-.
    apply goes_send in Hc as (_ & Hcl & _). apply (MInv_fwd s i f); try done.
    + unfold live. by rewrite Ha.
    + intros j Hj. rewrite from_snoc, decide_False by done. by rewrite app_nil_r.
    + rewrite from_snoc, decide_True by done. split; simpl; [| done]. exists []. split; [| done].
      by rewrite Hfed, <- !app_assoc.
    + intros j w [Hj|Hj%list_elem_of_singleton]%elem_of_app; [by eapply (mi_from _ HI) |].
      simplify_eq. by eapply lookup_lt_Some.
  - destruct (mg_ctx s) eqn:Hctx; [| done]. injection H as <-.
    apply (MInv_gone s i f); try done; [unfold live; by rewrite Ha |]. rewrite Hctx.
    split; simpl; [| by left]. exists [v]. split; [by rewrite Hfed | done].
Qed.

Lemma MInv_closer e s s' : MInv s → closer_step e s = Some s' → MInv s'.
Proof.
  intros [Hf Hwg Hwait Ho Hn Hfrom] H. unfold closer_step in H.
  destruct e; try done; destruct (mg_closer s) eqn:Hc; try done.
  - case_decide as H0; [| done]. injection H as <-. split; simpl; try done.
    + rewrite Ho. naive_solver.
    + rewrite <- Hn. naive_solver.
  - apply bind_Some in H as (c & Hcl & H). injection H as <-.
    apply goes_close in Hcl as (_ & _ & Hcl & _). split; simpl; try done.
    + intros _. apply Hwait. by left.
    + rewrite <- Hn. naive_solver.
Qed.

(** Feeding and closing a channel, seen by its forwarder. *)
Lemma MInv_outside e s s' : MInv s → merge_outside e s = Some s' → MInv s'.
Proof.
  intros HI H. pose proof HI as [Hf Hwg Hwait Ho Hn Hfrom].
  destruct e as [i v|i| | | | | | |]; try done; cbn [merge_outside] in H.
  - apply bind_Some in H as (f & Hi & H). apply bind_Some in H as (c & Hc & H). injection H as <-.
    apply goes_send in Hc as (_ & Hcl & Hopen & _ & Hb).
    rewrite <- (merge_same (merge_fwd _ _ s)). apply (MInv_fwd s i f); try done.
    destruct (Hf i f Hi) as [(lost & Hfed & Hlost) Hgone]. split; simpl.
    + exists lost. split; [| done]. unfold fw_held in *. simpl. by rewrite Hfed, Hb, <- !app_assoc.
    + intros Hg. destruct (Hgone Hg) as [?|[? _]]; [by left | congruence].
  - apply bind_Some in H as (f & Hi & H). apply bind_Some in H as (c & Hc & H). injection H as <-.
    apply goes_close in Hc as (_ & Hopen & Hcl & Hb).
    rewrite <- (merge_same (merge_fwd _ _ s)). apply (MInv_fwd s i f); try done.
    destruct (Hf i f Hi) as [(lost & Hfed & Hlost) Hgone]. split; simpl.
    + exists lost. split; [| done]. unfold fw_held in *. simpl. by rewrite Hfed, Hb.
    + intros Hg. destruct (Hgone Hg) as [?|[? _]]; [by left | congruence].
  - injection H as <-. split; simpl; try done. intros i f Hi.
    destruct (Hf i f Hi) as [(lost & Hfed & Hlost) Hgone]. split; [| by left].
    exists lost. split; [done |]. intros Hne. by destruct (Hlost Hne).
  - apply bind_Some in H as ([r c] & Hc & H). injection H as <-.
    apply goes_recv in Hc as (_ & Hcl & _). split; simpl; try done. by rewrite Hcl.
Qed.

Lemma MInv_reach s s' : merge_reach s s' → MInv s → MInv s'.
Proof.
  induction 1 as [|s s1 s' (e & He) _ IH]; [done |]. intros HI. apply IH.
  destruct e; cbn [merge_step] in He;
    first [by eapply MInv_forwarder | by eapply MInv_closer | by eapply MInv_outside].
Qed.

End merge.

(** * Properties *)

(** (C26) What comes out of [Merge] is what went in, channel by channel in
    order.  Whatever the goroutines, the feeders, the reader and the context do:
    of every channel the values sent on [out] are the first ones fed to it;
    nothing is sent on a closed [out], which is closed once; when it is closed
    and the context is not done, every channel is closed and all that was fed
    to it has been sent; and when the context is not done no value is lost.
    With no channels at all [out] is never closed, so a reader that waits for
    its end waits for ever. *)
Theorem Merge_interleaves {V} (chans : list (Chan V)) out s :
  ch_closed out = false → merge_reach (Merge chans out) s →
  (∀ i f, mg_fwd s !! i = Some f → from i (mg_given s) `prefix_of` fw_fed f) ∧
  (∀ i f v, mg_fwd s !! i = Some f → fw_at f = FwSelect v →
     ∀ why, send (mg_out s) v ≠ Breaks why) ∧
  (mg_closer s = AtClose → ∀ why, close (mg_out s) ≠ Breaks why) ∧
  (mg_ctx s = false → ∀ i f, mg_fwd s !! i = Some f →
     fw_fed f = from i (mg_given s) ++ fw_held f ++ ch_buf (fw_chan f) ∧
     (ch_closed (mg_out s) = true → ch_closed (fw_chan f) = true ∧ fw_fed f = from i (mg_given s))) ∧
  (chans = [] → ch_closed (mg_out s) = false).
Proof.
  intros Hout Hr. pose proof (MInv_reach _ _ Hr (MInv_start chans out Hout)) as HI.
  assert (Hopen : mg_closer s ≠ Closed → ch_closed (mg_out s) = false).
  { intros Hc. pose proof (mi_out _ HI). destruct (ch_closed (mg_out s)); naive_solver. }
  split_and!.
  - intros i f Hi. destruct (mi_fwd _ HI i f Hi) as [(lost & -> & _) _]. by eexists.
  - intros i f v Hi Ha why. apply send_open, Hopen. intros Hc.
    pose proof (live_zero _ i f HI (mi_wait _ HI (or_intror Hc)) Hi). congruence.
  - intros Hc why. apply close_open, Hopen. by rewrite Hc.
  - intros Hctx i f Hi. destruct (mi_fwd _ HI i f Hi) as [(lost & Hfed & Hlost) Hgone].
    rewrite Hctx in *. destruct lost; [| by destruct Hlost]. split; [done |].
    intros Hc%(mi_out _ HI).
    pose proof (live_zero _ i f HI (mi_wait _ HI (or_intror Hc)) Hi) as Hg.
    destruct (Hgone Hg) as [?|[Hcl Hb]]; [done |]. split; [done |].
    rewrite Hfed, Hb. unfold fw_held. by rewrite Hg, app_nil_r.
  - intros ->. apply Hopen. assert (Hnil : mg_fwd s = []).
    { apply (merge_no_channels _ _ Hr). done. }
    apply (mi_none _ HI) in Hnil. by rewrite Hnil.
Qed.

(** Two channels, two values and one: they come out as 1, 10, 2. *)
Definition two_inputs : list (Chan nat) :=
  [{| ch_cap := 2; ch_buf := [1; 2]; ch_closed := true |};
   {| ch_cap := 1; ch_buf := [10]; ch_closed := true |}].

Definition merge_session : list (MergeEvent nat) :=
  [Forward 0; Forward 1; ForwardSend 0; ForwardSend 1; Forward 0; ReadOut; ForwardSend 0;
   Forward 0; Forward 1; WaitReturns; CloseOut].

Lemma Merge_interleaves_witness :
  ∃ s, merge_run merge_session (Merge two_inputs (make_chan 2)) = Some s ∧
    mg_given s = [(0, 1); (1, 10); (0, 2)] ∧
    ∀ i f, mg_fwd s !! i = Some f → fw_fed f = from i (mg_given s).
Proof.
  destruct (merge_run merge_session (Merge two_inputs (make_chan 2))) as [s|] eqn:Hrun;
    [| by vm_compute in Hrun].
  destruct (Merge_interleaves two_inputs (make_chan 2) s) as (_ & _ & _ & H & _);
    [done | by eapply merge_run_reach |].
  exists s. vm_compute in Hrun. injection Hrun as <-. split_and!; [done | done |].
  intros i f Hi. by apply H.
Defined.
