(* ===== verification/Sync.v ===== *)
(** From the queue of updates to the devices: the producer of
    core/supervisors/metadata.notifier.go and the consumer of
    pkg/brokers/metadata_sync_broker.go, which the pool of Pool.v joins and
    which feeds the broker of Broker.v. *)
From S2P Require Import Prelude GoStd Model World Queue Gob Changelog Chan Broker.

(** * core/supervisors/metadata.notifier.go *)

Record Demand := { dm_Count : Z; dm_UserID : string }.

Section producer.
Context `{Q : Queuer}.

(** The loop [for i := 0; i < d.Count; i++] with [n] rounds left; an error of
    the queue ends the producer: [None]. *)
Fixpoint read_loop (user : string) (n : nat) : Go (option (list Payload)) :=
  match n with
  | O => mret (Some [])
  | S n =>
    r ← ReadMsg user "";
    match r with
    | Err _ => mret None
    | Val p =>
      rest ← read_loop user n;
      mret (match rest with
            | None => None
            | Some l => Some (match p with Some p => p :: l | None => l end)
            end)
    end
  end.

(** [MetadataUpdateConsumer.Produce], one demand: what is sent on the results
    channel, or [None] when it is closed. *)
Definition Produce_demand (d : Demand) : Go (option (list Payload)) :=
  read_loop (dm_UserID d) (Z.to_nat (dm_Count d)).

End producer.

(** * pkg/brokers/metadata_sync_broker.go *)

(** "Now I don't have multiple devices yet": the other device. *)
Definition anotherDevice (deviceID : string) : string :=
  if decide (deviceID = "2") then "1" else "2".

Definition update_messages (cachedData : MetadataUpdateStatusEvent) : list Message :=
  let str := "fileID:" +:+ ev_FileID cachedData in
  [{| m_UserID := ev_UserID cachedData; m_DeviceID := ev_DeviceID cachedData; m_Content := str |};
   {| m_UserID := ev_UserID cachedData; m_DeviceID := anotherDevice (ev_DeviceID cachedData);
      m_Content := str |}].

(** [SSEConsumer.Execute]: the calls of [SendMessage], in order, and the error
    that stopped them.  [SendMessage] reports nothing back. *)
Fixpoint SSEConsumer_Execute `{GE : Gob MetadataUpdateStatusEvent} (payloads : list Payload) :
    list Message * option error :=
  match payloads with
  | [] => ([], None)
  | payload :: rest =>
    match gob_Decode (pl_Message payload) with
    | Err e => ([], Some e)
    | Val cachedData =>
      let '(sent, err) := SSEConsumer_Execute rest in
      (update_messages cachedData ++ sent, err)
    end
  end.

(** * Rules *)
Section rules.
Context `{E : Env} `{Q : Queuer} {QO : QueuerOk Q}.

(** Without failures a demand takes the oldest messages of the user, in order. *)
Lemma wp_read_loop user msgs rest w (Post : ret (option (list Payload)) → World → Prop) :
  no_fault → q_list w (q_key user) = msgs ++ rest →
  (∀ payloads w', redis_only w w' → pl_Message <$> payloads = msgs →
    q_list w' (q_key user) = rest →
    (∀ k, k ≠ q_key user → q_list w' k = q_list w k) → Post (Ret (Some payloads)) w') →
  wp (read_loop user (length msgs)) w Post.
Proof.
  intros Hf. revert w Post. induction msgs as [|m msgs IH]; intros w Post Hl HP; simpl.
  - by apply wp_ret, HP; [apply redis_only_refl | | |].
  - apply wp_bind, wp_ReadMsg; [done | |].
    + intros w1 _ _ [Hn|]; [by rewrite Hn in Hl | done].
    + intros m1 w1 Hr1 Hq1 Ho1. rewrite Hl in Hq1. injection Hq1 as -> Hq1.
      apply wp_bind, IH; [done |]. intros payloads w2 Hr2 Hp Hq2 Ho2. apply wp_ret, HP.
      * by eapply redis_only_trans.
      * by rewrite fmap_cons, Hp.
      * done.
      * intros k Hk. by rewrite Ho2, Ho1.
Qed.

End rules.

(** Payloads that decode are all announced. *)
Lemma SSEConsumer_Execute_decodes `{GE : Gob MetadataUpdateStatusEvent} payloads events :
  Forall2 (λ m e, gob_Decode m = Val e) (pl_Message <$> payloads) events →
  SSEConsumer_Execute payloads = (events ≫= update_messages, None).
Proof.
  revert events. induction payloads as [|p payloads IH]; intros events H; simpl in H.
  - by inversion H.
  - inversion H as [|? e ? events' Hd Hrest]; subst. simpl.
    by rewrite Hd, (IH events' Hrest).
Qed.

(** * Properties *)

(** From the notifier to the devices: when no call fails and the queue of
    the user was empty, the events that [Notify] announced reach the broker
    through one demand for them and the consumer: for every event of the
    user's partition, in order, one message to the device that made the change
    and one to the other device, naming the file; and the queue is empty again. *)
Theorem notification_pipeline `{E : Env} `{Q : Queuer} {QO : QueuerOk Q}
    `{GE : Gob MetadataUpdateStatusEvent} {GO : GobOk MetadataUpdateStatusEvent event_sendable}
    events user w :
  no_fault → Forall event_sendable events → q_list w (q_key user) = [] →
  let mine := filter (λ e, q_key (ev_UserID e) = q_key user) events in
  wp (err ← Notify events;
      Produce_demand {| dm_Count := Z.of_nat (length mine); dm_UserID := user |}) w (λ r w',
    ∃ payloads, r = Ret (Some payloads) ∧
      SSEConsumer_Execute payloads = (mine ≫= update_messages, None) ∧
      q_list w' (q_key user) = [] ∧ w_db w' = w_db w).
Proof.
  intros Hf Hok Hempty mine. apply wp_bind, wp_Notify; [done | | done].
  intros w1 Hdb1 Hq1. destruct (Hq1 (q_key user)) as (msgs & Hl & Hd). rewrite Hempty in Hl.
  simpl in Hl. unfold Produce_demand. simpl.
  rewrite Nat2Z.id. replace (length mine) with (length msgs) by (apply (Forall2_length _ _ _ Hd)).
  apply (wp_read_loop user msgs []); [done | by rewrite app_nil_r |].
  intros payloads w2 (_ & Hdb2 & _) Hp Hq2 _. exists payloads.
  split_and!; [done | | done | congruence].
  apply SSEConsumer_Execute_decodes. by rewrite Hp.
Qed.

Definition sample_event (user device file : string) : MetadataUpdateStatusEvent :=
  {| ev_FileID := file; ev_UserID := user; ev_PrevFileID := None; ev_DeviceID := device |}.

(** Two users; the demand of the first gets its own event. *)
Lemma notification_pipeline_witness :
  let Q := RedisQ (E := quiet_env) MetadataUpdateClientsNotifierQueue in
  let events := [sample_event "U2" "1" "F9"; sample_event "U1" "2" "F1"] in
  wp (err ← Notify (GE := event_gob) events;
      Produce_demand {| dm_Count := 1; dm_UserID := "U1" |}) empty_world (λ r _,
    ∃ payloads, r = Ret (Some payloads) ∧
      SSEConsumer_Execute (GE := event_gob) payloads
      = ([{| m_UserID := "U1"; m_DeviceID := "2"; m_Content := "fileID:F1" |};
          {| m_UserID := "U1"; m_DeviceID := "1"; m_Content := "fileID:F1" |}], None)).
Proof.
  intros Q events. pose proof (notification_pipeline (E := quiet_env)
    (QO := RedisQ_ok (E := quiet_env) MetadataUpdateClientsNotifierQueue)
    (GE := event_gob) (GO := countable_gob_ok event_sendable) events "U1" empty_world) as H.
  unfold wp in *. destruct H as (payloads & Hr & Hx & _).
  - done.
  - by repeat constructor.
  - done.
  - exists payloads. split; [exact Hr |]. etrans; [exact Hx |]. by vm_compute.
Defined.
