(* ===== verification/Supervisor.v ===== *)
(** The goroutines around a pool: the producer of core/supervisors
    ([MetadataChangelog.Produce], [MetadataUpdateConsumer.Produce]), the loop
    that makes demands of it ([MetadataSupervisor], and
    [FileUpdateSyncBroker.Start] of pkg/brokers), and the pool of Pool.v whose
    one worker runs the executor.

    A step is one channel operation of one goroutine, with what the goroutine
    does up to its next one, or one action (Proc.v) of the processor that its
    worker runs: between two actions of the processor the other goroutines and
    the rest of the system go on.  The producer's reads for one demand are one
    step (both supervisors demand one message at a time, which is one command). *)
From S2P Require Import Prelude GoStd Model World Squirtle Queries FilesRepo.
From S2P Require Import Queue Gob FilesInfo Blob Proc Changelog Chan.
From S2P Require Import Pool PoolDrain Broker Sync.

(** Where the producer is: at its [select], at [resultsCh <- results], or it has
    returned. *)
Inductive ProducerAt :=
| ProducerSelect
| ProducerSend (results : list Payload)
| ProducerGone.

(** Where the loop is: at its [select], at [producer.Demand(d)], in
    [pool.Stop(ctx)], or it has returned. *)
Inductive LoopAt (D : Type) : Type :=
| LoopSelect
| LoopDemand (d : D)
| LoopStop
| LoopReturned.
Arguments LoopSelect {D}.
Arguments LoopDemand {D} d.
Arguments LoopStop {D}.
Arguments LoopReturned {D}.

(** [sv_source] is what the loop waits for: the channel of its ticker, or the
    channel of demands.  The results channel is the [p_receive] of the pool, the
    context its [p_done].  [sv_work] is the processor its one worker is running;
    a panic of it ends the process.  [sv_fetched] is history: the messages the
    producer got from the queue for the demands it served. *)
Record Supervisor `{E : Env} `{OS : OsEnv} (T D R : Type) := {
  sv_source : Chan T;
  sv_demand : Chan D;
  sv_producer : ProducerAt;
  sv_loop : LoopAt D;
  sv_pool : WorkerPool (list Payload) (Proc R);
  sv_work : option (Proc R);
  sv_world : World;
  sv_crashed : bool;
  sv_fetched : list Payload;
}.
Arguments Build_Supervisor {E OS T D R}.
Arguments sv_source {E OS T D R} _.
Arguments sv_demand {E OS T D R} _.
Arguments sv_producer {E OS T D R} _.
Arguments sv_loop {E OS T D R} _.
Arguments sv_pool {E OS T D R} _.
Arguments sv_work {E OS T D R} _.
Arguments sv_world {E OS T D R} _.
Arguments sv_crashed {E OS T D R} _.
Arguments sv_fetched {E OS T D R} _.

Inductive SupervisorEvent (T : Type) : Type :=
| Offer (t : T)
| LoopTake
| LoopDemands
| LoopDone
| LoopReturns
| ProducerTakes
| ProducerSends
| ProducerDone
| CancelContext
| InPool (e : PoolEvent (list Payload))
| Works
| Outside (w : World).
Arguments Offer {T} t.
Arguments LoopTake {T}.
Arguments LoopDemands {T}.
Arguments LoopDone {T}.
Arguments LoopReturns {T}.
Arguments ProducerTakes {T}.
Arguments ProducerSends {T}.
Arguments ProducerDone {T}.
Arguments CancelContext {T}.
Arguments InPool {T} e.
Arguments Works {T}.
Arguments Outside {T} w.

Section supervisor.
Context `{E : Env} `{OS : OsEnv} {T D R : Type} (demand_of : T → D).
Context (fetch : D → Go (option (list Payload))) (processor : list Payload → Proc R).
Implicit Types s : Supervisor T D R.
#[local] Abbreviation S := (Supervisor T D R).
#[local] Abbreviation pool := (WorkerPool (list Payload) (Proc R)).

Definition with_source (c : Chan T) s : S :=
  {| sv_source := c; sv_demand := sv_demand s; sv_producer := sv_producer s; sv_loop := sv_loop s;
     sv_pool := sv_pool s; sv_work := sv_work s; sv_world := sv_world s; sv_crashed := sv_crashed s;
     sv_fetched := sv_fetched s |}.
Definition with_demand (c : Chan D) s : S :=
  {| sv_source := sv_source s; sv_demand := c; sv_producer := sv_producer s; sv_loop := sv_loop s;
     sv_pool := sv_pool s; sv_work := sv_work s; sv_world := sv_world s; sv_crashed := sv_crashed s;
     sv_fetched := sv_fetched s |}.
Definition with_producer (a : ProducerAt) s : S :=
  {| sv_source := sv_source s; sv_demand := sv_demand s; sv_producer := a; sv_loop := sv_loop s;
     sv_pool := sv_pool s; sv_work := sv_work s; sv_world := sv_world s; sv_crashed := sv_crashed s;
     sv_fetched := sv_fetched s |}.
Definition with_loop (a : LoopAt D) s : S :=
  {| sv_source := sv_source s; sv_demand := sv_demand s; sv_producer := sv_producer s; sv_loop := a;
     sv_pool := sv_pool s; sv_work := sv_work s; sv_world := sv_world s; sv_crashed := sv_crashed s;
     sv_fetched := sv_fetched s |}.
Definition with_workers (p : pool) s : S :=
  {| sv_source := sv_source s; sv_demand := sv_demand s; sv_producer := sv_producer s;
     sv_loop := sv_loop s; sv_pool := p; sv_work := sv_work s; sv_world := sv_world s; sv_crashed := sv_crashed s;
     sv_fetched := sv_fetched s |}.
Definition with_world (w : World) s : S :=
  {| sv_source := sv_source s; sv_demand := sv_demand s; sv_producer := sv_producer s;
     sv_loop := sv_loop s; sv_pool := sv_pool s; sv_work := sv_work s; sv_world := w; sv_crashed := sv_crashed s;
     sv_fetched := sv_fetched s |}.
Definition with_work (a : option (Proc R)) s : S :=
  {| sv_source := sv_source s; sv_demand := sv_demand s; sv_producer := sv_producer s;
     sv_loop := sv_loop s; sv_pool := sv_pool s; sv_work := a; sv_world := sv_world s;
     sv_crashed := sv_crashed s; sv_fetched := sv_fetched s |}.
Definition crash s : S :=
  {| sv_source := sv_source s; sv_demand := sv_demand s; sv_producer := sv_producer s;
     sv_loop := sv_loop s; sv_pool := sv_pool s; sv_work := sv_work s; sv_world := sv_world s; sv_crashed := true;
     sv_fetched := sv_fetched s |}.
Definition note_fetched (l : list Payload) s : S :=
  {| sv_source := sv_source s; sv_demand := sv_demand s; sv_producer := sv_producer s;
     sv_loop := sv_loop s; sv_pool := sv_pool s; sv_work := sv_work s; sv_world := sv_world s;
     sv_crashed := sv_crashed s; sv_fetched := sv_fetched s ++ l |}.

#[local] Abbreviation in_pool := (pool_step [] processor false).

(** The producer returns; the deferred [close(resultsCh)]. *)
Definition producer_leaves s : option S :=
  p ← in_pool CloseFeed (sv_pool s);
  mret (with_producer ProducerGone (with_workers p s)).

(** [case d := <-slf.demand], up to the send of the results. *)
Definition Produce_take s : option S :=
  r ← goes (recv (sv_demand s));
  d ← r.1;
  let s := with_demand r.2 s in
  match fetch d (sv_world s) with
  | (Ret None, w) => producer_leaves (with_world w s)
  | (Ret (Some results), w) =>
    mret (with_producer (ProducerSend results) (note_fetched results (with_world w s)))
  | (Panics _, w) => mret (crash (with_world w s))
  end.

Definition Produce (e : SupervisorEvent T) s : option S :=
  match sv_producer s, e with
  | ProducerSelect, ProducerTakes => Produce_take s
  | ProducerSelect, ProducerDone => if p_done (sv_pool s) then producer_leaves s else None
  | ProducerSend results, ProducerSends =>
    p ← in_pool (Feed results) (sv_pool s);
    mret (with_producer ProducerSelect (with_workers p s))
  | _, _ => None
  end.

(** [producer.Demand(d)]: [slf.demand <- val] *)
Definition producer_Demand (d : D) s : option S :=
  c ← goes (send (sv_demand s) d);
  mret (with_demand c s).

(** The loop of the supervisor: on a tick (or a demand) a demand is made of the
    producer, on the end of the context the pool is stopped. *)
Definition supervise (e : SupervisorEvent T) s : option S :=
  match sv_loop s, e with
  | LoopSelect, LoopTake =>
    r ← goes (recv (sv_source s));
    t ← r.1;
    mret (with_loop (LoopDemand (demand_of t)) (with_source r.2 s))
  | LoopSelect, LoopDone =>
    if p_done (sv_pool s) then
      p ← in_pool StopCall (sv_pool s);
      mret (with_loop LoopStop (with_workers p s))
    else None
  | LoopDemand d, LoopDemands =>
    s ← producer_Demand d s;
    mret (with_loop LoopSelect s)
  | LoopStop, LoopReturns =>
    if decide (p_stop (sv_pool s) = Some (length (p_workers (sv_pool s))))
    then Some (with_loop LoopReturned s) else None
  | _, _ => None
  end.

(** What the dispatcher and the workers do. *)
Definition of_pool {E} (e : PoolEvent E) : bool :=
  match e with
  | DispatchDone | WorkerQuit _ | WorkerDone _ => true
  | _ => internal e
  end.

(** The job a worker is about to run its processor on. *)
Definition job_at (p : pool) (i : nat) : option (list Payload) :=
  w ← p_workers p !! i;
  match w_at w with AtWork job => Some job | _ => None end.

(** The worker comes back to [Pool <- w.Bench] when its processor has returned. *)
Definition still_works (e : PoolEvent (list Payload)) s : bool :=
  match e, sv_work s with WorkerPut _, Some _ => true | _, _ => false end.

(** A worker at its processor calls it. *)
Definition run_pool (e : PoolEvent (list Payload)) s : option S :=
  if of_pool e && negb (still_works e s) then
    p ← in_pool e (sv_pool s);
    match e with
    | WorkerProcess i =>
      job ← job_at (sv_pool s) i;
      mret (with_work (Some (processor job)) (with_workers p s))
    | _ => mret (with_workers p s)
    end
  else None.

(** One action of the processor, or its return. *)
Definition run_work s : option S :=
  match sv_work s with
  | Some (Done (Ret _)) => mret (with_work None s)
  | Some (Done (Panics _)) => mret (crash s)
  | Some (Act m _ k) =>
    let r := m (sv_world s) in
    mret (with_work (Some (k r.1)) (with_world r.2 s))
  | None => None
  end.

(** [slf.demandChan <- demand] of a handler; a tick that finds room. *)
Definition HandleDemand (demand : T) s : option S :=
  c ← goes (send (sv_source s) demand);
  mret (with_source c s).

(** [Offer] is a tick, or a caller of [HandleDemand]; [Outside] is what the rest
    of the system does to the world. *)
Definition sv_step (e : SupervisorEvent T) s : option S :=
  if sv_crashed s then None
  else match e with
  | Offer t => HandleDemand t s
  | CancelContext => p ← in_pool Cancel (sv_pool s); mret (with_workers p s)
  | InPool e => run_pool e s
  | Works => run_work s
  | Outside w => Some (with_world w s)
  | ProducerTakes | ProducerSends | ProducerDone => Produce e s
  | _ => supervise e s
  end.

(** Both supervisors start with a pool of one worker, and channels of
    capacity 1: a ticker's channel holds one tick. *)
Definition start (w : World) : S :=
  {| sv_source := make_chan 1; sv_demand := make_chan 1; sv_producer := ProducerSelect;
     sv_loop := LoopSelect; sv_pool := NewWorkerPool 1 1; sv_work := None; sv_world := w; sv_crashed := false;
     sv_fetched := [] |}.

(** What the rest of the system may do to the world. *)
Context (rely : World → World → Prop).

Definition allowed s (e : SupervisorEvent T) : Prop :=
  match e with Outside w => rely (sv_world s) w | _ => True end.

Definition sv_reach : S → S → Prop :=
  rtc (λ s s', ∃ e, allowed s e ∧ sv_step e s = Some s').

Fixpoint sv_run (es : list (SupervisorEvent T)) s : option S :=
  match es with
  | [] => Some s
  | e :: es' => match sv_step e s with Some s' => sv_run es' s' | None => None end
  end.

(** A run without interference from outside. *)
Definition not_outside (e : SupervisorEvent T) : bool :=
  match e with Outside _ => false | _ => true end.

Lemma sv_run_reach es s s' :
  forallb not_outside es = true → sv_run es s = Some s' → sv_reach s s'.
Proof.
  revert s. induction es as [|e es IH]; intros s Hes H; simpl in *; [by simplify_eq |].
  apply andb_prop in Hes as [He Hes]. destruct (sv_step e s) as [s1|] eqn:Hs; [| done].
  eapply rtc_l; [exists e; split; [by destruct e | done] | by apply IH].
Qed.

(** * The messages on their way *)

Definition waiting (a : ProducerAt) : list Payload :=
  match a with ProducerSend results => results | _ => [] end.

Definition jobs (p : pool) : list Payload := concat (p_taken p ++ ch_buf (p_receive p)).

(** A step of the pool moves the messages along; the jobs a closed channel
    yields are empty. *)
Lemma jobs_step e p p' :
  in_pool e p = Some p' →
  jobs p' = jobs p ++ match e with Feed results => results | _ => [] end.
Proof.
  intros H. destruct (internal e) eqn:Hi.
  - apply internal_change in H; [| done]. replace (match e with Feed _ => _ | _ => _ end)
      with ([] : list Payload) by by destruct e. rewrite app_nil_r. unfold jobs.
    destruct H as [r c Hd Hr| | | | | |]; try done. simpl.
    apply goes_recv in Hr as (_ & _ & Hb). destruct r as [x|].
    + by rewrite Hb, <- app_assoc.
    + destruct Hb as [_ ->]. by rewrite !concat_app, app_nil_r.
  - unfold jobs. unfold pool_step in H. destruct (surroundings e p) as [p1|] eqn:Hs.
    + injection H as <-. destruct e; try discriminate Hi; simpl in Hs; try discriminate Hs;
        unpack Hs; simpl; rewrite ?app_nil_r; try done.
      * match goal with Hx : goes (send _ _) = Some _ |- _ => apply goes_send in Hx as (_ & _ & _ & _ & Hb) end.
        rewrite Hb, !concat_app. simpl. by rewrite app_nil_r, <- app_assoc.
      * match goal with Hx : goes (close _) = Some _ |- _ => apply goes_Some in Hx; unfold close in Hx end.
        destruct (ch_closed (p_receive p)); simplify_eq/=. done.
    + assert (Hsame : p_taken p' = p_taken p ∧ p_receive p' = p_receive p).
      { destruct (Dispatch [] e p) as [p1|] eqn:Hd.
        - injection H as <-. unfold Dispatch in Hd.
          destruct (p_dispatch p), e; try discriminate; unpack Hd; done.
        - unfold Worker_Start, Worker_Stop, worker_leave in H. destruct e; try discriminate; unpack H;
            try match goal with Hx : _ ≫= _ = Some _ |- _ => unpack Hx end; done. }
      destruct Hsame as [-> ->]. destruct e; rewrite ?app_nil_r; try done.
      unfold Dispatch in H. by destruct (p_dispatch p).
Qed.

(** The pool of a supervisor is a pool of one worker, and nothing fetched is
    lost between the queue and the pool. *)
Record SInv s : Prop := {
  si_pool : pool_reach [] processor false (NewWorkerPool 1 1) (sv_pool s);
  si_fetched : sv_fetched s = jobs (sv_pool s) ++ waiting (sv_producer s);
}.

Lemma SInv_start w : SInv (start w).
Proof. split; [apply rtc_refl | done]. Qed.

Lemma pool_reach_step e p p' :
  in_pool e p = Some p' → pool_reach [] processor false (NewWorkerPool 1 1) p →
  pool_reach [] processor false (NewWorkerPool 1 1) p'.
Proof. intros He Hr. eapply rtc_r; [exact Hr | by exists e]. Qed.

(** A step of the pool inside a step of the supervisor. *)
Lemma SInv_pool e s s' p :
  in_pool e (sv_pool s) = Some p → sv_pool s' = p → sv_fetched s' = sv_fetched s →
  waiting (sv_producer s) = match e with Feed l => l | _ => [] end ++ waiting (sv_producer s') →
  SInv s → SInv s'.
Proof.
  intros He <- Hf Hw [Hp Hj]. split; [by eapply pool_reach_step |].
  by rewrite Hf, Hj, Hw, (jobs_step _ _ _ He), <- app_assoc.
Qed.

(** A step that leaves the pool alone. *)
Lemma SInv_same s s' :
  sv_pool s' = sv_pool s → sv_fetched s' = sv_fetched s →
  waiting (sv_producer s') = waiting (sv_producer s) → SInv s → SInv s'.
Proof. intros Hp Hf Hw [Hr Hj]. split; [by rewrite Hp | by rewrite Hp, Hf, Hw]. Qed.

Lemma SInv_leaves s s' :
  producer_leaves s = Some s' → waiting (sv_producer s) = [] → SInv s → SInv s'.
Proof.
  unfold producer_leaves. intros H Hw HI. unpack H.
  by eapply (SInv_pool CloseFeed s).
Qed.

Lemma SInv_Produce e s s' : Produce e s = Some s' → SInv s → SInv s'.
Proof.
  unfold Produce, Produce_take. intros H HI.
  destruct (sv_producer s) as [|results|] eqn:Hp; [|destruct e; try done |done].
  - destruct e; try done; [| destruct (p_done _); [| done]; eapply SInv_leaves; [done | by rewrite Hp | done]].
    apply bind_Some in H as ([r c] & _ & H). apply bind_Some in H as (d & _ & H).
    cbv zeta in H. simpl in H. destruct (fetch d (sv_world s)) as [[[results|]|why] w].
    + injection H as <-. destruct HI as [Hr Hj]. split; simpl; [done |].
      by rewrite Hj, Hp, app_nil_r.
    + eapply SInv_leaves; [done | simpl; by rewrite Hp |]. by apply (SInv_same s).
    + injection H as <-. by apply (SInv_same s).
  - unpack H. eapply (SInv_pool (Feed results) s); try done. rewrite Hp. simpl. by rewrite app_nil_r.
Qed.

Lemma SInv_run_pool e s s' : run_pool e s = Some s' → SInv s → SInv s'.
Proof.
  unfold run_pool. intros H HI. destruct (of_pool e && _) eqn:He; [| done].
  apply andb_true_iff in He as [He _]. apply bind_Some in H as (p & Hp & H).
  assert (Hfeed : match e with Feed l => l | _ => [] end = ([] : list Payload)) by by destruct e.
  assert (Hdone : ∀ s1, sv_pool s1 = p → sv_fetched s1 = sv_fetched s →
    waiting (sv_producer s1) = waiting (sv_producer s) → SInv s1).
  { intros s1 H1 H2 H3. eapply (SInv_pool e s); [done.. | | done]. by rewrite Hfeed, H3. }
  destruct e; unpack H; by apply Hdone.
Qed.

(** What the processor does is not seen by the goroutines. *)
Lemma run_work_frame s s' :
  run_work s = Some s' →
  sv_pool s' = sv_pool s ∧ sv_fetched s' = sv_fetched s ∧ sv_producer s' = sv_producer s ∧
  sv_loop s' = sv_loop s ∧ sv_demand s' = sv_demand s ∧ sv_source s' = sv_source s.
Proof. unfold run_work. by destruct (sv_work s) as [[[]|]|]; intros [= <-]. Qed.

Lemma SInv_step e s s' : sv_step e s = Some s' → SInv s → SInv s'.
Proof.
  unfold sv_step. destruct (sv_crashed s); [done |]. intros H HI.
  destruct e as [t| | | | | | | | |e| |w]; try (by eapply SInv_Produce); try (by eapply SInv_run_pool);
    try (apply run_work_frame in H as (? & ? & Hpr & _); apply (SInv_same s); [done.. | by rewrite Hpr | done]);
    try (unfold supervise in H; destruct (sv_loop s); try discriminate H);
    try unfold HandleDemand in H; try unfold producer_Demand in H; unpack H;
    try match goal with Hx : _ ≫= _ = Some _ |- _ => unpack Hx end; try (by apply (SInv_same s)).
  all: first [by eapply (SInv_pool StopCall s) | by eapply (SInv_pool Cancel s)].
Qed.

Lemma sv_reach_SInv w s : sv_reach (start w) s → SInv s.
Proof.
  intros Hr. revert s Hr. apply (rtc_ind_r SInv); [apply SInv_start |].
  intros s s' _ (e & _ & He) HI. by eapply SInv_step.
Qed.

(** A read of the queue that fails. *)
Lemma Produce_take_fails s d c w1 :
  sv_crashed s = false → sv_producer s = ProducerSelect →
  recv (sv_demand s) = Goes (Some d, c) → fetch d (sv_world s) = (Ret None, w1) →
  ch_closed (p_receive (sv_pool s)) = false →
  sv_step ProducerTakes s
  = Some (with_producer ProducerGone
      (with_workers (with_receive {| ch_cap := ch_cap (p_receive (sv_pool s));
                                     ch_buf := ch_buf (p_receive (sv_pool s));
                                     ch_closed := true |} (sv_pool s))
        (with_world w1 (with_demand c s)))).
Proof.
  intros Hc Hp Hr Hf Ho. unfold sv_step, Produce, Produce_take, producer_leaves.
  rewrite Hc, Hp, Hr. simpl. rewrite Hf. unfold pool_step, surroundings, close. simpl. by rewrite Ho.
Qed.

(** * Waiting for ever *)

Definition full {A} (c : Chan A) : Prop :=
  ch_closed c = false ∧ ch_cap c ≤ length (ch_buf c).

(** The loop makes a demand, the channel of demands is full, and the producer
    has returned; what the loop waits for has come again. *)
Definition demand_stuck (d : D) s : Prop :=
  sv_producer s = ProducerGone ∧ sv_loop s = LoopDemand d ∧
  full (sv_demand s) ∧ full (sv_source s).

Lemma send_full {A} (c : Chan A) x : full c → send c x = Blocks.
Proof. intros [Ho Hf]. unfold send. rewrite Ho. by rewrite decide_False by lia. Qed.

Lemma demand_stuck_offer d t s : demand_stuck d s → HandleDemand t s = None.
Proof. intros (_ & _ & _ & Hf). unfold HandleDemand. by rewrite send_full. Qed.

(** [Stop] waits for a worker that has returned. *)
Definition stop_stuck s : Prop :=
  sv_loop s = LoopStop ∧ p_stop (sv_pool s) = Some 0 ∧
  ∃ w rest, p_workers (sv_pool s) = w :: rest ∧ w_at w = Left.

Lemma run_pool_frame e s s' :
  run_pool e s = Some s' →
  sv_producer s' = sv_producer s ∧ sv_loop s' = sv_loop s ∧ sv_demand s' = sv_demand s ∧
  sv_source s' = sv_source s.
Proof.
  unfold run_pool. intros H. destruct (of_pool e && _); [| done].
  apply bind_Some in H as (p & _ & H). by destruct e; unpack H.
Qed.

Lemma demand_stuck_step d e s s' : sv_step e s = Some s' → demand_stuck d s → demand_stuck d s'.
Proof.
  unfold sv_step. destruct (sv_crashed s); [done |]. intros H Hst.
  pose proof Hst as (Hp & Hl & Hd & Hs).
  destruct e as [t| | | | | | | | |e| |w]; try (unfold Produce in H; by rewrite Hp in H);
    try (apply run_work_frame in H as (_ & _ & ? & ? & ? & ?); unfold demand_stuck; by split_and!; congruence);
    try (by rewrite (demand_stuck_offer d) in H);
    try (apply run_pool_frame in H as (? & ? & ? & ?); unfold demand_stuck; by split_and!; congruence);
    unfold supervise in H; try rewrite Hl in H; try done; try (unpack H; done).
  unfold producer_Demand in H. by rewrite send_full in H.
Qed.

Lemma stop_stuck_pool e p p' :
  in_pool e p = Some p' → p_stop p = Some 0 →
  (∃ w rest, p_workers p = w :: rest ∧ w_at w = Left) →
  p_stop p' = Some 0 ∧ ∃ w rest, p_workers p' = w :: rest ∧ w_at w = Left.
Proof.
  intros H Hs (w & rest & Hw & Hat).
  assert (Hins : ∀ i v v', p_workers p !! i = Some v → (w_at v = Left → w_at v' = Left) →
    ∃ w rest, <[i := v']> (p_workers p) = w :: rest ∧ w_at w = Left).
  { intros i v v'. rewrite Hw. destruct i as [|i]; simpl; intros Hv Hor; simplify_eq; eauto. }
  unfold pool_step in H. destruct (surroundings e p) as [p1|] eqn:Hsur.
  - injection H as <-. destruct e; simpl in Hsur; try done; unpack Hsur; simpl; eauto; try congruence.
  - destruct (Dispatch [] e p) as [p1|] eqn:Hd.
    + injection H as <-. unfold Dispatch, dispatch_take, dispatch_wait, dispatch_give in Hd.
      destruct (p_dispatch p), e; try discriminate; unpack Hd; simpl; eauto.
    + unfold Worker_Start, Worker_Stop, worker_leave in H. destruct e; try discriminate; unpack H;
        try match goal with Hx : _ ≫= _ = Some _ |- _ => unpack Hx end; simpl; split; try done;
        try (eapply Hins; [done | congruence]); try (by eapply Hins).
      assert (i = 0) as -> by congruence. rewrite Hw in *. simplify_eq/=. congruence.
Qed.

Lemma stop_stuck_step e s s' : sv_step e s = Some s' → stop_stuck s → stop_stuck s'.
Proof.
  unfold sv_step, stop_stuck. destruct (sv_crashed s); [done |]. intros H (Hl & Hstop & Hleft).
  assert (Hpool : ∀ e p, in_pool e (sv_pool s) = Some p →
    p_stop p = Some 0 ∧ ∃ w rest, p_workers p = w :: rest ∧ w_at w = Left)
    by (intros e0 p He; by apply (stop_stuck_pool e0 (sv_pool s))).
  destruct e as [t| | | | | | | | |e| |w]; try (unfold supervise in H; rewrite Hl in H; try done).
  - unfold HandleDemand in H. unpack H. done.
  - case_decide as Hd; [| done]. destruct Hleft as (w & rest & Hw & _). rewrite Hw in Hd. simpl in Hd.
    congruence.
  - unfold Produce, Produce_take, producer_leaves in H. destruct (sv_producer s); try done.
    apply bind_Some in H as ([r c] & _ & H). apply bind_Some in H as (d & _ & H). cbv zeta in H.
    simpl in H. destruct (fetch d (sv_world s)) as [[[results|]|why] w]; unpack H; simpl; eauto.
  - unfold Produce in H. destruct (sv_producer s); try done. unpack H. simpl. eauto.
  - unfold Produce, producer_leaves in H. destruct (sv_producer s); try done. unpack H. simpl. eauto.
  - unpack H. simpl. eauto.
  - unfold run_pool in H. destruct (of_pool e && _); [| done]. apply bind_Some in H as (p & Hp & H).
    destruct e; unpack H; simpl; eauto.
  - apply run_work_frame in H as (-> & _ & _ & -> & _). done.
  - unpack H. done.
Qed.

(** A processor is run on the job of its worker. *)
Lemma pool_step_processed e p p' :
  in_pool e p = Some p' →
  p_processed p' = p_processed p ++
    match e with WorkerProcess i => match job_at p i with Some job => [job] | None => [] end | _ => [] end.
Proof.
  unfold pool_step. intros H. destruct (surroundings e p) as [p1|] eqn:Hs.
  { injection H as <-. destruct e; try discriminate Hs; simpl in Hs; unpack Hs;
      by rewrite app_nil_r. }
  clear Hs. destruct (Dispatch [] e p) as [p1|] eqn:Hd.
  { injection H as <-. unfold Dispatch, dispatch_take, dispatch_wait, dispatch_give in Hd.
    destruct (p_dispatch p), e; try discriminate Hd; unpack Hd; by rewrite app_nil_r. }
  clear Hd. unfold Worker_Start, Worker_Stop, worker_leave in H. unfold job_at.
  destruct e; try discriminate H; apply bind_Some in H as (w & Hw & H);
    rewrite ?Hw; simpl; unpack H;
    repeat match goal with Hx : _ ≫= _ = Some _ |- _ => unpack Hx end; rewrite ?app_nil_r; try done.
Qed.

(** ** What a step does to the processor and the world *)

(** The worker whose processor runs is not back at the pool yet. *)
Definition all_at_put (p : pool) : Prop := ∀ i w, p_workers p !! i = Some w → w_at w = AtPut.

Lemma pool_at_put e p p' :
  in_pool e p = Some p' → (∀ i, e ≠ WorkerPut i) → all_at_put p → all_at_put p'.
Proof.
  unfold pool_step, all_at_put. intros H Hne Hall.
  assert (Hins : ∀ i v v', p_workers p !! i = Some v → w_at v' = w_at v →
    ∀ j w, <[i := v']> (p_workers p) !! j = Some w → w_at w = AtPut).
  { intros i v v' Hi Hv j w [(-> & <- & _)|[_ Hj]]%list_lookup_insert_Some; [| by eapply Hall].
    rewrite Hv. by eapply Hall. }
  destruct (surroundings e p) as [p1|] eqn:Hs.
  { injection H as <-. destruct e; try discriminate Hs; simpl in Hs; unpack Hs; try done.
    simpl. by eapply Hins. }
  clear Hs. destruct (Dispatch [] e p) as [p1|] eqn:Hd.
  { injection H as <-. unfold Dispatch, dispatch_take, dispatch_wait, dispatch_give in Hd.
    destruct (p_dispatch p), e; try discriminate Hd; unpack Hd; try done. simpl. by eapply Hins. }
  clear Hd. unfold Worker_Start in H.
  destruct e; try discriminate H; try (by destruct (Hne i)); apply bind_Some in H as (w & Hw & H);
    rewrite (Hall i w Hw) in H; try discriminate H. by destruct (p_done p).
Qed.

Lemma pool_process i p p' :
  in_pool (WorkerProcess i) p = Some p' → length (p_workers p) = 1 → all_at_put p'.
Proof.
  unfold pool_step, all_at_put. simpl. unfold Dispatch. intros H Hl.
  destruct (p_dispatch p); apply bind_Some in H as (w & Hw & H); destruct (w_at w); try done;
    injection H as <-; simpl; intros j v Hj; apply lookup_lt_Some in Hw as Hi; apply lookup_lt_Some in Hj as Hlj;
    rewrite length_insert in Hlj; assert (j = i) as -> by lia;
    rewrite list_lookup_insert_eq in Hj by done; by injection Hj as <-.
Qed.

Inductive effect s s' : Prop :=
| effect_none : sv_work s' = sv_work s → sv_world s' = sv_world s →
    p_processed (sv_pool s') = p_processed (sv_pool s) → effect s s'
| effect_reads d : sv_work s' = sv_work s → sv_world s' = (fetch d (sv_world s)).2 →
    p_processed (sv_pool s') = p_processed (sv_pool s) → effect s s'
| effect_begins i job : in_pool (WorkerProcess i) (sv_pool s) = Some (sv_pool s') →
    job_at (sv_pool s) i = Some job → sv_work s' = Some (processor job) →
    sv_world s' = sv_world s → p_processed (sv_pool s') = p_processed (sv_pool s) ++ [job] → effect s s'
| effect_acts p q : sv_work s = Some p → proc_step p (sv_world s) = Some (q, sv_world s') →
    sv_work s' = Some q → sv_pool s' = sv_pool s → effect s s'
| effect_returns p : sv_work s = Some p → proc_step p (sv_world s) = None → sv_work s' = None →
    sv_world s' = sv_world s → sv_pool s' = sv_pool s → effect s s'.

Ltac same_processed :=
  match goal with Hx : pool_step _ _ _ _ _ = Some _ |- _ =>
    apply pool_step_processed in Hx; apply effect_none; [done.. |]; simpl; by rewrite Hx, ?app_nil_r end.

Lemma sv_step_effect e s s' : not_outside e = true → sv_step e s = Some s' → effect s s'.
Proof.
  unfold sv_step. intros Hout. destruct (sv_crashed s); [done |]. intros H.
  destruct e as [t| | | | | | | | |e| |w]; try done.
  - unfold HandleDemand in H. unpack H. by apply effect_none.
  - unfold supervise in H. destruct (sv_loop s); try done. unpack H; by apply effect_none.
  - unfold supervise, producer_Demand in H. destruct (sv_loop s); try done. unpack H.
    match goal with Hx : _ ≫= _ = Some _ |- _ => unpack Hx end. by apply effect_none.
  - unfold supervise in H. destruct (sv_loop s); try done. unpack H. same_processed.
  - unfold supervise in H. destruct (sv_loop s); try done. unpack H. by apply effect_none.
  - unfold Produce, Produce_take, producer_leaves in H. destruct (sv_producer s); try done.
    apply bind_Some in H as ([r c] & _ & H). apply bind_Some in H as (d & _ & H). cbv zeta in H.
    simpl in H. destruct (fetch d (sv_world s)) as [r' w] eqn:Hf.
    assert (Hw : w = (fetch d (sv_world s)).2) by by rewrite Hf.
    destruct r' as [[results|]|why]; unpack H; try (by apply (effect_reads _ _ d)).
    match goal with Hx : pool_step _ _ _ _ _ = Some _ |- _ => apply pool_step_processed in Hx as Hx' end.
    apply (effect_reads _ _ d); [done | done |]. simpl. by rewrite Hx', app_nil_r.
  - unfold Produce in H. destruct (sv_producer s); try done. unpack H. same_processed.
  - unfold Produce, producer_leaves in H. destruct (sv_producer s); try done. unpack H. same_processed.
  - unpack H. same_processed.
  - unfold run_pool in H. destruct (of_pool e && _); [| done]. apply bind_Some in H as (p & Hp & H).
    apply pool_step_processed in Hp as Hpr.
    destruct e; unpack H; try (apply effect_none; [done.. |]; simpl; by rewrite Hpr, app_nil_r).
    match goal with Hj : job_at _ _ = Some _ |- _ => rewrite Hj in Hpr; by eapply effect_begins end.
  - unfold run_work in H. destruct (sv_work s) as [p|] eqn:Hw; [| done].
    destruct p as [[r|why]|X m act k]; injection H as <-.
    + by eapply effect_returns.
    + by apply effect_none.
    + by eapply effect_acts.
Qed.

(** The pool stands or takes a step; the worker is not back while its processor
    runs. *)
Lemma sv_step_pool e s s' :
  sv_step e s = Some s' → sv_pool s' = sv_pool s ∨
  ∃ ev, in_pool ev (sv_pool s) = Some (sv_pool s') ∧ (∀ i, ev = WorkerPut i → sv_work s = None).
Proof.
  unfold sv_step. destruct (sv_crashed s); [done |]. intros H.
  destruct e as [t| | | | | | | | |e| |w].
  - unfold HandleDemand in H. unpack H. by left.
  - unfold supervise in H. destruct (sv_loop s); try done. unpack H; by left.
  - unfold supervise, producer_Demand in H. destruct (sv_loop s); try done. unpack H.
    match goal with Hx : _ ≫= _ = Some _ |- _ => unpack Hx end. by left.
  - unfold supervise in H. destruct (sv_loop s); try done. unpack H. right. by exists StopCall.
  - unfold supervise in H. destruct (sv_loop s); try done. unpack H. by left.
  - unfold Produce, Produce_take, producer_leaves in H. destruct (sv_producer s); try done.
    apply bind_Some in H as ([r c] & _ & H). apply bind_Some in H as (d & _ & H). cbv zeta in H.
    simpl in H. destruct (fetch d (sv_world s)) as [[[results|]|why] w]; unpack H; try (by left).
    right. by exists CloseFeed.
  - unfold Produce in H. destruct (sv_producer s); try done. unpack H. right. by eexists (Feed _).
  - unfold Produce, producer_leaves in H. destruct (sv_producer s); try done. unpack H.
    right. by exists CloseFeed.
  - unpack H. right. by exists Cancel.
  - unfold run_pool in H. destruct (of_pool e && _) eqn:He; [| done].
    apply andb_true_iff in He as [_ He]. apply bind_Some in H as (p & Hp & H).
    right. exists e. split; [destruct e; by unpack H |]. intros i ->.
    unfold still_works in He. by destruct (sv_work s).
  - apply run_work_frame in H as (-> & _). by left.
  - injection H as <-. by left.
Qed.

Lemma sv_reach_keeps (I : S → Prop) s s' :
  (∀ e s s', sv_step e s = Some s' → I s → I s') → sv_reach s s' → I s → I s'.
Proof. intros HI. induction 1 as [|s s1 s' (e & _ & He) _ IH]; [done |]. eauto. Qed.

(** * Without a producer

    What is left when the producer has returned: demands go from the source to
    the loop and from there to the channel of demands, and nobody takes them. *)
Record open_chans s : Prop := {
  oc_source : ch_closed (sv_source s) = false;
  oc_source_cap : ch_cap (sv_source s) = 1;
  oc_demand : ch_closed (sv_demand s) = false;
  oc_demand_cap : ch_cap (sv_demand s) = 1;
}.

Definition room {A} (c : Chan A) : nat := ch_cap c - length (ch_buf c).
Definition loop_room (a : LoopAt D) : nat := match a with LoopDemand _ => 0 | _ => 1 end.

(** The demands there is still a place for. *)
Definition slots s : nat := room (sv_source s) + loop_room (sv_loop s) + room (sv_demand s).

(** The same, weighted so that every move of a demand makes it less. *)
Definition to_fill s : nat := room (sv_source s) + 2 * loop_room (sv_loop s) + 3 * room (sv_demand s).

Definition offers (e : SupervisorEvent T) : nat := match e with Offer _ => 1 | _ => 0 end.

Lemma send_room {A} (c c' : Chan A) x :
  goes (send c x) = Some c' → ch_closed c' = false ∧ ch_cap c' = ch_cap c ∧ 1 + room c' = room c.
Proof.
  intros (Hc & Hcl & Ho & Hl & Hb)%goes_send. unfold room. rewrite Hc, Hb, length_app. simpl.
  split_and!; [congruence | done | lia].
Qed.

Lemma recv_room {A} (c c' : Chan A) x :
  goes (recv c) = Some (Some x, c') →
  ch_closed c' = ch_closed c ∧ ch_cap c' = ch_cap c ∧ room c' ≤ 1 + room c.
Proof.
  intros (Hc & Hcl & Hb)%goes_recv. unfold room. rewrite Hc, Hb. simpl.
  split_and!; [done | done | lia].
Qed.

Definition ends (a : LoopAt D) : Prop := match a with LoopStop | LoopReturned => True | _ => False end.

(** What a step does to the demands on their way. *)
Inductive moves (e : SupervisorEvent T) s s' : Prop :=
| move_offer t : e = Offer t → goes (send (sv_source s) t) = Some (sv_source s') →
    sv_demand s' = sv_demand s → sv_loop s' = sv_loop s → moves e s s'
| move_take t : e = LoopTake → goes (recv (sv_source s)) = Some (Some t, sv_source s') →
    sv_demand s' = sv_demand s → sv_loop s = LoopSelect → sv_loop s' = LoopDemand (demand_of t) →
    moves e s s'
| move_demand d : e = LoopDemands → sv_source s' = sv_source s →
    goes (send (sv_demand s) d) = Some (sv_demand s') →
    sv_loop s = LoopDemand d → sv_loop s' = LoopSelect → moves e s s'
| move_served d : e = ProducerTakes → sv_source s' = sv_source s → sv_producer s = ProducerSelect →
    goes (recv (sv_demand s)) = Some (Some d, sv_demand s') → sv_loop s' = sv_loop s → moves e s s'
| move_none : offers e = 0 → sv_source s' = sv_source s → sv_demand s' = sv_demand s →
    sv_loop s' = sv_loop s ∨ loop_room (sv_loop s) = 1 ∧ ends (sv_loop s') → moves e s s'.

Lemma sv_step_moves e s s' : sv_step e s = Some s' → moves e s s'.
Proof.
  unfold sv_step. destruct (sv_crashed s); [done |]. intros H.
  destruct e as [t| | | | | | | | |e| |w].
  - unfold HandleDemand in H. unpack H. by eapply move_offer.
  - unfold supervise in H. destruct (sv_loop s) eqn:Hl; try done.
    apply bind_Some in H as ([r c] & Hr & H). apply bind_Some in H as (t & Ht & [= <-]).
    simpl in Ht. subst r. by eapply move_take.
  - unfold supervise, producer_Demand in H. destruct (sv_loop s) eqn:Hl; try done. unpack H.
    match goal with Hx : _ ≫= _ = Some _ |- _ => unpack Hx end. by eapply move_demand.
  - unfold supervise in H. destruct (sv_loop s) eqn:Hl; try done. unpack H.
    apply move_none; [done.. | right; by rewrite Hl].
  - unfold supervise in H. destruct (sv_loop s) eqn:Hl; try done. unpack H.
    apply move_none; [done.. | right; by rewrite Hl].
  - unfold Produce, Produce_take, producer_leaves in H. destruct (sv_producer s) eqn:Hp; try done.
    apply bind_Some in H as ([r c] & Hr & H). apply bind_Some in H as (d & Hd & H). cbv zeta in H.
    simpl in Hd. subst r. simpl in H.
    destruct (fetch d (sv_world s)) as [[[results|]|why] w]; unpack H; by eapply move_served.
  - unfold Produce in H. destruct (sv_producer s); try done. unpack H. apply move_none; auto.
  - unfold Produce, producer_leaves in H. destruct (sv_producer s); try done. unpack H. apply move_none; auto.
  - unpack H. apply move_none; auto.
  - apply run_pool_frame in H as (_ & Hl & Hd & Hs). apply move_none; [done.. | by left].
  - apply run_work_frame in H as (_ & _ & _ & Hl & Hd & Hs). apply move_none; [done.. | by left].
  - injection H as <-. apply move_none; auto.
Qed.

Lemma open_chans_step e s s' : sv_step e s = Some s' → open_chans s → open_chans s'.
Proof.
  intros H%sv_step_moves [H1 H2 H3 H4].
  destruct H as [t _ Hx Hd _|t _ Hx Hd _ _|d _ Hs Hx _ _|d _ Hs _ Hx _|_ Hs Hd _];
    try apply send_room in Hx as (? & ? & _); try apply recv_room in Hx as (? & ? & _);
    split; congruence.
Qed.

Lemma gone_step e s s' :
  sv_step e s = Some s' → sv_producer s = ProducerGone →
  sv_producer s' = ProducerGone ∧ offers e + slots s' ≤ slots s.
Proof.
  intros H Hp. split.
  - unfold sv_step in H. destruct (sv_crashed s); [done |].
    destruct e as [t| | | | | | | | |e| |w]; unfold HandleDemand, supervise, producer_Demand, Produce in H;
      rewrite ?Hp in H; try done; try (destruct (sv_loop s); done);
      try (apply run_pool_frame in H as (-> & _)); try (apply run_work_frame in H as (_ & _ & -> & _));
      try destruct (sv_loop s); try done; unpack H; try done.
    all: match goal with Hx : _ ≫= _ = Some _ |- _ => unpack Hx end; done.
  - apply sv_step_moves in H. unfold slots.
    destruct H as [t -> Hx Hd Hl|t -> Hx Hd Hl Hl'|d -> Hs Hx Hl Hl'|d _ _ Hn _ _|He Hs Hd Hl].
    + apply send_room in Hx as (_ & _ & Hr). rewrite Hd, Hl. simpl offers. lia.
    + apply recv_room in Hx as (_ & _ & Hr). rewrite Hd, Hl, Hl'. simpl offers. simpl loop_room. lia.
    + apply send_room in Hx as (_ & _ & Hr). rewrite Hs, Hl, Hl'. simpl offers. simpl loop_room. lia.
    + congruence.
    + rewrite He, Hs, Hd. destruct Hl as [->|[-> Hl]]; [lia |]. by destruct (sv_loop s'); simpl; lia.
Qed.

(** Nothing moves any more. *)
Definition jammed s : Prop :=
  sv_producer s = ProducerGone ∧ full (sv_source s) ∧
  (sv_crashed s = true ∨
   match sv_loop s with LoopSelect => False | LoopDemand _ => full (sv_demand s) | _ => True end).

Lemma jammed_offer t s : jammed s → HandleDemand t s = None.
Proof. intros (_ & Hf & _). unfold HandleDemand. by rewrite send_full. Qed.

Lemma jammed_step e s s' : sv_step e s = Some s' → jammed s → jammed s'.
Proof.
  intros H (Hp & Hf & Hj). pose proof (proj1 (gone_step e s s' H Hp)) as Hp'.
  destruct Hj as [Hc|Hj]; [unfold sv_step in H; by rewrite Hc in H |]. split; [done |].
  pose proof (sv_step_moves e s s' H) as Hm.
  destruct Hm as [t _ Hx _ _|t _ _ _ Hl _|d _ _ Hx Hl _|d _ _ Hn _ _|_ Hs Hd Hl].
  - by rewrite send_full in Hx.
  - by rewrite Hl in Hj.
  - rewrite Hl in Hj. by rewrite send_full in Hx.
  - congruence.
  - rewrite Hs. split; [done |]. right. rewrite Hd.
    destruct Hl as [->|[_ Hl]]; [done |]. by destruct (sv_loop s').
Qed.

End supervisor.

(** * The two supervisors *)

(** [ticker.C] of [MetadataSupervisor] (System.v), every two seconds:
    [producer.Demand(1)]. *)
Definition tick_demand (_ : unit) : Z := 1.

(** [FileUpdateSyncBroker.Start], whose loop waits for the demands of
    [HandleDemand]; the processor gives the messages it sends to the broker. *)
Definition FileUpdateSyncBroker_Start `{E : Env} `{OS : OsEnv} (notes : Queuer)
    `{GE : Gob MetadataUpdateStatusEvent} :
    SupervisorEvent Demand → Supervisor Demand Demand (list Message * option error) →
    option (Supervisor Demand Demand (list Message * option error)) :=
  sv_step id (Produce_demand (Q := notes)) (λ payloads, Done (Ret (SSEConsumer_Execute payloads))).

(** What the producer got is, in order, where the pool and it have put it. *)
Lemma SInv_in_order `{E : Env} `{OS : OsEnv} {T D R} (processor : list Payload → Proc R) (s : Supervisor T D R) :
  SInv processor s →
  let p := sv_pool s in
  sv_fetched s = concat (p_processed p) ++ concat (p_workers p ≫= held)
    ++ concat (held_by_dispatch (p_dispatch p)) ++ concat (ch_buf (p_receive p))
    ++ waiting (sv_producer s).
Proof.
  intros [Hp Hf] p. apply reach_in_order in Hp. unfold in_order in Hp. rewrite Hf. unfold jobs.
  fold p in Hp |- *. by rewrite Hp, !concat_app, <- !app_assoc.
Qed.

(** * Properties *)

(** (C12) From the queue to the executor, nothing is lost, repeated or
    reordered.  Whatever the goroutines of a supervisor do (and whatever the
    rest of the system does to the world), the messages its producer got from
    the queue are, in order: those of the batches the processor was run on,
    those on the worker's bench or in its hand, those in the dispatcher's hand,
    those in the results channel, and those the producer is about to send.  A
    demand one of whose reads fails gives nothing, and what it had read before
    is dropped by the code and not in the list; both supervisors demand one
    message at a time, so that there is nothing before. *)
Theorem supervisor_in_order `{E : Env} `{OS : OsEnv} {T D R} (demand_of : T → D) fetch
    (processor : list Payload → Proc R)
    rely w s :
  sv_reach demand_of fetch processor rely (start w) s →
  let p := sv_pool s in
  sv_fetched s = concat (p_processed p) ++ concat (p_workers p ≫= held)
    ++ concat (held_by_dispatch (p_dispatch p)) ++ concat (ch_buf (p_receive p))
    ++ waiting (sv_producer s).
Proof. intros Hr. by eapply SInv_in_order, sv_reach_SInv. Qed.

(** A concrete supervisor: two finished uploads are waiting in the queue. *)
Definition change_queue : Queuer := RedisQ (E := quiet_env) MetadataFileUpdateQueue.
Definition note_queue : Queuer := RedisQ (E := quiet_env) MetadataUpdateClientsNotifierQueue.

Definition sample_message (id : string) : string :=
  match gob_Encode (Gob := cache_gob)
          {| cm_UserID := "U11223455"; cm_PrevID := None; cm_DeviceID := "1"; cm_ID := id |} with
  | Val b => b
  | Err _ => ""
  end.

Definition two_changes : World :=
  world_with_redis {[MetadataFileUpdateQueue := [sample_message "F1"; sample_message "F2"]]}
    sample_world.

(** The first is processed, the second is on the bench. *)
Definition busy_session : list (SupervisorEvent unit) :=
  [Offer (); LoopTake; LoopDemands; ProducerTakes; InPool (WorkerPut 0); ProducerSends;
   InPool DispatchTake; InPool DispatchWait; InPool DispatchGive; InPool (WorkerTake 0);
   InPool (WorkerProcess 0); Works; Works; InPool (WorkerPut 0);
   Offer (); LoopTake; LoopDemands; ProducerTakes; ProducerSends;
   InPool DispatchTake; InPool DispatchWait; InPool DispatchGive].

#[local] Abbreviation sample_fetch :=
  (λ d, produce_batch (Q := change_queue) (Z.to_nat d)).
(** A processor of one external call; the executor runs in System.v. *)
Definition sample_execute `{E : Env} (payloads : list Payload) : Proc (OS := sample_os) unit :=
  Act call act_call (λ _, Done (Ret ())).

Definition busy_run : option (Supervisor (E := quiet_env) (OS := sample_os) unit Z unit) :=
  sv_run tick_demand sample_fetch sample_execute busy_session (start two_changes).

Lemma supervisor_in_order_witness :
  ∃ s, busy_run = Some s ∧ let p := sv_pool s in
  pl_Message <$> sv_fetched s = [sample_message "F1"; sample_message "F2"] ∧
  pl_Message <$> concat (p_processed p) = [sample_message "F1"] ∧
  sv_fetched s = concat (p_processed p) ++ concat (p_workers p ≫= held)
    ++ concat (held_by_dispatch (p_dispatch p)) ++ concat (ch_buf (p_receive p))
    ++ waiting (sv_producer s).
Proof.
  assert (Hfacts : (λ s, (pl_Message <$> sv_fetched s, pl_Message <$> concat (p_processed (sv_pool s))))
    <$> busy_run = Some ([sample_message "F1"; sample_message "F2"], [sample_message "F1"]))
    by by vm_compute.
  destruct busy_run as [s|] eqn:Hs; [| done]. injection Hfacts as Hf Hp. exists s. split; [done |].
  intros p. split; [exact Hf |]. split; [exact Hp |].
  apply (supervisor_in_order (E := quiet_env) (OS := sample_os) tick_demand sample_fetch sample_execute
    (λ _ _, False) two_changes).
  by apply (sv_run_reach _ _ _ _ busy_session).
Defined.

(** The states on the way: nothing has reached the pool. *)
Definition waiting_state `{E : Env} `{OS : OsEnv} {T D R} (source : list T) (demand : list D) producer loop closed w :
    Supervisor T D R :=
  {| sv_source := {| ch_cap := 1; ch_buf := source; ch_closed := false |};
     sv_demand := {| ch_cap := 1; ch_buf := demand; ch_closed := false |};
     sv_producer := producer; sv_loop := loop;
     sv_pool := {| p_receive := {| ch_cap := 1; ch_buf := []; ch_closed := closed |};
                   p_pool := make_chan 1; p_workers := [new_worker]; p_dispatch := AtReceive;
                   p_done := false; p_stop := None; p_taken := []; p_processed := [] |};
     sv_work := None; sv_world := w; sv_crashed := false; sv_fetched := [] |}.

Lemma demand_run `{E : Env} `{OS : OsEnv} {T D R} (demand_of : T → D) fetch
    (processor : list Payload → Proc R) rely t
    producer closed w :
  sv_reach demand_of fetch processor rely (waiting_state [] [] producer LoopSelect closed w)
    (waiting_state [] [demand_of t] producer LoopSelect closed w).
Proof. by apply (sv_run_reach _ _ _ _ [Offer t; LoopTake; LoopDemands]). Qed.

(** An error of the queue ends the supervision for good.  If the producer
    cannot read the queue at its first demand, it returns and closes its
    results, and nobody notices: two ticks later the loop is at
    [producer.Demand(1)] on a full channel, and from then on it stays there
    whatever happens, also when the context is cancelled: [MetadataSupervisor]
    never returns and never makes another demand, and in
    [FileUpdateSyncBroker.Start] every further call of [HandleDemand] waits for
    ever. *)
Theorem producer_error_deadlocks `{E : Env} `{OS : OsEnv} {T D R} (demand_of : T → D) fetch
    (processor : list Payload → Proc R)
    rely (t : T) w w1 :
  fetch (demand_of t) w = (Ret None, w1) →
  ∃ s, sv_reach demand_of fetch processor rely (start w) s ∧ p_done (sv_pool s) = false ∧
    ∀ s', sv_reach demand_of fetch processor rely s s' →
      sv_loop s' = LoopDemand (demand_of t) ∧ ∀ t', HandleDemand t' s' = None.
Proof.
  intros Hfetch.
  exists (waiting_state [t] [demand_of t] ProducerGone (LoopDemand (demand_of t)) true w1).
  split; [| split; [done |]].
  - etrans; [apply (demand_run _ _ _ _ t ProducerSelect false w) |].
    eapply rtc_l; [exists ProducerTakes; split; [done |]; by apply (Produce_take_fails _ _ _ _ (demand_of t) (make_chan 1) w1) |].
    etrans; [apply (demand_run _ _ _ _ t ProducerGone true w1) |].
    by apply (sv_run_reach _ _ _ _ [Offer t; LoopTake; Offer t]).
  - intros s' Hr. eapply (sv_reach_keeps demand_of fetch processor rely (demand_stuck (demand_of t))) in Hr;
      [| intros e s1 s2; apply demand_stuck_step |].
    + split; [apply Hr | intros t'; by eapply demand_stuck_offer].
    + split_and!; [done | done | |]; (split; [done | simpl; lia]).
Qed.

(** The queue does not answer the first read. *)
Definition no_redis : Env := sample_env (λ n, if decide (n = 0) then Some "i/o timeout" else None).

Lemma producer_error_deadlocks_witness :
  ∃ s, sv_reach tick_demand
      (λ d, produce_batch (Q := RedisQ (E := no_redis) MetadataFileUpdateQueue) (Z.to_nat d))
      (sample_execute (E := no_redis)) (λ _ _, True) (start empty_world) s ∧
    ∀ s', sv_reach tick_demand
        (λ d, produce_batch (Q := RedisQ (E := no_redis) MetadataFileUpdateQueue) (Z.to_nat d))
        (sample_execute (E := no_redis)) (λ _ _, True) s s' →
      sv_loop s' = LoopDemand 1%Z ∧ ∀ t', HandleDemand t' s' = None.
Proof.
  destruct (producer_error_deadlocks (E := no_redis) (OS := sample_os) tick_demand
    (λ d, produce_batch (Q := RedisQ (E := no_redis) MetadataFileUpdateQueue) (Z.to_nat d))
    (sample_execute (E := no_redis)) (λ _ _, True) () empty_world (tick empty_world)) as (s & Hr & _ & Hs);
    [by vm_compute | by exists s].
Defined.

(** Cancelling a supervisor is a race.  [Stop] sends to the [Quit] of the worker,
    and the worker waits for that and for the end of the context: when it takes
    the latter, [Stop] waits for ever and [MetadataSupervisor] never returns;
    when it takes the former, it returns. *)
Theorem Stop_races `{E : Env} `{OS : OsEnv} {T D R} (demand_of : T → D) fetch
    (processor : list Payload → Proc R) rely w :
  (∃ s, sv_reach demand_of fetch processor rely (start w) s ∧
     ∀ s', sv_reach demand_of fetch processor rely s s' → sv_loop s' = LoopStop) ∧
  (∃ s, sv_reach demand_of fetch processor rely (start w) s ∧ sv_loop s = LoopReturned).
Proof.
  split.
  - eexists. split.
    + apply (sv_run_reach demand_of fetch processor rely
        [InPool (WorkerPut 0); CancelContext; InPool (WorkerDone 0); LoopDone]); reflexivity.
    + intros s' Hr. eapply (sv_reach_keeps demand_of fetch processor rely stop_stuck) in Hr;
        [apply Hr | intros e s1 s2; apply stop_stuck_step |].
      split_and!; [done | done |]. by eexists _, _.
  - eexists. split.
    + apply (sv_run_reach demand_of fetch processor rely
        [InPool (WorkerPut 0); CancelContext; LoopDone; InPool (WorkerQuit 0); LoopReturns]);
        reflexivity.
    + done.
Qed.
