(* ===== verification/Sse.v ===== *)
(** web/routes/ssehandler.go: the connections of the devices.  A connection is a
    goroutine of the HTTP server that subscribes to the broker of Broker.v,
    passes the messages it receives on to the device, and at every tick makes a
    demand of the supervisor of Supervisor.v. *)
From S2P Require Import Prelude GoStd Api Model World Tokens Auth Queue Gob.
From S2P Require Import Blob Proc Changelog Chan Pool Broker Sync Supervisor.
From Stdlib Require Import Ascii.

(** Where a connection is: in [Subscribe], at its [select], in [HandleDemand],
    in the deferred [Unsubscribe] (known by its [doneCh]), or over. *)
Inductive ConnAt :=
| ConnSubscribe
| ConnSelect
| ConnDemand
| ConnUnsubscribe (doneCh : nat)
| ConnOver.

(** [cn_ch] is the receiver; [cn_written] what was written to the response. *)
Record Conn := {
  cn_user : string;
  cn_device : string;
  cn_ch : nat;
  cn_at : ConnAt;
  cn_written : string;
}.

Definition conn_goes (a : ConnAt) (x : Conn) : Conn :=
  {| cn_user := cn_user x; cn_device := cn_device x; cn_ch := cn_ch x; cn_at := a;
     cn_written := cn_written x |}.
Definition conn_writes (data : string) (x : Conn) : Conn :=
  {| cn_user := cn_user x; cn_device := cn_device x; cn_ch := cn_ch x; cn_at := cn_at x;
     cn_written := cn_written x +:+ data |}.

Definition topicName (userID deviceID : string) : string :=
  Sprintf "%s_%s" [AStr userID; AStr deviceID].

Definition newline : string := String "010"%char "".

(** [fmt.Fprintf(w, "data: %s\n\n", sseData)] *)
Definition sse_event (userID deviceID : string) (data : Message) : string :=
  let sseData := Sprintf "userID:%s,deviceID:%s,%s"
                   [AStr userID; AStr deviceID; AStr (m_Content data)] in
  Sprintf "data: %s" [AStr sseData] +:+ newline +:+ newline.

Section sse.
Context `{E : Env} `{OS : OsEnv} {R : Type} (fetch : Demand → Go (option (list Payload))).
Context (processor : list Payload → Proc R).

(** [NewSSEHandler] starts both; the connections by number. *)
Record SSEHandler := {
  subscriber : State;
  syncer : Supervisor Demand Demand R;
  conns : gmap nat Conn;
}.

Inductive SSEEvent :=
| Connect (i ch : nat) (c : Request)
| Subscribed (i : nat)
| Receives (i : nat)
| Ticks (i : nat)
| Demanded (i : nat)
| ClientGone (i doneCh : nat)
| UnsubscribeSent (i : nat)
| UnsubscribeDone (i : nat)
| InBroker (e : Event)
| InSyncer (e : SupervisorEvent Demand).

Definition set_subscriber (b : State) (s : SSEHandler) : SSEHandler :=
  {| subscriber := b; syncer := syncer s; conns := conns s |}.
Definition set_syncer (v : Supervisor Demand Demand R) (s : SSEHandler) : SSEHandler :=
  {| subscriber := subscriber s; syncer := v; conns := conns s |}.
Definition set_conn (i : nat) (x : Conn) (s : SSEHandler) : SSEHandler :=
  {| subscriber := subscriber s; syncer := syncer s; conns := <[i := x]> (conns s) |}.

(** [EstablishConnection], up to the channel made in [Subscribe]: without a
    token the answer is 401 and there is no connection. *)
Definition EstablishConnection (i ch : nat) (c : Request) (s : SSEHandler) : option SSEHandler :=
  match rq_token c, conns s !! i with
  | Some token, None =>
    let userID := tok_ResourceID token in
    let deviceID := QueryParam c "deviceID" in
    b ← step (ESubscribe_make ch (topicName userID deviceID)) (subscriber s);
    mret (set_conn i {| cn_user := userID; cn_device := deviceID; cn_ch := ch;
                        cn_at := ConnSubscribe; cn_written := "" |} (set_subscriber b s))
  | _, _ => None
  end.

(** [case data, ok := <-receiver]: a closed receiver is passed over. *)
Definition conn_receives (i : nat) (x : Conn) (s : SSEHandler) : option SSEHandler :=
  b ← step (EReceive (cn_ch x)) (subscriber s);
  mret (set_conn i (match chan_buf (subscriber s) (cn_ch x) with
                    | data :: _ => conn_writes (sse_event (cn_user x) (cn_device x) data) x
                    | [] => x
                    end) (set_subscriber b s)).

(** The loop of a connection and its deferred [Unsubscribe]. *)
Definition conn_step (e : SSEEvent) (x : Conn) (s : SSEHandler) : option SSEHandler :=
  match cn_at x, e with
  | ConnSubscribe, Subscribed i =>
    b ← step (ESubscribe_send (cn_ch x)) (subscriber s);
    mret (set_conn i (conn_goes ConnSelect x) (set_subscriber b s))
  | ConnSelect, Receives i => conn_receives i x s
  | ConnSelect, Ticks i => mret (set_conn i (conn_goes ConnDemand x) s)
  | ConnDemand, Demanded i =>
    v ← HandleDemand {| dm_Count := 1%Z; dm_UserID := cn_user x |} (syncer s);
    mret (set_conn i (conn_goes ConnSelect x) (set_syncer v s))
  | ConnSelect, ClientGone i doneCh =>
    b ← step (EUnsubscribe_make (cn_ch x) doneCh) (subscriber s);
    mret (set_conn i (conn_goes (ConnUnsubscribe doneCh) x) (set_subscriber b s))
  | ConnUnsubscribe doneCh, UnsubscribeSent i =>
    b ← step (EUnsubscribe_send doneCh) (subscriber s);
    mret (set_subscriber b s)
  | ConnUnsubscribe doneCh, UnsubscribeDone i =>
    match u_at <$> s_unsubs (subscriber s) !! doneCh with
    | Some Returned => Some (set_conn i (conn_goes ConnOver x) s)
    | _ =>
      b ← step (EUnsubscribe_closed doneCh) (subscriber s);
      mret (set_conn i (conn_goes ConnOver x) (set_subscriber b s))
    end
  | _, _ => None
  end.

(** The steps of the broker that are not those of a connection: its loop, and
    the calls of [SendMessage]. *)
Definition broker_event (e : Event) : bool :=
  match e with
  | ESubscribe_make _ _ | ESubscribe_send _ | EUnsubscribe_make _ _ | EUnsubscribe_send _
  | EUnsubscribe_closed _ | EReceive _ => false
  | _ => true
  end.

Definition conn_of (e : SSEEvent) : option nat :=
  match e with
  | Subscribed i | Receives i | Ticks i | Demanded i | ClientGone i _ | UnsubscribeSent i
  | UnsubscribeDone i => Some i
  | _ => None
  end.

(** A panic of the processor ends the process, with its connections. *)
Definition sse_step (e : SSEEvent) (s : SSEHandler) : option SSEHandler :=
  if sv_crashed (syncer s) then None
  else match e with
  | Connect i ch c => EstablishConnection i ch c s
  | InBroker e => if broker_event e then b ← step e (subscriber s); mret (set_subscriber b s) else None
  | InSyncer e => v ← sv_step id fetch processor e (syncer s); mret (set_syncer v s)
  | _ => i ← conn_of e; x ← conns s !! i; conn_step e x s
  end.

Definition NewSSEHandler (w : World) : SSEHandler :=
  {| subscriber := init; syncer := start w; conns := ∅ |}.

Definition sse_reach : SSEHandler → SSEHandler → Prop :=
  rtc (λ s s', ∃ e, sse_step e s = Some s').

Fixpoint sse_run (es : list SSEEvent) (s : SSEHandler) : option SSEHandler :=
  match es with
  | [] => Some s
  | e :: es' => match sse_step e s with Some s' => sse_run es' s' | None => None end
  end.

Lemma sse_run_reach es s s' : sse_run es s = Some s' → sse_reach s s'.
Proof.
  revert s. induction es as [|e es IH]; intros s H; simpl in *; [by simplify_eq |].
  destruct (sse_step e s) as [s1|] eqn:Hs; [| done].
  eapply rtc_l; [by exists e | by apply IH].
Qed.

End sse.

(** * What the steps of the broker do to its receivers *)

Ltac broker_cases H :=
  repeat lazymatch type of H with
  | attempt ?o _ _ = Some _ => unfold attempt in H; destruct o; try discriminate H
  | (match ?x with _ => _ end) = Some _ => destruct x eqn:?; try discriminate H
  | Some _ = Some _ => injection H as H; subst
  end.

(** A channel that is known, with its name. *)
Definition known (b : State) (ch : nat) (name : string) : Prop :=
  s_chans b !! ch ≠ None ∧ ∃ r, s_subs b !! ch = Some {| sub_name := name; sub_returned := r |}.

Lemma step_received e b b' :
  step e b = Some b' → (∀ ch, e ≠ EReceive ch) → s_received b' = s_received b.
Proof.
  intros [H|H]%step_split He.
  - destruct e; simpl in H; try done; unfold Subscribe_make, Subscribe_send, Unsubscribe_make,
      Unsubscribe_send, Unsubscribe_closed, SendMessage, SendMessage_timeout in H;
      broker_cases H; try done. by destruct (He ch).
  - unfold step_loop in H. destruct (s_loop b), e; try done;
      unfold loop_subscribe, loop_unsubscribe, loop_ack, loop_clean, loop_message, loop_deliver in H;
      broker_cases H; try done.
    all: repeat match goal with |- context [let '(_, _) := ?p in _] => destruct p end;
      repeat case_match; done.
Qed.

Lemma known_insert_chan b ch k (c : Chan Message) :
  s_chans b !! ch ≠ None → <[k := c]> (s_chans b) !! ch ≠ None.
Proof.
  intros Hk. destruct (decide (k = ch)) as [->|]; [by rewrite lookup_insert_eq |].
  by rewrite lookup_insert_ne.
Qed.

Lemma step_known e b b' ch name : step e b = Some b' → known b ch name → known b' ch name.
Proof.
  intros [H|H]%step_split [Hk [r Hs]].
  - destruct e; simpl in H; try done; unfold Subscribe_make, Subscribe_send, Unsubscribe_make,
      Unsubscribe_send, Unsubscribe_closed, SendMessage, SendMessage_timeout, Receive in H;
      broker_cases H; try (split; [done | by exists r]).
    + split; simpl; [by apply known_insert_chan |].
      rewrite lookup_insert_ne by (by intros ->). eauto.
    + split; simpl; [done |]. destruct (decide (ch0 = ch)) as [->|]; simplify_eq.
      * rewrite lookup_insert_eq. eauto.
      * rewrite lookup_insert_ne by done. eauto.
    + destruct x as [[m|] c']; simpl; [| by split; eauto].
      split; simpl; [by apply known_insert_chan | eauto].
  - unfold step_loop in H. destruct (s_loop b), e; try done;
      unfold loop_subscribe, loop_unsubscribe, loop_ack, loop_clean, loop_message, loop_deliver in H;
      broker_cases H; try (split; [done | by exists r]); try (split; simpl; [by apply known_insert_chan | eauto]).
    all: repeat match goal with |- context [let '(_, _) := ?p in _] => destruct p end;
      repeat case_match; (split; [done | by exists r]).
Qed.

(** What a receive adds to the history. *)
Lemma step_receive ch b b' k :
  step (EReceive ch) b = Some b' →
  received b' k = received b k ++ (if decide (ch = k) then take 1 (chan_buf b ch) else []).
Proof.
  intros [H|H]%step_split; [| unfold step_loop in H; by destruct (s_loop b)].
  simpl in H. unfold Receive in H. unfold chan_buf.
  destruct (s_chans b !! ch) as [c|] eqn:Hc; [| done].
  unfold recv, attempt in H. destruct (ch_buf c) as [|m l] eqn:Hb.
  - destruct (ch_closed c); simplify_eq. simpl. case_decide; by rewrite app_nil_r.
  - simplify_eq/=. unfold received. simpl. rewrite filter_app, fmap_app. f_equal.
    rewrite filter_cons. simpl. case_decide; subst; by rewrite ?decide_True, ?decide_False by done.
Qed.

(** * The connections *)

(** What a connection has written when it has received [l]. *)
Definition events_for (x : Conn) (l : list Message) : string :=
  foldr String.append "" (sse_event (cn_user x) (cn_device x) <$> l).

Lemma events_for_app x l l' : events_for x (l ++ l') = events_for x l +:+ events_for x l'.
Proof.
  unfold events_for. induction l as [|m l IH]; [done |].
  rewrite <- app_comm_cons, !fmap_cons. cbn [foldr]. by rewrite IH, sapp_assoc.
Qed.

Section connections.
Context `{E : Env} `{OS : OsEnv} {R : Type} (fetch : Demand → Go (option (list Payload))).
Context (processor : list Payload → Proc R).
#[local] Abbreviation handler := (SSEHandler (R := R)).
Implicit Types s : handler.

Record conn_ok (b : State) (x : Conn) : Prop := {
  ck_known : known b (cn_ch x) (topicName (cn_user x) (cn_device x));
  ck_written : cn_written x = events_for x (received b (cn_ch x));
}.

Record HInv s : Prop := {
  hi_broker : reach init (subscriber s);
  hi_conn : ∀ i x, conns s !! i = Some x → conn_ok (subscriber s) x;
  hi_own : ∀ i j x y, conns s !! i = Some x → conns s !! j = Some y → cn_ch x = cn_ch y → i = j;
}.

Lemma HInv_start w : HInv (NewSSEHandler w).
Proof. split; simpl; [apply rtc_refl | done | done]. Qed.

(** A step of the broker that receives nothing. *)
Lemma HInv_broker e b s :
  step e (subscriber s) = Some b → (∀ ch, e ≠ EReceive ch) → HInv s → HInv (set_subscriber b s).
Proof.
  intros He Hne [Hr Hc Ho]. split; simpl; [eapply rtc_r; [done | by exists e] | | done].
  intros i x Hx. destruct (Hc i x Hx) as [Hk Hw]. split; [by eapply step_known |].
  unfold received. by rewrite (step_received _ _ _ He Hne).
Qed.

(** A connection moves. *)
Lemma HInv_conn i x x' s :
  conns s !! i = Some x → cn_ch x' = cn_ch x → cn_user x' = cn_user x →
  cn_device x' = cn_device x → cn_written x' = cn_written x → HInv s → HInv (set_conn i x' s).
Proof.
  intros Hx Hch Hu Hd Hw [Hr Hc Ho]. split; simpl; [done | |].
  - intros j y [[_ <-]|[_ Hj]]%lookup_insert_Some; [| by eapply Hc].
    destruct (Hc i x Hx) as [Hk Hwr]. split; [by rewrite Hch, Hu, Hd |].
    rewrite Hw, Hch, Hwr. unfold events_for. by rewrite Hu, Hd.
  - intros j k y z Hj Hk Heq.
    apply lookup_insert_Some in Hj as [[<- <-]|[? Hj]];
      apply lookup_insert_Some in Hk as [[<- <-]|[? Hk]]; try done.
    + rewrite Hch in Heq. by eapply Ho.
    + rewrite Hch in Heq. by eapply Ho.
    + by eapply Ho.
Qed.

(** A connection begins: its channel is new. *)
Lemma HInv_establish i ch c s s' : EstablishConnection i ch c s = Some s' → HInv s → HInv s'.
Proof.
  unfold EstablishConnection. intros H HI.
  destruct (rq_token c) as [token|]; [| done]. destruct (conns s !! i) eqn:Hi; [done |].
  cbv zeta in H. apply bind_Some in H as (b & Hb & [= <-]).
  pose proof (HInv_broker _ _ s Hb ltac:(done) HI) as [Hr Hc Ho].
  apply step_split in Hb as [Hb|Hb]; [| unfold step_loop in Hb; by destruct (s_loop (subscriber s))].
  simpl in Hb. unfold Subscribe_make in Hb. case_decide as Hch; [| done]. injection Hb as <-.
  assert (Hother : ∀ j y, conns s !! j = Some y → cn_ch y ≠ ch).
  { intros j y Hj <-. by destruct (hi_conn s HI j y Hj) as [[? _] _]. }
  split; simpl in *; [done | |].
  - intros j y [[_ <-]|[_ Hj]]%lookup_insert_Some; [| by eapply Hc].
    split; simpl.
    + split; simpl; [by rewrite lookup_insert_eq |]. rewrite lookup_insert_eq. eauto.
    + unfold events_for, received. simpl.
      pose proof (reach_Hist _ (hi_broker s HI)) as [_ HH].
      pose proof (hist_chan _ HH ch) as Hd. unfold received, chan_buf in Hd.
      rewrite Hch, app_nil_r in Hd. rewrite Hd.
      destruct (delivered_to (s_log (subscriber s)) ch) as [|m l] eqn:Hl; [done |].
      exfalso. assert (Hin : m ∈ delivered_to (s_log (subscriber s)) ch) by (rewrite Hl; by left).
      unfold delivered_to in Hin. apply list_elem_of_fmap in Hin as ([m0 o] & -> & Hin).
      apply list_elem_of_filter in Hin as [Ho' Hin]. simpl in Ho'. subst o.
      by apply (hist_known _ HH) in Hin.
  - intros j k y z Hj Hk Heq.
    apply lookup_insert_Some in Hj as [[<- <-]|[? Hj]];
      apply lookup_insert_Some in Hk as [[<- <-]|[? Hk]]; try done; simpl in Heq.
    + by destruct (Hother k z Hk).
    + by destruct (Hother j y Hj).
    + by eapply Ho.
Qed.

(** A connection receives. *)
Lemma HInv_receives i x s s' :
  conns s !! i = Some x → conn_receives i x s = Some s' → HInv s → HInv s'.
Proof.
  unfold conn_receives. intros Hi H [Hr Hc Ho]. apply bind_Some in H as (b & Hb & [= <-]).
  pose proof (λ k, step_receive (cn_ch x) _ _ k Hb) as Hrec.
  set (x' := match chan_buf (subscriber s) (cn_ch x) with
             | data :: _ => conn_writes (sse_event (cn_user x) (cn_device x) data) x
             | [] => x
             end).
  assert (Hx' : cn_ch x' = cn_ch x ∧ cn_user x' = cn_user x ∧ cn_device x' = cn_device x)
    by (unfold x'; by case_match).
  destruct Hx' as (Hch & Hu & Hd). split; simpl.
  - eapply rtc_r; [done | by eexists].
  - intros j y [[<- <-]|[Hne Hj]]%lookup_insert_Some.
    + destruct (Hc i x Hi) as [Hk Hw]. split; [rewrite Hch, Hu, Hd; by eapply step_known |].
      rewrite Hch, Hrec, decide_True by done. unfold events_for. rewrite Hu, Hd.
      fold (events_for x (received (subscriber s) (cn_ch x) ++ take 1 (chan_buf (subscriber s) (cn_ch x)))).
      rewrite events_for_app, <- Hw. unfold x', events_for.
      destruct (chan_buf _ _) as [|m l]; simpl; by rewrite ?sapp_nil_r.
    + destruct (Hc j y Hj) as [Hk Hw]. split; [by eapply step_known |].
      rewrite Hrec, decide_False, app_nil_r; [done |].
      intros Heq. apply Hne. by apply (Ho i j x y).
  - intros j k y z Hj Hk Heq.
    apply lookup_insert_Some in Hj as [[<- <-]|[? Hj]];
      apply lookup_insert_Some in Hk as [[<- <-]|[? Hk]]; try done; rewrite ?Hch in Heq; by eapply Ho.
Qed.

Lemma HInv_step e s s' : sse_step fetch processor e s = Some s' → HInv s → HInv s'.
Proof.
  unfold sse_step. destruct (sv_crashed _); [done |]. intros H HI.
  destruct e as [i ch c|i|i|i|i|i d|i|i|e|e].
  1: by eapply HInv_establish.
  1-7: simpl in H; apply bind_Some in H as (x & Hx & H); unfold conn_step in H;
    destruct (cn_at x) eqn:Hat; try done; unpack H.
  all: try (by eapply HInv_conn).
  all: try (eapply HInv_conn; [exact Hx | done..|]; by eapply HInv_broker).
  all: try (by eapply HInv_receives).
  - eapply HInv_conn; [exact Hx | done.. |]. by destruct HI.
  - by eapply HInv_broker.
  - destruct (broker_event e) eqn:He; [| done]. unpack H.
    eapply HInv_broker; [done | | done]. by intros ch ->.
  - unpack H. by destruct HI.
Qed.

Lemma sse_reach_HInv w s : sse_reach fetch processor (NewSSEHandler w) s → HInv s.
Proof.
  intros Hr. revert s Hr. apply (rtc_ind_r HInv); [apply HInv_start |].
  intros s s' _ (e & He) HI. by eapply HInv_step.
Qed.

(** ** Without a producer *)

(** The calls of [HandleDemand] that return. *)
Definition demands (e : SSEEvent) : nat :=
  match e with Demanded _ => 1 | InSyncer e => offers e | _ => 0 end.

Fixpoint demands_in (es : list SSEEvent) : nat :=
  match es with [] => 0 | e :: es => demands e + demands_in es end.

(** What a step does to the supervisor: a step of it, with the same demands. *)
Lemma sse_syncer e s s' :
  sse_step fetch processor e s = Some s' →
  syncer s' = syncer s ∧ demands e = 0 ∨
  ∃ ev, sv_step id fetch processor ev (syncer s) = Some (syncer s') ∧ demands e = offers ev.
Proof.
  unfold sse_step. destruct (sv_crashed _) eqn:Hcr; [done |]. intros H.
  destruct e as [j ch c|j|j|j|j|j k|j|j|e|e].
  1: unfold EstablishConnection in H; destruct (rq_token c), (conns s !! j); try done; cbv zeta in H;
    unpack H; by left.
  1-7: simpl in H; apply bind_Some in H as (y & Hy & H); unfold conn_step, conn_receives in H;
    destruct (cn_at y); try done; unpack H; try (by left).
  - right. eexists (Offer _). unfold sv_step. rewrite Hcr. split; [exact Hx | done].
  - destruct (broker_event e); [| done]. unpack H. by left.
  - unpack H. right. by exists e.
Qed.

Lemma sse_open_chans e s s' :
  sse_step fetch processor e s = Some s' → open_chans (syncer s) → open_chans (syncer s').
Proof. intros [[-> _]|(ev & Hev & _)]%sse_syncer; [done | by eapply open_chans_step]. Qed.

Lemma sse_reach_open w s : sse_reach fetch processor (NewSSEHandler w) s → open_chans (syncer s).
Proof.
  revert s. apply (rtc_ind_r (λ s, open_chans (syncer s))); [done |].
  intros s s' _ (e & He). by eapply sse_open_chans.
Qed.

Lemma sse_gone e s s' :
  sse_step fetch processor e s = Some s' → sv_producer (syncer s) = ProducerGone →
  sv_producer (syncer s') = ProducerGone ∧ demands e + slots (syncer s') ≤ slots (syncer s).
Proof.
  intros [[-> ->]|(ev & Hev & ->)]%sse_syncer Hp; [by split | by eapply gone_step].
Qed.

Lemma sse_run_gone es s s' :
  sse_run fetch processor es s = Some s' → sv_producer (syncer s) = ProducerGone →
  sv_producer (syncer s') = ProducerGone ∧ demands_in es + slots (syncer s') ≤ slots (syncer s).
Proof.
  revert s. induction es as [|e es IH]; intros s H Hp; simpl in *; [by injection H as <- |].
  destruct (sse_step fetch processor e s) as [s1|] eqn:Hs; [| done].
  destruct (sse_gone e s s1 Hs Hp) as [Hp1 Hn]. destruct (IH s1 H Hp1) as [? ?]. split; [done | lia].
Qed.

Lemma sse_reach_run s s' : sse_reach fetch processor s s' → ∃ es, sse_run fetch processor es s = Some s'.
Proof.
  induction 1 as [|s s1 s' (e & He) _ [es IH]]; [by exists [] |]. exists (e :: es). simpl. by rewrite He.
Qed.

(** A connection leaves [HandleDemand] only when its call returns, whatever
    becomes of its client. *)
Lemma conn_waits i x e s s' :
  sse_step fetch processor e s = Some s' → e ≠ Demanded i →
  conns s !! i = Some x → cn_at x = ConnDemand → conns s' !! i = Some x.
Proof.
  unfold sse_step. destruct (sv_crashed _); [done |]. intros H Hne Hx Hat.
  assert (Hother : ∀ j y s1, conns s1 = conns s → j ≠ i → conns (set_conn j y s1) !! i = Some x).
  { intros j y s1 Hs1 Hji. simpl. by rewrite lookup_insert_ne, Hs1 by done. }
  destruct e as [j ch c|j|j|j|j|j k|j|j|e|e].
  1: unfold EstablishConnection in H; destruct (rq_token c); [| done];
    destruct (conns s !! j) eqn:Hj; [done |]; cbv zeta in H; unpack H; apply Hother; [done | congruence].
  1-7: simpl in H; apply bind_Some in H as (y & Hy & H); unfold conn_step, conn_receives in H;
    destruct (cn_at y) eqn:Hyat; try done; unpack H; try (apply Hother; [done | congruence]).
  - done.
  - destruct (broker_event e); [| done]. by unpack H.
  - by unpack H.
Qed.

Lemma sse_run_waits i x es s s' :
  sse_run fetch processor es s = Some s' → sv_producer (syncer s) = ProducerGone →
  demands_in es = 0 → conns s !! i = Some x → cn_at x = ConnDemand → conns s' !! i = Some x.
Proof.
  revert s. induction es as [|e es IH]; intros s H Hp Hd Hx Hat; simpl in *; [by injection H as <- |].
  destruct (sse_step fetch processor e s) as [s1|] eqn:Hs; [| done].
  destruct (sse_gone e s s1 Hs Hp) as [Hp1 _].
  apply (IH s1); [done | done | lia | | done]. eapply conn_waits; [done | | done | done].
  by intros ->.
Qed.

Lemma jammed_demands es s s' :
  sse_run fetch processor es s = Some s' → jammed (syncer s) → demands_in es = 0.
Proof.
  revert s. induction es as [|e es IH]; intros s H Hj; simpl in *; [done |].
  destruct (sse_step fetch processor e s) as [s1|] eqn:Hs; [| done].
  destruct (sse_syncer e s s1 Hs) as [[Hsy ->]|(ev & Hev & ->)].
  - apply (IH s1); [done |]. by rewrite Hsy.
  - rewrite (IH s1 H) by by eapply jammed_step.
    apply sv_step_moves in Hev.
    destruct Hev as [t _ Hx _ _|t -> _ _ _ _|d -> _ _ _ _|d -> _ _ _ _|Ho _ _ _]; try done.
    + destruct Hj as (_ & Hf & _). by rewrite send_full in Hx.
    + by rewrite Ho.
Qed.

Lemma not_full {A} (c : Chan A) x :
  ch_closed c = false → ch_cap c = 1 → full c ∨ ∃ c', goes (send c x) = Some c'.
Proof.
  intros Ho Hc. unfold full, send. rewrite Ho.
  destruct (decide (ch_cap c ≤ length (ch_buf c))); [by left | right].
  rewrite decide_True by lia. by eexists.
Qed.

(** A move of the syncer that makes less to fill. *)
Definition fills (v v' : Supervisor Demand Demand R) : Prop :=
  sv_producer v' = sv_producer v ∧ sv_crashed v' = sv_crashed v ∧ open_chans v' ∧ to_fill v' < to_fill v.

Lemma offer_fills t v :
  open_chans v → full (sv_source v) ∨ ∃ v', HandleDemand t v = Some v' ∧ fills v v'.
Proof.
  intros [H1 H2 H3 H4]. destruct (not_full (sv_source v) t H1 H2) as [|[c Hc]]; [by left | right].
  unfold HandleDemand. rewrite Hc. eexists. split; [done |].
  apply send_room in Hc as (Ho & Hcap & Hr). split_and!; [done | done | split; simpl; congruence |].
  unfold to_fill. simpl. lia.
Qed.

(** With the source full, the loop moves or nothing does. *)
Lemma loop_fills v :
  open_chans v → sv_producer v = ProducerGone → sv_crashed v = false → full (sv_source v) →
  jammed v ∨ ∃ ev v', sv_step id fetch processor ev v = Some v' ∧ fills v v'.
Proof.
  intros [H1 H2 H3 H4] Hp Hc Hf. destruct (sv_loop v) as [|d| |] eqn:Hl.
  - right. destruct (goes (recv (sv_source v))) as [[r c]|] eqn:Hr.
    + pose proof Hr as (Hcap & Hcl & Hb)%goes_recv. destruct r as [t|]; [| destruct Hb; congruence].
      eexists LoopTake, _. unfold sv_step, supervise. rewrite Hc, Hl, Hr. split; [done |].
      apply recv_room in Hr as (_ & _ & Hr). split_and!; [done | done | split; simpl; congruence |].
      unfold to_fill. simpl. rewrite Hl. simpl. lia.
    + destruct Hf as [_ Hf]. unfold recv in Hr.
      destruct (ch_buf (sv_source v)); [simpl in Hf; lia | done].
  - destruct (not_full (sv_demand v) d H3 H4) as [Hfd|[c Hs]].
    + left. split_and!; [done | done |]. right. by rewrite Hl.
    + right. eexists LoopDemands, _. unfold sv_step, supervise, producer_Demand.
      rewrite Hc, Hl, Hs. split; [done |].
      apply send_room in Hs as (Ho & Hcap & Hr). split_and!; [done | done | split; simpl; congruence |].
      unfold to_fill. simpl. rewrite Hl. simpl. lia.
  - left. split_and!; [done | done |]. right. by rewrite Hl.
  - left. split_and!; [done | done |]. right. by rewrite Hl.
Qed.

Lemma tick_step i x s :
  sv_crashed (syncer s) = false → conns s !! i = Some x → cn_at x = ConnSelect →
  sse_step fetch processor (Ticks i) s = Some (set_conn i (conn_goes ConnDemand x) s).
Proof.
  intros Hc Hx Hat. unfold sse_step. rewrite Hc. cbn [conn_of mbind option_bind]. rewrite Hx.
  unfold conn_step. cbn [mbind option_bind]. by rewrite Hat.
Qed.

(** From any state without a producer a connection that goes on ticking comes to
    wait on a supervisor that is jammed. *)
Lemma conn_jams i x s :
  sv_producer (syncer s) = ProducerGone → open_chans (syncer s) → sv_crashed (syncer s) = false →
  conns s !! i = Some x → cn_at x = ConnSelect ∨ cn_at x = ConnDemand →
  ∃ s' x', sse_reach fetch processor s s' ∧ jammed (syncer s') ∧
    conns s' !! i = Some x' ∧ cn_at x' = ConnDemand.
Proof.
  remember (to_fill (syncer s)) as n eqn:Hn. revert s x Hn.
  induction n as [n IH] using lt_wf_ind; intros s x -> Hp Ho Hc Hx Hat.
  (* first to the call *)
  assert (Hcall : ∃ s1 x1, sse_reach fetch processor s s1 ∧ syncer s1 = syncer s ∧
    conns s1 !! i = Some x1 ∧ cn_at x1 = ConnDemand).
  { destruct Hat as [Hat|Hat]; [| by exists s, x]. eexists _, _. split_and!.
    - apply rtc_once. exists (Ticks i). by apply (tick_step i x).
    - done.
    - simpl. by rewrite lookup_insert_eq.
    - done. }
  destruct Hcall as (s1 & x1 & Hr1 & Hs1 & Hx1 & Hat1).
  destruct (offer_fills {| dm_Count := 1%Z; dm_UserID := cn_user x1 |} (syncer s) Ho)
    as [Hf|(v & Hv & Hvp & Hvc & Hvo & Hlt)].
  - destruct (loop_fills (syncer s) Ho Hp Hc Hf) as [Hj|(ev & v & Hv & Hvp & Hvc & Hvo & Hlt)].
    + exists s1, x1. by rewrite Hs1.
    + destruct (IH (to_fill v) Hlt (set_syncer v s1) x1) as (s' & x' & Hr' & H');
        [done | simpl; congruence | done | simpl; congruence | done | by right |].
      exists s', x'. split; [| done]. etrans; [exact Hr1 |]. eapply rtc_l; [| exact Hr'].
      exists (InSyncer ev). unfold sse_step. rewrite Hs1, Hc. by rewrite Hv.
  - destruct (IH (to_fill v) Hlt (set_conn i (conn_goes ConnSelect x1) (set_syncer v s1))
      (conn_goes ConnSelect x1)) as (s' & x' & Hr' & H');
      [done | simpl; congruence | done | simpl; congruence | simpl; by rewrite lookup_insert_eq | by left |].
    exists s', x'. split; [| done]. etrans; [exact Hr1 |]. eapply rtc_l; [| exact Hr'].
    exists (Demanded i). unfold sse_step. rewrite Hs1, Hc. cbn [conn_of mbind option_bind]. rewrite Hx1.
    unfold conn_step. cbn [mbind option_bind]. rewrite Hat1, Hs1, Hv. done.
Qed.

End connections.

(** What a connection has written, against what was sent. *)
Lemma conn_relays `{E : Env} `{OS : OsEnv} {R} fetch (processor : list Payload → Proc R) w s i x :
  sse_reach fetch processor (NewSSEHandler w) s → conns s !! i = Some x →
  no_char "_"%char (cn_user x) = true →
  Forall (λ m, no_char "_"%char (m_UserID m) = true) (s_sent (subscriber s)) →
  ∃ got, cn_written x = foldr String.append "" (sse_event (cn_user x) (cn_device x) <$> got) ∧
    got ++ chan_buf (subscriber s) (cn_ch x) `sublist_of`
      filter (λ m, m_UserID m = cn_user x ∧ m_DeviceID m = cn_device x) (s_sent (subscriber s)).
Proof.
  intros Hr Hx Hu Hall. apply sse_reach_HInv in Hr as [Hb Hc _].
  destruct (Hc i x Hx) as [[_ [r Hsub]] Hw]. exists (received (subscriber s) (cn_ch x)).
  split; [exact Hw |]. pose proof (delivered_sublist _ _ _ r Hb Hsub) as Hd.
  erewrite <- (filter_iff_Forall (λ m, Key m = _)); [exact Hd |].
  eapply Forall_impl; [exact Hall |]. intros m Hm. split.
  - intros Hk. apply (Key_inj m {| m_UserID := cn_user x; m_DeviceID := cn_device x;
      m_Content := "" |}) in Hk; done.
  - intros [Hmu Hmd]. unfold Key, topicName. by rewrite Hmu, Hmd.
Qed.

(** * Properties *)

(** What a device is sent.  In every reachable state of the broker, the
    supervisor and any number of connections, what has been written to a
    connection of user [u] and device [d] is one event, in order, per message
    its receiver has got, and these messages, followed by the one that waits in
    the receiver, are among those sent for that user and device, in the order in
    which they were sent, each at most once (when the users' identifiers hold
    no '_'). *)
Theorem connection_relays `{E : Env} `{OS : OsEnv} {R} fetch (processor : list Payload → Proc R) w s i x :
  sse_reach fetch processor (NewSSEHandler w) s → conns s !! i = Some x →
  no_char "_"%char (cn_user x) = true →
  Forall (λ m, no_char "_"%char (m_UserID m) = true) (s_sent (subscriber s)) →
  ∃ got, cn_written x = foldr String.append "" (sse_event (cn_user x) (cn_device x) <$> got) ∧
    got ++ chan_buf (subscriber s) (cn_ch x) `sublist_of`
      filter (λ m, m_UserID m = cn_user x ∧ m_DeviceID m = cn_device x) (s_sent (subscriber s)).
Proof. apply conn_relays. Qed.

(** A device "2" of user U1, which is sent an update. *)
Definition sample_connection : Request :=
  {| rq_header := ∅; rq_query := {["deviceID" := "2"]}; rq_param := ∅;
     rq_token := Some (set_device_id "2" {| tok_ResourceID := "U1"; tok_ResouceType := "user";
       tok_AccessToken := ""; tok_RefreshToken := ""; tok_TokenType := ""; tok_UserID := None;
       tok_DeviceID := ""; tok_AccessExpiresAt := 0%Z; tok_RefreshExpiresAt := 0%Z;
       tok_CreatedAt := 0%Z; tok_UpdatedAt := 0%Z |}) |}.

Definition sample_update_message : Message :=
  {| m_UserID := "U1"; m_DeviceID := "2"; m_Content := "fileID:F2" |}.

Definition connection_session : list SSEEvent :=
  [Connect 0 7 sample_connection; Subscribed 0; InBroker ELoop_subscribe;
   InBroker (ESendMessage sample_update_message);
   InBroker (ELoop_message [(7, "U1_2")]); InBroker ELoop_deliver; Receives 0].

#[local] Abbreviation sample_fetch := (Produce_demand (Q := note_queue)).
#[local] Abbreviation sample_processor :=
  (λ payloads, Done (E := quiet_env) (OS := sample_os)
     (Ret (SSEConsumer_Execute (GE := event_gob) payloads))).

Definition sample_handler : Type :=
  SSEHandler (E := quiet_env) (OS := sample_os) (R := list Message * option error).

Definition sample_service_run : option sample_handler :=
  sse_run sample_fetch sample_processor connection_session (NewSSEHandler empty_world).

Definition sample_service : sample_handler := default (NewSSEHandler empty_world) sample_service_run.

Lemma connection_relays_witness :
  cn_written <$> conns sample_service !! 0
    = Some ("data: userID:U1,deviceID:2,fileID:F2" +:+ newline +:+ newline) ∧
  ∀ x, conns sample_service !! 0 = Some x → no_char "_"%char (cn_user x) = true →
  ∃ got, cn_written x = foldr String.append "" (sse_event (cn_user x) (cn_device x) <$> got) ∧
    got ++ chan_buf (subscriber sample_service) (cn_ch x) `sublist_of`
      filter (λ m, m_UserID m = cn_user x ∧ m_DeviceID m = cn_device x)
        (s_sent (subscriber sample_service)).
Proof.
  split; [by vm_compute |]. intros x Hx Hu.
  assert (Hruns : bool_decide (is_Some (cn_at <$> (sample_service_run ≫= λ s, conns s !! 0))) = true)
    by by vm_compute.
  apply (connection_relays (E := quiet_env) (OS := sample_os) sample_fetch sample_processor
    empty_world sample_service 0 x); [| done | done | by repeat constructor].
  apply (sse_run_reach _ _ connection_session). unfold sample_service.
  destruct sample_service_run as [s|] eqn:Hs; [exact Hs | done].
Defined.

(** (C38) One error of Redis takes the event handlers down.  When a read of the
    queue of updates fails, in whatever state the connections, the broker and
    the supervisor are: from then on at most three calls of [HandleDemand]
    return, of all the connections that are there or come; when three have
    returned, a connection that is in the call waits there for ever, whatever
    happens, also when its client has gone, so that it never returns and never
    unsubscribes; and every connection that is at its loop can come to that. *)
Theorem EstablishConnection_hangs `{E : Env} `{OS : OsEnv} {R} fetch (processor : list Payload → Proc R)
    w s d c w1 s1 :
  sse_reach fetch processor (NewSSEHandler w) s →
  recv (sv_demand (syncer s)) = Goes (Some d, c) → fetch d (sv_world (syncer s)) = (Ret None, w1) →
  sse_step fetch processor (InSyncer ProducerTakes) s = Some s1 →
  (∀ es s2, sse_run fetch processor es s1 = Some s2 → demands_in es ≤ 3) ∧
  (∀ es s2 i x, sse_run fetch processor es s1 = Some s2 → demands_in es = 3 →
     conns s2 !! i = Some x → cn_at x = ConnDemand →
     ∀ s3, sse_reach fetch processor s2 s3 → conns s3 !! i = Some x) ∧
  (∀ i x, conns s1 !! i = Some x → cn_at x = ConnSelect ∨ cn_at x = ConnDemand →
     ∃ s2 x', sse_reach fetch processor s1 s2 ∧ cn_at x' = ConnDemand ∧
       ∀ s3, sse_reach fetch processor s2 s3 → conns s3 !! i = Some x').
Proof.
  intros Hr Hd Hf Hs. apply sse_reach_open in Hr as Ho. apply sse_open_chans in Hs as Ho1; [| done].
  assert (Hp1 : sv_producer (syncer s1) = ProducerGone ∧ sv_crashed (syncer s1) = false).
  { unfold sse_step in Hs. destruct (sv_crashed (syncer s)) eqn:Hc; [done |].
    apply bind_Some in Hs as (v & Hv & [= <-]). unfold sv_step, Produce, Produce_take in Hv.
    rewrite Hc in Hv. destruct (sv_producer (syncer s)); try done. rewrite Hd in Hv. simpl in Hv.
    rewrite Hf in Hv. unfold producer_leaves in Hv. by unpack Hv. }
  destruct Hp1 as [Hp1 Hc1].
  assert (Hslots : slots (syncer s1) ≤ 3).
  { destruct Ho1 as [_ H1 _ H2]. unfold slots, room. destruct (sv_loop _); simpl; lia. }
  split_and!.
  - intros es s2 Hes. destruct (sse_run_gone _ _ es s1 s2 Hes Hp1). lia.
  - intros es s2 i x Hes H3 Hx Hat s3 [es' Hes']%sse_reach_run.
    destruct (sse_run_gone _ _ es s1 s2 Hes Hp1) as [Hp2 Hn2].
    destruct (sse_run_gone _ _ es' s2 s3 Hes' Hp2) as [_ Hn3].
    eapply sse_run_waits; [exact Hes' | done | lia | done | done].
  - intros i x Hx Hat. destruct (conn_jams fetch processor i x s1 Hp1 Ho1 Hc1 Hx Hat)
      as (s2 & x' & Hr2 & Hj & Hx' & Hat').
    exists s2, x'. split_and!; [done | done |]. intros s3 [es Hes]%sse_reach_run.
    eapply sse_run_waits; [exact Hes | apply Hj | by eapply jammed_demands | done | done].
Qed.

(** The first read, for the device's first tick, fails. *)
Definition failing_fetch : Demand → Go (option (list Payload)) :=
  Produce_demand (Q := RedisQ (E := no_redis) MetadataUpdateClientsNotifierQueue).

Definition one_for (user : string) : Demand := {| dm_Count := 1%Z; dm_UserID := user |}.

Definition hanging_session : list SSEEvent :=
  [Connect 0 7 sample_connection; Subscribed 0; Ticks 0; Demanded 0; InSyncer LoopTake;
   InSyncer LoopDemands].

Definition hanging_run : option sample_handler :=
  sse_run failing_fetch sample_processor hanging_session (NewSSEHandler empty_world).

Definition failing_read (s : sample_handler) : option sample_handler :=
  sse_step failing_fetch sample_processor (InSyncer ProducerTakes) s.

Lemma EstablishConnection_hangs_witness :
  ∃ s s1, hanging_run = Some s ∧ failing_read s = Some s1 ∧
    ∃ s2 x, sse_reach failing_fetch sample_processor s1 s2 ∧ cn_at x = ConnDemand ∧
      ∀ s3, sse_reach failing_fetch sample_processor s2 s3 → conns s3 !! 0 = Some x.
Proof.
  assert (Hfacts : (λ s, (recv (sv_demand (syncer s)), failing_fetch (one_for "U1") (sv_world (syncer s)),
      failing_read s ≫= λ s1, cn_at <$> conns s1 !! 0)) <$> hanging_run
    = Some (Goes (Some (one_for "U1"), make_chan 1), (Ret None, tick empty_world), Some ConnSelect))
    by by vm_compute.
  destruct hanging_run as [s|] eqn:Hs; [| done]. injection Hfacts as Hd Hf H1.
  apply bind_Some in H1 as (s1 & H1 & Hx). apply fmap_Some in Hx as (x & Hx & Hat).
  destruct (EstablishConnection_hangs (E := quiet_env) (OS := sample_os) failing_fetch sample_processor
    empty_world s _ _ _ s1 (sse_run_reach _ _ _ _ _ Hs) Hd Hf H1) as (_ & _ & H).
  destruct (H 0 x Hx) as (s2 & x' & H2); [by left |].
  exists s, s1. split; [done |]. split; [done |]. by exists s2, x'.
Defined.
