(* ===== verification/Relay.v ===== *)
(** From the queue of updates to the connections: the goroutine of the worker of
    FileUpdateSyncBroker.Start, which runs SSEConsumer.Execute
    (pkg/brokers/metadata_sync_broker.go), inside the system of Sse.v.  There the
    messages sent to the broker are anybody's; here they are those of the
    consumer, one call of SendMessage at a time. *)
From S2P Require Import Prelude GoStd Api Model World Tokens Auth Queue Gob.
From S2P Require Import Blob Proc Changelog Chan Pool Broker Sync Supervisor Sse.
From Stdlib Require Import Ascii.

Section relay.
Context `{E : Env} `{OS : OsEnv} (notes : Queuer) `{GE : Gob MetadataUpdateStatusEvent}.

#[local] Abbreviation handler := (SSEHandler (R := list Message * option error)).
#[local] Abbreviation fetch := (Produce_demand (Q := notes)).
#[local] Abbreviation consume :=
  (λ payloads, Done (Ret (SSEConsumer_Execute payloads))).

(** [rl_pending] are the messages the consumer has still to send, in order. *)
Record Relay := { rl_sse : handler; rl_pending : list Message }.

(** [RelaySends] is a call of SendMessage that goes through, [RelayGivesUp] one
    whose nine seconds are over; [RelayStep] is any other step. *)
Inductive RelayEvent :=
| RelaySends
| RelayGivesUp
| RelayStep (e : SSEEvent).

(** SendMessage is called by the consumer only. *)
Definition sends_message (e : SSEEvent) : bool :=
  match e with
  | InBroker (ESendMessage _) | InBroker (ESendMessage_timeout _) => true
  | _ => false
  end.

(** The worker puts its bench back when its processor has returned, that is,
    when every message has been sent or given up. *)
Definition returns_first (e : SSEEvent) : bool :=
  match e with InSyncer (InPool (WorkerPut _)) => true | _ => false end.

(** The messages of a job whose processor a step starts. *)
Definition starts_sending (e : SSEEvent) (s : handler) : list Message :=
  match e with
  | InSyncer (InPool (WorkerProcess i)) =>
    match job_at (sv_pool (syncer s)) i with
    | Some job => (SSEConsumer_Execute job).1
    | None => []
    end
  | _ => []
  end.

Definition relay_step (e : RelayEvent) (s : Relay) : option Relay :=
  match e, rl_pending s with
  | RelaySends, m :: rest =>
    s' ← sse_step fetch consume (InBroker (ESendMessage m)) (rl_sse s);
    mret {| rl_sse := s'; rl_pending := rest |}
  | RelayGivesUp, m :: rest =>
    s' ← sse_step fetch consume (InBroker (ESendMessage_timeout m)) (rl_sse s);
    mret {| rl_sse := s'; rl_pending := rest |}
  | RelayStep e, pending =>
    if sends_message e || (returns_first e && negb (bool_decide (pending = []))) then None else
    s' ← sse_step fetch consume e (rl_sse s);
    mret {| rl_sse := s'; rl_pending := pending ++ starts_sending e (rl_sse s) |}
  | _, [] => None
  end.

Definition relay_start (w : World) : Relay :=
  {| rl_sse := NewSSEHandler w; rl_pending := [] |}.

Definition relay_reach : Relay → Relay → Prop := rtc (λ s s', ∃ e, relay_step e s = Some s').

Fixpoint relay_run (es : list RelayEvent) (s : Relay) : option Relay :=
  match es with
  | [] => Some s
  | e :: es => s' ← relay_step e s; relay_run es s'
  end.

Lemma relay_run_reach es s s' : relay_run es s = Some s' → relay_reach s s'.
Proof.
  revert s. induction es as [|e es IH]; intros s H; simpl in H; [by injection H as <- |].
  apply bind_Some in H as (s1 & Hs1 & H). eapply rtc_l; [by exists e | by apply IH].
Qed.

(** * What a step adds to the history *)

(** The messages of a payload. *)
Definition payload_messages (p : Payload) : list Message :=
  match gob_Decode (pl_Message p) with Err _ => [] | Val d => update_messages d end.

(** The consumer stops at the first payload it cannot decode. *)
Lemma Execute_sublist payloads :
  (SSEConsumer_Execute payloads).1 `sublist_of` payloads ≫= payload_messages.
Proof.
  induction payloads as [|p payloads IH]; [done |]. cbn [mbind list_bind SSEConsumer_Execute].
  unfold payload_messages at 1.
  destruct (gob_Decode (pl_Message p)) as [d|e]; [| apply sublist_nil_l].
  destruct (SSEConsumer_Execute payloads) as [sent err]. by apply sublist_app.
Qed.

Lemma step_sent e b b' :
  step e b = Some b' →
  s_sent b' = s_sent b ∨ ∃ m, e = ESendMessage m ∧ s_sent b' = s_sent b ++ [m].
Proof.
  intros [H|H]%step_split.
  - destruct e; simpl in H; try done; unfold Subscribe_make, Subscribe_send, Unsubscribe_make,
      Unsubscribe_send, Unsubscribe_closed, SendMessage, SendMessage_timeout, Receive in H;
      broker_cases H; try (by left).
    + right. by eexists.
    + destruct x as [[m|] c']; by left.
  - left. unfold step_loop in H. destruct (s_loop b), e; try done;
      unfold loop_subscribe, loop_unsubscribe, loop_ack, loop_clean, loop_message, loop_deliver in H;
      broker_cases H; try done.
    all: repeat match goal with |- context [let '(_, _) := ?p in _] => destruct p end;
      repeat case_match; done.
Qed.

#[local] Abbreviation sv := (Supervisor Demand Demand (list Message * option error)).
#[local] Abbreviation processed v := (p_processed (sv_pool v)).

Ltac not_processed :=
  match goal with Hx : pool_step _ _ _ _ _ = Some _ |- _ =>
    apply pool_step_processed in Hx; simpl; by rewrite Hx, ?app_nil_r end.

Lemma sv_step_processed e (v v' : sv) :
  sv_step id fetch consume e v = Some v' →
  processed v' = processed v ++
    match e with
    | InPool (WorkerProcess i) => match job_at (sv_pool v) i with Some job => [job] | None => [] end
    | _ => []
    end.
Proof.
  unfold sv_step. destruct (sv_crashed v); [done |]. intros H. destruct e as [t| | | | | | | |  |e| |w].
  - unfold HandleDemand in H. unpack H. by rewrite app_nil_r.
  - unfold supervise in H. destruct (sv_loop v); try done; unpack H; by rewrite app_nil_r.
  - unfold supervise, producer_Demand in H. destruct (sv_loop v); try done. unpack H.
    match goal with Hx : _ ≫= _ = Some _ |- _ => unpack Hx end. by rewrite app_nil_r.
  - unfold supervise in H. destruct (sv_loop v); try done. unpack H. not_processed.
  - unfold supervise in H. destruct (sv_loop v); try done. unpack H. by rewrite app_nil_r.
  - unfold Produce, Produce_take, producer_leaves in H. destruct (sv_producer v); try done.
    apply bind_Some in H as ([r c] & _ & H). apply bind_Some in H as (d & _ & H). cbv zeta in H.
    destruct (fetch d _) as [[[results|]|why] w]; unpack H; try not_processed; by rewrite app_nil_r.
  - unfold Produce in H. destruct (sv_producer v); try done. unpack H. not_processed.
  - unfold Produce, producer_leaves in H. destruct (sv_producer v); try done. unpack H. not_processed.
  - unpack H. not_processed.
  - unfold run_pool in H. destruct (of_pool e && _); [| done]. apply bind_Some in H as (p & Hp & H).
    apply pool_step_processed in Hp. rewrite <- Hp. destruct e; unpack H; done.
  - apply run_work_frame in H as (-> & _). by rewrite app_nil_r.
  - injection H as <-. by rewrite app_nil_r.
Qed.

(** The messages of the jobs the processor was run on. *)
Definition messages_run (s : handler) : list Message :=
  processed (syncer s) ≫= λ job, (SSEConsumer_Execute job).1.

Lemma sse_step_history e s s' :
  sse_step fetch consume e s = Some s' → SInv consume (syncer s) →
  SInv consume (syncer s') ∧ messages_run s' = messages_run s ++ starts_sending e s ∧
  (s_sent (subscriber s') = s_sent (subscriber s) ∨
   ∃ m, e = InBroker (ESendMessage m) ∧ s_sent (subscriber s') = s_sent (subscriber s) ++ [m]).
Proof.
  unfold sse_step, messages_run. destruct (sv_crashed _); [done |]. intros H HI.
  destruct e as [i ch c|i|i|i|i|i d|i|i|e|e].
  1: unfold EstablishConnection in H; destruct (rq_token c), (conns s !! i); try done; cbv zeta in H.
  2-8: simpl in H; apply bind_Some in H as (x & _ & H); unfold conn_step, conn_receives in H;
    destruct (cn_at x); try done.
  1-8: unpack H; simpl; rewrite app_nil_r;
    repeat match goal with Hx : step _ _ = Some _ |- _ => apply step_sent in Hx as [?|(m & [=] & _)] end;
    auto.
  - match goal with Hx : HandleDemand _ _ = Some _ |- _ => unfold HandleDemand in Hx; unpack Hx end.
    split_and!; [by eapply (SInv_same consume (syncer s)) | done | by left].
  - destruct (broker_event e); [| done]. unpack H. simpl. rewrite app_nil_r.
    apply step_sent in Hx as [?|(m & -> & ?)]; split_and!; eauto.
  - unpack H. simpl. split_and!; [by eapply SInv_step | | by left].
    rewrite (sv_step_processed _ _ _ Hx), bind_app. f_equal.
    destruct e as [| | | | | | | | |[]| |]; try done. by destruct (job_at _ _); simpl; rewrite ?app_nil_r.
Qed.

Record RInv (w : World) (s : Relay) : Prop := {
  ri_sse : sse_reach fetch consume (NewSSEHandler w) (rl_sse s);
  ri_sv : SInv consume (syncer (rl_sse s));
  ri_sent : s_sent (subscriber (rl_sse s)) ++ rl_pending s `sublist_of` messages_run (rl_sse s);
}.

Lemma RInv_step w e s s' : relay_step e s = Some s' → RInv w s → RInv w s'.
Proof.
  intros H [Hr Hv Hs]. destruct s as [h pending]. cbn [rl_sse rl_pending] in *.
  assert (Hgo : ∀ ev h', sse_step fetch consume ev h = Some h' →
    sse_reach fetch consume (NewSSEHandler w) h').
  { intros ev h' Hev. eapply rtc_r; [exact Hr | by exists ev]. }
  unfold relay_step in H. cbn [rl_sse rl_pending] in H. destruct e as [| |e].
  - destruct pending as [|m rest]; [done |]. apply bind_Some in H as (h' & Hev & [= <-]).
    destruct (sse_step_history _ _ _ Hev Hv) as (Hv' & Hm & Hs'). simpl in Hm. rewrite app_nil_r in Hm.
    split; cbn [rl_sse rl_pending]; [by eapply Hgo | done |]. rewrite Hm.
    destruct Hs' as [-> | (m' & [= <-] & ->)]; [| by rewrite <- app_assoc].
    etrans; [| exact Hs]. by apply sublist_app, sublist_cons.
  - destruct pending as [|m rest]; [done |]. apply bind_Some in H as (h' & Hev & [= <-]).
    destruct (sse_step_history _ _ _ Hev Hv) as (Hv' & Hm & [Hs'|(m' & [=] & _)]). simpl in Hm.
    rewrite app_nil_r in Hm. split; cbn [rl_sse rl_pending]; [by eapply Hgo | done |]. rewrite Hm, Hs'.
    etrans; [| exact Hs]. by apply sublist_app, sublist_cons.
  - destruct (sends_message e || _) eqn:Hg; [done |]. apply orb_false_elim in Hg as [Hg _].
    apply bind_Some in H as (h' & Hev & [= <-]).
    destruct (sse_step_history _ _ _ Hev Hv) as (Hv' & Hm & [Hs'|(m' & -> & _)]); [| done].
    split; cbn [rl_sse rl_pending]; [by eapply Hgo | done |].
    rewrite Hm, Hs', app_assoc. by apply sublist_app.
Qed.

Lemma relay_RInv w s : relay_reach (relay_start w) s → RInv w s.
Proof.
  revert s. apply (rtc_ind_r (RInv w)).
  - split; [apply rtc_refl | apply SInv_start | apply sublist_nil_l].
  - intros s s' _ (e & He) HI. by eapply RInv_step.
Qed.

End relay.

(** * Property *)

(** A sublist stays one under a filter. *)
Lemma filter_sublist {A} (P : A → Prop) `{∀ x, Decision (P x)} (l k : list A) :
  l `sublist_of` k → filter P l `sublist_of` filter P k.
Proof.
  induction 1 as [|x l k Hl IH|x l k Hl IH]; [done | |]; rewrite !filter_cons; case_decide; try done.
  - by apply sublist_skip.
  - by apply sublist_cons.
Qed.

Lemma bind_sublist {A B} (f : A → list B) (l k : list A) :
  l `sublist_of` k → l ≫= f `sublist_of` k ≫= f.
Proof.
  induction 1 as [|x l k Hl IH|x l k Hl IH]; [done | by apply sublist_app |].
  simpl. by apply sublist_inserts_l.
Qed.

Lemma messages_run_sublist `{E : Env} `{OS : OsEnv} `{GE : Gob MetadataUpdateStatusEvent} s :
  SInv (λ payloads, Done (Ret (SSEConsumer_Execute payloads))) (syncer s) →
  messages_run s `sublist_of` sv_fetched (syncer s) ≫= payload_messages.
Proof.
  intros HI. rewrite (SInv_in_order _ _ HI), bind_app. apply sublist_inserts_r.
  unfold messages_run. induction (p_processed _) as [|job l IH]; [done |].
  simpl. rewrite bind_app. apply sublist_app; [apply Execute_sublist | exact IH].
Qed.

(** (C10) A device is shown only what the queue of updates says, and all the way
    in its order.  In every reachable state of the connections, the broker, the
    supervisor and its consumer together, what has been written to a connection
    of user [u] and device [d] is a sequence of events that are, each at most
    once and in order, among the messages of the notifications the producer got
    from the queue that are for this user and this device (when the users'
    identifiers hold no '_'). *)
Theorem devices_shown_queue `{E : Env} `{OS : OsEnv} (notes : Queuer) `{GE : Gob MetadataUpdateStatusEvent} w s i x :
  relay_reach notes (relay_start w) s → conns (rl_sse s) !! i = Some x →
  no_char "_"%char (cn_user x) = true →
  (∀ p d, p ∈ sv_fetched (syncer (rl_sse s)) → gob_Decode (pl_Message p) = Val d →
     no_char "_"%char (ev_UserID d) = true) →
  ∃ shown, cn_written x = foldr String.append "" (sse_event (cn_user x) (cn_device x) <$> shown) ∧
    shown `sublist_of` filter (λ m, m_UserID m = cn_user x ∧ m_DeviceID m = cn_device x)
      (sv_fetched (syncer (rl_sse s)) ≫= payload_messages).
Proof.
  intros Hr Hx Hu Hall. destruct (relay_RInv _ _ _ Hr) as [Hsse Hv Hs].
  assert (Hsent : s_sent (subscriber (rl_sse s)) `sublist_of`
      sv_fetched (syncer (rl_sse s)) ≫= payload_messages).
  { etrans; [| by apply messages_run_sublist]. etrans; [| exact Hs]. by apply sublist_inserts_r. }
  destruct (conn_relays _ _ w (rl_sse s) i x Hsse Hx Hu) as (got & Hw & Hgot).
  - apply Forall_forall. intros m Hm. eapply elem_of_sublist in Hm; [| exact Hsent].
    apply list_elem_of_bind in Hm as (p & Hm & Hp). unfold payload_messages in Hm.
    destruct (gob_Decode (pl_Message p)) as [d|] eqn:Hd; [| by apply elem_of_nil in Hm].
    specialize (Hall p d Hp Hd). unfold update_messages in Hm.
    rewrite !elem_of_cons, elem_of_nil in Hm. by destruct Hm as [->|[->|[]]].
  - exists got. split; [exact Hw |]. etrans; [| by apply filter_sublist, Hsent].
    etrans; [| exact Hgot]. by apply sublist_inserts_r.
Qed.

(** A notification of user U1 waits in the queue; device "2" is connected. *)
Definition notified_world : World :=
  match gob_Encode (Gob := event_gob) (sample_event "U1" "1" "F2") with
  | Val b => world_with_redis
      {[ NewTemplateString MetadataUpdateClientsNotifierQueue [AStr "U1"] := [b] ]} empty_world
  | Err _ => empty_world
  end.

Definition relay_session : list RelayEvent :=
  (RelayStep <$> [Connect 0 7 sample_connection; Subscribed 0; InBroker ELoop_subscribe;
     Ticks 0; Demanded 0; InSyncer LoopTake; InSyncer LoopDemands; InSyncer ProducerTakes;
     InSyncer ProducerSends; InSyncer (InPool (WorkerPut 0)); InSyncer (InPool DispatchTake);
     InSyncer (InPool DispatchWait); InSyncer (InPool DispatchGive);
     InSyncer (InPool (WorkerTake 0)); InSyncer (InPool (WorkerProcess 0))]) ++
  [RelaySends; RelayStep (InBroker (ELoop_message [(7, "U1_2")])); RelaySends;
   RelayStep (InSyncer Works); RelayStep (InSyncer (InPool (WorkerPut 0)));
   RelayStep (InBroker (ELoop_message [(7, "U1_2")]));
   RelayStep (InBroker ELoop_deliver); RelayStep (Receives 0)].

Definition sample_relay : option (Relay (E := quiet_env) (OS := sample_os)) :=
  relay_run note_queue (GE := event_gob) relay_session (relay_start notified_world).

Lemma devices_shown_queue_witness :
  ∃ s x, sample_relay = Some s ∧ conns (rl_sse s) !! 0 = Some x ∧
    cn_written x = "data: userID:U1,deviceID:2,fileID:F2" +:+ newline +:+ newline ∧
    ∃ shown, cn_written x = foldr String.append "" (sse_event "U1" "2" <$> shown) ∧
      shown `sublist_of` filter (λ m, m_UserID m = "U1" ∧ m_DeviceID m = "2")
        (sv_fetched (syncer (rl_sse s)) ≫= payload_messages (GE := event_gob)).
Proof.
  assert (Hfacts : (λ s, ((λ x, (cn_user x, cn_device x, cn_written x)) <$> conns (rl_sse s) !! 0,
      forallb (λ p, match gob_Decode (Gob := event_gob) (pl_Message p) with
        | Val d => no_char "_"%char (ev_UserID d) | Err _ => true end)
        (sv_fetched (syncer (rl_sse s))))) <$> sample_relay
    = Some (Some ("U1", "2", "data: userID:U1,deviceID:2,fileID:F2" +:+ newline +:+ newline), true))
    by by vm_compute.
  destruct sample_relay as [s|] eqn:Hrun; [| done]. injection Hfacts as Hx Hall.
  apply fmap_Some in Hx as (x & Hx & [= Hu Hd Hw]). exists s, x. split_and!; [done.. |].
  pose proof (devices_shown_queue (E := quiet_env) (OS := sample_os) note_queue (GE := event_gob)
    notified_world s 0 x) as H. rewrite <- Hu, <- Hd in H.
  apply H; [by eapply relay_run_reach | exact Hx | done |].
  intros p d Hp Hdec. rewrite forallb_forall in Hall.
  apply list_elem_of_In, Hall in Hp. simpl in Hdec, Hp. by rewrite Hdec in Hp.
Defined.
