(* ===== verification/Lifecycle.v ===== *)
(** The life of the tables across all operations: what every route of the
    server, every job of the workers and the services of accounts keep true of
    the rows, whatever calls fail, and how a row may change.

    The operations are those of cmd/server/main.go, core/supervisors,
    core/workers, core/users and core/tokens, modelled in the files required
    below; this file adds no behaviour, it joins them in one step relation. *)
From S2P Require Import Prelude GoStd Api Model World Squirtle Queries.
From S2P Require Import Tokens FilesRepo Queue Gob FilesInfo FilesService Blob.
From S2P Require Import Transfer Reconstruct Changelog Users Auth Routes.

(** * The phases of a version

    A row of file_metadatas is being uploaded, or current, or closed; no other
    combination of [current_flag], [end_date] and [upload_status] occurs. *)
Inductive Phase := Uploading | Current | Closed.

#[global] Instance Phase_eq_dec : EqDecision Phase.
Proof. solve_decision. Defined.

Definition final_status (status : string) : Prop :=
  status = StatusCompleted ∨ status = StatusFailed.

#[global] Instance final_status_dec status : Decision (final_status status).
Proof. unfold final_status. apply _. Defined.

Definition phase_of (m : FileMetadata) : option Phase :=
  match fm_CurrentFlag m, fm_EndDate m with
  | false, None => if decide (fm_UploadStaus m = StatusUploading) then Some Uploading else None
  | true, None => if decide (final_status (fm_UploadStaus m)) then Some Current else None
  | false, Some _ => if decide (final_status (fm_UploadStaus m)) then Some Closed else None
  | true, Some _ => None
  end.

(** How a row may change: by [UpdateCurrentFlag] with a final status. *)
Inductive row_evolves (m : FileMetadata) : FileMetadata → Prop :=
| row_same : row_evolves m m
| row_flags current end_date status :
    final_status status → row_evolves m (set_flags current end_date status m).

#[global] Instance row_evolves_preorder : PreOrder row_evolves.
Proof.
  split; [by constructor |]. intros m m1 m2 H1 H2. destruct H2 as [|c e s Hs]; [done |].
  destruct H1 as [|c1 e1 s1 Hs1]; [by constructor |]. by apply (row_flags m).
Qed.

Lemma final_not_uploading status : final_status status → status ≠ StatusUploading.
Proof. by intros [-> | ->]. Qed.

(** Nothing returns to the first phase. *)
Lemma row_evolves_uploading m m' :
  row_evolves m m' → fm_UploadStaus m' = StatusUploading → m' = m.
Proof. intros [|c e s Hs] Hup; [done |]. by destruct (final_not_uploading s). Qed.

Lemma row_evolves_identity m m' :
  row_evolves m m' →
  fm_ID m' = fm_ID m ∧ fm_UserID m' = fm_UserID m ∧ fm_PrevID m' = fm_PrevID m ∧
  fm_Filename m' = fm_Filename m ∧ fm_FileHash m' = fm_FileHash m ∧
  fm_FileSize m' = fm_FileSize m ∧ fm_FileType m' = fm_FileType m ∧
  fm_NChunks m' = fm_NChunks m ∧ fm_CreatedAt m' = fm_CreatedAt m.
Proof. by intros [|c e s Hs]. Qed.

(** [extends R l l']: [l'] is [l], each element changed by [R], and more. *)
Definition extends {A} (R : A → A → Prop) (l l' : list A) : Prop :=
  ∃ l1 l2, l' = l1 ++ l2 ∧ Forall2 R l l1.

#[global] Instance extends_preorder {A} (R : A → A → Prop) `{!PreOrder R} :
  PreOrder (extends R).
Proof.
  split.
  - intros l. exists l, []. by rewrite app_nil_r.
  - intros l l' l'' (l1 & l2 & -> & H1) (k1 & k2 & -> & H2).
    apply Forall2_app_inv_l in H2 as (k3 & k4 & H3 & _ & ->).
    exists k3, (k4 ++ k2). split; [by rewrite <- app_assoc |]. by etrans.
Qed.

Lemma extends_elem {A} (R : A → A → Prop) l l' x :
  extends R l l' → x ∈ l → ∃ x', x' ∈ l' ∧ R x x'.
Proof.
  intros (l1 & l2 & -> & H) [i Hi]%list_elem_of_lookup.
  destruct (Forall2_lookup_l _ _ _ _ _ H Hi) as (x' & Hx' & HR). exists x'. split; [| done].
  apply elem_of_app. left. by eapply list_elem_of_lookup_2.
Qed.

Lemma extends_app {A} (R : A → A → Prop) `{!Reflexive R} l new : extends R l (l ++ new).
Proof. exists l, new. split; [done |]. apply Forall_Forall2_diag, Forall_true. done. Qed.

Lemma extends_fmap {A} (R : A → A → Prop) (f : A → A) l :
  (∀ x, R x (f x)) → extends R l (f <$> l).
Proof.
  intros Hf. exists (f <$> l), []. rewrite app_nil_r. split; [done |].
  apply Forall2_fmap_r, Forall_Forall2_diag, Forall_true. done.
Qed.

(** * The history of the tables *)
Record evolves (d d' : DB) : Prop := {
  ev_rows : extends row_evolves (db_file_metadatas d) (db_file_metadatas d');
  ev_chunks : db_user_files d `prefix_of` db_user_files d';
  ev_tokens : db_tokens d `prefix_of` db_tokens d';
  ev_users : db_users d `prefix_of` db_users d';
}.

#[global] Instance evolves_preorder : PreOrder evolves.
Proof.
  split; [by intros d; split |].
  intros d1 d2 d3 [? ? ? ?] [? ? ? ?]. split; by etrans.
Qed.

(** * The type of the tables *)

(** A version with this identifier belongs to this user. *)
Definition owned (d : DB) (file : string) (user : option string) : Prop :=
  ∃ m, m ∈ db_file_metadatas d ∧ fm_ID m = file ∧ Some (fm_UserID m) = user.

Record db_typed (d : DB) : Prop := {
  dt_phase : ∀ m, m ∈ db_file_metadatas d → is_Some (phase_of m);
  dt_prev : ∀ m p, m ∈ db_file_metadatas d → fm_PrevID m = Some p →
    ∃ m', m' ∈ db_file_metadatas d ∧ fm_ID m' = p;
  dt_chunk : ∀ uf, uf ∈ db_user_files d → owned d (uf_FileID uf) (Some (uf_UserID uf));
  dt_token : ∀ t, t ∈ db_tokens d → tok_ResouceType t = ResourceTypeStream →
    owned d (tok_ResourceID t) (tok_UserID t);
  dt_user : NoDup (usr_ID <$> db_users d);
}.

Lemma db_typed_empty : db_typed empty_db.
Proof. split; try (by intros ? ?%elem_of_nil); [by intros ? ? ?%elem_of_nil | constructor]. Qed.

Lemma owned_evolves d d' file user :
  extends row_evolves (db_file_metadatas d) (db_file_metadatas d') →
  owned d file user → owned d' file user.
Proof.
  intros He (m & Hm & <- & <-). destruct (extends_elem _ _ _ _ He Hm) as (m' & Hm' & HR).
  exists m'. destruct (row_evolves_identity m m' HR) as (-> & -> & _). done.
Qed.

(** * The statements *)

Lemma update_row_evolves prev id status now m :
  final_status status → row_evolves m (update_row prev id status now m).
Proof.
  intros Hs. unfold update_row.
  assert (Hp : ∀ m, row_evolves m (promote_row prev id status m)).
  { intros m1. unfold promote_row. case_decide; by constructor. }
  destruct prev as [p|]; [| apply Hp]. etrans; [apply Hp |].
  unfold retire_row. case_decide; by constructor.
Qed.

Lemma update_row_phase prev id status now m :
  final_status status → is_Some (phase_of m) → is_Some (phase_of (update_row prev id status now m)).
Proof.
  intros Hs Hm. unfold update_row.
  assert (Hp : is_Some (phase_of (promote_row prev id status m))).
  { unfold promote_row. case_decide; [| done]. unfold phase_of. simpl.
    rewrite decide_True by done. by eexists. }
  assert (is_Some (phase_of (promote_row None id status m))) as Hn.
  { unfold promote_row. case_decide; [| done]. unfold phase_of. simpl.
    rewrite decide_True by done. by eexists. }
  destruct prev as [p|]; [| done]. unfold retire_row. case_decide; [| done].
  unfold phase_of. simpl. rewrite decide_True by done. by eexists.
Qed.

Section statements.
Context (d0 : DB).

(** What every operation keeps: the tables have their type, and come from
    [d0] by a history. *)
Definition sound (d : DB) : Prop := db_typed d ∧ evolves d0 d.

Lemma sound_update prev id status now d :
  final_status status → sound d →
  sound (with_file_metadatas (fmap (update_row prev id status now)) d).
Proof.
  intros Hs [[Hph Hpr Hc Ht Hu] He].
  assert (Hrows : extends row_evolves (db_file_metadatas d)
      (update_row prev id status now <$> db_file_metadatas d))
    by (apply extends_fmap; intros m; by apply update_row_evolves).
  split; [split | etrans; [done |]; by split]; simpl.
  - intros m (m0 & -> & Hm)%list_elem_of_fmap. by apply update_row_phase, Hph.
  - intros m p (m0 & -> & Hm)%list_elem_of_fmap Hp.
    destruct (row_evolves_identity m0 _ (update_row_evolves prev id status now m0 Hs))
      as (_ & _ & Hprev & _). rewrite Hprev in Hp.
    destruct (Hpr m0 p Hm Hp) as (m' & Hm' & <-).
    destruct (extends_elem _ _ _ _ Hrows Hm') as (m2 & ? & HR).
    exists m2. by destruct (row_evolves_identity _ _ HR) as (-> & _).
  - intros uf Huf. by eapply owned_evolves, Hc.
  - intros t Hin Hty. by eapply owned_evolves, Ht.
  - done.
Qed.

Lemma sound_announce m t d :
  phase_of m = Some Uploading →
  (∀ p, fm_PrevID m = Some p → ∃ m', m' ∈ db_file_metadatas d ∧ fm_ID m' = p) →
  tok_ResourceID t = fm_ID m → tok_UserID t = Some (fm_UserID m) →
  sound d → sound (sql_CreateToken t (sql_CreateFileMetadata m d)).
Proof.
  intros Hph0 Hpr0 Hr Hus [[Hph Hpr Hc Ht Hu] He].
  assert (Hrows : extends row_evolves (db_file_metadatas d) (db_file_metadatas d ++ [m]))
    by apply extends_app, _.
  split; [split | etrans; [done |]; split]; simpl; try done.
  - intros m' [Hm' | ->%list_elem_of_singleton]%elem_of_app; [by apply Hph | by eexists].
  - setoid_rewrite elem_of_app.
    intros m' p [Hm' | ->%list_elem_of_singleton] Hp;
      [destruct (Hpr m' p Hm' Hp) as (m2 & ? & ?) | destruct (Hpr0 p Hp) as (m2 & ? & ?)];
      exists m2; auto.
  - intros uf Huf. by eapply owned_evolves, Hc.
  - intros t' [Hin | ->%list_elem_of_singleton]%elem_of_app Hty; [by eapply owned_evolves, Ht |].
    exists m. simpl. split_and!; [apply elem_of_app; right; by left | done | done].
  - by apply prefix_app_r.
Qed.

Lemma sound_token t d :
  tok_ResouceType t ≠ ResourceTypeStream → sound d → sound (sql_CreateToken t d).
Proof.
  intros Hty [[Hph Hpr Hc Ht Hu] He]. split; [split | etrans; [done |]; split]; simpl; try done.
  - intros t' [Hin | ->%list_elem_of_singleton]%elem_of_app ?; [by apply Ht | done].
  - by apply prefix_app_r.
Qed.

Lemma sound_chunks chunks d :
  (∀ uf, uf ∈ chunks → owned d (uf_FileID uf) (Some (uf_UserID uf))) →
  sound d → sound (add_chunks chunks d).
Proof.
  intros Hnew [[Hph Hpr Hc Ht Hu] He]. split; [split | etrans; [done |]; split]; simpl; try done.
  - intros uf [Hin | Hin]%elem_of_app; [by apply Hc | by apply Hnew].
  - by apply prefix_app_r.
Qed.

Lemma sound_user user d d' : sql_CreateUser user d = Some d' → sound d → sound d'.
Proof.
  unfold sql_CreateUser. intros H [[Hph Hpr Hc Ht Hu] He]. case_decide as Hin; [done |].
  injection H as <-. split; [split | etrans; [done |]; split]; simpl; try done.
  - rewrite fmap_app. apply NoDup_app. split_and!; [done | | apply NoDup_singleton].
    intros x Hx ->%list_elem_of_singleton. done.
  - by apply prefix_app_r.
Qed.

End statements.

(** * The operations *)

(** What does not write the tables keeps every property of them. *)
Lemma keeps_frame I f : (∀ w, w_db (f w) = w_db w) → keeps (on_db I) (modify f).
Proof. intros Hf. apply keeps_modify. intros w. unfold on_db. by rewrite Hf. Qed.

Lemma keeps_event {A} I (f : World → A) : keeps (on_db I) (λ w, (Ret (f w), tick w)).
Proof. by intros w. Qed.

#[local] Hint Extern 1 (keeps _ (modify _)) => apply keeps_frame; done : arbok.
#[local] Hint Resolve keeps_event : arbok.

Section reading.
Context `{E : Env} {EO : EnvOk E} `{MR : MapRange} `{SG : SliceGrowth} `{OS : OsEnv}.
Context (I : DB → Prop).
#[local] Abbreviation kept := (keeps (on_db I)).

Lemma kept_SelectFiles mq ids : kept (MetadataRepository_SelectFiles mq ids).
Proof. unfold MetadataRepository_SelectFiles. keeps_go. Qed.

Lemma kept_FindBy mq clauses : kept (MetadataRepository_FindBy mq clauses).
Proof. unfold MetadataRepository_FindBy. keeps_go. Qed.

Lemma kept_FindByHash mq hash : kept (MetadataRepository_FindByHash mq hash).
Proof. unfold MetadataRepository_FindByHash. keeps_go. Qed.

Lemma kept_ListByUserID mq user p : kept (MetadataRepository_ListByUserID mq user p).
Proof. unfold MetadataRepository_ListByUserID. keeps_go. Qed.
#[local] Hint Resolve kept_SelectFiles kept_FindBy kept_FindByHash kept_ListByUserID : arbok.

Lemma kept_ListOrderedFileChunks mq file user : kept (ListOrderedFileChunks mq file user).
Proof. unfold ListOrderedFileChunks. keeps_go. Qed.

Lemma kept_io_Copy data : kept (io_Copy data).
Proof. apply keeps_wp. intros w Hw. apply wp_io_Copy; intros; later_subst; exact Hw. Qed.

Lemma kept_os_Open path : kept (os_Open path).
Proof. unfold os_Open. keeps_go. Qed.

Lemma kept_os_Create path : kept (os_Create path).
Proof. unfold os_Create. keeps_go. Qed.

Lemma kept_os_Remove path : kept (os_Remove path).
Proof. unfold os_Remove. keeps_go. Qed.

Lemma kept_cache_Get key : kept (cache_Get key).
Proof. unfold cache_Get. keeps_go. Qed.

Lemma kept_cache_SetEx key data : kept (cache_SetEx key data).
Proof. unfold cache_SetEx. keeps_go. Qed.
#[local] Hint Resolve kept_ListOrderedFileChunks kept_io_Copy kept_os_Open kept_os_Create
  kept_os_Remove kept_cache_Get kept_cache_SetEx : arbok.

Lemma kept_download_loop buffer paths : kept (download_loop buffer paths).
Proof. revert buffer. induction paths as [|p paths IH]; intros buffer; simpl; keeps_go. Qed.

Lemma kept_copy_loop buffer paths : kept (copy_loop buffer paths).
Proof. revert buffer. induction paths as [|p paths IH]; intros buffer; simpl; keeps_go. Qed.
#[local] Hint Resolve kept_download_loop kept_copy_loop : arbok.

Lemma kept_send_file {D} cwd name buffer : kept (send_file (D := D) cwd name buffer).
Proof. unfold send_file. keeps_go. Qed.

Lemma kept_reply {D} ok (resp : Response D) : kept (reply ok resp).
Proof. unfold reply, reply_error. keeps_go. Qed.
#[local] Hint Resolve kept_send_file kept_reply : arbok.

Lemma kept_DownloadFile mq cwd c : kept (DownloadFile mq cwd c).
Proof. unfold DownloadFile, reply_error. keeps_go. Qed.

Lemma kept_DownloadFileV2 mq cwd c : kept (DownloadFileV2 mq cwd c).
Proof. unfold DownloadFileV2, Download, reply_error. keeps_go. Qed.

Lemma kept_GetFileChunks mq c : kept (MetadataHandler_GetFileChunks mq c).
Proof. unfold MetadataHandler_GetFileChunks, GetFileChunks, reply_error. keeps_go. Qed.

Lemma kept_ListFiles mq c : kept (ListFilesWithMetadata mq c).
Proof. unfold ListFilesWithMetadata, ListFilesForUser. keeps_go. Qed.

End reading.

Section middlewares.
Context `{E : Env} {EO : EnvOk E} (I : DB → Prop) (boot : time) (querier : QueryMapper).

Lemma kept_ValidateAccessToken {D} (next : HandlerFunc D) c :
  (∀ token, keeps (on_db I) (next (set_token token c))) →
  keeps (on_db I) (ValidateAccessToken boot querier next c).
Proof.
  intros Hn. apply keeps_wp. intros w Hw. apply wp_ValidateAccessToken.
  - intros status w' Hl _. by later_subst.
  - intros token header w1 n Hl _ _ _ _ _. apply Hn. by later_subst.
Qed.

Lemma kept_AddTokenFromUrlToHeader {D} (next : HandlerFunc D) c :
  (∀ c', keeps (on_db I) (next c')) → keeps (on_db I) (AddTokenFromUrlToHeader next c).
Proof. intros Hn. unfold AddTokenFromUrlToHeader. keeps_go. Qed.

End middlewares.

Section writing.
Context `{E : Env} {EO : EnvOk E} (d0 : DB).
#[local] Abbreviation sound := (sound d0).
#[local] Abbreviation kept := (keeps (on_db sound)).

Lemma wp_Update_sound querier prev id status w :
  final_status status → sound (w_db w) →
  wp (MetadataRepository_Update querier prev id status) w (λ _ w', sound (w_db w')).
Proof.
  intros Hs Hw. apply wp_Update.
  - by intros e w' ->%later_db _.
  - by intros why w' ->%later_db _.
  - intros now w' ->%later_db. by apply sound_update.
Qed.

Lemma wp_CreateMetadataToken_sound mq tq m t w :
  phase_of m = Some Uploading →
  (∀ p, fm_PrevID m = Some p → ∃ m', m' ∈ db_file_metadatas (w_db w) ∧ fm_ID m' = p) →
  stream_token_for (fm_ID m) (Some (fm_UserID m)) t → sound (w_db w) →
  wp (CreateMetadataToken mq tq m t) w (λ _ w', sound (w_db w')).
Proof.
  intros Hm Hp Ht Hw. apply wp_CreateMetadataToken.
  - by intros e w' ->%later_db _.
  - intros w' ->%later_db. by apply sound_announce; destruct Ht.
Qed.

(** Announcing a new file. *)
Lemma kept_PrepareFileForUpload mq tq req :
  mr_UploadStatus req = StatusUploading → kept (PrepareFileForUpload mq tq req).
Proof.
  intros Hs. apply keeps_wp. intros w Hw. unfold PrepareFileForUpload. cbv zeta.
  wp_step. apply wp_FindByHash.
  1-2: intros w1 Hw1 ?; later_subst; simpl snd; by wp_go.
  intros w1 Hw1 _. later_subst. cbv beta iota. simpl snd. wp_step. wp_step.
  { intros e He. by wp_go. }
  intros _. wp_step; [by wp_go |]. wp_step. wp_step. wp_step. apply wp_NewToken_stream.
  { intros e w2 Hw2 ?. later_subst. by wp_go. }
  intros t w2 Hw2 Ht. later_subst. wp_step.
  eapply wp_mono; [apply wp_CreateMetadataToken_sound; [| done | done | exact Hw] |].
  { unfold phase_of. simpl. by rewrite Hs. }
  intros [[|]|] w3 Hw3; by wp_go.
Qed.

(** Announcing a new version: the previous one is in the table. *)
Lemma kept_UpdateFileMetadata mq tq req : kept (UpdateFileMetadata mq tq req).
Proof.
  apply keeps_wp. intros w Hw. unfold UpdateFileMetadata. cbv zeta. wp_step; [by wp_go |].
  wp_step. apply wp_FindBy; [done | by repeat constructor | |].
  { intros e w1 Hw1 ?. later_subst. by wp_go. }
  intros w1 Hw1. later_subst. cbv beta iota.
  destruct (sql_FindBy _ _) as [|prev l] eqn:Hfind; [by wp_go |].
  assert (Hprev : prev ∈ db_file_metadatas (w_db w) ∧ fm_ID prev = fur_FileID req).
  { apply elem_of_FindBy_id. cbn [w_db world_with_tick] in Hfind. rewrite Hfind. by left. }
  wp_step. wp_step; [intros e He; by wp_go |]. intros _. wp_step; [by wp_go |].
  wp_step. wp_step. wp_step. apply wp_NewToken_stream.
  { intros e w2 Hw2 ?. later_subst. by wp_go. }
  intros t w2 Hw2 Ht. later_subst. wp_step.
  eapply wp_mono; [apply wp_CreateMetadataToken_sound; [done | | done | exact Hw] |].
  { intros p [= <-]. by exists prev. }
  intros [[|]|] w3 Hw3; by wp_go.
Qed.

(** Completing a version: the rows taken over belong to the owner of the new
    version. *)
Lemma kept_merge_versions `{MR : MapRange} mq cq id0 id1 prev new :
  kept (merge_versions mq cq id0 id1 prev new).
Proof.
  apply keeps_wp. intros w Hw. unfold merge_versions. wp_step. apply wp_SelectFiles; [done | |].
  { intros e w1 Hw1 _. later_subst. by wp_go. }
  intros w1 Hw1. later_subst. wp_step. wp_step. rewrite build_rows. cbv beta iota.
  set (rows := sql_SelectFilesForUser _ _).
  destruct (group_by_file rows) as [|r0 [|r1 l]] eqn:Hg; [by wp_step | by wp_step |].
  set (this_prev := if decide (fir_ID r0 = id0) then (r0, r1) else (r1, r0)).
  assert (Hthis : this_prev.1 ∈ group_by_file rows).
  { rewrite Hg. unfold this_prev. case_decide; [by left | by right; left]. }
  destruct this_prev as [this pv]. apply wp_complete_version.
  intros added status w2 Hadd Hw2.
  apply group_user in Hthis as (m & Hm & Hid & Hu & _).
  apply wp_Update_sound.
  { destruct Hadd as [(-> & _)|(-> & _)]; [by left | by right]. }
  apply later_db in Hw2. rewrite Hw2. simpl. apply sound_chunks; [| exact Hw].
  intros uf Huf. exists m. split; [done |].
  destruct Hadd as [(_ & Hrows & _)|(_ & -> & _)]; [| by apply elem_of_nil in Huf].
  apply list_elem_of_lookup in Huf as [i Hi].
  destruct (Forall2_lookup_r _ _ _ _ _ Hrows Hi) as ([k c] & _ & Huser & Hfile & _).
  simpl in *. by rewrite Hfile, Huser, Hid, Hu.
Qed.

Lemma kept_ExecuteEach `{MR : MapRange} mq cq data : kept (ExecuteEach mq cq data).
Proof.
  unfold ExecuteEach. destruct (cm_PrevID data); [apply kept_merge_versions |].
  apply keeps_wp. intros w Hw. apply wp_Update_sound; [by left | exact Hw].
Qed.
#[local] Hint Resolve kept_ExecuteEach : arbok.

Lemma kept_notify_loop `{Q : Queuer} {QO : QueuerOk Q} payloads : kept (notify_loop payloads).
Proof.
  apply keeps_wp. intros w Hw. apply wp_notify_loop. intros failed w' Hdb _ _.
  unfold on_db. by rewrite Hdb.
Qed.
#[local] Hint Resolve kept_notify_loop : arbok.

Lemma kept_Execute `{MR : MapRange} `{Q : Queuer} {QO : QueuerOk Q} `{GC : Gob CacheMetadata}
    `{GE : Gob MetadataUpdateStatusEvent} mq cq payloads :
  kept (Execute mq cq payloads).
Proof.
  assert (Hloop : kept (execute_loop mq cq payloads)).
  { induction payloads as [|p payloads IH]; simpl; keeps_go. }
  unfold Execute, Notify. keeps_go.
Qed.

Lemma kept_EnqueueMsg `{Q : Queuer} {QO : QueuerOk Q} p x : kept (EnqueueMsg p x).
Proof.
  apply keeps_wp. intros w Hw. apply wp_EnqueueMsg.
  - intros e w' Hl _. by later_subst.
  - intros w' (_ & Hdb & _) _. unfold on_db. by rewrite Hdb.
Qed.
#[local] Hint Resolve kept_EnqueueMsg kept_FindBy kept_reply : arbok.

Lemma kept_MarkUploadComplete `{Q : Queuer} {QO : QueuerOk Q} `{GC : Gob CacheMetadata} mq c :
  kept (MetadataHandler_MarkUploadComplete mq c).
Proof. unfold MetadataHandler_MarkUploadComplete, MarkUploadComplete. keeps_go. Qed.

End writing.

Section writing_more.
Context `{E : Env} {EO : EnvOk E} (d0 : DB) (boot : time).
#[local] Abbreviation sound := (sound d0).
#[local] Abbreviation kept := (keeps (on_db sound)).

Lemma kept_put_eof `{Q : Queuer} {QO : QueuerOk Q} `{GC : Gob CacheMetadata} mq tq c :
  kept (put_eof mq tq boot c).
Proof.
  apply keeps_wp. intros w Hw. apply wp_ValidateStreamToken.
  - intros status w' Hl _. by later_subst.
  - intros token device w1 n Hl _ _ _ _ _ _ _. later_subst.
    by apply kept_MarkUploadComplete.
Qed.

(** A stored chunk belongs to the owner of the file its token is for. *)
Lemma kept_patch_chunks `{OS : OsEnv} `{EC : Echo} tq cq dir c :
  kept (patch_chunks tq cq boot (abs_path dir) c).
Proof.
  apply keeps_wp. intros w Hw. apply wp_ValidateStreamToken.
  - intros status w' Hl _. by later_subst.
  - intros token device w1 n Hl Htok _ _ Hu Hty _ _. later_subst.
    pose proof (dt_token _ (proj1 Hw) token Htok Hty) as Howned. rewrite Hu in Howned.
    unfold UpsertChunks. simpl. rewrite Hu.
    destruct (bind_FileChunkRequest _) as [req|]; [| by wp_step].
    destruct (FormFile _ _) as [data|]; [| by wp_step].
    wp_step. wp_step. wp_step; [by wp_step |]. wp_step.
    apply wp_FileChunkService_Create; simpl.
    + intros e w2 Hdb _. cbv beta iota. apply kept_reply. unfold on_db. by rewrite Hdb.
    + intros rsp uf w2 Hf Hus Hdb _. cbv beta iota. apply kept_reply. unfold on_db.
      rewrite Hdb. apply (sound_chunks d0 [uf]); [| exact Hw].
      intros uf' ->%list_elem_of_singleton. by rewrite Hf, Hus.
Qed.

Lemma kept_CreateSession querier id user : kept (CreateSession querier id ResourceTypeUser user).
Proof.
  apply keeps_wp. intros w Hw. unfold CreateSession, NewToken.
  change (negb (ValidateResourceType (ToLower ResourceTypeUser))) with false. cbv iota zeta.
  unfold GenerateToken, apply_opts, WithDefaultExpiry, WithUserID.
  wp_go; simplify_eq; try exact Hw. apply sound_token; [done | exact Hw].
Qed.

Lemma kept_UserService_Create querier email password :
  kept (UserService_Create boot querier email password).
Proof.
  assert (Hexec : ∀ user, kept (exec_CreateUser user)).
  { intros user. apply keeps_wp. intros w Hw. unfold exec_CreateUser. wp_go; [done | | done].
    by eapply sound_user. }
  unfold UserService_Create, NewUser, HashPassword. keeps_go.
Qed.

End writing_more.

(** * The system

    One step is one request behind its middlewares, one batch of a worker, one
    call of the services of accounts, or anything that leaves the tables alone
    (a client, the clock, Redis, the disk, the queues being read).  What an
    operation did before a panic stays. *)
Section system.
Context `{E : Env} `{MR : MapRange} `{SG : SliceGrowth} `{OS : OsEnv} `{EC : Echo}.
Context `{GC : Gob CacheMetadata} `{GE : Gob MetadataUpdateStatusEvent}.
Context (changes notes : Queuer) (mq tq cq uq : QueryMapper).
Context (boot : time) (cwd : string) (dir : list string).

Definition after {A} (m : Go A) (w : World) : World := (m w).2.

#[local] Abbreviation store := (abs_path dir).

Inductive step (w : World) : World → Prop :=
| PostFile c : step w (after (post_file mq tq boot c) w)
| PatchFile c : step w (after (patch_file mq tq boot c) w)
| PatchChunks c : step w (after (patch_chunks tq cq boot store c) w)
| PutEof c : step w (after (put_eof (Q := changes) mq tq boot c) w)
| GetFile c : step w (after (get_file mq tq boot c) w)
| ListFiles c : step w (after (list_files mq tq boot c) w)
| PutShare c : step w (after (put_share tq boot c) w)
| GetDownload c : step w (after (get_download mq tq boot cwd c) w)
| GetDownloadV2 c : step w (after (get_download_v2 mq tq boot cwd c) w)
| WorkerBatch payloads : step w (after (Execute (Q := notes) mq cq payloads) w)
| Reconcile : step w (after (ManualChunkMetadataReconciler mq cq) w)
| NewSession id user : step w (after (CreateSession tq id ResourceTypeUser user) w)
| NewAccount email password : step w (after (UserService_Create boot uq email password) w)
| Outside w' : w_db w' = w_db w → step w w'.

Context {EO : EnvOk E} {QC : QueuerOk changes} {QN : QueuerOk notes}.

Lemma step_sound d0 w w' : step w w' → sound d0 (w_db w) → sound d0 (w_db w').
Proof.
  intros Hstep Hw. change (on_db (sound d0) w'). destruct Hstep; try unfold after.
  - apply (kept_ValidateAccessToken _ _ _ (PostFileMetadata mq tq)); [| exact Hw]. intros token.
    unfold PostFileMetadata, reply_error. destruct (bind_MetadataRequest _); [| keeps_go]. simpl.
    apply keeps_bind; [by apply kept_PrepareFileForUpload |]. intros resp. keeps_go.
  - apply (kept_ValidateAccessToken _ _ _ (MetadataHandler_UpdateFileMetadata mq tq)); [| exact Hw].
    intros token. unfold MetadataHandler_UpdateFileMetadata.
    destruct (bind_FileUpdateMetadataRequest _); [| keeps_go]. simpl.
    apply keeps_bind; [apply kept_UpdateFileMetadata |]. intros resp. apply kept_reply.
  - by apply kept_patch_chunks.
  - by apply kept_put_eof.
  - apply kept_ValidateAccessToken; [| exact Hw]. intros token. apply kept_GetFileChunks.
  - apply kept_ValidateAccessToken; [| exact Hw]. intros token. apply kept_ListFiles.
  - apply (kept_ValidateAccessToken _ _ _ ShareFile); [| exact Hw]. intros token. unfold ShareFile. keeps_go.
  - apply kept_AddTokenFromUrlToHeader; [| exact Hw]. intros c'.
    apply kept_ValidateAccessToken. intros token. apply kept_DownloadFile.
  - apply kept_AddTokenFromUrlToHeader; [| exact Hw]. intros c'.
    apply kept_ValidateAccessToken. intros token. apply kept_DownloadFileV2.
  - by apply kept_Execute.
  - by apply kept_merge_versions.
  - by apply kept_CreateSession.
  - by apply kept_UserService_Create.
  - unfold on_db. congruence.
Qed.

Lemma steps_sound d0 w w' : rtc step w w' → sound d0 (w_db w) → sound d0 (w_db w').
Proof. induction 1 as [|w w1 w' Hs _ IH]; [done |]. intros Hw. by eapply IH, step_sound. Qed.

End system.

(** * Properties *)

(** (C2) The tables keep their type through every history.  Whatever requests,
    jobs and failures follow one another, if the tables are well typed at the
    start (the empty ones are) they are so ever after: every row of
    file_metadatas is being uploaded (not current, no end date, "uploading"),
    current (no end date, completed or failed) or closed (not current, with an
    end date, completed or failed); the previous version of a row is a row; a
    chunk belongs to the owner of its file, which is there; so does a stream
    token; and no two users share an identifier. *)
Theorem tables_typed `{E : Env} `{MR : MapRange} `{SG : SliceGrowth} `{OS : OsEnv} `{EC : Echo}
    `{GC : Gob CacheMetadata} `{GE : Gob MetadataUpdateStatusEvent} {EO : EnvOk E}
    changes notes {QC : QueuerOk changes} {QN : QueuerOk notes} mq tq cq uq boot cwd dir w w' :
  rtc (step changes notes mq tq cq uq boot cwd dir) w w' →
  db_typed (w_db w) → db_typed (w_db w').
Proof. intros Hr Hw. by destruct (steps_sound _ _ _ _ _ _ _ _ _ (w_db w) _ _ Hr). Qed.

(** The history of a row.  Whatever happens, no row of any table is ever
    removed, the chunks, tokens and users stored never change, and a version
    keeps its identifier, owner, previous version, name, hash, size, type,
    chunk count and date; only its flag, end date and status change, the status
    only to completed or failed, so a version that has left the upload never
    returns to it. *)
Theorem rows_evolve `{E : Env} `{MR : MapRange} `{SG : SliceGrowth} `{OS : OsEnv} `{EC : Echo}
    `{GC : Gob CacheMetadata} `{GE : Gob MetadataUpdateStatusEvent} {EO : EnvOk E}
    changes notes {QC : QueuerOk changes} {QN : QueuerOk notes} mq tq cq uq boot cwd dir w w' :
  rtc (step changes notes mq tq cq uq boot cwd dir) w w' →
  db_typed (w_db w) → evolves (w_db w) (w_db w').
Proof. intros Hr Hw. by destruct (steps_sound _ _ _ _ _ _ _ _ _ (w_db w) _ _ Hr). Qed.

(** A concrete system: a client that announces a file of 9 MB, and workers. *)
Definition sample_echo_upload : Echo :=
  {| bind_MetadataRequest _ := Val sample_request;
     bind_FileUpdateMetadataRequest _ := Err "bad request";
     bind_FileChunkRequest _ := Err "bad request";
     FormFile _ _ := Err "no part" |}.

Definition sample_step : World → World → Prop :=
  step (E := quiet_env) (MR := list_range) (SG := doubling_growth) (OS := sample_os)
    (EC := sample_echo_upload) (GC := cache_gob) (GE := event_gob)
    (RedisQ (E := quiet_env) MetadataFileUpdateQueue)
    (RedisQ (E := quiet_env) MetadataUpdateClientsNotifierQueue)
    metadataQueryStore tokensQs chunkQs usersQs 0%Z "/srv" ["data"].

Definition after_announcement : World :=
  after (post_file (E := quiet_env) (EC := sample_echo_upload) metadataQueryStore tokensQs 0%Z
           (sample_get "Bearer trial_access_token")) empty_world.

(** The announcement leaves a row, typed as being uploaded. *)
Lemma tables_typed_witness :
  (phase_of <$> db_file_metadatas (w_db after_announcement)) = [Some Uploading] ∧
  db_typed (w_db after_announcement).
Proof.
  split; [by vm_compute |].
  apply (tables_typed (E := quiet_env) (MR := list_range) (SG := doubling_growth)
    (OS := sample_os) (EC := sample_echo_upload) (GC := cache_gob) (GE := event_gob)
    (RedisQ (E := quiet_env) MetadataFileUpdateQueue)
    (RedisQ (E := quiet_env) MetadataUpdateClientsNotifierQueue)
    (QC := RedisQ_ok (E := quiet_env) MetadataFileUpdateQueue)
    (QN := RedisQ_ok (E := quiet_env) MetadataUpdateClientsNotifierQueue)
    metadataQueryStore tokensQs chunkQs usersQs 0%Z "/srv" ["data"] empty_world).
  - apply rtc_once, PostFile.
  - apply db_typed_empty.
Defined.

Lemma sample_db_typed : db_typed sample_db.
Proof.
  assert (Hrows : ∀ m, m ∈ db_file_metadatas sample_db →
    m = sample_file "F1" None true StatusCompleted 10%Z ∨
    m = sample_file "F2" (Some "F1") false StatusUploading 20%Z).
  { intros m [->|[->|[]%elem_of_nil]%elem_of_cons]%elem_of_cons; auto. }
  split.
  - by intros m [-> | ->]%Hrows; eexists.
  - intros m p [-> | ->]%Hrows [= <-]. eexists. split; [by left | done].
  - intros uf [->|[->|[->|[]%elem_of_nil]%elem_of_cons]%elem_of_cons]%elem_of_cons; eexists.
    1-2: by split; [left |]. by split; [right; left |].
  - by intros t ?%elem_of_nil.
  - constructor.
Qed.

(** The message of MarkUploadComplete for F2. *)
Definition sample_change : list Payload :=
  match gob_Encode (Gob := cache_gob)
          {| cm_UserID := "U11223455"; cm_PrevID := Some "F1"; cm_DeviceID := "1"; cm_ID := "F2" |} with
  | Val b => [payload b]
  | Err _ => []
  end.

Definition after_batch : World :=
  after (Execute (E := quiet_env) (MR := list_range) (Q := RedisQ (E := quiet_env) MetadataUpdateClientsNotifierQueue)
           (GC := cache_gob) (GE := event_gob) metadataQueryStore chunkQs sample_change) sample_world.

(** The worker completes F2: one chunk is added, F1 closed. *)
Lemma rows_evolve_witness :
  (phase_of <$> db_file_metadatas (w_db after_batch)) = [Some Closed; Some Current] ∧
  evolves sample_db (w_db after_batch).
Proof.
  split; [by vm_compute |].
  apply (rows_evolve (E := quiet_env) (MR := list_range) (SG := doubling_growth)
    (OS := sample_os) (EC := sample_echo_upload) (GC := cache_gob) (GE := event_gob)
    (RedisQ (E := quiet_env) MetadataFileUpdateQueue)
    (RedisQ (E := quiet_env) MetadataUpdateClientsNotifierQueue)
    (QC := RedisQ_ok (E := quiet_env) MetadataFileUpdateQueue)
    (QN := RedisQ_ok (E := quiet_env) MetadataUpdateClientsNotifierQueue)
    metadataQueryStore tokensQs chunkQs usersQs 0%Z "/srv" ["data"] sample_world).
  - apply rtc_once, WorkerBatch.
  - apply sample_db_typed.
Defined.

(** * Two new versions of one file *)

Section forks.
Context `{E : Env} {EO : EnvOk E} `{MR : MapRange}.
Implicit Types w : World.

(** A version that can be completed without an error: both rows are there, and
    each has a chunk. *)
Definition mergeable (d : DB) (id p : string) : Prop :=
  id ≠ p ∧ (∃ k, has_chunk d id k) ∧ (∃ k, has_chunk d p k) ∧
  (∃ m, m ∈ db_file_metadatas d ∧ fm_ID m = id) ∧ (∃ m, m ∈ db_file_metadatas d ∧ fm_ID m = p).

Lemma mergeable_evolves d d' id p : evolves d d' → mergeable d id p → mergeable d' id p.
Proof.
  intros [Hr [cs Hc] _ _] (Hne & (k1 & u1 & Hu1 & ?) & (k2 & u2 & Hu2 & ?) & (m1 & Hm1 & <-) & (m2 & Hm2 & <-)).
  assert (Hrow : ∀ m, m ∈ db_file_metadatas d →
    ∃ m', m' ∈ db_file_metadatas d' ∧ fm_ID m' = fm_ID m).
  { intros m Hm. destruct (extends_elem _ _ _ _ Hr Hm) as (m' & ? & HR). exists m'.
    by destruct (row_evolves_identity _ _ HR). }
  unfold mergeable, has_chunk. rewrite Hc. split_and!; eauto.
  - exists k1, u1. split; [apply elem_of_app; by left | done].
  - exists k2, u2. split; [apply elem_of_app; by left | done].
Qed.

(** What completing a version leaves: it succeeds, and the rows are updated. *)
Lemma wp_ExecuteEach_switch mq cq id p user device w (Q : ret (option error) → World → Prop) :
  no_fault → has_query mq SelectFilesForUserStmt → has_query mq UpdateCurrentFlagStmt →
  mergeable (w_db w) id p →
  (∀ status now w', final_status status →
    (has_query cq CreateFileChunkStmt → status = StatusCompleted) →
    evolves (w_db w) (w_db w') → later (world_with_db (w_db w') w) w' →
    db_file_metadatas (w_db w') = update_row (Some p) id status now <$> db_file_metadatas (w_db w) →
    Q (Ret None) w') →
  wp (ExecuteEach mq cq {| cm_UserID := user; cm_PrevID := Some p; cm_DeviceID := device;
                           cm_ID := id |}) w Q.
Proof.
  intros Hf Hqs Hqu (Hne & Hk1 & Hk2 & Hm1 & Hm2) HQ. apply wp_merge_versions; [done | |].
  { intros e w1 _ Hno. destruct Hno. by split_and!. }
  intros m1 m2 added status w1 _ _ _ _ Hcase Hw1.
  apply wp_Update; [by intros e w2 _ [] | intros why w2 _ [e He]; quiet |].
  intros now w2 Hw2. pose proof Hw1 as Hdb1%later_db. pose proof Hw2 as Hdb2%later_db.
  assert (Hs : final_status status).
  { destruct Hcase as [(-> & _)|[(-> & _)|(-> & _)]]; [by left | by left | by right]. }
  apply (HQ status now); [done | | | | by rewrite Hdb2, Hdb1].
  - intros Hqc. destruct Hcase as [(-> & _)|[(-> & _)|(_ & _ & _ & _ & Hno)]]; [done.. |].
    by destruct Hno.
  - rewrite Hdb2, Hdb1. split; simpl; try done; [| by apply prefix_app_r].
    apply extends_fmap. intros m. by apply update_row_evolves.
  - later_subst. solve_later.
Qed.

End forks.

Lemma promoted_identity id p status now m :
  fm_ID (promoted id p status now m) = fm_ID m ∧
  fm_PrevID (promoted id p status now m) = fm_PrevID m.
Proof. unfold promoted. repeat case_decide; done. Qed.

Lemma phase_promoted id p status now m :
  final_status status →
  phase_of (promoted id p status now m)
  = if decide (fm_ID m = id) then Some Current
    else if decide (fm_ID m = p) then Some Closed else phase_of m.
Proof.
  intros Hs. unfold promoted. repeat case_decide; try done;
    unfold phase_of; simpl; by rewrite decide_True.
Qed.

(** (C36) Two devices that announce a new version of the same file both make it
    current.  Nothing compares the version a new one is based on with the
    current one: when [a] and [b] are both linked to [p] and their uploads end,
    the worker completes both without an error, and then both are current;
    only [p] is closed. *)
Theorem forked_versions_both_current `{E : Env} {EO : EnvOk E} `{MR : MapRange} mq cq a b p
    user device1 device2 w :
  no_fault → has_query mq SelectFilesForUserStmt → has_query mq UpdateCurrentFlagStmt →
  a ≠ b → mergeable (w_db w) a p → mergeable (w_db w) b p →
  (∀ m, m ∈ db_file_metadatas (w_db w) → fm_ID m = a ∨ fm_ID m = b → fm_PrevID m = Some p) →
  wp (e1 ← ExecuteEach mq cq {| cm_UserID := user; cm_PrevID := Some p;
                                cm_DeviceID := device1; cm_ID := a |};
      e2 ← ExecuteEach mq cq {| cm_UserID := user; cm_PrevID := Some p;
                                cm_DeviceID := device2; cm_ID := b |};
      mret (e1, e2)) w (λ r w', r = Ret (None, None) ∧
    ∀ m, m ∈ db_file_metadatas (w_db w') →
      (fm_ID m = a ∨ fm_ID m = b → phase_of m = Some Current) ∧
      (fm_ID m = p → phase_of m = Some Closed)).
Proof.
  intros Hf Hqs Hqu Hab Ha Hb Hlink. wp_step. apply wp_ExecuteEach_switch; [done.. |].
  intros s1 n1 w1 Hs1 _ He1 _ Hr1. cbv beta iota. wp_step.
  apply wp_ExecuteEach_switch; [done | done | done | by eapply mergeable_evolves |].
  intros s2 n2 w2 Hs2 _ _ _ Hr2. wp_go. split; [done |].
  rewrite Hr2, Hr1. destruct Ha as [Hap _], Hb as [Hbp _].
  intros m (m1 & -> & (m0 & -> & Hm0)%list_elem_of_fmap)%list_elem_of_fmap.
  specialize (Hlink m0 Hm0). rewrite (update_row_promoted a) by auto.
  destruct (promoted_identity a p s1 n1 m0) as [Hi Hp].
  rewrite update_row_promoted by (rewrite ?Hi, ?Hp; auto).
  rewrite (proj1 (promoted_identity b p s2 n2 _)), !phase_promoted, Hi by done.
  split; [intros [-> | ->] | intros ->]; repeat case_decide; congruence.
Qed.

(** A second new version of F1 in the sample tables. *)
Definition forked_world : World :=
  world_with_db
    {| db_file_metadatas := db_file_metadatas sample_db ++
         [sample_file "F3" (Some "F1") false StatusUploading 30%Z];
       db_users := []; db_tokens := [];
       db_user_files := db_user_files sample_db ++ [sample_chunk "F3" 0%Z 1%Z "/data/F3/0" "c0c"] |}
    empty_world.

Lemma forked_versions_both_current_witness :
  let run := e1 ← ExecuteEach (E := quiet_env) (MR := list_range) metadataQueryStore chunkQs
                    {| cm_UserID := "U1"; cm_PrevID := Some "F1"; cm_DeviceID := "1"; cm_ID := "F2" |};
             e2 ← ExecuteEach (E := quiet_env) (MR := list_range) metadataQueryStore chunkQs
                    {| cm_UserID := "U1"; cm_PrevID := Some "F1"; cm_DeviceID := "2"; cm_ID := "F3" |};
             mret (e1, e2) in
  phase_of <$> db_file_metadatas (w_db (run forked_world).2) = [Some Closed; Some Current; Some Current] ∧
  wp run forked_world (λ r w', r = Ret (None, None) ∧
    ∀ m, m ∈ db_file_metadatas (w_db w') →
      (fm_ID m = "F2" ∨ fm_ID m = "F3" → phase_of m = Some Current) ∧
      (fm_ID m = "F1" → phase_of m = Some Closed)).
Proof.
  intros run. split; [by vm_compute |].
  assert (Hrow : ∀ i m id, db_file_metadatas (w_db forked_world) !! i = Some m → fm_ID m = id →
    ∃ m, m ∈ db_file_metadatas (w_db forked_world) ∧ fm_ID m = id).
  { intros i m id Hi Hid. exists m. split; [by eapply list_elem_of_lookup_2 | done]. }
  assert (Hchunk : ∀ i uf id, db_user_files (w_db forked_world) !! i = Some uf →
    uf_FileID uf = id → ∃ k, has_chunk (w_db forked_world) id k).
  { intros i uf id Hi Hid. exists (uf_ChunkID uf), uf.
    split; [by eapply list_elem_of_lookup_2 | done]. }
  apply (forked_versions_both_current (E := quiet_env) (MR := list_range)); try done.
  1-2: by apply (bool_decide_unpack _); vm_compute.
  - split_and!; [done | by eapply (Hchunk 2) | by eapply (Hchunk 0) | by eapply (Hrow 1)
      | by eapply (Hrow 0)].
  - split_and!; [done | by eapply (Hchunk 3) | by eapply (Hchunk 0) | by eapply (Hrow 2)
      | by eapply (Hrow 0)].
  - intros m Hm. do 3 (apply elem_of_cons in Hm as [->|Hm]; [by intros [Hid|Hid] |]).
    by apply elem_of_nil in Hm.
Defined.
