(* ===== verification/Journey.v ===== *)
(** The way of an upload through the system: the end of the upload (the server),
    the batch of the worker, the announcement, and the messages for the devices
    (the server again).  The parts are those of FilesService.v, Changelog.v and
    Sync.v; they meet in two queues of one Redis server. *)
From S2P Require Import Prelude GoStd Api Model World Squirtle Queries FilesRepo.
From S2P Require Import Queue Gob FilesInfo FilesService Changelog Chan Broker Sync Lifecycle.

(** Two queues of one server that share no list: the one of the worker, and those
    of the users. *)
Class OneServer `{E : Env} (changes notes : Queuer) {QC : QueuerOk changes} {QN : QueuerOk notes} :
    Prop := {
  same_lists : ∀ w k, q_list (QueuerOk := QC) w k = q_list (QueuerOk := QN) w k;
  own_lists : ∀ user, q_key (QueuerOk := QC) "" ≠ q_key (QueuerOk := QN) user;
}.

#[global] Instance redis_one_server `{E : Env} {EO : EnvOk E} :
  OneServer (RedisQ MetadataFileUpdateQueue) (RedisQ MetadataUpdateClientsNotifierQueue).
Proof. by split. Qed.

Section journey.
Context `{E : Env} {EO : EnvOk E} `{MR : MapRange} (changes notes : Queuer).
Context {QC : QueuerOk changes} {QN : QueuerOk notes} {OS : OneServer changes notes}.
Context `{GC : Gob CacheMetadata} {GCO : GobOk CacheMetadata sendable}.
Context `{GE : Gob MetadataUpdateStatusEvent} {GEO : GobOk MetadataUpdateStatusEvent event_sendable}.
Context (mq cq : QueryMapper).

#[local] Abbreviation changed w := (q_list (QueuerOk := QC) w (q_key (QueuerOk := QC) "")).
#[local] Abbreviation noted w user := (q_list (QueuerOk := QN) w (q_key (QueuerOk := QN) user)).

(** One demand of the worker, and the run of its executor on the batch. *)
Definition worker_turn : Go (option (error + PartialError)) :=
  batch ← produce_batch (Q := changes) 1;
  match batch with
  | Some payloads => Execute (Q := notes) mq cq payloads
  | None => mret None
  end.

(** One demand of an event handler, and the messages the consumer sends. *)
Definition devices_turn (user : string) : Go (option (list Message * option error)) :=
  batch ← Produce_demand (Q := notes) {| dm_Count := 1; dm_UserID := user |};
  mret (SSEConsumer_Execute <$> batch).

(** The request that ends an upload, then the two turns. *)
Definition upload_journey (ufd : UserFileDevice) (user : string) :=
  rsp ← MarkUploadComplete (Q := changes) mq ufd;
  err ← worker_turn;
  sent ← devices_turn user;
  mret (M := Go) (rsp, err, sent).

Definition event_of (c : CacheMetadata) : MetadataUpdateStatusEvent :=
  {| ev_FileID := cm_ID c; ev_UserID := cm_UserID c; ev_PrevFileID := cm_PrevID c;
     ev_DeviceID := cm_DeviceID c |}.

(** The worker completes the version its one message names, and announces it. *)
Lemma wp_worker_turn msg id p user device w
    (Post : ret (option (error + PartialError)) → World → Prop) :
  let c := {| cm_UserID := user; cm_PrevID := Some p; cm_DeviceID := device; cm_ID := id |} in
  no_fault → has_query mq SelectFilesForUserStmt → has_query mq UpdateCurrentFlagStmt →
  has_query cq CreateFileChunkStmt → mergeable (w_db w) id p → p ≠ "" →
  changed w = [msg] → gob_Decode msg = Val c → noted w user = [] →
  (∀ note now w', gob_Decode note = Val (event_of c) → noted w' user = [note] → changed w' = [] →
    db_file_metadatas (w_db w')
      = update_row (Some p) id StatusCompleted now <$> db_file_metadatas (w_db w) →
    Post (Ret None) w') →
  wp worker_turn w Post.
Proof.
  intros c Hf Hqs Hqu Hqc Hm Hp Hmsg Hdec Hnone HP. unfold worker_turn. simpl produce_batch.
  do 2 wp_step. apply wp_ReadMsg; [done | |].
  { intros w1 _ _ [Hn|]; [by rewrite Hn in Hmsg | done]. }
  intros m w1 (_ & Hdb1 & _) Hq1 Ho1. rewrite Hmsg in Hq1. injection Hq1 as -> Hq1.
  do 3 wp_step. unfold Execute. simpl execute_loop. rewrite Hdec.
  do 2 wp_step. apply wp_ExecuteEach_switch; [done.. | by rewrite Hdb1 |].
  intros status now w2 _ Hst _ Hw2 Hrows. rewrite (Hst Hqc), Hdb1 in Hrows.
  assert (Hq2 : ∀ k, q_list (QueuerOk := QN) w2 k = q_list (QueuerOk := QN) w1 k).
  { intros k. by rewrite (q_list_later _ _ Hw2), q_list_db. }
  do 4 wp_step.
  apply wp_Notify; [by repeat constructor; intros [= ->] | | by intros ? ? _ ?].
  intros w3 Hdb3 Hq3. wp_step. change {| ev_FileID := _ |} with (event_of c) in Hq3.
  assert (Hlists : ∀ k, ∃ msgs, q_list (QueuerOk := QN) w3 k = q_list (QueuerOk := QN) w1 k ++ msgs ∧
    Forall2 (λ m e, gob_Decode m = Val e) msgs
      (if decide (q_key (QueuerOk := QN) user = k) then [event_of c] else [])).
  { intros k. destruct (Hq3 k) as (msgs & Hl & Hd). exists msgs. split; [by rewrite Hl, Hq2 |].
    unfold delivered in Hd. rewrite filter_cons, filter_nil in Hd. exact Hd. }
  destruct (Hlists (q_key (QueuerOk := QN) user)) as (msgs & Hl & Hd).
  rewrite decide_True in Hd by done. apply Forall2_cons_inv_r in Hd as (note & l & Hnote & Hnil & ->).
  apply Forall2_nil_inv_r in Hnil as ->.
  apply (HP note now); [done | | | by rewrite Hdb3].
  - rewrite Hl, <- same_lists, Ho1, same_lists, Hnone; [done |].
    intros Heq. by apply (own_lists user).
  - destruct (Hlists (q_key (QueuerOk := QC) "")) as (msgs & Hl' & Hd).
    rewrite decide_False in Hd by (intros Heq; by apply (own_lists user)).
    apply Forall2_nil_inv_r in Hd as ->. by rewrite same_lists, Hl', app_nil_r, <- same_lists, <- Hq1.
Qed.

(** What is announced reaches the devices of the user. *)
Lemma wp_devices_turn note ev user w (Post : ret (option (list Message * option error)) → World → Prop) :
  no_fault → noted w user = [note] → gob_Decode note = Val ev →
  (∀ w', redis_only w w' → noted w' user = [] →
    (∀ k, k ≠ q_key (QueuerOk := QN) user → q_list (QueuerOk := QN) w' k = q_list (QueuerOk := QN) w k) →
    Post (Ret (Some (update_messages ev, None))) w') →
  wp (devices_turn user) w Post.
Proof.
  intros Hf Hq Hdec HP. unfold devices_turn, Produce_demand. simpl. wp_step.
  apply (wp_read_loop user [note] []); [done | done |]. intros payloads w1 Hr Hp Hq1 Ho. wp_step.
  cbn [fmap option_fmap option_map]. rewrite (SSEConsumer_Execute_decodes payloads [ev]).
  - by apply HP.
  - rewrite Hp. by repeat constructor.
Qed.

End journey.

(** (C6) A finished upload reaches the devices of its user.  When no call fails,
    the statements are in the store, the new version [id] is still uploading, is
    linked to [p], and both have their chunks, and the queues are empty: the
    request that ends the upload succeeds, the worker completes the version, so
    that it is current and [p] is closed and no other row changes, and what is
    sent to the broker is one message for the device that uploaded and one for
    the other device of the user, both naming the file; the queues are empty
    again. *)
Theorem upload_reaches_devices `{E : Env} {EO : EnvOk E} `{MR : MapRange} changes notes
    {QC : QueuerOk changes} {QN : QueuerOk notes} {OS : OneServer changes notes}
    `{GC : Gob CacheMetadata} {GCO : GobOk CacheMetadata sendable}
    `{GE : Gob MetadataUpdateStatusEvent} {GEO : GobOk MetadataUpdateStatusEvent event_sendable}
    mq cq p device new w :
  let ufd := {| ufd_UserID := fm_UserID new; ufd_DeviceID := device; ufd_FileID := fm_ID new;
                ufd_ChunkID := "" |} in
  let to d := {| m_UserID := fm_UserID new; m_DeviceID := d; m_Content := "fileID:" +:+ fm_ID new |} in
  let pending (w : World) :=
    q_list (QueuerOk := QC) w (q_key (QueuerOk := QC) "") = [] ∧
    q_list (QueuerOk := QN) w (q_key (QueuerOk := QN) (fm_UserID new)) = [] in
  no_fault → has_query mq FindByStmt → has_query mq SelectFilesForUserStmt →
  has_query mq UpdateCurrentFlagStmt → has_query cq CreateFileChunkStmt →
  uploading (w_db w) (fm_ID new) new → fm_PrevID new = Some p → mergeable (w_db w) (fm_ID new) p →
  (∀ m, m ∈ db_file_metadatas (w_db w) → fm_ID m = fm_ID new → m = new) →
  (∀ m, m ∈ db_file_metadatas (w_db w) → fm_PrevID m ≠ Some "") →
  pending w →
  wp (upload_journey changes notes mq cq ufd (fm_UserID new)) w (λ r w', ∃ rsp now,
    r = Ret (rsp, None, Some ([to device; to (anotherDevice device)], None)) ∧
    rsp_Success rsp = true ∧
    db_file_metadatas (w_db w')
    = promoted (fm_ID new) p StatusCompleted now <$> db_file_metadatas (w_db w) ∧
    pending w').
Proof.
  intros ufd to pending Hf Hqf Hqs Hqu Hqc Hup Hlink Hm Huniq Hprev [Hc Hn].
  assert (Hp : p ≠ "").
  { intros ->. destruct Hup as (Hin & _). by apply (Hprev new). }
  unfold upload_journey. wp_step. apply wp_MarkUploadComplete; [done | |].
  { intros rsp w1 _ _ Hno. by destruct (Hno Hf Hqf new). }
  intros m msg w1 (Hin & Hid & _) Hdec (_ & Hdb1 & _) Hq1. rewrite (Huniq m) in Hdec by done.
  cbv beta iota. wp_step.
  apply (wp_worker_turn changes notes mq cq msg (fm_ID new) p (fm_UserID new) device); try done.
  - by rewrite Hdb1.
  - by rewrite Hq1, decide_True, Hc.
  - rewrite Hdec. unfold changelog_entry. by rewrite Hlink.
  - rewrite <- same_lists, Hq1, decide_False, same_lists; [done | by apply own_lists].
  - intros note now w2 Hnote Hq2 Hc2 Hrows. cbv beta iota. wp_step.
    eapply wp_devices_turn; [done | done | exact Hnote |]. intros w3 (_ & Hdb3 & _) Hq3 Ho3.
    wp_step. eexists _, now. split; [done |]. split; [done |]. split; [| split; [| done]].
    + rewrite Hdb3, Hrows, Hdb1. apply list_fmap_ext. intros i x Hx.
      apply update_row_promoted; [by destruct Hm as [? _] |]. intros Hxid.
      rewrite (Huniq x); [done | by eapply list_elem_of_lookup_2 | done].
    + rewrite same_lists, Ho3, <- same_lists; [done |]. by apply own_lists.
Qed.

Lemma upload_reaches_devices_witness :
  let ufd := {| ufd_UserID := "U11223455"; ufd_DeviceID := "1"; ufd_FileID := "F2";
                ufd_ChunkID := "" |} in
  wp (upload_journey (E := quiet_env) (MR := list_range)
        (RedisQ (E := quiet_env) MetadataFileUpdateQueue)
        (RedisQ (E := quiet_env) MetadataUpdateClientsNotifierQueue)
        (GC := cache_gob) (GE := event_gob) metadataQueryStore chunkQs ufd "U11223455")
    sample_world (λ r w', (∃ rsp, r = Ret (rsp, None, Some (
      [{| m_UserID := "U11223455"; m_DeviceID := "1"; m_Content := "fileID:F2" |};
       {| m_UserID := "U11223455"; m_DeviceID := "2"; m_Content := "fileID:F2" |}], None))) ∧
      fm_CurrentFlag <$> db_file_metadatas (w_db w') = [false; true]).
Proof.
  intros ufd. eapply wp_mono.
  - apply (upload_reaches_devices (E := quiet_env) (MR := list_range)
      (RedisQ (E := quiet_env) MetadataFileUpdateQueue)
      (RedisQ (E := quiet_env) MetadataUpdateClientsNotifierQueue)
      (QC := RedisQ_ok (E := quiet_env) MetadataFileUpdateQueue)
      (QN := RedisQ_ok (E := quiet_env) MetadataUpdateClientsNotifierQueue)
      (GCO := countable_gob_ok sendable) (GEO := countable_gob_ok event_sendable)
      metadataQueryStore chunkQs "F1" "1"
      (sample_file "F2" (Some "F1") false StatusUploading 20%Z) sample_world); try done.
    1-4: by apply (bool_decide_unpack _); vm_compute.
    + split; [right; by left | done].
    + split_and!; [done | | | |].
      * exists 1%Z, (sample_chunk "F2" 1%Z (-1)%Z "/data/F2/1" "c1b"). split; [| done].
        by right; right; left.
      * exists 0%Z, (sample_chunk "F1" 0%Z 1%Z "/data/F1/0" "c0"). split; [by left | done].
      * eexists. split; [right; by left | done].
      * eexists. split; [by left | done].
    + intros m Hm Hid. simpl in Hm. rewrite !elem_of_cons, elem_of_nil in Hm.
      by destruct Hm as [->|[->|[]]].
    + intros m Hm. simpl in Hm. rewrite !elem_of_cons, elem_of_nil in Hm.
      by destruct Hm as [->|[->|[]]].
  - intros r w' (rsp & now & -> & _ & -> & _). split; [by exists rsp | done].
Defined.
