(* ===== verification/Action.v ===== *)
(** Operations and their processes (Proc.v).  [Cut m P Q] holds a process that
    runs to what the function [m] gives, with what it relies on and guarantees:
    started where [P] holds of the tables, among others that only let them
    evolve, it lets them evolve itself, and ends where [Q] does. *)
From S2P Require Import Prelude GoStd Api Model World Squirtle Queries.
From S2P Require Import Tokens FilesRepo Queue Gob FilesInfo FilesService Blob.
From S2P Require Import Transfer Reconstruct Changelog Users Auth Proc Routes Lifecycle.

(** * What a process guarantees *)
Section actions.
Context `{E : Env} `{OS : OsEnv}.

Implicit Types (P : DB → Prop) (d : DB).

(** From tables [d], whatever the others have made of them when an action
    comes to run. *)
Fixpoint guarantees {A} (p : Proc A) (Q : A → DB → Prop) d : Prop :=
  match p with
  | Done (Ret a) => Q a d
  | Done (Panics _) => True
  | Act m _ k => ∀ w, evolves d (w_db w) → db_typed (w_db w) →
      Lifecycle.sound (w_db w) (w_db (m w).2) ∧ guarantees (k (m w).1) Q (w_db (m w).2)
  end.

Definition stable P : Prop := ∀ d d', evolves d d' → P d → P d'.

Lemma guarantees_mono {A} (p : Proc A) (Q Q' : A → DB → Prop) d :
  (∀ a d, Q a d → Q' a d) → guarantees p Q d → guarantees p Q' d.
Proof.
  intros HQ. revert d. induction p as [[a|why]|X m a k IH]; intros d; simpl; [auto.. |].
  intros H w Hd Ht. destruct (H w Hd Ht) as [Hs Hk]. auto.
Qed.

Lemma guarantees_evolves {A} (p : Proc A) (Q : A → DB → Prop) d d' :
  (∀ a, stable (Q a)) → evolves d d' → guarantees p Q d → guarantees p Q d'.
Proof.
  intros HQ Hd. destruct p as [[a|why]|X m a k]; simpl; [by apply HQ | done |].
  intros H w Hw. apply H. by etrans.
Qed.

Lemma guarantees_bind {A B} (p : Proc A) (f : A → Proc B) R Q d :
  guarantees p R d → (∀ a d, R a d → guarantees (f a) Q d) → guarantees (bindP p f) Q d.
Proof.
  intros Hp Hf. revert d Hp. induction p as [[a|why]|X m a k IH]; intros d; simpl; [apply Hf | done |].
  intros H w Hd Ht. destruct (H w Hd Ht) as [Hs Hk]. auto.
Qed.

(** * Operations and their processes *)
Record Cut {A} (m : Go A) P (Q : A → DB → Prop) : Type := {
  pieces : Proc A;
  run_pieces : ∀ w, run pieces w = m w;
  pieces_guarantee : ∀ d, P d → guarantees pieces Q d;
}.
Arguments pieces {A m P Q} c.

Lemma wp_pieces {A} (m : Go A) P Q (c : Cut m P Q) w (Post : ret A → World → Prop) :
  wp m w Post → wp (run (pieces c)) w Post.
Proof. unfold wp. by rewrite (run_pieces _ _ _ c). Qed.

(** An action by itself. *)
Definition cut_action {A} (m : Go A) (a : action m) P Q
    (H : ∀ d w, P d → evolves d (w_db w) → db_typed (w_db w) →
       Lifecycle.sound (w_db w) (w_db (m w).2) ∧
       match (m w).1 with Ret x => Q x (w_db (m w).2) | Panics _ => True end) : Cut m P Q.
Proof.
  refine {| pieces := Act m a Done |}.
  - intros w. simpl. unfold eval. by destruct (m w).
  - intros d HP w Hd Ht. by apply (H d).
Defined.

Definition cut_ret {A} (a : A) P (Q : A → DB → Prop) (H : ∀ d, P d → Q a d) : Cut (mret a) P Q :=
  {| pieces := Done (Ret a); run_pieces := λ w, eq_refl; pieces_guarantee := H |}.

Definition cut_panic {A} why P (Q : A → DB → Prop) : Cut (panic why) P Q :=
  {| pieces := Done (Panics why); run_pieces := λ w, eq_refl; pieces_guarantee := λ d _, I |}.

Definition cut_eval {A} (r : ret A) P : Cut (eval r) P (λ a d, P d ∧ r = Ret a).
Proof.
  refine {| pieces := Done r; run_pieces := λ w, eq_refl |}. by destruct r.
Defined.

Definition cut_bind {A B} (m : Go A) (f : A → Go B) P R Q
    (cm : Cut m P R) (cf : ∀ a, Cut (f a) (R a) Q) : Cut (m ≫= f) P Q.
Proof.
  refine {| pieces := bindP (pieces cm) (λ a, pieces (cf a)) |}.
  - intros w. rewrite run_bindP. unfold bindM. rewrite (run_pieces _ _ _ cm).
    unfold mbind, M_bind, bindM. destruct (m w) as [[a|why] w']; [apply (run_pieces _ _ _ (cf a)) | done].
  - intros d HP. eapply guarantees_bind; [by apply (pieces_guarantee _ _ _ cm) |].
    intros a d' HR. by apply (pieces_guarantee _ _ _ (cf a)).
Defined.

(** The first part leaves what is known as it is. *)
Definition cut_then {A B} (m : Go A) (f : A → Go B) P Q
    (cm : Cut m P (λ _, P)) (cf : ∀ a, Cut (f a) P Q) : Cut (m ≫= f) P Q :=
  cut_bind m f P (λ _, P) Q cm cf.

Definition cut_conseq {A} (m : Go A) P P' (Q Q' : A → DB → Prop)
    (HP : ∀ d, P d → P' d) (HQ : ∀ a d, Q' a d → Q a d) (c : Cut m P' Q') : Cut m P Q.
Proof.
  refine {| pieces := pieces c; run_pieces := run_pieces _ _ _ c |}.
  intros d Hd. eapply guarantees_mono; [exact HQ |]. by apply (pieces_guarantee _ _ _ c), HP.
Defined.

(** An action that does not write the tables: its result is one it gives
    somewhere. *)
Definition gives {A} (m : Go A) (a : A) : Prop := ∃ w, (m w).1 = Ret a.

Lemma sound_same w w' : w_db w' = w_db w → db_typed (w_db w) → Lifecycle.sound (w_db w) (w_db w').
Proof. intros ->. by split. Qed.

Definition cut_event {A} (m : Go A) (a : action m) P (HP : stable P)
    (Hm : ∀ w, w_db (m w).2 = w_db w) : Cut m P (λ x d, P d ∧ gives m x).
Proof.
  apply cut_action; [exact a |]. intros d w Hd He Ht. split; [by apply sound_same |].
  destruct (m w) as [[x|why] w'] eqn:Hw; [| done]. specialize (Hm w). rewrite Hw in Hm. simpl in *.
  split; [rewrite Hm; by apply (HP d) |]. exists w. by rewrite Hw.
Defined.

(** A query gives what the tables were when it ran. *)
Definition read {A} (f : DB → A) (x : A) d : Prop := ∃ d0, db_typed d0 ∧ evolves d0 d ∧ x = f d0.

Lemma read_stable {A} (f : DB → A) x : stable (read f x).
Proof. intros d d' Hd (d0 & Ht & H0 & ->). exists d0. split_and!; [done | by etrans | done]. Qed.

Definition cut_query {A} (f : DB → A) P (HP : stable P) :
  Cut (db_query f) P (λ r d, P d ∧ ∀ x, r = Val x → read f x d).
Proof.
  apply cut_action; [apply act_query |]. intros d w Hd He Ht. unfold db_query, mbind, M_bind, bindM, call.
  simpl. destruct (fault (w_tick w)) as [e|]; simpl.
  - split; [by apply sound_same |]. split; [by apply (HP d) | done].
  - split; [by apply sound_same |]. split; [by apply (HP d) |]. intros x [= <-]. exists (w_db w).
    by split_and!.
Defined.

(** An action that writes them. *)
Definition cut_write {A} (m : Go A) (a : action m) P (HP : stable P)
    (Hm : ∀ w, P (w_db w) → db_typed (w_db w) →
       wp m w (λ _ w', Lifecycle.sound (w_db w) (w_db w'))) : Cut m P (λ _, P).
Proof.
  apply cut_action; [exact a |]. intros d w Hd He Ht. apply (HP _ _ He) in Hd.
  pose proof (Hm w Hd Ht) as Hs. unfold wp in Hs. split; [done |].
  destruct (m w) as [[x|why] w']; [| done]. by apply (HP (w_db w)); [destruct Hs |].
Defined.

(** ** What does not write the tables *)
Record silent {A} (m : Go A) : Prop := {
  si_action : action m;
  si_frame : ∀ w, w_db (m w).2 = w_db w;
}.

Definition cut_silent {A} (m : Go A) (Hm : silent m) P (HP : stable P) :
  Cut m P (λ x d, P d ∧ gives m x) := cut_event m (si_action m Hm) P HP (si_frame m Hm).

Definition cut_skip {A} (m : Go A) (Hm : silent m) P (HP : stable P) : Cut m P (λ _, P).
Proof. refine (cut_conseq _ _ _ _ _ _ _ (cut_silent m Hm P HP)); [done | by intros a d []]. Defined.

Definition cut_query_skip {A} (f : DB → A) P (HP : stable P) : Cut (db_query f) P (λ _, P).
Proof. refine (cut_conseq _ _ _ _ _ _ _ (cut_query f P HP)); [done | by intros a d []]. Defined.

Definition cut_eval_skip {A} (r : ret A) P : Cut (eval r) P (λ _, P).
Proof. refine (cut_conseq _ _ _ _ _ _ _ (cut_eval r P)); [done | by intros a d []]. Defined.

Ltac silent_calls :=
  intros w; simpl; unfold mbind, M_bind, bindM, call, get, modify, mret, M_ret; simpl;
  repeat (case_match; simpl); done.

Lemma silent_call : silent call.
Proof. split; [apply act_call | done]. Qed.
Lemma silent_Now : silent Now.
Proof. split; [apply act_Now | done]. Qed.
Lemma silent_NewTimestamp : silent NewTimestamp.
Proof. apply silent_Now. Qed.
Lemma silent_ulid : silent (λ w, (Ret (Val (ulid_at (w_tick w))), tick w)).
Proof. split; [apply act_ulid | done]. Qed.
Lemma silent_rand n : silent (λ w, (Ret (Val (rand_at (w_tick w) n)), tick w)).
Proof. split; [apply act_rand | done]. Qed.
Lemma silent_bcrypt p : silent (λ w, (Ret (Val (bcrypt_at (w_tick w) p)), tick w)).
Proof. split; [apply act_bcrypt | done]. Qed.
Lemma silent_EnsureDir path : silent (EnsureDir path).
Proof. split; [apply act_EnsureDir |]. unfold EnsureDir. silent_calls. Qed.
Lemma silent_Create path : silent (os_Create path).
Proof. split; [apply act_Create |]. unfold os_Create. silent_calls. Qed.
Lemma silent_Open path : silent (os_Open path).
Proof. split; [apply act_Open |]. unfold os_Open. silent_calls. Qed.
Lemma silent_Remove path : silent (os_Remove path).
Proof. split; [apply act_Remove |]. unfold os_Remove. silent_calls. Qed.
Lemma silent_Copy r : silent (io_Copy r).
Proof. split; [apply act_Copy |]. unfold io_Copy. silent_calls. Qed.
Lemma silent_Write path data : silent (modify (λ w, world_with_fs (<[path := data]> (w_fs w)) w)).
Proof. split; [apply act_Write | done]. Qed.
Lemma silent_Get key : silent (cache_Get key).
Proof. split; [apply act_Get |]. unfold cache_Get. silent_calls. Qed.
Lemma silent_SetEx key data : silent (cache_SetEx key data).
Proof. split; [apply act_SetEx |]. unfold cache_SetEx. silent_calls. Qed.
Lemma silent_EnqueueMsg (Q : Queuer) {QO : QueuerOk Q} p x : silent (EnqueueMsg p x).
Proof.
  split; [apply act_EnqueueMsg |]. intros w. change (wp (EnqueueMsg p x) w (λ _ w', w_db w' = w_db w)).
  apply wp_EnqueueMsg; [by intros e w' ->%later_db |]. by intros w' (_ & -> & _) _.
Qed.

(** ** Stability *)
Lemma stable_pure (φ : Prop) : stable (λ _, φ).
Proof. by intros d d' _. Qed.
Lemma stable_and P1 P2 : stable P1 → stable P2 → stable (λ d, P1 d ∧ P2 d).
Proof. intros H1 H2 d d' Hd [? ?]. split; [by eapply H1 | by eapply H2]. Qed.
Lemma stable_all {A} (F : A → DB → Prop) : (∀ a, stable (F a)) → stable (λ d, ∀ a, F a d).
Proof. intros H d d' Hd HF a. by eapply H. Qed.
Lemma stable_impl (φ : Prop) P : (φ → stable P) → stable (λ d, φ → P d).
Proof. intros H d d' Hd HF Hφ. by eapply H, HF. Qed.
Lemma stable_row id : stable (λ d, ∃ m, m ∈ db_file_metadatas d ∧ fm_ID m = id).
Proof.
  intros d d' [Hr _ _ _] (m & Hm & <-). destruct (extends_elem _ _ _ _ Hr Hm) as (m' & Hm' & HR).
  exists m'. split; [done |]. by destruct (row_evolves_identity _ _ HR) as (-> & _).
Qed.
Lemma stable_owned file user : stable (λ d, owned d file user).
Proof. intros d d' [Hr _ _ _]. by apply owned_evolves. Qed.

End actions.
Arguments pieces {E OS A m P Q} c.

Create HintDb cut.
#[export] Hint Resolve silent_call silent_Now silent_NewTimestamp silent_ulid silent_rand silent_bcrypt
  silent_EnsureDir silent_Create silent_Open silent_Remove silent_Copy silent_Write silent_Get
  silent_SetEx silent_EnqueueMsg : cut.
#[export] Hint Resolve stable_pure stable_and stable_all stable_impl stable_row stable_owned read_stable : cut.
#[export] Hint Resolve cut_skip cut_query cut_query_skip cut_eval_skip : cut.

(** What is known when an operation returns. *)
Ltac cut_post :=
  intros; destruct_and?; split_and?;
  first [done | by intros ? ?%elem_of_nil | by intros ? [= <-] | by intros ? [=] | by simplify_eq | by eauto].

(** One step of an operation: its first part, a branch, a result. *)
Ltac cut_step :=
  cbv beta iota zeta;
  lazymatch goal with
  | |- Cut (mbind _ _) _ _ => refine (cut_then _ _ _ _ _ _)
  | |- Cut (bindM _ _) _ _ => refine (cut_then _ _ _ _ _ _)
  | |- Cut (mret _) _ _ => refine (cut_ret _ _ _ _); solve [cut_post]
  | |- Cut (panic _) _ _ => apply cut_panic
  | |- Cut (match ?x with _ => _ end) _ _ => destruct x
  | |- ∀ _, Cut _ _ _ => intro
  | |- Cut _ _ _ => solve [eauto 4 with cut]
  end.
Ltac cut_go := repeat cut_step.
