(* ===== verification/Cuts.v ===== *)
(** The operations of the services and their handlers cut into the actions of
    Action.v, each with what it guarantees whatever runs in between. *)
From S2P Require Import Prelude GoStd Api Model World Squirtle Queries.
From S2P Require Import Tokens FilesRepo Queue Gob FilesInfo FilesService Blob.
From S2P Require Import Transfer Reconstruct Changelog Users Auth Proc Routes Lifecycle Action.

Section events.
Context `{E : Env} {EO : EnvOk E} `{MR : MapRange} `{SG : SliceGrowth} `{OS : OsEnv} `{EC : Echo}.
Context (P : DB → Prop) (HP : stable P).

#[local] Hint Resolve HP : cut.

(** * core/tokens *)

Definition cut_NewID : Cut NewID P (λ _, P).
Proof. unfold NewID. cut_go. Defined.

Definition cut_GenerateToken n : Cut (GenerateToken n) P (λ _, P).
Proof. unfold GenerateToken, RandRead. cut_go. Defined.
#[local] Hint Resolve cut_NewID cut_GenerateToken : cut.

(** What a new token says does not depend on the draws and the clock. *)
Record token_for (id ty : string) (user : option string) (t : Token) : Prop := {
  tf_resource : tok_ResourceID t = id;
  tf_type : tok_ResouceType t = ToLower ty;
  tf_user : tok_UserID t = user;
}.

Definition cut_NewToken id ty user opts
    (Hopts : ∀ t, Cut (apply_opts opts t) (λ d, P d ∧ token_for id ty None t)
       (λ t d, P d ∧ token_for id ty user t)) :
  Cut (NewToken id ty opts) P (λ r d, P d ∧ ∀ t, r = Val t → token_for id ty user t).
Proof.
  unfold NewToken. cbv zeta. destruct (negb _); [cut_go |].
  cut_step; [cut_go |]. intros [access|e]; [| cut_go].
  cut_step; [cut_go |]. intros [refresh|e]; [| cut_go].
  cut_step; [cut_go |]. intros now. cut_step; [cut_go |]. intros created.
  refine (cut_bind _ _ _ (λ t d, P d ∧ token_for id ty user t) _ _ _); [| cut_go].
  by refine (cut_conseq _ _ _ _ _ _ (λ _ _ H, H) (Hopts _)).
Defined.

(** The options in the two orders of the source. *)
Definition cut_expiry_user id ty user t :
  Cut (apply_opts [WithDefaultExpiry; WithUserID user] t) (λ d, P d ∧ token_for id ty None t)
    (λ t d, P d ∧ token_for id ty user t).
Proof.
  unfold apply_opts, WithDefaultExpiry, WithUserID.
  refine (cut_bind _ _ _ (λ t d, P d ∧ token_for id ty None t) _ _ _).
  - cut_step; [cut_go |]. intros now. refine (cut_ret _ _ _ _). intros d [Hd []]. by split.
  - intros t'. refine (cut_bind _ _ _ (λ t d, P d ∧ token_for id ty user t) _ _ _); [| cut_go].
    refine (cut_ret _ _ _ _). intros d [Hd []]. by split.
Defined.

Definition cut_user_expiry id ty user t :
  Cut (apply_opts [WithUserID user; WithDefaultExpiry] t) (λ d, P d ∧ token_for id ty None t)
    (λ t d, P d ∧ token_for id ty user t).
Proof.
  unfold apply_opts, WithDefaultExpiry, WithUserID.
  refine (cut_bind _ _ _ (λ t d, P d ∧ token_for id ty user t) _ _ _).
  - refine (cut_ret _ _ _ _). intros d [Hd []]. by split.
  - intros t'. refine (cut_bind _ _ _ (λ t d, P d ∧ token_for id ty user t) _ _ _); [| cut_go].
    cut_step; [cut_go |]. intros now. refine (cut_ret _ _ _ _). intros d [Hd []]. by split.
Defined.

(** Every row scanned is one of those there were. *)
Definition cut_rows_loop {A} (rows : list A) :
  Cut (rows_loop rows) P (λ l d, P d ∧ ∀ x, Val x ∈ l → x ∈ rows).
Proof.
  induction rows as [|x rows IH]; cbn [rows_loop].
  - cut_go.
  - cut_step; [cut_go |]. intros [e|]; [cut_go |].
    cut_step; [cut_go |]. intros err. refine (cut_bind _ _ _ _ _ IH _). intros l. refine (cut_ret _ _ _ _).
    intros d [Hd Hl]. split; [done |]. intros y [Hy|Hy]%elem_of_cons; [| right; auto].
    destruct err; [done |]. injection Hy as ->. by left.
Defined.

Definition cut_rows_scan {A} (rows : list A) : Cut (rows_scan rows) P (λ _, P).
Proof. induction rows as [|x rows IH]; cbn [rows_scan]; cut_go. Defined.

(** A clock that reads some instant. *)
Definition cut_HasAccessExpired t :
  Cut (HasAccessExpired t) P (λ b d, P d ∧ ∃ n, b = Before (tok_AccessExpiresAt t) (now_at n)).
Proof.
  unfold HasAccessExpired. refine (cut_bind _ _ _ _ _ (cut_silent Now silent_Now P HP) _).
  intros now. refine (cut_ret _ _ _ _). intros d (Hd & w & [= <-]). split; [done |]. by exists (w_tick w).
Defined.

(** The zero token, which stands for no row, has always expired. *)
Definition cut_scan_token rows :
  Cut (scan_token rows) P (λ r d, P d ∧ ∀ t, r = Val t → t ∈ rows).
Proof.
  unfold scan_token. refine (cut_bind _ _ _ _ _ (cut_rows_loop rows) _). intros l.
  destruct (last l) as [[t|e]|] eqn:Hl.
  - refine (cut_bind _ _ _ (λ _ d, P d ∧ t ∈ rows) _ _ _).
    + refine (cut_conseq _ _ (λ d, P d ∧ t ∈ rows) _ _ _ (λ _ _ H, H) _).
      * intros d [Hd Hin]. split; [done |]. apply Hin. by apply last_Some_elem_of.
      * unfold HasAccessExpired. cut_go.
    + intros [|]; cut_go.
  - cut_go.
  - refine (cut_conseq _ _ P _ _ _ (λ _ _ H, H) _); [by intros d [] |].
    refine (cut_bind _ _ _ _ _ (cut_HasAccessExpired zero_token) _). intros b. refine (cut_ret _ _ _ _).
    intros d (Hd & n & ->). split; [done |]. pose proof (now_after_zero n). unfold Before, zero_time in *.
    by rewrite bool_decide_true.
Defined.
End events.

#[export] Hint Resolve cut_NewID cut_GenerateToken cut_rows_scan : cut.

Section reading.
Context `{E : Env} {EO : EnvOk E} `{MR : MapRange} `{SG : SliceGrowth} `{OS : OsEnv} `{EC : Echo}.
Context (P : DB → Prop) (HP : stable P).

#[local] Hint Resolve HP : cut.

(** A stream token that is found is a row for its file and user. *)
Definition cut_FindByStreamToken querier clause :
  Cut (FindByStreamToken querier clause) P (λ r d, P d ∧
    ∀ t, r = Val t → ∃ d0, db_typed d0 ∧ evolves d0 d ∧ t ∈ db_tokens d0 ∧
      stream_token_row (fbc_StreamToken clause) (fbc_ResourceID clause) (fbc_UserID clause) "stream" t).
Proof.
  unfold FindByStreamToken. destruct (GetQuery _ _); [| cut_go]. destruct (bind_named _ _); [cut_go |].
  refine (cut_bind _ _ _ _ _ (cut_query _ _ HP) _). intros [rows|e]; [| cut_go].
  refine (cut_conseq _ _ _ _ _ (λ d H, H) _ (cut_scan_token _ _ rows)); [| auto with cut].
  intros r d [[Hd Hrows] Ht]. split; [done |]. intros t ->.
  destruct (Hrows rows eq_refl) as (d0 & H0 & Hev & ->). exists d0.
  specialize (Ht t eq_refl). by apply elem_of_sql_GetStreamToken in Ht as [? ?].
Defined.

Definition cut_findByTestMode boot clause : Cut (findByTestMode boot clause) P (λ _, P).
Proof. unfold findByTestMode, test_mode_loop, IsExpired, HasAccessExpired. cut_go. Defined.

(** * core/files *)

Definition cut_FindBy mq clauses :
  Cut (MetadataRepository_FindBy mq clauses) P
    (λ r d, P d ∧ ∀ rows, r = Val rows → read (sql_FindBy clauses) rows d).
Proof. unfold MetadataRepository_FindBy. cut_go. Defined.

Definition cut_FindByHash mq hash : Cut (MetadataRepository_FindByHash mq hash) P (λ _, P).
Proof. unfold MetadataRepository_FindByHash. cut_go. Defined.

Definition cut_SelectFiles mq ids :
  Cut (MetadataRepository_SelectFiles mq ids) P
    (λ r d, P d ∧ ∀ rows, r = Val rows → read (sql_SelectFilesForUser ids) rows d).
Proof. unfold MetadataRepository_SelectFiles. cut_go. Defined.

Definition cut_ListByUserID mq user p : Cut (MetadataRepository_ListByUserID mq user p) P (λ _, P).
Proof. unfold MetadataRepository_ListByUserID. cut_go. Defined.

End reading.

#[export] Hint Resolve cut_findByTestMode cut_FindByHash cut_ListByUserID : cut.

Section handlers.
Context `{E : Env} {EO : EnvOk E} `{MR : MapRange} `{SG : SliceGrowth} `{OS : OsEnv} `{EC : Echo}.
Context (P : DB → Prop) (HP : stable P).

#[local] Hint Resolve HP : cut.

Definition cut_FindBy_skip mq clauses : Cut (MetadataRepository_FindBy mq clauses) P (λ _, P).
Proof. refine (cut_conseq _ _ _ _ _ (λ d H, H) _ (cut_FindBy P HP mq clauses)). by intros r d []. Defined.

Definition cut_SelectFiles_skip mq ids : Cut (MetadataRepository_SelectFiles mq ids) P (λ _, P).
Proof. refine (cut_conseq _ _ _ _ _ (λ d H, H) _ (cut_SelectFiles P HP mq ids)). by intros r d []. Defined.
#[local] Hint Resolve cut_FindBy_skip cut_SelectFiles_skip : cut.

Definition cut_ListOrderedFileChunks mq file user : Cut (ListOrderedFileChunks mq file user) P (λ _, P).
Proof. unfold ListOrderedFileChunks. cut_go. Defined.

Definition cut_GetFileChunks mq file : Cut (GetFileChunks mq file) P (λ _, P).
Proof. unfold GetFileChunks. cut_go. Defined.

Definition cut_ListFilesForUser mq user p : Cut (ListFilesForUser mq user p) P (λ _, P).
Proof. unfold ListFilesForUser. cut_go. Defined.

Definition cut_MarkUploadComplete (Q : Queuer) {QO : QueuerOk Q} `{GC : Gob CacheMetadata} mq ufd :
  Cut (MarkUploadComplete (Q := Q) mq ufd) P (λ _, P).
Proof. unfold MarkUploadComplete. cut_go. Defined.

Definition cut_download_loop buffer paths : Cut (download_loop buffer paths) P (λ _, P).
Proof. revert buffer. induction paths as [|p paths IH]; intros buffer; cbn [download_loop]; cut_go. Defined.

Definition cut_copy_loop buffer paths : Cut (copy_loop buffer paths) P (λ _, P).
Proof. revert buffer. induction paths as [|p paths IH]; intros buffer; cbn [copy_loop]; cut_go. Defined.
#[local] Hint Resolve cut_ListOrderedFileChunks cut_GetFileChunks cut_ListFilesForUser
  cut_MarkUploadComplete cut_download_loop cut_copy_loop : cut.

Definition cut_send_file {D} cwd name buffer : Cut (send_file (D := D) cwd name buffer) P (λ _, P).
Proof. unfold send_file. cut_go. Defined.

Definition cut_reply_error {D} (resp : Response D) : Cut (reply_error resp) P (λ _, P).
Proof. unfold reply_error. cut_go. Defined.
#[local] Hint Resolve cut_send_file cut_reply_error : cut.

Definition cut_reply {D} ok (resp : Response D) : Cut (reply ok resp) P (λ _, P).
Proof. unfold reply. cut_go. Defined.
#[local] Hint Resolve cut_reply : cut.

Definition cut_DownloadFile mq cwd c : Cut (DownloadFile mq cwd c) P (λ _, P).
Proof. unfold DownloadFile. cut_go. Defined.

Definition cut_DownloadFileV2 mq cwd c : Cut (DownloadFileV2 mq cwd c) P (λ _, P).
Proof. unfold DownloadFileV2, Download. cut_go. Defined.

Definition cut_MetadataHandler_GetFileChunks mq c : Cut (MetadataHandler_GetFileChunks mq c) P (λ _, P).
Proof. unfold MetadataHandler_GetFileChunks. cut_go. Defined.

Definition cut_ListFilesWithMetadata mq c : Cut (ListFilesWithMetadata mq c) P (λ _, P).
Proof. unfold ListFilesWithMetadata. cut_go. Defined.

Definition cut_ShareFile c : Cut (ShareFile c) P (λ _, P).
Proof. unfold ShareFile. cut_go. Defined.

Definition cut_MetadataHandler_MarkUploadComplete (Q : Queuer) {QO : QueuerOk Q}
    `{GC : Gob CacheMetadata} mq c :
  Cut (MetadataHandler_MarkUploadComplete (Q := Q) mq c) P (λ _, P).
Proof. unfold MetadataHandler_MarkUploadComplete. cut_go. Defined.

(** * web/middlewares *)

Definition cut_ValidateAccessToken {D} boot tq (next : HandlerFunc D) c
    (Hn : ∀ token, Cut (next (set_token token c)) P (λ _, P)) :
  Cut (ValidateAccessToken boot tq next c) P (λ _, P).
Proof. unfold ValidateAccessToken, FindByAccessToken. cbn [fbc_TestMode]. cut_go. Defined.

Definition cut_AddTokenFromUrlToHeader {D} (next : HandlerFunc D) c
    (Hn : ∀ c', Cut (next c') P (λ _, P)) : Cut (AddTokenFromUrlToHeader next c) P (λ _, P).
Proof. unfold AddTokenFromUrlToHeader. cut_go. Defined.

(** The handler knows that the file it is for belongs to the user of its token. *)
Definition cut_ValidateStreamToken {D} boot tq (next : HandlerFunc D) c
    (Hn : ∀ token, Cut (next (set_token token c))
       (λ d, P d ∧ owned d (tok_ResourceID token) (tok_UserID token)) (λ _, P)) :
  Cut (ValidateStreamToken boot tq next c) P (λ _, P).
Proof.
  unfold ValidateStreamToken. cbv zeta. cut_step; [cut_go |]. destruct (getBearerToken _); [| cut_go].
  destruct (getBearerToken _); [| cut_go].
  refine (cut_bind _ _ _ _ _ (cut_FindByStreamToken P HP _ _) _). intros [token|e]; [| cut_go].
  refine (cut_conseq _ _ _ _ _ _ (λ _ _ H, H) (Hn _)). intros d [Hd Htok]. split; [done |].
  destruct (Htok token eq_refl) as (d0 & H0 & Hev & Hin & (_ & _ & _ & _ & Hty)).
  eapply stable_owned; [exact Hev |]. by apply (dt_token d0 H0 token).
Defined.

End handlers.

#[export] Hint Resolve cut_FindBy_skip cut_SelectFiles_skip cut_reply cut_reply_error : cut.

Section writing.
Context `{E : Env} {EO : EnvOk E} `{MR : MapRange} `{SG : SliceGrowth} `{OS : OsEnv} `{EC : Echo}.
Context (P : DB → Prop) (HP : stable P).

#[local] Hint Resolve HP : cut.

(** A row that is being uploaded, with its token. *)
Definition cut_CreateMetadataToken mq tq m t
    (H : ∀ d, P d → phase_of m = Some Uploading ∧ token_for (fm_ID m) ResourceTypeStream (Some (fm_UserID m)) t ∧
       ∀ p, fm_PrevID m = Some p → ∃ m', m' ∈ db_file_metadatas d ∧ fm_ID m' = p) :
  Cut (CreateMetadataToken mq tq m t) P (λ _, P).
Proof.
  apply cut_write; [apply act_CreateMetadataToken | auto with cut |]. intros w Hw Ht.
  destruct (H _ Hw) as (Hm & [Hr _ Hu] & Hp). apply wp_CreateMetadataToken.
  - intros e w' ->%later_db _. by split.
  - intros w' ->%later_db. by apply sound_announce.
Defined.

Definition cut_Update mq prev id status (H : ∀ d, P d → final_status status) :
  Cut (MetadataRepository_Update mq prev id status) P (λ _, P).
Proof.
  apply cut_write; [apply act_Update | auto with cut |]. intros w Hw Ht.
  apply (wp_Update_sound (w_db w)); [by eapply H | by split].
Defined.

Definition cut_CreateBatch cq chunks
    (H : ∀ d, P d → ∀ uf, uf ∈ chunks → owned d (uf_FileID uf) (Some (uf_UserID uf))) :
  Cut (UserFileRepository_CreateBatch cq chunks) P (λ _, P).
Proof.
  apply cut_write; [apply act_CreateBatch | auto with cut |]. intros w Hw Ht. apply wp_CreateBatch.
  - intros e w' ->%later_db _. by split.
  - intros w' _ ->%later_db. apply sound_chunks; [by apply H | by split].
Defined.

Definition cut_exec f (H : ∀ d, P d → db_typed d → Lifecycle.sound d (f d)) :
  Cut (db_exec f) P (λ _, P).
Proof.
  apply cut_write; [apply act_exec | auto with cut |]. intros w Hw Ht. unfold db_exec.
  wp_step. apply wp_call. destruct (fault (w_tick w)); [apply wp_ret; by split |]. by apply H.
Defined.

Definition cut_UserFileRepository_Create cq uf
    (H : ∀ d, P d → owned d (uf_FileID uf) (Some (uf_UserID uf))) :
  Cut (UserFileRepository_Create cq uf) P (λ _, P).
Proof.
  unfold UserFileRepository_Create. cut_step; [| cut_go]. cut_step; [| cut_go].
  apply cut_exec. intros d Hd Ht. apply (sound_chunks d [uf]); [| by split].
  intros uf' ->%list_elem_of_singleton. by apply H.
Defined.

End writing.

(** What is known may be forgotten at the end. *)
Definition cut_forget `{E : Env} `{OS : OsEnv} {A} (m : Go A) (P : DB → Prop) (F : DB → Prop)
    (c : Cut m (λ d, P d ∧ F d) (λ _ d, P d ∧ F d)) : Cut m (λ d, P d ∧ F d) (λ _, P).
Proof. refine (cut_conseq _ _ _ _ _ (λ d H, H) _ c). by intros a d []. Defined.

Section operations.
Context `{E : Env} {EO : EnvOk E} `{MR : MapRange} `{SG : SliceGrowth} `{OS : OsEnv} `{EC : Echo}.
Context (P : DB → Prop) (HP : stable P).

#[local] Hint Resolve HP : cut.

Definition cut_CreateSession querier id user :
  Cut (CreateSession querier id ResourceTypeUser user) P (λ _, P).
Proof.
  unfold CreateSession. refine (cut_bind _ _ _ _ _ (cut_NewToken P HP _ _ _ _ (cut_user_expiry P HP _ _ _)) _).
  intros [token|e]; [| cut_go]. destruct (GetQuery _ _); [| cut_go].
  apply cut_forget. cut_step; [| cut_go]. apply cut_exec; [auto with cut |].
  intros d [_ Htok] Ht. apply sound_token; [| by split]. by rewrite (tf_type _ _ _ _ (Htok token eq_refl)).
Defined.

Definition cut_UserService_Create boot querier email password :
  Cut (UserService_Create boot querier email password) P (λ _, P).
Proof.
  assert (Hexec : ∀ user, Cut (exec_CreateUser user) P (λ _, P)).
  { intros user. apply cut_write; [apply act_CreateUser | auto with cut |]. intros w Hw Ht.
    unfold exec_CreateUser. wp_go; try (by split). by eapply sound_user. }
  unfold UserService_Create, NewUser, HashPassword. cut_go.
Defined.

(** Announcing a new file. *)
Definition cut_PrepareFileForUpload mq tq req (Hs : mr_UploadStatus req = StatusUploading) :
  Cut (PrepareFileForUpload mq tq req) P (λ _, P).
Proof.
  unfold PrepareFileForUpload. cbv zeta. cut_step; [cut_go |]. intros [dup [e|]]; cbn [snd]; [cut_go |].
  cut_step; [cut_go |]. intros [id|e]; [| cut_go]. cut_step; [cut_go |]. cut_step; [cut_go |].
  intros created.
  refine (cut_bind _ _ _ _ _ (cut_NewToken P HP _ _ _ _ (cut_expiry_user P HP _ _ _)) _).
  intros [token|e]; [| cut_go]. apply cut_forget. cut_step; [| cut_go].
  apply cut_CreateMetadataToken; [auto with cut |]. intros d [Hd Ht].
  split_and!; [| by apply Ht | done]. unfold phase_of. cbn. by rewrite Hs.
Defined.

(** Announcing a new version: the previous one was in the table, so it is. *)
Definition cut_UpdateFileMetadata mq tq req : Cut (UpdateFileMetadata mq tq req) P (λ _, P).
Proof.
  unfold UpdateFileMetadata. cbv zeta. cut_step; [cut_go |].
  refine (cut_bind _ _ _ _ _ (cut_FindBy P HP _ _) _). intros [[|prev l]|e]; [cut_go | | cut_go].
  set (known := λ d, ∃ m, m ∈ db_file_metadatas d ∧ fm_ID m = fur_FileID req).
  assert (Hk : stable known) by apply stable_row.
  refine (cut_conseq _ _ (λ d, P d ∧ known d) _ _ _ (λ _ _ H, H) _).
  { intros d [Hd Hfind]. split; [done |]. destruct (Hfind _ eq_refl) as (d0 & H0 & Hev & Hrows).
    eapply Hk; [exact Hev |]. exists prev. apply elem_of_FindBy_id. rewrite <- Hrows. by left. }
  apply cut_forget. cut_step; [cut_go |]. intros [id|e]; [| cut_go]. cut_step; [cut_go |].
  cut_step; [cut_go |]. intros created.
  refine (cut_bind _ _ _ _ _ (cut_NewToken _ _ _ _ _ _ (cut_expiry_user _ _ _ _ _)) _); [auto with cut.. |].
  intros [token|e]; [| cut_go]. apply cut_forget. cut_step; [| cut_go].
  apply cut_CreateMetadataToken; [auto with cut |]. intros d [[Hd Hm] Ht].
  split_and!; [done | by apply Ht | by intros p [= <-]].
Defined.

(** * Chunks *)

Definition cut_ValidateHash digest data : Cut (ValidateHash digest data) P (λ _, P).
Proof. unfold ValidateHash. cut_go. Defined.

Definition cut_SeekStart r : Cut (SeekStart r) P (λ _, P).
Proof. unfold SeekStart. cut_go. Defined.
#[local] Hint Resolve cut_ValidateHash cut_SeekStart : cut.

Definition cut_UpdateChunk dir file chunk : Cut (UpdateChunk dir file chunk) P (λ _, P).
Proof. unfold UpdateChunk. cut_go. Defined.
#[local] Hint Resolve cut_UpdateChunk : cut.

Definition cut_FileChunkService_Create dir cq req
    (H : ∀ d, P d → owned d (fcr_FileID req) (Some (fcr_UserID req))) :
  Cut (FileChunkService_Create dir cq req) P (λ _, P).
Proof.
  unfold FileChunkService_Create. cut_step; [cut_go |]. intros [data [e|]]; [cut_go |].
  destruct (Atoi _) as [id [e|]]; [cut_go |]. destruct (ParseInt _) as [next [e|]]; [cut_go |].
  cut_step; [cut_go |]. intros [path|e]; [| cut_go]. cut_step; [cut_go |]. intros created. cbv zeta.
  cut_step; [| cut_go]. by apply cut_UserFileRepository_Create.
Defined.

(** * The worker *)

Definition cut_filler_loop this entries :
  Cut (filler_loop this entries) P
    (λ added d, P d ∧ Forall (λ uf, uf_FileID uf = fir_ID this ∧ uf_UserID uf = fir_UserID this) added).
Proof.
  induction entries as [|[k c] entries IH]; cbn [filler_loop].
  - refine (cut_ret _ _ _ _). intros d Hd. by split.
  - cut_step; [cut_go |]. intros now. refine (cut_bind _ _ _ _ _ IH _). intros chunks.
    refine (cut_ret _ _ _ _). intros d [Hd Hc]. split; [done |]. by constructor.
Defined.

End operations.

#[export] Hint Resolve cut_CreateSession cut_UserService_Create cut_UpdateFileMetadata : cut.

Section completing.
Context `{E : Env} {EO : EnvOk E} `{MR : MapRange} `{SG : SliceGrowth} `{OS : OsEnv} `{EC : Echo}.
Context (P : DB → Prop) (HP : stable P).

#[local] Hint Resolve HP : cut.

(** The rows taken over belong to the owner of the new version. *)
Definition cut_complete_version mq cq this prev updPrev updNew
    (H : ∀ d, P d → owned d (fir_ID this) (Some (fir_UserID this))) :
  Cut (complete_version mq cq this prev updPrev updNew) P (λ _, P).
Proof.
  unfold complete_version. cbv zeta. cut_step.
  { apply cut_Update; [auto with cut |]. intros d _. by left. }
  refine (cut_bind _ _ _ _ _ (cut_filler_loop P HP _ _) _). intros chunks. apply cut_forget. cut_step.
  - cut_step; [| cut_go]. apply cut_CreateBatch; [auto with cut |]. intros d [Hd Hc] uf Huf.
    rewrite Forall_forall in Hc. destruct (Hc uf Huf) as [-> ->]. rewrite ReconstructChunks_eq. by apply H.
  - intros err. apply cut_Update; [auto with cut |]. intros d _. destruct err; [by right | by left].
Defined.

End completing.

Section worker.
Context `{E : Env} {EO : EnvOk E} `{MR : MapRange} `{SG : SliceGrowth} `{OS : OsEnv} `{EC : Echo}.
Context (P : DB → Prop) (HP : stable P).

#[local] Hint Resolve HP : cut.

(** The rows of the two versions, as they were when they were read. *)
Definition cut_merge_versions mq cq id0 id1 prev new :
  Cut (merge_versions mq cq id0 id1 prev new) P (λ _, P).
Proof.
  unfold merge_versions. refine (cut_bind _ _ _ _ _ (cut_SelectFiles P HP _ _) _). intros [rows|e]; [| cut_go].
  refine (cut_bind _ _ _ _ _ (cut_eval _ _) _). intros [|r0 [|r1 l]]; [cut_go.. |].
  set (known := λ d, owned d (fir_ID r0) (Some (fir_UserID r0)) ∧ owned d (fir_ID r1) (Some (fir_UserID r1))).
  assert (Hk : stable known) by (unfold known; auto with cut).
  refine (cut_conseq _ _ (λ d, P d ∧ known d) _ _ _ (λ _ _ H, H) _).
  { intros d [[Hd Hrows] Hb]. split; [done |]. destruct (Hrows rows eq_refl) as (d0 & H0 & Hev & ->).
    rewrite build_rows in Hb. injection Hb as Hb. apply (Hk d0); [done |].
    assert (Hown : ∀ r, r ∈ r0 :: r1 :: l → owned d0 (fir_ID r) (Some (fir_UserID r))).
    { intros r. rewrite <- Hb. intros (m & Hm & Hid & Hu & _)%group_user. exists m. by rewrite Hu. }
    split; apply Hown; [by left | by right; left]. }
  apply cut_forget. destruct (decide (fir_ID r0 = id0)).
  all: apply cut_complete_version; [auto with cut |]; by intros d [_ []].
Defined.

Definition cut_ExecuteEach mq cq data : Cut (ExecuteEach mq cq data) P (λ _, P).
Proof.
  unfold ExecuteEach. cut_step; [apply cut_merge_versions |].
  apply cut_Update; [auto with cut |]. intros d _. by left.
Defined.
#[local] Hint Resolve cut_ExecuteEach : cut.

Definition cut_Execute (Q : Queuer) {QO : QueuerOk Q} `{GC : Gob CacheMetadata}
    `{GE : Gob MetadataUpdateStatusEvent} mq cq payloads :
  Cut (Execute (Q := Q) mq cq payloads) P (λ _, P).
Proof.
  assert (Hloop : Cut (execute_loop mq cq payloads) P (λ _, P)).
  { induction payloads as [|p payloads IH]; cbn [execute_loop]; cut_go. }
  assert (Hnotify : ∀ ps, Cut (notify_loop (Q := Q) ps) P (λ _, P)).
  { intros ps. induction ps as [|[p|] ps IH]; cbn [notify_loop]; cut_go. }
  unfold Execute, Notify. cut_go.
Defined.

Definition cut_ManualChunkMetadataReconciler mq cq :
  Cut (ManualChunkMetadataReconciler mq cq) P (λ _, P).
Proof. apply cut_merge_versions. Defined.

End worker.

#[export] Hint Resolve cut_Execute cut_ManualChunkMetadataReconciler : cut.

(** * The routes *)
Section routes.
Context `{E : Env} {EO : EnvOk E} `{MR : MapRange} `{SG : SliceGrowth} `{OS : OsEnv} `{EC : Echo}.
Context (P : DB → Prop) (HP : stable P).

#[local] Hint Resolve HP : cut.

Definition cut_post_file mq tq boot c : Cut (post_file mq tq boot c) P (λ _, P).
Proof.
  apply cut_ValidateAccessToken; [auto with cut |]. intros token. unfold PostFileMetadata.
  cut_step; [| cut_go]. cbn [rq_token set_token]. cut_step; [| cut_go].
  by apply cut_PrepareFileForUpload.
Defined.

Definition cut_patch_file mq tq boot c : Cut (patch_file mq tq boot c) P (λ _, P).
Proof.
  apply cut_ValidateAccessToken; [auto with cut |]. intros token.
  unfold MetadataHandler_UpdateFileMetadata. cut_go.
Defined.

Definition cut_get_file mq tq boot c : Cut (get_file mq tq boot c) P (λ _, P).
Proof.
  apply cut_ValidateAccessToken; [auto with cut |]. intros token.
  by apply cut_MetadataHandler_GetFileChunks.
Defined.

Definition cut_list_files mq tq boot c : Cut (list_files mq tq boot c) P (λ _, P).
Proof.
  apply cut_ValidateAccessToken; [auto with cut |]. intros token. by apply cut_ListFilesWithMetadata.
Defined.

Definition cut_put_share tq boot c : Cut (put_share tq boot c) P (λ _, P).
Proof. apply cut_ValidateAccessToken; [auto with cut |]. intros token. apply cut_ShareFile. Defined.

Definition cut_get_download mq tq boot cwd c : Cut (get_download mq tq boot cwd c) P (λ _, P).
Proof.
  apply cut_AddTokenFromUrlToHeader. intros c'. apply cut_ValidateAccessToken; [auto with cut |].
  intros token. by apply cut_DownloadFile.
Defined.

Definition cut_get_download_v2 mq tq boot cwd c : Cut (get_download_v2 mq tq boot cwd c) P (λ _, P).
Proof.
  apply cut_AddTokenFromUrlToHeader. intros c'. apply cut_ValidateAccessToken; [auto with cut |].
  intros token. by apply cut_DownloadFileV2.
Defined.

Definition cut_put_eof (Q : Queuer) {QO : QueuerOk Q} `{GC : Gob CacheMetadata} mq tq boot c :
  Cut (put_eof (Q := Q) mq tq boot c) P (λ _, P).
Proof.
  apply cut_ValidateStreamToken; [auto with cut |]. intros token. apply cut_forget.
  apply cut_MetadataHandler_MarkUploadComplete; auto with cut.
Defined.

(** The chunk stored belongs to the owner of the file the token is for. *)
Definition cut_patch_chunks tq cq boot dir c : Cut (patch_chunks tq cq boot dir c) P (λ _, P).
Proof.
  apply cut_ValidateStreamToken; [auto with cut |]. intros token. apply cut_forget.
  unfold UpsertChunks. cbn [rq_token set_token]. destruct (tok_UserID token) as [user|]; [| cut_go].
  cut_step; [| cut_go]. cut_step; [| cut_go]. cut_step; [cut_go |]. intros [e|]; [cut_go |].
  cut_step; [| cut_go]. apply cut_FileChunkService_Create; [auto with cut |]. by intros d [_ ?].
Defined.

End routes.
