(* ===== verification/Startup.v ===== *)
(** How the processes start: cmd/server/main.go up to its routes,
    cmd/workers/main.go, cmd/cli/main.go, core/workers (the wiring), LoadAll of
    pkg/squirtle, core/database/redis.go, SetupFileEventProducer of pkg/brokers
    and NewSSEHandler of web/routes, with the constructors they call. *)
From S2P Require Import Prelude GoStd Model World Squirtle Queries Queue Blob.
From S2P Require Import Transfer Routes Changelog Migrations Chan Broker Sync.
From Stdlib Require Import Ascii.

(** * The libraries *)

(** A flag of a command line: its name, its default value, whether it must be
    given. *)
Record CliFlag := { fl_Name : string; fl_Value : string; fl_Required : bool }.

Class Libraries := {
  (** yaml.v3, into the structs of pkg/squirtle *)
  yaml_Unmarshal : string → res QueryConfigStore;
  (** [redis.ParseURL]: the options, which name the server *)
  redis_ParseURL : string → res string;
  (** the working directory *)
  cwd : string;
  (** urfave/cli on the flags of an app, its commands with theirs, and the
      arguments: the command to run with the values of all flags; [None] when
      only help is asked for *)
  cli_parse : list CliFlag → list (string * list CliFlag) → list string →
    res (option (string * (string → string)));
}.

(** * The constructors *)

(** MetadataRepository, UserFileRepository and TokensRepository have the same
    fields. *)
Record Repository := { repo_conn : Sqlite; repo_querier : QueryMapper }.

Definition NewMetadataRepository (conn : Sqlite) (querier : QueryMapper) : Repository :=
  {| repo_conn := conn; repo_querier := querier |}.
Definition NewUserFileRespository (conn : Sqlite) (querier : QueryMapper) : Repository :=
  {| repo_conn := conn; repo_querier := querier |}.
Definition NewTokensRepository (conn : Sqlite) (querier : QueryMapper) : Repository :=
  {| repo_conn := conn; repo_querier := querier |}.

Record MetadataTokenRepository := {
  mt_conn : Sqlite;
  mt_metaQuerier : QueryMapper;
  mt_tokenQuerier : QueryMapper;
}.

Definition NewMetadataTokenRepository (conn : Sqlite) (metaQuerier tokenQuerier : QueryMapper) :
    MetadataTokenRepository :=
  {| mt_conn := conn; mt_metaQuerier := metaQuerier; mt_tokenQuerier := tokenQuerier |}.

(** [RedisQ]: the client (known by its options), the name, the time a read
    waits, in seconds. *)
Record RedisQueue := { q_conn : string; q_topicName : string; q_timeout : Z }.

Definition NewRedisQ (conn queueName : string) (timeout : Z) : RedisQueue :=
  {| q_conn := conn; q_topicName := queueName; q_timeout := timeout |}.

(** Its operations, those of Queue.v. *)
Definition queue_of `{E : Env} (q : RedisQueue) : Queuer := RedisQ (q_topicName q).

Record MetadataService := {
  ms_repo : Repository;
  ms_metaTokensRepo : MetadataTokenRepository;
  ms_queue : RedisQueue;
}.

Definition NewMetadataService (repo : Repository) (metaTokensRepo : MetadataTokenRepository)
    (queue : RedisQueue) : MetadataService :=
  {| ms_repo := repo; ms_metaTokensRepo := metaTokensRepo; ms_queue := queue |}.

(** The storage: [LocalFS]. *)
Record LocalFS := { lf_dirPath : string }.

Record FileChunkService := { cs_repo : Repository; cs_storage : LocalFS }.

Definition NewFileChunkService (repo : Repository) (storage : LocalFS) : FileChunkService :=
  {| cs_repo := repo; cs_storage := storage |}.

Record DownloadHandler := { dh_cacher : string }.

Definition NewDownloadHandler (client : string) : DownloadHandler := {| dh_cacher := client |}.

Record AuthMidllewareService := { am_repo : Repository }.

Definition NewAuthMiddleWareService (repo : Repository) : AuthMidllewareService :=
  {| am_repo := repo |}.

Record UserService := { us_conn : Sqlite; us_querier : QueryMapper }.

Definition NewUserService (conn : Sqlite) (querier : QueryMapper) : UserService :=
  {| us_conn := conn; us_querier := querier |}.

(** ** The producers and the executor of core/supervisors *)

(** The producer of the worker; a demand is a number. *)
Record MetadataChangelog := { ml_queue : RedisQueue; ml_demand : Chan Z }.

Definition NewMetadataChangelog (queue : RedisQueue) : MetadataChangelog :=
  {| ml_queue := queue; ml_demand := make_chan 1 |}.

(** The producer of the event connections. *)
Record MetadataUpdateConsumer := { mc_queue : RedisQueue; mc_demand : Chan Demand }.

Definition NewMetadataNotifier (queue : RedisQueue) : MetadataUpdateConsumer :=
  {| mc_queue := queue; mc_demand := make_chan 1 |}.

(** core/notifiers *)
Record MetadataUpdateStatus := { mu_queue : RedisQueue }.

Definition NewMedataUpdateStatus (queue : RedisQueue) : MetadataUpdateStatus :=
  {| mu_queue := queue |}.

Record MetadataExecutor := {
  me_repo : Repository;
  me_crepo : Repository;
  me_notifier : MetadataUpdateStatus;
}.

Definition NewMetadataExecutor (repo crepo : Repository) (notifier : MetadataUpdateStatus) :
    MetadataExecutor :=
  {| me_repo := repo; me_crepo := crepo; me_notifier := notifier |}.

(** ** pkg/brokers and web/routes

    [SSEConsumer] is known by the broker it sends to. *)
Record FileUpdateSyncBroker := {
  fb_name : string;
  fb_demandChan : Chan Demand;
  fb_producer : MetadataUpdateConsumer;
  fb_Dst : SSEBroker;
}.

Definition NewFileUpdateSyncBroker (name : string) (producer : MetadataUpdateConsumer)
    (Dst : SSEBroker) : FileUpdateSyncBroker :=
  {| fb_name := name; fb_demandChan := make_chan 1; fb_producer := producer; fb_Dst := Dst |}.

Record SSEHandler := { sh_subscriber : SSEBroker; sh_syncer : FileUpdateSyncBroker }.

Record MetadataHandler := { mh_FileSvc : MetadataService; mh_Downloader : DownloadHandler }.

Record ChunkHandler := { kh_ChunkSvc : FileChunkService }.

(** What main of cmd/server has built when it registers its routes. *)
Record Server := {
  srv_Addr : string;
  srv_authsvc : AuthMidllewareService;
  srv_metadataHandler : MetadataHandler;
  srv_chunkHandler : ChunkHandler;
  srv_sseHandler : SSEHandler;
}.

Definition srv_filesvc (sv : Server) : MetadataService := mh_FileSvc (srv_metadataHandler sv).
Definition srv_chunkSvc (sv : Server) : FileChunkService := kh_ChunkSvc (srv_chunkHandler sv).

(** The queue of notifications of the event connections. *)
Definition srv_notes (sv : Server) : RedisQueue :=
  mc_queue (fb_producer (sh_syncer (srv_sseHandler sv))).

(** What supervisors.MetadataSupervisor works with: its producer and the
    executor it builds. *)
Record MetadataWorker := { wk_producer : MetadataChangelog; wk_executor : MetadataExecutor }.

Section startup.
Context `{E : Env} `{PF : Platform} `{LB : Libraries}.

(** * pkg/squirtle *)
Definition DefaultQueryStoreConfigLocation : string := "./config/querystore.yaml".

Definition LoadAll (configFilePath : list string) : Cmd QueryConfigStore :=
  let path := match configFilePath with [] => DefaultQueryStoreConfigLocation | p :: _ => p end in
  byt ← on_world (os_ReadFile path);
  match byt with
  | Err _ => Fatal "failed to read query config file"
  | Val byt =>
    match yaml_Unmarshal byt with
    | Err _ => Fatal "invalid config structure"
    | Val store => mret store
    end
  end.

(** The function of Squirtle.v with the file it reads, if it comes to that. *)
Definition Hydrate (qs : QueryConfigStore) (tableName : string) :
    Cmd (QueryMapper * option error) :=
  match list_find (λ record, qc_Table record = tableName) qs with
  | Some (_, {| qc_QueryFilePaths := path :: _ |}) =>
    byt ← on_world (os_ReadFile path);
    mret (HydrateQueryStore (λ _, byt) qs tableName)
  | _ => mret (HydrateQueryStore (λ _, Err "not read") qs tableName)
  end.

(** * core/database/redis.go *)
Definition NewRedisConnection (redisURL : string) : Cmd (res string) :=
  match redis_ParseURL redisURL with
  | Err err => mret (Err err)
  | Val opts =>
    err ← on_world call;
    mret (match err with Some e => Err e | None => Val opts end)
  end.

(** * pkg/blobstore *)

(** [filepath.Abs] *)
Definition Abs (path : string) : Cmd (res string) :=
  if HasPrefix path "/" then mret (Val (Clean path)) else
  err ← on_world call;
  mret (match err with
        | Some e => Err e
        | None => Val (filepath_Join [cwd; path])
        end).

Definition NewLocalFS (dirPath : string) : Cmd (res LocalFS) :=
  resolvedPath ← Abs dirPath;
  mret (match resolvedPath with Err e => Err e | Val path => Val {| lf_dirPath := path |} end).

(** * pkg/brokers and web/routes *)
Definition SetupFileEventProducer (cfg : AppConfig) : Cmd (res MetadataUpdateConsumer) :=
  redisconn ← NewRedisConnection (RedisURL cfg);
  mret (match redisconn with
        | Err e => Err e
        | Val conn =>
          let nsq := NewRedisQ conn MetadataUpdateClientsNotifierQueue 1 in
          Val (NewMetadataNotifier nsq)
        end).

(** The goroutines that NewSSEHandler starts are those of Sse.v. *)
Definition NewSSEHandler (cfg : AppConfig) : Cmd SSEHandler :=
  let subscriber := NewSSEBroker in
  metadataProducer ← SetupFileEventProducer cfg;
  match metadataProducer with
  | Err e => panic e
  | Val producer =>
    let syncer := NewFileUpdateSyncBroker "update_syncer" producer subscriber in
    mret {| sh_subscriber := subscriber; sh_syncer := syncer |}
  end.

(** * cmd/server/main.go *)

(** [if err != nil { log.Fatal()... }] after a call. *)
Definition or_fatal {A} (msg : string) (m : Cmd (res A)) : Cmd A :=
  r ← m;
  match r with Err _ => Fatal msg | Val a => mret a end.

Definition store_or_fatal (msg : string) (qs : QueryConfigStore) (tableName : string) :
    Cmd QueryMapper :=
  r ← Hydrate qs tableName;
  match r.2 with Some _ => Fatal msg | None => mret r.1 end.

(** [port] is the value of the flag, "9191" when it is not given. *)
Definition server_main (port : string) : Cmd Server :=
  cfg ← Load "./config/";
  dbconn ← Connect (ConnectSqlite (DbName cfg));
  qs ← LoadAll ["./config/querystore.yaml"];
  tokensQs ← store_or_fatal "failed to initialize tokens query store" qs "tokens";
  let tokensRepo := NewTokensRepository dbconn tokensQs in
  let authsvc := NewAuthMiddleWareService tokensRepo in
  metadataQueryStore ← store_or_fatal "failed to load file metadatas query" qs "file_metadatas";
  let metadataTokenRepo := NewMetadataTokenRepository dbconn metadataQueryStore tokensQs in
  redisConn ← or_fatal "failed to connected to redis" (NewRedisConnection (RedisURL cfg));
  let metadataQ := NewRedisQ redisConn MetadataFileUpdateQueue 20 in
  let filesrepo := NewMetadataRepository dbconn metadataQueryStore in
  let filesvc := NewMetadataService filesrepo metadataTokenRepo metadataQ in
  chunkQs ← store_or_fatal "failed to load user files query" qs "user_files";
  let chunkRepo := NewUserFileRespository dbconn chunkQs in
  localFs ← or_fatal "failed initialized file system" (NewLocalFS "./tmp/arbokdata");
  let chunkSvc := NewFileChunkService chunkRepo localFs in
  let downloadSvc := NewDownloadHandler redisConn in
  let metadataHandler := {| mh_FileSvc := filesvc; mh_Downloader := downloadSvc |} in
  let chunkHandler := {| kh_ChunkSvc := chunkSvc |} in
  sseHandler ← NewSSEHandler cfg;
  mret {| srv_Addr := Sprintf ":%s" [AStr port]; srv_authsvc := authsvc;
          srv_metadataHandler := metadataHandler; srv_chunkHandler := chunkHandler;
          srv_sseHandler := sseHandler |}.

(** * core/workers *)

(** MetdataSupervisor, up to the goroutines of supervisors.MetadataSupervisor,
    which are those of Supervisor.v. *)
Definition MetdataSupervisor (cfg : AppConfig) : Cmd (res MetadataWorker) :=
  dbconn ← Connect (ConnectSqlite (DbName cfg));
  redisconn ← NewRedisConnection (RedisURL cfg);
  match redisconn with
  | Err err => mret (Err err)
  | Val redisconn =>
    qs ← LoadAll ["./config/querystore.yaml"];
    metadataQueryStore ← Hydrate qs "file_metadatas";
    match metadataQueryStore.2 with
    | Some err => mret (Err err)
    | None =>
      let repo := NewMetadataRepository dbconn metadataQueryStore.1 in
      let rsq := NewRedisQ redisconn MetadataFileUpdateQueue 1 in
      let nsq := NewRedisQ redisconn MetadataUpdateClientsNotifierQueue 1 in
      let notifier := NewMedataUpdateStatus nsq in
      let producer := NewMetadataChangelog rsq in
      chunkQueryStore ← store_or_fatal "failed to load user files query" qs "user_files";
      let chunkRepo := NewUserFileRespository dbconn chunkQueryStore in
      mret (Val {| wk_producer := producer; wk_executor := NewMetadataExecutor repo chunkRepo notifier |})
    end
  end.

(** ManualChunkMetadataReconciler: its wiring, then the operation of
    Changelog.v. *)
Definition workers_ManualChunkMetadataReconciler `{MR : MapRange} (cfg : AppConfig) :
    Cmd (option error) :=
  dbconn ← Connect (ConnectSqlite (DbName cfg));
  qs ← LoadAll ["./config/querystore.yaml"];
  metadataQueryStore ← Hydrate qs "file_metadatas";
  match metadataQueryStore.2 with
  | Some err => mret (Some err)
  | None =>
    let repo := NewMetadataRepository dbconn metadataQueryStore.1 in
    chunkQueryStore ← store_or_fatal "failed to load user files query" qs "user_files";
    let crepo := NewUserFileRespository dbconn chunkQueryStore in
    on_world (ManualChunkMetadataReconciler (repo_querier repo) (repo_querier crepo))
  end.

End startup.

(** * cmd/workers/main.go and cmd/cli/main.go *)

(** A command of an app; its action is given the values of the flags. *)
Record Command (A : Type) := {
  cmd_Name : string;
  cmd_Flags : list CliFlag;
  cmd_Action : (string → string) → Cmd (res A);
}.
Arguments cmd_Name {A} _.
Arguments cmd_Flags {A} _.
Arguments cmd_Action {A} _ _.
Arguments Build_Command {A}.

Definition EnvCmd : string := "env".
Definition SuperviseCmd : string := "supervise".
Definition SupervisorName : string := "name".
Definition EnvDirCmd : string := "envdir".
Definition Direction : string := "dir".

(** What a process of cmd/workers does after its start: it supervises, or it
    is over. *)
Inductive Process :=
| Supervises (w : MetadataWorker)
| Finished.

Section commands.
Context `{E : Env} `{PF : Platform} `{LB : Libraries} `{MR : MapRange}.

(** What the library is told of the commands. *)
Definition declared {A} (commands : list (Command A)) : list (string * list CliFlag) :=
  (λ c, (cmd_Name c, cmd_Flags c)) <$> commands.

(** [app.Run(os.Args)] *)
Definition app_Run {A} (help : A) (flags : list CliFlag) (commands : list (Command A))
    (args : list string) : Cmd (res A) :=
  match cli_parse flags (declared commands) args with
  | Err e => mret (Err e)
  | Val None => mret (Val help)
  | Val (Some (name, values)) =>
    match list_find (λ c, cmd_Name c = name) commands with
    | Some (_, c) => cmd_Action c values
    | None => mret (Val help)
    end
  end.

Definition ReconcileRunner_Run (c : string → string) : Cmd (res Process) :=
  let envDir := c EnvCmd in
  cfg ← Load envDir;
  err ← workers_ManualChunkMetadataReconciler cfg;
  mret (match err with Some e => Err e | None => Val Finished end).

(** The name is only logged. *)
Definition SuperviseRunner_Run (c : string → string) : Cmd (res Process) :=
  let envDir := c EnvCmd in
  cfg ← Load envDir;
  worker ← MetdataSupervisor cfg;
  mret (match worker with Err e => Err e | Val w => Val (Supervises w) end).

Definition workers_flags : list CliFlag :=
  [{| fl_Name := EnvCmd; fl_Value := "./config"; fl_Required := false |}].

Definition workers_commands : list (Command Process) :=
  [{| cmd_Name := "supervise";
      cmd_Flags := [{| fl_Name := SupervisorName; fl_Value := ""; fl_Required := true |}];
      cmd_Action := SuperviseRunner_Run |};
   {| cmd_Name := "reconcile";
      cmd_Flags := [{| fl_Name := SupervisorName; fl_Value := ""; fl_Required := true |}];
      cmd_Action := ReconcileRunner_Run |}].

Definition workers_main (args : list string) : Cmd Process :=
  or_fatal "command failed" (app_Run Finished workers_flags workers_commands args).

Definition cli_main (args : list string) : Cmd unit :=
  or_fatal "command failed"
    (app_Run ()
       [{| fl_Name := EnvDirCmd; fl_Value := "./config"; fl_Required := false |}]
       [{| cmd_Name := "migrate";
           cmd_Flags := [{| fl_Name := Direction; fl_Value := ""; fl_Required := true |}];
           cmd_Action := λ c,
             err ← MigrateCmd_Run (c Direction) (c EnvDirCmd);
             mret (match err with Some e => Err e | None => Val () end) |}] args).

End commands.

(** * What a start depends on

    The same without effects: what the environment, the disk and the address of
    Redis say, and what is built from it. *)
Section plan.
Context `{PF : Platform} `{LB : Libraries}.
Implicit Types (s : Site) (fs : gmap string string).

Definition config_string (cfgMap : gmap string CfgValue) (key : string) : option string :=
  match cfgMap !! key with Some (CfgString v) => Some v | _ => None end.

Definition config_of (envDir : string) : option AppConfig :=
  let env := if decide (Getenv "ENVIRONMENT" = "") then "dev" else Getenv "ENVIRONMENT" in
  match ReadFromFile env envDir with
  | Err _ => None
  | Val cfgMap =>
    server_id ← config_string cfgMap "server_id";
    dsn ← config_string cfgMap "dsn";
    db_name ← config_string cfgMap "db_name";
    redis_url ← config_string cfgMap "redis_url";
    Some {| ServerID := server_id; Environment := env; Dsn := dsn; DbName := db_name;
            RedisURL := redis_url |}
  end.

Definition val {A} (r : res A) : option A := match r with Val a => Some a | Err _ => None end.

Definition disk fs (path : string) : res string :=
  match fs !! path with Some text => Val text | None => Err "no such file or directory" end.

Definition stores_of fs : option QueryConfigStore :=
  text ← fs !! "./config/querystore.yaml"; val (yaml_Unmarshal text).

Definition store_of fs (qs : QueryConfigStore) (table : string) : option QueryMapper :=
  match HydrateQueryStore (disk fs) qs table with (qm, None) => Some qm | _ => None end.

Definition connected (cfg : AppConfig) : Sqlite :=
  {| dbName := DbName cfg; dsn := "sqlite3"; conn := true |}.

Definition server_plan (port : string) fs : option Server :=
  cfg ← config_of "./config/";
  qs ← stores_of fs;
  tq ← store_of fs qs "tokens";
  mq ← store_of fs qs "file_metadatas";
  redis ← val (redis_ParseURL (RedisURL cfg));
  cq ← store_of fs qs "user_files";
  let db := connected cfg in
  Some {| srv_Addr := ":" +:+ port;
          srv_authsvc := {| am_repo := {| repo_conn := db; repo_querier := tq |} |};
          srv_metadataHandler :=
            {| mh_FileSvc :=
                 {| ms_repo := {| repo_conn := db; repo_querier := mq |};
                    ms_metaTokensRepo :=
                      {| mt_conn := db; mt_metaQuerier := mq; mt_tokenQuerier := tq |};
                    ms_queue := NewRedisQ redis MetadataFileUpdateQueue 20 |};
               mh_Downloader := {| dh_cacher := redis |} |};
          srv_chunkHandler :=
            {| kh_ChunkSvc :=
                 {| cs_repo := {| repo_conn := db; repo_querier := cq |};
                    cs_storage := {| lf_dirPath := filepath_Join [cwd; "./tmp/arbokdata"] |} |} |};
          srv_sseHandler :=
            {| sh_subscriber := NewSSEBroker;
               sh_syncer :=
                 {| fb_name := "update_syncer"; fb_demandChan := make_chan 1;
                    fb_producer :=
                      {| mc_queue := NewRedisQ redis MetadataUpdateClientsNotifierQueue 1;
                         mc_demand := make_chan 1 |};
                    fb_Dst := NewSSEBroker |} |} |}.

Definition worker_plan (cfg : AppConfig) fs : option MetadataWorker :=
  redis ← val (redis_ParseURL (RedisURL cfg));
  qs ← stores_of fs;
  mq ← store_of fs qs "file_metadatas";
  cq ← store_of fs qs "user_files";
  let db := connected cfg in
  Some {| wk_producer :=
            {| ml_queue := NewRedisQ redis MetadataFileUpdateQueue 1; ml_demand := make_chan 1 |};
          wk_executor :=
            {| me_repo := {| repo_conn := db; repo_querier := mq |};
               me_crepo := {| repo_conn := db; repo_querier := cq |};
               me_notifier :=
                 {| mu_queue := NewRedisQ redis MetadataUpdateClientsNotifierQueue 1 |} |} |}.

End plan.

(** * Rules

    A step of a start lets time pass and nothing else, and does what its plan
    says: it succeeds only as planned, and fails only when there is no plan or
    a call has failed. *)
Definition passes (s s' : Site) : Prop :=
  ∃ w, later (site_world s) w ∧ s' = site_with_world w s.

Lemma passes_refl s : passes s s.
Proof. exists (site_world s). split; [apply later_refl | by rewrite site_world_same]. Qed.

Lemma passes_trans s1 s2 s3 : passes s1 s2 → passes s2 s3 → passes s1 s3.
Proof.
  intros (w & Hw & ->) (w' & Hw' & ->). exists w'. split; [by eapply later_trans | done].
Qed.

Lemma passes_fs s s' : passes s s' → w_fs (site_world s') = w_fs (site_world s).
Proof. intros (w & (n & _ & ->) & ->). done. Qed.

Section rules.
Context `{E : Env}.
Implicit Types s : Site.

(** The process goes on with what the plan says, or ends. *)
Definition starts {A} (m : Cmd A) s (plan : option A) : Prop :=
  wp m s (λ r s', passes s s' ∧
    match r with Ret a => plan = Some a | Panics _ => no_fault → plan = None end).

(** An error is given back to the caller. *)
Definition tries {A} (m : Cmd (res A)) s (plan : option A) : Prop :=
  wp m s (λ r s', passes s s' ∧
    match r with Ret (Val a) => plan = Some a | _ => no_fault → plan = None end).

Lemma starts_wp {A} (m : Cmd A) s plan Q :
  starts m s plan →
  (∀ a s', passes s s' → plan = Some a → Q (Ret a) s') →
  (∀ why s', passes s s' → (no_fault → plan = None) → Q (Panics why) s') → wp m s Q.
Proof.
  unfold starts. intros Hm Ha Hw. eapply wp_mono; [exact Hm |]. intros [a|why] s' [? ?]; auto.
Qed.

Lemma tries_wp {A} (m : Cmd (res A)) s plan Q :
  tries m s plan →
  (∀ a s', passes s s' → plan = Some a → Q (Ret (Val a)) s') →
  (∀ e s', passes s s' → (no_fault → plan = None) → Q (Ret (Err e)) s') →
  (∀ why s', passes s s' → (no_fault → plan = None) → Q (Panics why) s') → wp m s Q.
Proof.
  unfold tries. intros Hm Ha He Hw. eapply wp_mono; [exact Hm |].
  intros [[a|e]|why] s' [? ?]; auto.
Qed.

Lemma starts_ret {A} (a : A) s : starts (mret a) s (Some a).
Proof. split; [apply passes_refl | done]. Qed.

Lemma starts_fatal {A} msg s : starts (Fatal (A := A) msg) s None.
Proof. split; [apply passes_refl | done]. Qed.

Lemma starts_bind {A B} (m : Cmd A) (f : A → Cmd B) s p (q : A → option B) :
  starts m s p → (∀ a s1, passes s s1 → p = Some a → starts (f a) s1 (q a)) →
  starts (m ≫= f) s (p ≫= q).
Proof.
  intros Hm Hf. apply wp_bind. eapply starts_wp; [exact Hm | |].
  - intros a s1 Hs1 Hp. rewrite Hp. eapply starts_wp; [by apply Hf | |].
    all: intros x s2 Hs2 Hx; split; [by eapply passes_trans | done].
  - intros why s1 Hs1 Hp. split; [done |]. intros Hq. by rewrite Hp.
Qed.

Lemma starts_then {A B} (m : Cmd A) (f : A → Cmd B) s a q :
  starts m s (Some a) → (∀ s1, passes s s1 → starts (f a) s1 q) → starts (m ≫= f) s q.
Proof.
  intros Hm Hf. apply (starts_bind m f s (Some a) (λ _, q)); [done |].
  intros a' s1 Hs1 [= ->]. by apply Hf.
Qed.

Lemma tries_ret {A} (a : A) s : tries (mret (Val a)) s (Some a).
Proof. split; [apply passes_refl | done]. Qed.

Lemma tries_starts {A B} (m : Cmd A) (f : A → Cmd (res B)) s p (q : A → option B) :
  starts m s p → (∀ a s1, passes s s1 → p = Some a → tries (f a) s1 (q a)) →
  tries (m ≫= f) s (p ≫= q).
Proof.
  intros Hm Hf. apply wp_bind. eapply starts_wp; [exact Hm | |].
  - intros a s1 Hs1 Hp. rewrite Hp. eapply tries_wp; [by apply Hf | | |].
    all: intros x s2 Hs2 Hx; split; [by eapply passes_trans | done].
  - intros why s1 Hs1 Hp. split; [done |]. intros Hq. by rewrite Hp.
Qed.

Lemma tries_bind {A B} (m : Cmd (res A)) (f : res A → Cmd (res B)) s p (q : A → option B) :
  tries m s p → (∀ a s1, passes s s1 → p = Some a → tries (f (Val a)) s1 (q a)) →
  (∀ e s1, passes s s1 → tries (f (Err e)) s1 None) → tries (m ≫= f) s (p ≫= q).
Proof.
  intros Hm Hf He. apply wp_bind. eapply tries_wp; [exact Hm | | |].
  - intros a s1 Hs1 Hp. rewrite Hp. eapply tries_wp; [by apply Hf | | |].
    all: intros x s2 Hs2 Hx; split; [by eapply passes_trans | done].
  - intros e s1 Hs1 Hp. eapply tries_wp; [by apply He | done | |].
    all: intros x s2 Hs2 _; split; [by eapply passes_trans |]; intros Hq; by rewrite Hp.
  - intros why s1 Hs1 Hp. split; [done |]. intros Hq. by rewrite Hp.
Qed.

Lemma tries_err {A} e s : tries (mret (Err (A := A) e)) s None.
Proof. split; [apply passes_refl | done]. Qed.

Lemma starts_or_fatal {A} msg (m : Cmd (res A)) s p : tries m s p → starts (or_fatal msg m) s p.
Proof.
  intros Hm. apply wp_bind. by eapply tries_wp; [exact Hm | ..].
Qed.

Lemma tries_call {A} (p : res A) s :
  tries (err ← on_world call; mret (match err with Some e => Err e | None => p end)) s (val p).
Proof.
  unfold tries. wp_step. apply wp_on_world, wp_call. destruct (fault _) eqn:Hf; wp_step.
  all: split; [eexists; split; [| done]; solve_later |].
  - intros ?. quiet.
  - by destruct p.
Qed.

Context `{PF : Platform} `{LB : Libraries}.

Lemma tries_ReadFile path s :
  tries (on_world (os_ReadFile path)) s (val (disk (w_fs (site_world s)) path)).
Proof.
  apply wp_on_world, wp_os_Open; unfold disk.
  - intros e w Hw Hp. split; [by exists w |]. intros Hf. by rewrite Hp.
  - intros data w Hw ->. split; [by exists w | done].
Qed.

Lemma starts_Load envDir s : starts (Load envDir) s (config_of envDir).
Proof.
  unfold Load, config_of. destruct (ReadFromFile _ _) as [cfgMap|]; [| apply starts_fatal].
  repeat (apply starts_bind; [| intros ? ? _ _]); [| | | | apply starts_ret].
  all: unfold MustGetString, config_string; destruct (cfgMap !! _) as [[]|];
    first [apply starts_ret | by split; [apply passes_refl |]].
Qed.

Lemma starts_Connect name s :
  starts (Connect (ConnectSqlite name)) s (Some {| dbName := name; dsn := "sqlite3"; conn := true |}).
Proof.
  unfold starts, Connect. wp_step. apply wp_on_world, wp_call. destruct (fault _) eqn:Hf.
  { split; [eexists; split; [| done]; solve_later | intros ?; quiet]. }
  wp_step. apply wp_on_world, wp_call. destruct (fault (w_tick (site_world (site_with_world _ _)))) eqn:Hf2.
  { split; [eexists; split; [| done]; solve_later | intros ?; quiet]. }
  split; [eexists; split; [| done]; solve_later | done].
Qed.

Lemma starts_LoadAll fs s :
  w_fs (site_world s) = fs → starts (LoadAll ["./config/querystore.yaml"]) s (stores_of fs).
Proof.
  intros <-. unfold LoadAll, stores_of. apply wp_bind. eapply tries_wp; [apply tries_ReadFile | ..];
    unfold disk; destruct (w_fs (site_world s) !! _) as [data|]; simpl.
  - intros text s1 Hs1 [= ->]. by destruct (yaml_Unmarshal text).
  - done.
  - intros e s1 Hs1 Hp. split; [done |]. intros Hf. by specialize (Hp Hf).
  - by split.
  - intros why s1 Hs1 Hp. split; [done |]. intros Hf. by specialize (Hp Hf).
  - by split.
Qed.

(** The file that is read is the one the pure function looks at. *)
Lemma wp_Hydrate qs table fs s (Q : ret (QueryMapper * option error) → Site → Prop) :
  w_fs (site_world s) = fs →
  (∀ qm s', passes s s' → store_of fs qs table = Some qm → Q (Ret (qm, None)) s') →
  (∀ qm e s', passes s s' → (no_fault → store_of fs qs table = None) → Q (Ret (qm, Some e)) s') →
  (∀ why s', passes s s' → (no_fault → store_of fs qs table = None) → Q (Panics why) s') →
  wp (Hydrate qs table) s Q.
Proof.
  intros <-. unfold Hydrate, store_of, HydrateQueryStore. intros Hv He Hw.
  destruct (list_find _ qs) as [[i [t [|path paths]]]|] eqn:Hfind;
    [by apply He; [apply passes_refl |] | | by apply He; [apply passes_refl |]].
  apply wp_bind. eapply tries_wp; [apply tries_ReadFile | ..]; cbn [qc_QueryFilePaths] in *;
    destruct (disk _ path) as [data|]; cbn [val] in *.
  - intros text s1 Hs1 [= ->]. by apply Hv.
  - done.
  - intros err s1 Hs1 Hp. apply He; [done | intros Hf; by specialize (Hp Hf)].
  - intros err s1 Hs1 Hp. by apply He.
  - intros why s1 Hs1 Hp. apply Hw; [done | intros Hf; by specialize (Hp Hf)].
  - intros why s1 Hs1 Hp. by apply Hw.
Qed.

Lemma starts_Hydrate msg qs table fs s :
  w_fs (site_world s) = fs → starts (store_or_fatal msg qs table) s (store_of fs qs table).
Proof. intros Hfs. apply wp_bind. by eapply wp_Hydrate. Qed.

Lemma tries_Hydrate {A} qs table fs s (f : QueryMapper * option error → Cmd (res A)) q :
  w_fs (site_world s) = fs → (∀ qm s1, passes s s1 → tries (f (qm, None)) s1 (q qm)) →
  (∀ qm e s1, tries (f (qm, Some e)) s1 None) →
  tries (Hydrate qs table ≫= f) s (store_of fs qs table ≫= q).
Proof.
  intros Hfs Hf He. apply wp_bind. eapply wp_Hydrate; [done | ..].
  - intros qm s1 Hs1 Hp. rewrite Hp. eapply tries_wp; [by apply Hf | | |].
    all: intros x s2 Hs2 Hx; split; [by eapply passes_trans | done].
  - intros qm e s1 Hs1 Hp. eapply tries_wp; [apply He | done | |].
    all: intros x s2 Hs2 _; split; [by eapply passes_trans |]; intros Hq; by rewrite Hp.
  - intros why s1 Hs1 Hp. split; [done |]. intros Hq. by rewrite Hp.
Qed.

Lemma tries_NewRedisConnection url s : tries (NewRedisConnection url) s (val (redis_ParseURL url)).
Proof.
  unfold NewRedisConnection. destruct (redis_ParseURL url); [apply tries_call | apply tries_err].
Qed.

Lemma starts_NewLocalFS msg s :
  starts (or_fatal msg (NewLocalFS "./tmp/arbokdata")) s
    (Some {| lf_dirPath := filepath_Join [cwd; "./tmp/arbokdata"] |}).
Proof.
  apply starts_or_fatal. unfold NewLocalFS.
  apply (tries_bind (Abs "./tmp/arbokdata") _ s (Some _) (λ path, Some {| lf_dirPath := path |}));
    [apply (tries_call (Val _)) | intros; apply tries_ret | intros; apply tries_err].
Qed.

Lemma starts_NewSSEHandler cfg redis s :
  val (redis_ParseURL (RedisURL cfg)) = Some redis →
  starts (NewSSEHandler cfg) s
    (Some {| sh_subscriber := NewSSEBroker;
             sh_syncer := NewFileUpdateSyncBroker "update_syncer"
               (NewMetadataNotifier (NewRedisQ redis MetadataUpdateClientsNotifierQueue 1))
               NewSSEBroker |}).
Proof.
  intros Hr. unfold NewSSEHandler, SetupFileEventProducer. do 2 apply wp_bind.
  eapply tries_wp; [apply tries_NewRedisConnection | ..]; rewrite Hr.
  - intros conn s1 Hs1 [= ->]. by split.
  - intros e s1 Hs1 Hp. split; [done |]. intros Hf. by specialize (Hp Hf).
  - intros why s1 Hs1 Hp. split; [done |]. intros Hf. by specialize (Hp Hf).
Qed.

#[local] Ltac same_disk :=
  repeat match goal with H : passes _ _ |- _ => apply passes_fs in H end; congruence.

Lemma starts_server_main port s :
  starts (server_main port) s (server_plan port (w_fs (site_world s))).
Proof.
  unfold server_main, server_plan. apply starts_bind; [apply starts_Load | intros cfg s1 ? _].
  eapply starts_then; [apply starts_Connect | intros s2 ?].
  apply starts_bind; [apply starts_LoadAll; same_disk | intros qs s3 ? _].
  apply starts_bind; [apply starts_Hydrate; same_disk | intros tq s4 ? _].
  apply starts_bind; [apply starts_Hydrate; same_disk | intros mq s5 ? _].
  apply starts_bind; [apply starts_or_fatal, tries_NewRedisConnection | intros redis s6 ? Hr].
  apply starts_bind; [apply starts_Hydrate; same_disk | intros cq s7 ? _].
  eapply starts_then; [apply starts_NewLocalFS | intros s8 ?].
  eapply starts_then; [by apply starts_NewSSEHandler | intros s9 ?].
  change (Sprintf ":%s" [AStr port]) with (":" +:+ port +:+ ""). rewrite app_empty.
  apply starts_ret.
Qed.

Lemma tries_MetdataSupervisor cfg s :
  tries (MetdataSupervisor cfg) s (worker_plan cfg (w_fs (site_world s))).
Proof.
  unfold MetdataSupervisor, worker_plan.
  eapply (tries_starts _ _ _ (Some _) (λ _, _)); [apply starts_Connect | intros db s1 ? [= <-]].
  apply tries_bind; [apply tries_NewRedisConnection | | intros; apply tries_err].
  intros redis s2 ? Hr.
  apply tries_starts; [apply starts_LoadAll; same_disk | intros qs s3 ? _].
  apply tries_Hydrate; [same_disk | intros mq s4 ? | intros; apply tries_err].
  apply tries_starts; [apply starts_Hydrate; same_disk | intros cq s5 ? _].
  apply tries_ret.
Qed.

End rules.

(** * The repository's files *)
Definition querystore_yaml : string := "- table: users
  query_file:
    - ./core/users/queries.sql

- table: file_metadatas
  query_file:
    - ./core/files/queries.metadata.sql

- table: user_files
  query_file:
    - ./core/files/user_files.queries.sql

- table: tokens
  query_file:
    - ./core/tokens/queries.sql
".

Record has_queries (s : Site) : Prop := {
  hq_yaml : w_fs (site_world s) !! "./config/querystore.yaml" = Some querystore_yaml;
  hq_sql : ∀ path text, repo_files path = Val text → w_fs (site_world s) !! path = Some text;
}.

(** Every table of the configuration has its store. *)
Lemma store_of_repository `{PF : Platform} `{LB : Libraries} s table :
  has_queries s → table ∈ ["users"; "file_metadatas"; "user_files"; "tokens"] →
  store_of (w_fs (site_world s)) querystore table = Some (HydrateQueryStore repo_files querystore table).1.
Proof.
  intros [_ Hsql] Ht. unfold store_of, HydrateQueryStore, disk.
  assert (Hpath : ∀ path text, repo_files path = Val text →
    match w_fs (site_world s) !! path with Some t => Val t | None => Err "no such file or directory" end
    = repo_files path).
  { intros path text Hp. by rewrite (Hsql path text Hp), Hp. }
  unfold querystore. cbn [list_find]. rewrite !elem_of_cons, elem_of_nil in Ht.
  destruct Ht as [->|[->|[->|[->|[]]]]]; simpl; by erewrite Hpath by done.
Qed.

(** The two processes work on one database with the same statements, and each
    reads the queue the other writes to. *)
Record agree (srv : Server) (wk : MetadataWorker) : Prop := {
  ag_db : repo_conn (am_repo (srv_authsvc srv)) = repo_conn (me_repo (wk_executor wk)) ∧
    repo_conn (ms_repo (srv_filesvc srv)) = repo_conn (me_repo (wk_executor wk)) ∧
    mt_conn (ms_metaTokensRepo (srv_filesvc srv)) = repo_conn (me_repo (wk_executor wk)) ∧
    repo_conn (cs_repo (srv_chunkSvc srv)) = repo_conn (me_repo (wk_executor wk)) ∧
    repo_conn (me_crepo (wk_executor wk)) = repo_conn (me_repo (wk_executor wk)) ∧
    conn (repo_conn (me_repo (wk_executor wk))) = true;
  ag_stores : repo_querier (am_repo (srv_authsvc srv)) = tokensQs ∧
    mt_tokenQuerier (ms_metaTokensRepo (srv_filesvc srv)) = tokensQs ∧
    mt_metaQuerier (ms_metaTokensRepo (srv_filesvc srv)) = metadataQueryStore ∧
    repo_querier (ms_repo (srv_filesvc srv)) = metadataQueryStore ∧
    repo_querier (me_repo (wk_executor wk)) = metadataQueryStore ∧
    repo_querier (cs_repo (srv_chunkSvc srv)) = chunkQs ∧
    repo_querier (me_crepo (wk_executor wk)) = chunkQs;
  ag_changes : q_conn (ms_queue (srv_filesvc srv)) = q_conn (ml_queue (wk_producer wk)) ∧
    q_topicName (ms_queue (srv_filesvc srv)) = q_topicName (ml_queue (wk_producer wk));
  ag_notes : srv_notes srv = mu_queue (me_notifier (wk_executor wk)) ∧
    q_conn (srv_notes srv) = dh_cacher (mh_Downloader (srv_metadataHandler srv));
  ag_messages : fb_Dst (sh_syncer (srv_sseHandler srv)) = sh_subscriber (srv_sseHandler srv);
}.

Section properties.
Context `{E : Env} `{PF : Platform} `{LB : Libraries} `{MR : MapRange}.

(** (C15) The processes start on what they need and on nothing less.  Whatever
    the environment, the disk and the failures are, a start changes nothing
    outside the process (of a database file, its tables); the server gets to its routes, and the worker to its
    supervisor, only with what is planned: a configuration with its four texts,
    the address of Redis, and for every table the statements its file holds;
    and when no call fails they do so exactly when there is such a plan. *)
Theorem processes_start port cfg s :
  starts (server_main port) s (server_plan port (w_fs (site_world s))) ∧
  tries (MetdataSupervisor cfg) s (worker_plan cfg (w_fs (site_world s))).
Proof. split; [apply starts_server_main | apply tries_MetdataSupervisor]. Qed.

Lemma configures_config_of envDir cfg : configures envDir cfg → config_of envDir = Some cfg.
Proof.
  intros (Henv & cfgMap & Hread & H1 & H2 & H3 & H4). unfold config_of. rewrite <- Henv, Hread.
  unfold config_string. rewrite H1, H2, H3, H4. by destruct cfg.
Qed.

Lemma plans_agree cfg addr port s :
  configures "./config/" cfg → redis_ParseURL (RedisURL cfg) = Val addr →
  yaml_Unmarshal querystore_yaml = Val querystore → has_queries s →
  ∃ srv wk, server_plan port (w_fs (site_world s)) = Some srv ∧
    worker_plan cfg (w_fs (site_world s)) = Some wk ∧ agree srv wk.
Proof.
  intros Hcfg Hredis Hyaml Hq. unfold server_plan, worker_plan.
  rewrite (configures_config_of _ _ Hcfg). simpl. rewrite Hredis. unfold stores_of.
  rewrite (hq_yaml _ Hq). simpl. rewrite Hyaml. simpl.
  rewrite !(store_of_repository s) by (done || set_solver). simpl.
  eexists _, _. split_and!; [done | done |]. by repeat split.
Qed.

(** The worker process: the command line says "supervise", whatever the name. *)
Lemma starts_workers_main args values s :
  cli_parse workers_flags (declared workers_commands) args = Val (Some ("supervise", values)) →
  starts (workers_main args) s
    (cfg ← config_of (values EnvCmd);
     wk ← worker_plan cfg (w_fs (site_world s)); Some (Supervises wk)).
Proof.
  intros Hargs. unfold workers_main, app_Run. rewrite Hargs. cbn [list_find workers_commands].
  rewrite decide_True by done. apply starts_or_fatal. cbn. unfold SuperviseRunner_Run.
  apply tries_starts; [apply starts_Load | intros cfg s1 Hs1 _].
  rewrite <- (passes_fs _ _ Hs1).
  apply tries_bind; [apply tries_MetdataSupervisor | | intros; apply tries_err].
  intros wk s2 _ _. apply tries_ret.
Qed.

(** (C11) The server and the worker work together.  With the configuration and
    the query files of the repository, an address of Redis that is one, and no
    failure, both processes start, and then they agree: one database, the
    statements of the repository's files for every repository, the queue the
    server announces finished uploads on is the one the worker reads, the queue
    the worker notifies on is the one the event connections read, and what they
    read goes to the broker they subscribe to.  The
    name given to the supervisor makes no difference. *)
Theorem processes_agree cfg addr port args values s :
  no_fault → configures "./config/" cfg → configures (values EnvCmd) cfg →
  redis_ParseURL (RedisURL cfg) = Val addr →
  yaml_Unmarshal querystore_yaml = Val querystore → has_queries s →
  cli_parse workers_flags (declared workers_commands) args = Val (Some ("supervise", values)) →
  wp (server_main port) s (λ r1 s1, passes s s1 ∧
    wp (workers_main args) s1 (λ r2 s2, passes s1 s2 ∧
      ∃ srv wk, r1 = Ret srv ∧ r2 = Ret (Supervises wk) ∧ agree srv wk)).
Proof.
  intros Hf Hcfg Hcfg' Hredis Hyaml Hq Hargs.
  destruct (plans_agree cfg addr port s) as (srv & wk & Hsrv & Hwk & Hagree); [done.. |].
  eapply starts_wp; [apply starts_server_main | |]; rewrite Hsrv.
  - intros ? s1 Hs1 [= <-]. split; [done |].
    eapply starts_wp; [by apply starts_workers_main | |];
      rewrite (configures_config_of _ _ Hcfg'); simpl; rewrite (passes_fs _ _ Hs1), Hwk.
    + intros ? s2 Hs2 [= <-]. split; [done |]. by exists srv, wk.
    + intros why s2 Hs2 Hp. by specialize (Hp Hf).
  - intros why s1 Hs1 Hp. by specialize (Hp Hf).
Qed.

End properties.

(** A machine on which all of it is there. *)
Definition sample_libraries : Libraries :=
  {| yaml_Unmarshal text :=
       if decide (text = querystore_yaml) then Val querystore else Err "yaml: cannot unmarshal";
     redis_ParseURL url :=
       if HasPrefix url "redis://" then Val (TrimPrefix url "redis://")
       else Err "redis: invalid URL scheme";
     cwd := "/srv";
     cli_parse flags commands args :=
       match args with
       | [_; command; _; name] =>
         Val (Some (command, λ flag, if decide (flag = SupervisorName) then name else "./config"))
       | _ => Val None
       end |}.

Definition repository_site : Site :=
  {| site_world := world_with_fs
       {[ "./config/querystore.yaml" := querystore_yaml;
          "./core/users/queries.sql" := users_sql;
          "./core/files/queries.metadata.sql" := metadata_sql;
          "./core/files/user_files.queries.sql" := user_files_sql;
          "./core/tokens/queries.sql" := tokens_sql ]} empty_world;
     site_dbs := ∅ |}.

Lemma repository_has_queries : has_queries repository_site.
Proof.
  split; [by vm_compute |]. intros path text. unfold repo_files.
  repeat case_decide; intros [= <-]; subst; by vm_compute.
Qed.

Lemma processes_agree_witness :
  wp (server_main (E := quiet_env) (PF := sample_platform) (LB := sample_libraries) "9191")
    repository_site (λ r1 s1,
      wp (workers_main (E := quiet_env) (PF := sample_platform) (LB := sample_libraries)
            (MR := list_range) ["arbok"; "supervise"; "-name"; "metadatas"]) s1 (λ r2 s2,
        ∃ srv wk, r1 = Ret srv ∧ r2 = Ret (Supervises wk) ∧ agree srv wk)).
Proof.
  pose proof (processes_agree (E := quiet_env) (PF := sample_platform) (LB := sample_libraries)
    (MR := list_range) sample_config "localhost" "9191" ["arbok"; "supervise"; "-name"; "metadatas"]
    (λ flag, if decide (flag = SupervisorName) then "metadatas" else "./config") repository_site) as H.
  unfold wp in *. apply H; [done | | | done | done | apply repository_has_queries | done].
  all: split; [done |]; eexists; split; [done |]; by split_and!.
Defined.
