(* ===== verification/Server.v ===== *)
(** cmd/server/main.go after the start of Startup.v: the table of routes with
    their middlewares, the handling of a request, and the end of the process. *)
From S2P Require Import Prelude GoStd Api Model World Squirtle Queries.
From S2P Require Import Tokens FilesRepo Queue Gob FilesInfo FilesService Blob.
From S2P Require Import Transfer Changelog Users Migrations Chan Broker Auth.
From S2P Require Import Routes Lifecycle Startup.
From Stdlib Require Import Ascii.

(** * Requests and answers *)
Record HttpRequest := { hr_Method : string; hr_Path : string; hr_Request : Request }.

(** The handlers answer with different types of bodies; [EchoStatus] is an
    answer of echo itself. *)
Inductive HttpReply :=
| OfUnit (r : Reply unit)
| OfToken (r : Reply MetadataTokenResponse)
| OfFile (r : Reply FilesWithChunks)
| OfList (r : Reply ListResponse)
| OfEof (r : Reply (gmap string bool))
| OfChunk (r : Reply ChunkUploadResponse)
| EchoStatus (status : Z).

(** The status of an answer; a stream of events has sent its 200. *)
Definition status_of {D} (r : Reply D) : Z :=
  match r with
  | NoContent status | JSON _ status _ | Text status _ => status
  | Attachment _ _ | EventStream _ _ _ => StatusOK
  end.

Definition reply_status (r : HttpReply) : Z :=
  match r with
  | OfUnit r => status_of r | OfToken r => status_of r | OfFile r => status_of r
  | OfList r => status_of r | OfEof r => status_of r | OfChunk r => status_of r
  | EchoStatus status => status
  end.

Record CORSConfig := {
  AllowOrigins : list string;
  AllowCredentials : bool;
  AllowHeaders : list string;
  ExposeHeaders : list string;
}.

(** What the router finds for a method and a path: a route by its place in the
    table with the values of the parameters, or nothing, which echo answers
    with this status. *)
Inductive Found :=
| FoundRoute (i : nat) (params : gmap string string)
| FoundNothing (status : Z).

Class EchoRouter := {
  find_route : list (string * string) → string → string → Found;
  (** the middleware for CORS answers a preflight request itself *)
  cors_answers : CORSConfig → HttpRequest → bool;
}.

(** A path against a registered path, both in segments: [:name] stands for one
    segment. *)
Fixpoint match_segments (pattern segments : list string) : option (gmap string string) :=
  match pattern, segments with
  | [], [] => Some ∅
  | p :: pattern, x :: segments =>
    ps ← match_segments pattern segments;
    if HasPrefix p ":" then Some (<[TrimPrefix p ":" := x]> ps)
    else if decide (p = x) then Some ps else None
  | _, _ => None
  end.

(** The segments of a registered path; echo puts the slash that it lacks. *)
Definition pattern_segments (pattern : string) : list string :=
  Split (if HasPrefix pattern "/" then pattern else "/" +:+ pattern) "/".

(** What the router promises is for plain tables and plain paths.  In a plain
    table a segment is a text or the name of a parameter, without wildcards and
    escapes, and no parameter is a leaf of the tree of routes (a leaf takes all
    that is left of the path): another route goes on where one ends in a
    parameter.  A plain path has no escapes and no empty segments. *)
Definition plain_segment (s : string) : Prop :=
  no_char ":" (TrimPrefix s ":") = true ∧ no_char "*" s = true ∧ no_char "\" s = true.

Definition goes_on (paths : list string) (pattern : string) : Prop :=
  match last (pattern_segments pattern) with
  | Some s => HasPrefix s ":" = true →
      Exists (λ q, pattern_segments pattern `prefix_of` pattern_segments q ∧
        length (pattern_segments pattern) < length (pattern_segments q)) paths
  | None => True
  end.

Definition plain_table (routes : list (string * string)) : Prop :=
  Forall (λ r, Forall plain_segment (pattern_segments r.2) ∧ goes_on routes.*2 r.2) routes.

Definition plain_text (s : string) : Prop :=
  s ≠ "" ∧ no_char "/" s = true ∧ no_char "%" s = true.

(** The documented behaviour of echo v4: what is found is registered for the
    method and matches; nothing is found only if no path registered for the
    method matches, and then the answer is 404, or 405 if the path is known for
    other methods, or for OPTIONS 204. *)
Class EchoRouterOk (ER : EchoRouter) : Prop := {
  find_route_sound : ∀ routes method segments i params,
    plain_table routes → segments ≠ [] → Forall plain_text segments →
    find_route routes method ("/" +:+ Join segments "/") = FoundRoute i params →
    ∃ pattern, routes !! i = Some (method, pattern) ∧
      match_segments (pattern_segments pattern) ("" :: segments) = Some params;
  find_route_complete : ∀ routes method segments status pattern,
    plain_table routes → segments ≠ [] → Forall plain_text segments →
    find_route routes method ("/" +:+ Join segments "/") = FoundNothing status →
    (method, pattern) ∈ routes →
    match_segments (pattern_segments pattern) ("" :: segments) = None;
  find_route_status : ∀ routes method path status,
    find_route routes method path = FoundNothing status →
    (status = 404 ∨ status = 405 ∨ status = 204 ∧ method = "OPTIONS")%Z;
}.

(** * The table of routes *)
Record HttpRoute := {
  rt_Method : string;
  rt_Path : string;
  rt_Handler : Request → Go HttpReply;
}.

Definition ACCESS_TOKEN_HEADER : string := "X-Access-Token".
Definition STREAM_TOKEN_HEADER : string := "X-Stream-Token".

Definition cors_config : CORSConfig :=
  {| AllowOrigins := ["http://localhost:3000"];
     AllowCredentials := true;
     AllowHeaders := ["Origin"; "Content-Type"; "Accept"; "Content-Disposition"; "Connection";
       "Cache-Control"; ACCESS_TOKEN_HEADER; STREAM_TOKEN_HEADER];
     ExposeHeaders := ["Content-Length"; "Content-Disposition"; "Content-Encoding"; "Content-Type";
       "Cache-Control"; "Connection"] |}.

Definition answers {D} (f : Reply D → HttpReply) (h : HandlerFunc D) : Request → Go HttpReply :=
  λ c, r ← h c; mret (f r).

Section server.
Context `{E : Env} `{MR : MapRange} `{SG : SliceGrowth} `{OS : OsEnv} `{EC : Echo}.
Context `{GC : Gob CacheMetadata} `{PF : Platform} `{LB : Libraries} `{ER : EchoRouter}.
Context (boot : time) (sv : Server).

Definition hello : HandlerFunc unit := λ _, mret (Text StatusOK "Hello, World!").

(** The headers of a stream of events. *)
Definition SetupSSEeventResponse : list (string * string) :=
  [("Content-Type", "text/event-stream"); ("Cache-Control", "no-cache"); ("Connection", "keep-alive")].

(** EstablishConnection, up to its connection; what the connection does from
    there is Sse.v. *)
Definition EstablishConnection : HandlerFunc unit := λ c,
  match rq_token c with
  | None => mret (NoContent StatusUnauthorized)
  | Some token =>
    mret (EventStream SetupSSEeventResponse (tok_ResourceID token) (QueryParam c "deviceID"))
  end.

(** The stores the services work with, and the queue of finished uploads. *)
Definition sv_tq : QueryMapper := repo_querier (am_repo (srv_authsvc sv)).
Definition sv_mq : QueryMapper := repo_querier (ms_repo (srv_filesvc sv)).
Definition sv_cq : QueryMapper := repo_querier (cs_repo (srv_chunkSvc sv)).
Definition sv_changes : Queuer := queue_of (ms_queue (srv_filesvc sv)).

Definition subscribe_devices : HandlerFunc unit :=
  ValidateAccessToken boot sv_tq EstablishConnection.

Definition routes : list HttpRoute :=
  [ {| rt_Method := "GET"; rt_Path := "arbokcore/ping"; rt_Handler := answers OfUnit hello |};
    {| rt_Method := "GET"; rt_Path := "/subscribe/devices";
       rt_Handler := answers OfUnit subscribe_devices |};
    {| rt_Method := "GET"; rt_Path := "/my/files/:fileID";
       rt_Handler := answers OfFile (get_file sv_mq sv_tq boot) |};
    {| rt_Method := "PATCH"; rt_Path := "/my/files/:fileID";
       rt_Handler := answers OfToken (patch_file sv_mq sv_tq boot) |};
    {| rt_Method := "POST"; rt_Path := "/my/files";
       rt_Handler := answers OfToken (post_file sv_mq sv_tq boot) |};
    {| rt_Method := "GET"; rt_Path := "/my/files";
       rt_Handler := answers OfList (list_files sv_mq sv_tq boot) |};
    {| rt_Method := "PUT"; rt_Path := "/my/files/:fileID/eof";
       rt_Handler := answers OfEof (put_eof (Q := sv_changes) sv_mq sv_tq boot) |};
    {| rt_Method := "PATCH"; rt_Path := "/my/files/:fileID/chunks";
       rt_Handler := answers OfChunk
         (patch_chunks sv_tq sv_cq boot (lf_dirPath (cs_storage (srv_chunkSvc sv)))) |};
    {| rt_Method := "PUT"; rt_Path := "/my/files/:fileID/share";
       rt_Handler := answers OfUnit (put_share sv_tq boot) |};
    {| rt_Method := "GET"; rt_Path := "/my/files/:fileID/download";
       rt_Handler := answers OfUnit (get_download sv_mq sv_tq boot cwd) |};
    {| rt_Method := "GET"; rt_Path := "/my/files/:fileID/v2/download";
       rt_Handler := answers OfUnit (get_download_v2 sv_mq sv_tq boot cwd) |} ].

(** * A request *)

(** The context of a new request. *)
Definition with_params (params : gmap string string) (c : Request) : Request :=
  {| rq_header := rq_header c; rq_query := rq_query c; rq_param := params; rq_token := None |}.

(** [middleware.Recover]: a handler that panics is answered with 500; what it
    did before stays. *)
Definition Recover (m : Go HttpReply) : Go HttpReply := λ w,
  match m w with
  | (Panics _, w') => (Ret (EchoStatus StatusInternalServerError), w')
  | r => r
  end.

Definition serve (req : HttpRequest) : Go HttpReply :=
  Recover
    (if cors_answers cors_config req then mret (EchoStatus 204%Z)
     else
       match find_route ((λ r, (rt_Method r, rt_Path r)) <$> routes) (hr_Method req) (hr_Path req) with
       | FoundNothing status => mret (EchoStatus status)
       | FoundRoute i params =>
         match routes !! i with
         | Some r => rt_Handler r (with_params params (hr_Request req))
         | None => mret (EchoStatus StatusNotFound)
         end
       end).

(** Requests one after the other; requests at the same time are in Interleave.v. *)
Fixpoint serve_all (reqs : list HttpRequest) : Go (list HttpReply) :=
  match reqs with
  | [] => mret []
  | req :: reqs => r ← serve req; rs ← serve_all reqs; mret (r :: rs)
  end.

End server.

(** The process: its start, then the requests. *)
Definition serve_from_start `{E : Env} `{MR : MapRange} `{SG : SliceGrowth} `{OS : OsEnv} `{EC : Echo}
    `{GC : Gob CacheMetadata} `{PF : Platform} `{LB : Libraries} `{ER : EchoRouter}
    (boot : time) (port : string) (reqs : list HttpRequest) : Cmd (list HttpReply) :=
  sv ← server_main port;
  on_world (serve_all boot sv reqs).

(** * Rules *)
Section rules.
Context `{E : Env} {EO : EnvOk E} `{MR : MapRange} `{SG : SliceGrowth} `{OS : OsEnv} `{EC : Echo}.
Context `{GC : Gob CacheMetadata} `{GE : Gob MetadataUpdateStatusEvent}.
Context `{PF : Platform} `{LB : Libraries} `{ER : EchoRouter}.
Context (boot : time) (sv : Server).
Implicit Types w : World.

(** The process never ends with a request: a panic is answered. *)
Lemma wp_Recover m w (Q : ret HttpReply → World → Prop) :
  wp m w (λ r w', match r with
                  | Ret a => Q (Ret a) w'
                  | Panics _ => Q (Ret (EchoStatus 500%Z)) w'
                  end) → wp (Recover m) w Q.
Proof. unfold wp, Recover. by destruct (m w) as [[]]. Qed.

Lemma wp_answers {D} (f : Reply D → HttpReply) h c w (Q : ret HttpReply → World → Prop) :
  wp (h c) w (λ r w', match r with
                      | Ret a => Q (Ret (f a)) w'
                      | Panics why => Q (Panics why) w'
                      end) → wp (answers f h c) w Q.
Proof.
  intros H. unfold answers. apply wp_bind. eapply wp_mono; [exact H |]. by intros [] w'.
Qed.

(** What a request does, in terms of what the handlers of the table do. *)
Lemma wp_serve req w (Q : ret HttpReply → World → Prop) :
  (∀ status, (status ∈ [204; 404]%Z ∨
      ∃ routes, find_route routes (hr_Method req) (hr_Path req) = FoundNothing status) →
     Q (Ret (EchoStatus status)) w) →
  (∀ i r params, routes boot sv !! i = Some r →
     find_route ((λ r, (rt_Method r, rt_Path r)) <$> routes boot sv) (hr_Method req) (hr_Path req)
       = FoundRoute i params →
     wp (rt_Handler r (with_params params (hr_Request req))) w (λ r w',
       match r with Ret a => Q (Ret a) w' | Panics _ => Q (Ret (EchoStatus 500%Z)) w' end)) →
  wp (serve boot sv req) w Q.
Proof.
  intros He Hr. unfold serve. apply wp_Recover. destruct (cors_answers _ _).
  { wp_step. apply He. left. by left. }
  destruct (find_route _ _ _) as [i params|status] eqn:Hfind.
  - destruct (routes boot sv !! i) as [r|] eqn:Hi; [by apply (Hr i) |].
    wp_step. apply He. left. right. by left.
  - wp_step. apply He. right. by eexists.
Qed.

(** The routes, one by one. *)
Lemma route_cases i r :
  routes boot sv !! i = Some r → foldr (λ r' P, r = r' ∨ P) False (routes boot sv).
Proof.
  intros Hi%list_elem_of_lookup_2. induction (routes boot sv) as [|r' l IH].
  - by apply elem_of_nil in Hi.
  - apply elem_of_cons in Hi as [->|Hi]; simpl; auto.
Qed.

Context (uq : QueryMapper) (notes : Queuer) (dir : list string).
Hypothesis Hdir : lf_dirPath (cs_storage (srv_chunkSvc sv)) = abs_path dir.

#[local] Abbreviation step :=
  (Lifecycle.step (sv_changes sv) notes (sv_mq sv) (sv_tq sv) (sv_cq sv) uq boot cwd dir).

Lemma step_after {A} (m : Go A) w : step w (after m w) → wp m w (λ _ w', rtc step w w').
Proof. apply rtc_once. Qed.

(** Every route is a step of the system. *)
Lemma route_step i r c w :
  routes boot sv !! i = Some r → wp (rt_Handler r c) w (λ _ w', rtc step w w').
Proof.
  assert (Hanswers : ∀ D (f : Reply D → HttpReply) h,
    wp (h c) w (λ _ w', rtc step w w') → wp (answers f h c) w (λ _ w', rtc step w w')).
  { intros D f h H. apply wp_answers. eapply wp_mono; [exact H |]. by intros [] w' Hw'. }
  intros Hi%route_cases.
  cbn [routes foldr] in Hi. destruct_or! Hi; subst r; apply Hanswers.
  - by apply rtc_refl.
  - unfold subscribe_devices. apply wp_ValidateAccessToken.
    + intros status w' Hl%later_db _. by apply rtc_once, Lifecycle.Outside.
    + intros token header w1 n Hl%later_db _ _ _ _ _. by apply rtc_once, Lifecycle.Outside.
  - apply step_after, Lifecycle.GetFile.
  - apply step_after, Lifecycle.PatchFile.
  - apply step_after, Lifecycle.PostFile.
  - apply step_after, Lifecycle.ListFiles.
  - apply step_after, Lifecycle.PutEof.
  - rewrite Hdir. apply step_after, Lifecycle.PatchChunks.
  - apply step_after, Lifecycle.PutShare.
  - apply step_after, Lifecycle.GetDownload.
  - apply step_after, Lifecycle.GetDownloadV2.
Qed.

Lemma serve_steps req w : wp (serve boot sv req) w (λ _ w', rtc step w w').
Proof.
  apply wp_serve; [done |]. intros i r params Hi _.
  eapply wp_mono; [by eapply route_step |]. by intros [].
Qed.

Lemma serve_all_steps reqs w : wp (serve_all boot sv reqs) w (λ _ w', rtc step w w').
Proof.
  revert w. induction reqs as [|req reqs IH]; intros w; [by apply rtc_refl |].
  cbn [serve_all]. wp_step. eapply wp_mono; [apply serve_steps |].
  intros [r|why] w1 H1; [| done]. wp_step. eapply wp_mono; [apply IH |].
  intros [rs|why] w2 H2; [wp_step |]; by etrans.
Qed.

End rules.

(** * What a request has to carry *)
Section credentials.
Context `{E : Env} (boot : time).

(** The texts a request can give as an access token: in the header, in the
    query, in the signature token of a download. *)
Definition secrets (c : Request) : list string :=
  default [] (rq_header c !! AccessTokenHeaderKey) ++ [QueryParam c AccessTokenHeaderKey] ++
  ((λ s, Sprintf DownloadTokenHeader [AStr s]) <$> Split (QueryParam c "X-Sig-Token") ":").

(** One of them is the secret of a built-in token, which is alive. *)
Definition access_credential (c : Request) (w : World) : Prop :=
  ∃ token header n, (token = AdminToken boot ∨ token = AnotherToken boot) ∧
    header ∈ secrets c ∧ getBearerToken header = Some (tok_AccessToken token) ∧
    w_tick w ≤ n ∧ (now_at n ≤ builtin_expiry boot)%Z.

(** The stream header holds the secret of a row of the tokens table, which is
    for the file named and alive. *)
Definition stream_credential (c : Request) (w : World) : Prop :=
  ∃ token n, token ∈ db_tokens (w_db w) ∧
    getBearerToken (Header_Get c StreamTokenHeaderKey) = Some (tok_AccessToken token) ∧
    tok_ResourceID token = named_file c ∧ tok_ResouceType token = ResourceTypeStream ∧
    w_tick w ≤ n ∧ (now_at n ≤ tok_AccessExpiresAt token)%Z.

(** The two paths on which a client sends a file ask for the token of the file,
    the others for that of the user. *)
Definition credential_for (pattern : string) (c : Request) (w : World) : Prop :=
  if decide (pattern ∈ ["/my/files/:fileID/eof"; "/my/files/:fileID/chunks"])
  then stream_credential c w else access_credential c w.

(** The answers that say nothing of what is stored. *)
Definition refused (r : HttpReply) : Prop :=
  reply_status r ∈ [204; 400; 401; 404; 405; 500]%Z ∨ r = OfUnit (Text StatusOK "Hello, World!").

End credentials.

Section closed.
Context `{E : Env} {EO : EnvOk E} `{MR : MapRange} `{SG : SliceGrowth} `{OS : OsEnv} `{EC : Echo}.
Context `{GC : Gob CacheMetadata} `{PF : Platform} `{LB : Libraries} `{ER : EchoRouter}.
Context (boot : time) (sv : Server).
Implicit Types w : World.

(** Either nothing is done or told, or the request carried the credential that
    the path asks for. *)
Definition closed_to (pattern : string) (c : Request) w (r : ret HttpReply) w' : Prop :=
  match r with Ret a => refused a | Panics _ => True end ∧ later w w' ∨
  credential_for boot pattern c w.

Lemma secrets_header c header :
  header = Header_Get c AccessTokenHeaderKey ∨
    Header_Get c AccessTokenHeaderKey = "" ∧ header = QueryParam c AccessTokenHeaderKey →
  (∃ secret, getBearerToken header = Some secret) → header ∈ secrets c.
Proof.
  unfold secrets, Header_Get. intros [->|[_ ->]] [secret Hb].
  - destruct (rq_header c !! _) as [[|v l]|]; [done | by left | done].
  - apply elem_of_app. right. by left.
Qed.

Lemma index_elem {A} (l : list A) i x : index l i = Ret x → x ∈ l.
Proof.
  unfold index. case_decide; [| done]. destruct (l !! Z.to_nat i) eqn:Hi; [| done].
  intros [= ->]. by eapply list_elem_of_lookup_2.
Qed.

Lemma closed_answers {D} (f : Reply D → HttpReply) h p c w :
  wp (h c) w (λ r w',
    closed_to p c w (match r with Ret a => Ret (f a) | Panics why => Panics why end) w') →
  wp (answers f h c) w (closed_to p c w).
Proof. intros H. apply wp_answers. eapply wp_mono; [exact H |]. by intros []. Qed.

(** Behind ValidateAccessToken, for a request made of [c]. *)
Lemma closed_access {D} (f : Reply D → HttpReply) next p c c' w :
  p ∉ ["/my/files/:fileID/eof"; "/my/files/:fileID/chunks"] →
  (∀ r, reply_status (f r) = status_of r) → (∀ header, header ∈ secrets c' → header ∈ secrets c) →
  wp (ValidateAccessToken boot (sv_tq sv) next c') w (λ r w',
    closed_to p c w (match r with Ret a => Ret (f a) | Panics why => Panics why end) w').
Proof.
  intros Hp Hf Hs. apply wp_ValidateAccessToken.
  - intros status w' Hl Hst. left. split; [| done]. left. rewrite Hf. simpl.
    destruct Hst as [-> | ->]; by apply (bool_decide_unpack _).
  - intros token header w1 n Hl Ht Hh Hb Hn Hexp. apply wp_self. intros r w' _. right.
    unfold credential_for. rewrite decide_False by done. exists token, header, n. split_and!; [done | | done..].
    apply Hs, secrets_header; eauto.
Qed.

(** The header a download's signature token becomes is one of its texts. *)
Lemma secrets_added c first second header :
  second ∈ Split (QueryParam c "X-Sig-Token") ":" →
  header ∈ secrets (Header_Add DownloadTokenHeaderAuthKey first
    (Header_Add AccessTokenHeaderKey (Sprintf DownloadTokenHeader [AStr second]) c)) →
  header ∈ secrets c.
Proof.
  intros Hs. unfold secrets, Header_Add. cbn [rq_header rq_query].
  change (QueryParam {| rq_header := ?h; rq_query := rq_query c; rq_param := ?p; rq_token := ?t |})
    with (QueryParam c).
  rewrite lookup_insert_ne by done. rewrite lookup_insert_eq. simpl.
  rewrite !elem_of_app, !list_elem_of_singleton. intros [[Hh| ->]|Hh]; [by left | | by right].
  right. right. apply list_elem_of_fmap. by exists second.
Qed.

Lemma closed_download (f : Reply unit → HttpReply) next p c w :
  p ∉ ["/my/files/:fileID/eof"; "/my/files/:fileID/chunks"] →
  (∀ r, reply_status (f r) = status_of r) →
  wp (AddTokenFromUrlToHeader (ValidateAccessToken boot (sv_tq sv) next) c) w (λ r w',
    closed_to p c w (match r with Ret a => Ret (f a) | Panics why => Panics why end) w').
Proof.
  intros Hp Hf. unfold AddTokenFromUrlToHeader. cbv zeta.
  set (splits := Split _ _).
  wp_step. wp_step. destruct (index splits 0) as [first|why]; [| left; auto using later_refl].
  wp_step. wp_step. destruct (index splits 1) as [second|why] eqn:H1; [| left; auto using later_refl].
  case_decide; apply closed_access; [done | done | done | done | done |].
  intros header. by eapply secrets_added, index_elem.
Qed.

Lemma closed_stream {D} (f : Reply D → HttpReply) next p c w :
  p ∈ ["/my/files/:fileID/eof"; "/my/files/:fileID/chunks"] →
  (∀ r, reply_status (f r) = status_of r) →
  wp (ValidateStreamToken boot (sv_tq sv) next c) w (λ r w',
    closed_to p c w (match r with Ret a => Ret (f a) | Panics why => Panics why end) w').
Proof.
  intros Hp Hf. apply wp_ValidateStreamToken.
  - intros status w' Hl Hst. left. split; [| done]. left. rewrite Hf. simpl.
    destruct Hst as [-> | ->]; by apply (bool_decide_unpack _).
  - intros token device w1 n Hl Hin Hs Hr _ Hty Hn Hexp. apply wp_self. intros r w' _.
    right. unfold credential_for. rewrite decide_True by done. by exists token, n.
Qed.

Lemma route_closed i r c w :
  routes boot sv !! i = Some r → wp (rt_Handler r c) w (closed_to (rt_Path r) c w).
Proof.
  intros Hi%route_cases. cbn [routes foldr] in Hi.
  destruct_or! Hi; subst r; apply closed_answers; cbn [rt_Path];
    first [ apply closed_access; [by apply (bool_decide_unpack _) | done | done]
          | apply closed_download; [by apply (bool_decide_unpack _) | done]
          | apply closed_stream; [by apply (bool_decide_unpack _) | done]
          | idtac ].
  left. split; [by right | apply later_refl].
Qed.

End closed.

(** The directory of the chunks, under the working directory. *)
Lemma plan_dirPath `{PF : Platform} `{LB : Libraries} port fs sv comps :
  server_plan port fs = Some sv → cwd = abs_path comps → comps ≠ [] →
  Forall (λ c, plain c = true) comps →
  lf_dirPath (cs_storage (srv_chunkSvc sv)) = abs_path (comps ++ ["tmp"; "arbokdata"]).
Proof.
  unfold server_plan. intros H Hcwd Hne Hplain. unpack H.
  cbn [lf_dirPath cs_storage kh_ChunkSvc srv_chunkHandler srv_chunkSvc].
  rewrite Hcwd. change (filepath_Join [abs_path comps; "./tmp/arbokdata"])
    with (if decide (abs_path comps = "") then "./tmp/arbokdata"
          else Clean (abs_path comps +:+ "/" +:+ "./tmp/arbokdata")).
  rewrite decide_False by by destruct comps. unfold abs_path at 1.
  change (Join ("" :: comps) "/" +:+ "/" +:+ "./tmp/arbokdata")
    with (Join ("" :: comps) "/" +:+ "/" +:+ Join ["."; "tmp"; "arbokdata"] "/").
  rewrite <- Join_app by done.
  rewrite <- (Clean_abs (comps ++ ["tmp"; "arbokdata"])).
  2: by destruct comps.
  2: by apply Forall_app; split; [| repeat constructor].
  unfold Clean, abs_path.
  assert (Hs : ∀ l, Forall (λ c, no_char "/" c = true) l → Split (Join ("" :: comps ++ l) "/") "/"
    = "" :: comps ++ l).
  { intros l Hl. apply Split_Join; [done |]. constructor; [done |]. apply Forall_app. split; [| done].
    eapply Forall_impl; [done |]. by intros c [? _]%plain_spec. }
  rewrite <- app_comm_cons, !Hs by by repeat constructor.
  assert (Hroot : ∀ l, HasPrefix (Join ("" :: comps ++ l) "/") "/" = true).
  { intros l. rewrite Join_cons by by destruct comps. simpl. by destruct (Join _ _). }
  rewrite !Hroot. cbn [foldl]. by rewrite !foldl_app, !(clean_plain _ comps).
Qed.

(** * Finding the way *)

(** The methods and paths of the table. *)
Definition route_table : list (string * string) :=
  [("GET", "arbokcore/ping"); ("GET", "/subscribe/devices"); ("GET", "/my/files/:fileID");
   ("PATCH", "/my/files/:fileID"); ("POST", "/my/files"); ("GET", "/my/files");
   ("PUT", "/my/files/:fileID/eof"); ("PATCH", "/my/files/:fileID/chunks");
   ("PUT", "/my/files/:fileID/share"); ("GET", "/my/files/:fileID/download");
   ("GET", "/my/files/:fileID/v2/download")].

(** The interface a client sees: the handler for a method and the segments of a
    path, with the parameters it is given. *)
Section interface.
Context `{E : Env} `{MR : MapRange} `{SG : SliceGrowth} `{OS : OsEnv} `{EC : Echo}.
Context `{GC : Gob CacheMetadata} `{LB : Libraries} (boot : time) (sv : Server).

#[local] Abbreviation H := (option (gmap string string * (Request → Go HttpReply))).

Definition endpoint_fixed (method a b : string) : H :=
  if decide ((method, a, b) = ("GET", "arbokcore", "ping")) then Some (∅, answers OfUnit hello)
  else if decide ((method, a, b) = ("GET", "subscribe", "devices"))
  then Some (∅, answers OfUnit (subscribe_devices boot sv))
  else if decide ((method, a, b) = ("POST", "my", "files"))
  then Some (∅, answers OfToken (post_file (sv_mq sv) (sv_tq sv) boot))
  else if decide ((method, a, b) = ("GET", "my", "files"))
  then Some (∅, answers OfList (list_files (sv_mq sv) (sv_tq sv) boot))
  else None.

Definition endpoint_of_file (method : string) (rest : list string) : option (Request → Go HttpReply) :=
  if decide ((method, rest) = ("GET", []))
  then Some (answers OfFile (get_file (sv_mq sv) (sv_tq sv) boot))
  else if decide ((method, rest) = ("PATCH", []))
  then Some (answers OfToken (patch_file (sv_mq sv) (sv_tq sv) boot))
  else if decide ((method, rest) = ("PUT", ["eof"]))
  then Some (answers OfEof (put_eof (Q := sv_changes sv) (sv_mq sv) (sv_tq sv) boot))
  else if decide ((method, rest) = ("PATCH", ["chunks"]))
  then Some (answers OfChunk
    (patch_chunks (sv_tq sv) (sv_cq sv) boot (lf_dirPath (cs_storage (srv_chunkSvc sv)))))
  else if decide ((method, rest) = ("PUT", ["share"]))
  then Some (answers OfUnit (put_share (sv_tq sv) boot))
  else if decide ((method, rest) = ("GET", ["download"]))
  then Some (answers OfUnit (get_download (sv_mq sv) (sv_tq sv) boot cwd))
  else if decide ((method, rest) = ("GET", ["v2"; "download"]))
  then Some (answers OfUnit (get_download_v2 (sv_mq sv) (sv_tq sv) boot cwd))
  else None.

Definition endpoint (method : string) (segments : list string) : H :=
  match segments with
  | [a; b] => endpoint_fixed method a b
  | a :: b :: file :: rest =>
    if decide ((a, b) = ("my", "files"))
    then (λ h, ({["fileID" := file]}, h)) <$> endpoint_of_file method rest
    else None
  | _ => None
  end.

Lemma routes_table : (λ r, (rt_Method r, rt_Path r)) <$> routes boot sv = route_table.
Proof. reflexivity. Qed.

(** Evaluates what is closed, and splits on what is not. *)
Ltac match_step H :=
  match type of H with
  | context [pattern_segments ?p] =>
    let v := eval vm_compute in (pattern_segments p) in change (pattern_segments p) with v in H
  | context [HasPrefix ?a ?b] =>
    let v := eval vm_compute in (HasPrefix a b) in change (HasPrefix a b) with v in H
  | context [TrimPrefix ?a ?b] =>
    let v := eval vm_compute in (TrimPrefix a b) in change (TrimPrefix a b) with v in H
  | context [decide (?x = ?y)] => destruct (decide (x = y)) as [<-|]; [| try discriminate H]
  end.

(** A route that matches is the one of the interface. *)
Ltac each_route i Hi Hr :=
  destruct i as [|i]; [injection Hi as <- <-; injection Hr as <- | first [done | each_route i Hi Hr]].

Lemma table_endpoint i m p r segments params :
  route_table !! i = Some (m, p) → routes boot sv !! i = Some r →
  match_segments (pattern_segments p) ("" :: segments) = Some params →
  endpoint m segments = Some (params, rt_Handler r).
Proof.
  intros Hi Hr Hm. unfold route_table in Hi.
  each_route i Hi Hr; cbn [rt_Handler]; match_step Hm;
    destruct segments as [|a [|b [|v [|x [|y [|z rest]]]]]];
    repeat (try match_step Hm; cbn [match_segments mbind option_bind] in Hm); try discriminate Hm;
    injection Hm as <-; reflexivity.
Qed.

(** Where no route matches, the interface has nothing. *)
Lemma table_no_endpoint m segments :
  (∀ p, (m, p) ∈ route_table → match_segments (pattern_segments p) ("" :: segments) = None) →
  endpoint m segments = None.
Proof.
  intros Hnone.
  assert (Hno : ∀ p params, bool_decide ((m, p) ∈ route_table) = true →
    match_segments (pattern_segments p) ("" :: segments) = Some params → False).
  { intros p params Hp%bool_decide_eq_true Hm. by rewrite Hnone in Hm. }
  unfold endpoint, endpoint_fixed, endpoint_of_file.
  destruct segments as [|a [|b [|v rest]]]; try done; repeat case_decide; simplify_eq; try done; exfalso.
  all: first [ by eapply (Hno "arbokcore/ping") | by eapply (Hno "/subscribe/devices")
             | by eapply (Hno "/my/files") | by eapply (Hno "/my/files/:fileID")
             | by eapply (Hno "/my/files/:fileID/eof") | by eapply (Hno "/my/files/:fileID/chunks")
             | by eapply (Hno "/my/files/:fileID/share") | by eapply (Hno "/my/files/:fileID/download")
             | by eapply (Hno "/my/files/:fileID/v2/download") ].
Qed.

#[global] Instance plain_segment_dec s : Decision (plain_segment s).
Proof. unfold plain_segment. apply _. Defined.
#[global] Instance goes_on_dec paths p : Decision (goes_on paths p).
Proof. unfold goes_on. destruct (last (pattern_segments p)); apply _. Defined.
#[global] Instance plain_table_dec l : Decision (plain_table l).
Proof. unfold plain_table. apply _. Defined.

(** The router's promise holds for the table of the server. *)
Lemma route_table_plain : plain_table route_table.
Proof. by apply (bool_decide_unpack _). Qed.

End interface.

(** * Properties *)


(** A router that takes the first route that matches. *)
Definition match_path (pattern path : string) : option (gmap string string) :=
  match_segments (pattern_segments pattern) (Split path "/").

Definition first_match (routes : list (string * string)) (method path : string) : Found :=
  match list_find (λ r, r.1 = method ∧ match_path r.2 path ≠ None) routes with
  | Some (i, r) => match match_path r.2 path with Some ps => FoundRoute i ps | None => FoundNothing 404 end
  | None => FoundNothing (if decide (Exists (λ r, match_path r.2 path ≠ None) routes) then 405 else 404)
  end.

Definition sample_router : EchoRouter :=
  {| find_route := first_match;
     cors_answers _ req := bool_decide (hr_Method req = "OPTIONS") |}.

Lemma Split_segments segments :
  segments ≠ [] → Forall plain_text segments →
  Split ("/" +:+ Join segments "/") "/" = "" :: segments.
Proof.
  intros Hne Hs. change ("/" +:+ Join segments "/") with ("" +:+ "/" +:+ Join segments "/").
  rewrite <- Join_cons by done.
  apply Split_Join; [done |]. constructor; [done |].
  eapply Forall_impl; [exact Hs |]. by intros s (_ & ? & _).
Qed.

#[global] Instance sample_router_ok : EchoRouterOk sample_router.
Proof.
  split; [intros routes method segments i params _ Hne Hs | intros routes method segments status p _ Hne Hs
         | intros routes method path status]; cbn [find_route sample_router];
    unfold first_match, match_path; rewrite ?(Split_segments segments Hne Hs).
  - destruct (list_find _ _) as [[j [m pat]]|] eqn:Hfind; [| done].
    apply list_find_Some in Hfind as (Hj & (Hm & _) & _). simpl in Hm, Hj |- *.
    destruct (match_segments _ _) eqn:Hp; [| done]. intros [= <- <-]. exists pat. by rewrite Hm in Hj.
  - destruct (list_find _ _) as [[j [m pat]]|] eqn:Hfind.
    + apply list_find_Some in Hfind as (_ & (_ & Hm) & _). simpl in Hm |- *.
      by destruct (match_segments (pattern_segments pat) _).
    + apply list_find_None in Hfind. intros _ Hin. rewrite Forall_forall in Hfind.
      destruct (match_segments (pattern_segments p) _) eqn:Hp; [| done].
      destruct (Hfind _ Hin). split; [done |]. simpl. by rewrite Hp.
  - destruct (list_find _ _) as [[j [m pat]]|].
    + destruct (match_segments _ _); intros [= <-]; by left.
    + case_decide; intros [= <-]; auto.
Qed.

(** A client without a token asks for the record of a file. *)
Definition sample_server : Server :=
  let db := ConnectSqlite "arbok.db" in
  {| srv_Addr := ":9191";
     srv_authsvc := NewAuthMiddleWareService (NewTokensRepository db tokensQs);
     srv_metadataHandler :=
       {| mh_FileSvc := NewMetadataService (NewMetadataRepository db metadataQueryStore)
            (NewMetadataTokenRepository db metadataQueryStore tokensQs)
            (NewRedisQ "localhost" MetadataFileUpdateQueue 20);
          mh_Downloader := NewDownloadHandler "localhost" |};
     srv_chunkHandler :=
       {| kh_ChunkSvc := NewFileChunkService (NewUserFileRespository db chunkQs)
            {| lf_dirPath := "/srv/tmp/arbokdata" |} |};
     srv_sseHandler :=
       {| sh_subscriber := NewSSEBroker;
          sh_syncer := NewFileUpdateSyncBroker "update_syncer"
            (NewMetadataNotifier (NewRedisQ "localhost" MetadataUpdateClientsNotifierQueue 1))
            NewSSEBroker |} |}.

Definition sample_http (method path header : string) : HttpRequest :=
  {| hr_Method := method; hr_Path := path; hr_Request := sample_get header |}.

Definition sample_serve : HttpRequest → Go HttpReply :=
  serve (E := quiet_env) (MR := list_range) (SG := doubling_growth) (OS := sample_os)
    (EC := sample_echo_upload) (GC := cache_gob) (LB := sample_libraries) (ER := sample_router)
    0%Z sample_server.


(** (C9) The server stays within the histories of the system.  From its start
    on the disk at hand, whatever requests follow and whatever fails, what
    happens to the world is a sequence of the operations of Lifecycle.v, with
    the stores, the queue and the directory the start built; so the tables keep
    their type and their rows. *)
Theorem server_refines `{E : Env} {EO : EnvOk E} `{MR : MapRange} `{SG : SliceGrowth} `{OS : OsEnv}
    `{EC : Echo} `{GC : Gob CacheMetadata} `{GE : Gob MetadataUpdateStatusEvent} `{PF : Platform}
    `{LB : Libraries} `{ER : EchoRouter} boot port uq notes reqs sv comps s :
  server_plan port (w_fs (site_world s)) = Some sv →
  cwd = abs_path comps → comps ≠ [] → Forall (λ c, plain c = true) comps →
  wp (serve_from_start boot port reqs) s (λ _ s',
    rtc (Lifecycle.step (sv_changes sv) notes (sv_mq sv) (sv_tq sv) (sv_cq sv) uq boot cwd
           (comps ++ ["tmp"; "arbokdata"])) (site_world s) (site_world s') ∧
    site_dbs s' = site_dbs s).
Proof.
  intros Hplan Hcwd Hne Hplain.
  set (step := Lifecycle.step _ _ _ _ _ _ _ _ _).
  assert (Hpass : ∀ s1, passes s s1 →
    rtc step (site_world s) (site_world s1) ∧ site_dbs s1 = site_dbs s).
  { intros s1 (w & Hl%later_db & ->). split; [| done]. by apply rtc_once, Lifecycle.Outside. }
  unfold serve_from_start. wp_step. eapply starts_wp; [apply starts_server_main | |].
  - intros sv' s1 [H1 H2]%Hpass Hsv. rewrite Hplan in Hsv. injection Hsv as <-.
    apply wp_on_world. eapply wp_mono; [apply (serve_all_steps boot sv uq notes) |].
    + by eapply plan_dirPath.
    + intros r w Hw. split; [by etrans | done].
  - intros why s1 Hs1 _. by apply Hpass.
Qed.

(** The server of the repository's files, asked to announce a file. *)
Definition announcing : HttpRequest := sample_http "POST" "/my/files" "Bearer trial_access_token".

Definition sample_process (s : Site) : ret (list HttpReply) * Site :=
  serve_from_start (E := quiet_env) (MR := list_range) (SG := doubling_growth) (OS := sample_os)
    (EC := sample_echo_upload) (GC := cache_gob) (PF := sample_platform) (LB := sample_libraries)
    (ER := sample_router) 0%Z "9191" [announcing] s.

Lemma server_refines_witness :
  phase_of <$> db_file_metadatas (w_db (site_world (sample_process repository_site).2)) = [Some Uploading] ∧
  ∃ sv, server_plan (PF := sample_platform) (LB := sample_libraries) "9191"
      (w_fs (site_world repository_site)) = Some sv ∧
    rtc (Lifecycle.step (E := quiet_env) (MR := list_range) (SG := doubling_growth) (OS := sample_os)
           (EC := sample_echo_upload) (GC := cache_gob) (GE := event_gob)
           (sv_changes (E := quiet_env) sv) (RedisQ (E := quiet_env) MetadataUpdateClientsNotifierQueue)
           (sv_mq sv) (sv_tq sv) (sv_cq sv) usersQs 0%Z "/srv" ["srv"; "tmp"; "arbokdata"])
      (site_world repository_site) (site_world (sample_process repository_site).2).
Proof.
  split; [by vm_compute |].
  destruct (server_plan (PF := sample_platform) (LB := sample_libraries) "9191"
    (w_fs (site_world repository_site))) as [sv|] eqn:Hplan; [| by vm_compute in Hplan].
  exists sv. split; [done |].
  refine (proj1 (server_refines (E := quiet_env) (MR := list_range) (SG := doubling_growth)
    (OS := sample_os) (EC := sample_echo_upload) (GC := cache_gob) (GE := event_gob)
    (PF := sample_platform) (LB := sample_libraries) (ER := sample_router) 0%Z "9191" usersQs
    (RedisQ (E := quiet_env) MetadataUpdateClientsNotifierQueue) [announcing] sv ["srv"]
    repository_site Hplan _ _ _)); [done | done | by repeat constructor].
Defined.

(** (C28) The server answers exactly its interface.  For every method and every
    path, in segments that are not empty and have no escapes, that the
    middleware for CORS does not answer itself: if the interface has a handler
    for them, the request is what this handler, behind its middlewares, does
    with the parameters of the path, a panic being answered with 500; otherwise
    the answer is 404, 405, or 204 to OPTIONS, and nothing is done. *)
Theorem server_dispatches `{E : Env} `{MR : MapRange} `{SG : SliceGrowth} `{OS : OsEnv} `{EC : Echo}
    `{GC : Gob CacheMetadata} `{LB : Libraries} `{ER : EchoRouter} {ERO : EchoRouterOk ER}
    boot sv method segments c w :
  let req := {| hr_Method := method; hr_Path := "/" +:+ Join segments "/"; hr_Request := c |} in
  segments ≠ [] → Forall plain_text segments → cors_answers cors_config req = false →
  match endpoint boot sv method segments with
  | Some (params, handler) => serve boot sv req w = Recover (handler (with_params params c)) w
  | None => ∃ status, (status = 404 ∨ status = 405 ∨ status = 204 ∧ method = "OPTIONS")%Z ∧
      serve boot sv req w = (Ret (EchoStatus status), w)
  end.
Proof.
  intros req Hne Hs Hcors. unfold serve. rewrite Hcors, routes_table. cbn [hr_Method hr_Path req].
  destruct (find_route route_table method _) as [i params|status] eqn:Hfind.
  - apply find_route_sound in Hfind as (p & Hi & Hm); [| apply route_table_plain | done..].
    assert (Hr : (λ r, (rt_Method r, rt_Path r)) <$> routes boot sv !! i = Some (method, p))
      by by rewrite <- list_lookup_fmap, routes_table.
    destruct (routes boot sv !! i) as [r|] eqn:Hri; [| done].
    by rewrite (table_endpoint boot sv i method p r segments params Hi Hri Hm).
  - rewrite table_no_endpoint.
    + exists status. split; [by eapply find_route_status | done].
    + intros p Hp. by eapply find_route_complete; [apply route_table_plain | ..].
Qed.

Lemma server_dispatches_witness :
  sample_serve (sample_http "PUT" "/my/files/F1/share" "Bearer trial_access_token") sample_world
  = Recover (answers OfUnit (put_share (E := quiet_env) tokensQs 0%Z)
      (with_params {["fileID" := "F1"]} (sample_get "Bearer trial_access_token"))) sample_world ∧
  (sample_serve (sample_http "PUT" "/my/files/F1/share" "Bearer trial_access_token") sample_world).1
  = Ret (OfUnit (NoContent 403)).
Proof.
  split; [| by vm_compute].
  apply (server_dispatches (E := quiet_env) (MR := list_range) (SG := doubling_growth)
    (OS := sample_os) (EC := sample_echo_upload) (GC := cache_gob) (LB := sample_libraries)
    (ER := sample_router) 0%Z sample_server "PUT" ["my"; "files"; "F1"; "share"]
    (sample_get "Bearer trial_access_token") sample_world);
    [done | by repeat constructor | done].
Defined.
