(* ===== verification/Interleave.v ===== *)
(** Everything at once: any number of requests to the server, jobs of the
    worker and calls of the account services, each a process of actions
    (Proc.v), the actions of different processes in any order.  A process may
    be cut off between two actions (its request is cancelled, the machine
    stops), and anything outside may change what is not in the tables. *)
From S2P Require Import Prelude GoStd Api Model World Squirtle Queries.
From S2P Require Import Tokens FilesRepo Queue Gob FilesInfo FilesService Blob.
From S2P Require Import Transfer Changelog Users Auth Proc Routes Lifecycle Action Cuts.
From S2P Require Import Startup Server.

(** * The requests of the server *)

Section requests.
Context `{E : Env} {EO : EnvOk E} `{MR : MapRange} `{SG : SliceGrowth} `{OS : OsEnv} `{EC : Echo}.
Context `{GC : Gob CacheMetadata} `{LB : Libraries} `{ER : EchoRouter}.
Context (boot : time) (sv : Server).

#[local] Abbreviation top := (λ _ : DB, True).

Definition cut_answers {D} (f : Reply D → HttpReply) (h : HandlerFunc D) c
    (H : Cut (h c) top (λ _, top)) : Cut (answers f h c) top (λ _, top).
Proof. unfold answers. cut_go. Defined.

Definition cut_subscribe_devices c : Cut (subscribe_devices boot sv c) top (λ _, top).
Proof.
  apply cut_ValidateAccessToken; [auto with cut |]. intros token.
  unfold Server.EstablishConnection. cut_go.
Defined.

(** The handler of a panic runs in the process that panicked. *)
Fixpoint recoverP (p : Proc HttpReply) : Proc HttpReply :=
  match p with
  | Done (Panics _) => Done (Ret (EchoStatus StatusInternalServerError))
  | Done r => Done r
  | Act m a k => Act m a (λ r, recoverP (k r))
  end.

Lemma run_recoverP p w : run (recoverP p) w = Recover (run p) w.
Proof.
  revert w. induction p as [[a|why]|X m a k IH]; intros w; [done.. |].
  simpl. rewrite IH. done.
Qed.

Definition cut_Recover (m : Go HttpReply) (c : Cut m top (λ _, top)) : Cut (Recover m) top (λ _, top).
Proof.
  refine {| pieces := recoverP (pieces c) |}.
  - intros w. rewrite run_recoverP. unfold Recover. by rewrite (run_pieces _ _ _ c).
  - intros d Hd. pose proof (pieces_guarantee _ _ _ c d Hd) as Hc. revert d Hd Hc.
    induction (pieces c) as [[a|why]|X m' a k IH]; intros d Hd Hc; [done.. |].
    intros w He Ht. destruct (Hc w He Ht) as [Hs Hk]. auto.
Defined.

(** The routes one by one. *)
Ltac each_route i Hi :=
  first [ discriminate Hi
        | destruct i as [|i]; [injection Hi as <-; apply cut_answers | each_route i Hi] ].

Definition cut_route i r c (Hi : routes boot sv !! i = Some r) : Cut (rt_Handler r c) top (λ _, top).
Proof.
  each_route i Hi.
  - apply cut_ret. done.
  - apply cut_subscribe_devices.
  - apply cut_get_file. auto with cut.
  - apply cut_patch_file. auto with cut.
  - apply cut_post_file. auto with cut.
  - apply cut_list_files. auto with cut.
  - apply cut_put_eof; auto with cut. apply RedisQ_ok.
  - apply cut_patch_chunks. auto with cut.
  - apply cut_put_share. auto with cut.
  - apply cut_get_download. auto with cut.
  - apply cut_get_download_v2. auto with cut.
Defined.

Definition cut_serve req : Cut (serve boot sv req) top (λ _, top).
Proof.
  unfold serve. apply cut_Recover. cut_step; [cut_go |]. cut_step; [| cut_go].
  destruct (routes boot sv !! _) as [r|] eqn:Hi; [| cut_go]. by eapply cut_route.
Defined.

End requests.

(** * The operations and their processes *)

Inductive Op :=
| Request (req : HttpRequest)
| Batch (payloads : list Payload)
| Reconciler
| Session (id : string) (user : option string)
| Account (email password : string).

Section system.
Context `{E : Env} {EO : EnvOk E} `{MR : MapRange} `{SG : SliceGrowth} `{OS : OsEnv} `{EC : Echo}.
Context `{GC : Gob CacheMetadata} `{GE : Gob MetadataUpdateStatusEvent} `{LB : Libraries} `{ER : EchoRouter}.
Context (boot : time) (sv : Server) (uq : QueryMapper) (notes : Queuer) {QN : QueuerOk notes}.

Definition op_result (o : Op) : Type :=
  match o with
  | Request _ => HttpReply
  | Batch _ => option (error + PartialError)
  | Reconciler => option error
  | Session _ _ | Account _ _ => res Token
  end.

Definition op_code (o : Op) : Go (op_result o) :=
  match o with
  | Request req => serve boot sv req
  | Batch payloads => Execute (Q := notes) (sv_mq sv) (sv_cq sv) payloads
  | Reconciler => ManualChunkMetadataReconciler (sv_mq sv) (sv_cq sv)
  | Session id user => CreateSession (sv_tq sv) id ResourceTypeUser user
  | Account email password => UserService_Create boot uq email password
  end.

#[local] Abbreviation top := (λ _ : DB, True).

Definition op_cut (o : Op) : Cut (op_code o) top (λ _, top).
Proof.
  destruct o as [req|payloads| |id user|email password]; cbn [op_code].
  - apply cut_serve.
  - apply cut_Execute; auto with cut.
  - apply cut_ManualChunkMetadataReconciler; auto with cut.
  - apply cut_CreateSession; auto with cut.
  - apply cut_UserService_Create; auto with cut.
Defined.

(** * The system *)

Record Running := { rn_type : Type; rn_proc : Proc rn_type }.

Definition running {A} (p : Proc A) : Running := {| rn_type := A; rn_proc := p |}.

(** A process that has ended. *)
Definition finished (p : Running) : bool := match rn_proc p with Done _ => true | _ => false end.

Record Conc := { cc_world : World; cc_running : list Running }.

Inductive Event :=
| Starts (o : Op)
| Acts (i : nat)
| CutOff (i : nat)
| Outside (w : World).

Definition conc_step (e : Event) (c : Conc) : option Conc :=
  match e with
  | Starts o =>
    Some {| cc_world := cc_world c; cc_running := cc_running c ++ [running (pieces (op_cut o))] |}
  | Acts i =>
    p ← cc_running c !! i;
    r ← proc_step (rn_proc p) (cc_world c);
    Some {| cc_world := r.2; cc_running := <[i := running r.1]> (cc_running c) |}
  | CutOff i =>
    p ← cc_running c !! i;
    Some {| cc_world := cc_world c;
            cc_running := <[i := running (A := rn_type p) (Done (Panics "cut off"))]> (cc_running c) |}
  | Outside w =>
    Some {| cc_world := world_with_db (w_db (cc_world c)) w; cc_running := cc_running c |}
  end.

Definition conc_start (w : World) : Conc := {| cc_world := w; cc_running := [] |}.

Definition conc_reach : Conc → Conc → Prop := rtc (λ c c', ∃ e, conc_step e c = Some c').

Fixpoint conc_run (es : list Event) (c : Conc) : option Conc :=
  match es with
  | [] => Some c
  | e :: es => c' ← conc_step e c; conc_run es c'
  end.

Lemma conc_run_reach es c c' : conc_run es c = Some c' → conc_reach c c'.
Proof.
  revert c. induction es as [|e es IH]; intros c H; simpl in H; [by injection H as <- |].
  apply bind_Some in H as (c1 & Hc1 & H). eapply rtc_l; [by exists e | by apply IH].
Qed.

Lemma conc_run_app es es' c :
  conc_run (es ++ es') c = conc_run es c ≫= conc_run es'.
Proof.
  revert c. induction es as [|e es IH]; intros c; [done |]. simpl.
  destruct (conc_step e c); simpl; [apply IH | done].
Qed.

(** * The invariant *)

(** The tables have come from [d0] as they should, and every process goes on
    to keep them so from where it is. *)
Record CInv (d0 : DB) (c : Conc) : Prop := {
  ci_sound : Lifecycle.sound d0 (w_db (cc_world c));
  ci_running : Forall (λ p, guarantees (rn_proc p) (λ _ _, True) (w_db (cc_world c))) (cc_running c);
}.

Lemma CInv_step d0 e c c' : conc_step e c = Some c' → CInv d0 c → CInv d0 c'.
Proof.
  intros H [Hs Hr]. destruct e as [o|i|i|w]; cbn [conc_step] in H.
  - injection H as <-. split; [done |]. apply Forall_app. split; [done |]. constructor; [| done].
    by apply (pieces_guarantee _ _ _ (op_cut o)).
  - apply bind_Some in H as (p & Hp & H). apply bind_Some in H as ([p' w'] & Hstep & H).
    injection H as <-. pose proof (proj1 (Forall_lookup _ _) Hr i p Hp) as Hg. cbv beta in Hg.
    destruct (rn_proc p) as [r|X m a k]; [done |]. injection Hstep as <- <-.
    destruct (Hg (cc_world c)) as [[Ht He] Hk]; [done | by apply Hs |].
    split; cbn [cc_world cc_running].
    + split; [done |]. etrans; [apply Hs | exact He].
    + apply Forall_insert; [| exact Hk]. eapply Forall_impl; [exact Hr |]. intros q Hq.
      by eapply guarantees_evolves.
  - apply bind_Some in H as (p & Hp & H). injection H as <-. split; [done |].
    by apply Forall_insert.
  - injection H as <-. by split.
Qed.

Lemma CInv_reach d0 c c' : conc_reach c c' → CInv d0 c → CInv d0 c'.
Proof. induction 1 as [|c c1 c' (e & He) _ IH]; [done |]. intros Hc. by eapply IH, CInv_step. Qed.

(** A process by itself. *)
Lemma run_acts {A} (p : Proc A) w l :
  ∃ n, conc_run (replicate n (Acts (length l))) {| cc_world := w; cc_running := l ++ [running p] |}
    = Some {| cc_world := (run p w).2; cc_running := l ++ [running (Done (run p w).1)] |}.
Proof.
  revert w. induction p as [r|X m a k IH]; intros w; [by exists 0 |].
  destruct (IH (m w).1 (m w).2) as [n Hn]. exists (S n). cbn [replicate conc_run conc_step cc_running].
  rewrite list_lookup_middle by done. cbn. rewrite insert_app_r_alt by done.
  rewrite Nat.sub_diag. exact Hn.
Qed.

(** A process that runs its first part, and then all of it. *)
Lemma acts_bind {A B} i (p : Proc A) (f : A → Proc B) c a w' :
  cc_running c !! i = Some (running (bindP p f)) → run p (cc_world c) = (Ret a, w') →
  ∃ es, conc_run es c
    = Some {| cc_world := w'; cc_running := <[i := running (f a)]> (cc_running c) |}.
Proof.
  destruct c as [w l]. cbn [cc_running cc_world]. revert w l.
  induction p as [r|X m act k IH]; intros w l Hi Hr.
  - cbn in Hr. injection Hr as -> <-. exists []. cbn in Hi. by rewrite list_insert_id.
  - destruct (IH (m w).1 (m w).2 (<[i := running (bindP (k (m w).1) f)]> l)) as [es Hes].
    + by rewrite list_lookup_insert_eq by (by eapply lookup_lt_Some).
    + exact Hr.
    + exists (Acts i :: es). cbn [conc_run conc_step cc_running]. rewrite Hi. cbn.
      rewrite list_insert_insert_eq in Hes. exact Hes.
Qed.

Lemma acts_all {A} i (p : Proc A) c r w' :
  cc_running c !! i = Some (running p) → run p (cc_world c) = (r, w') →
  ∃ es, conc_run es c
    = Some {| cc_world := w'; cc_running := <[i := running (Done r)]> (cc_running c) |}.
Proof.
  destruct c as [w l]. cbn [cc_running cc_world]. revert w l.
  induction p as [r0|X m act k IH]; intros w l Hi Hr.
  - cbn in Hr. injection Hr as -> <-. exists []. by rewrite list_insert_id.
  - destruct (IH (m w).1 (m w).2 (<[i := running (k (m w).1)]> l)) as [es Hes].
    + by rewrite list_lookup_insert_eq by (by eapply lookup_lt_Some).
    + exact Hr.
    + exists (Acts i :: es). cbn [conc_run conc_step cc_running]. rewrite Hi. cbn.
      rewrite list_insert_insert_eq in Hes. exact Hes.
Qed.

End system.

(** * Two announcements of one file *)

Section announcing.
Context `{E : Env} {EO : EnvOk E} `{OS : OsEnv}.
Context (mq tq : QueryMapper).

(** An announcement that has passed the middlewares and the binding. *)
Definition announcing (req : MetadataRequest) (Hs : mr_UploadStatus req = StatusUploading) :
    Proc (Response MetadataTokenResponse) :=
  pieces (cut_PrepareFileForUpload (λ _, True) (stable_pure True) mq tq req Hs).

(** It looks for the digest first, and what it does then does not look again. *)
Lemma announcing_split req Hs :
  ∃ p k, announcing req Hs = bindP p k ∧
    (∀ w, run p w = MetadataRepository_FindByHash mq (mr_Digest req) w) ∧
    ∀ w, no_fault → has_query mq CreateFileMetadataStmt → has_query tq CreateTokenStmt →
      CalculateChunks (mr_FileSize req) = mr_Chunks req →
      wp (run (k (false, None))) w (λ r w', ∃ rsp m t, r = Ret rsp ∧ rsp_Success rsp = true ∧
        announced w w' m t ∧ fm_FileHash m = mr_Digest req).
Proof.
  eexists _, _. split; [reflexivity |]. split; [intros w; by apply run_pieces |].
  intros w Hf Hm Ht Hch. cbv beta. apply wp_pieces. cbn [snd].
  wp_step. wp_step; [intros e He; quiet |]. intros _. rewrite decide_False by by intros [].
  wp_step. wp_step. wp_step. apply wp_NewToken_stream; [by intros e w2 Hw2 [] |].
  intros t w2 Hw2 Htok. wp_step. apply wp_announce; [done.. | by intros e w3 Hw3 [] |].
  intros w3 Ha. later_subst. wp_go. eexists _, _, t. do 2 (split; [done |]).
  split; [by eapply announced_from, Ha | done].
Qed.

End announcing.

(** * Properties *)

(** (C3) The tables keep their type and their history when everything runs at
    once.  Whatever requests, jobs and account calls are started at whatever
    moments, whatever order their statements, transactions and other calls take
    effect in, whichever of them fail, and wherever a process is cut off: if the
    tables are well typed at the start they are so ever after, no row is
    removed, and rows change only as a version changes. *)
Theorem interleaved_tables `{E : Env} {EO : EnvOk E} `{MR : MapRange} `{SG : SliceGrowth} `{OS : OsEnv}
    `{EC : Echo} `{GC : Gob CacheMetadata} `{GE : Gob MetadataUpdateStatusEvent} `{LB : Libraries}
    `{ER : EchoRouter} boot sv uq notes {QN : QueuerOk notes} w c :
  conc_reach boot sv uq notes (conc_start w) c → db_typed (w_db w) →
  db_typed (w_db (cc_world c)) ∧ evolves (w_db w) (w_db (cc_world c)).
Proof.
  intros Hr Hw. destruct (CInv_reach boot sv uq notes (w_db w) _ _ Hr) as [[Ht He] _]; [| done].
  split; [by split | constructor].
Qed.

(** Two clients announce the same file; the actions of their requests
    alternate, and both rows are stored. *)
Definition announce : Op := Request (sample_http "POST" "/my/files" "Bearer trial_access_token").

Definition sample_run (es : list Event) (c : Conc) : option Conc :=
  conc_run (E := quiet_env) (MR := list_range) (SG := doubling_growth) (OS := sample_os)
    (EC := sample_echo_upload) (GC := cache_gob) (GE := event_gob) (LB := sample_libraries)
    (ER := sample_router) 0%Z sample_server usersQs
    (RedisQ (E := quiet_env) MetadataUpdateClientsNotifierQueue) es c.

Definition alternating : list Event :=
  Starts announce :: Starts announce :: concat (replicate 15 [Acts 0; Acts 1]).

Lemma interleaved_tables_witness :
  ∃ c, sample_run alternating (conc_start empty_world) = Some c ∧
    (phase_of <$> db_file_metadatas (w_db (cc_world c))) = [Some Uploading; Some Uploading] ∧
    db_typed (w_db (cc_world c)) ∧ evolves (w_db empty_world) (w_db (cc_world c)).
Proof.
  assert (Hphases : (λ c, phase_of <$> db_file_metadatas (w_db (cc_world c))) <$>
    sample_run alternating (conc_start empty_world) = Some [Some Uploading; Some Uploading])
    by by vm_compute.
  destruct (sample_run alternating (conc_start empty_world)) as [c|] eqn:Hrun; [| done].
  exists c. split; [done |]. split; [by injection Hphases |].
  apply (interleaved_tables (E := quiet_env) (MR := list_range) (SG := doubling_growth)
    (OS := sample_os) (EC := sample_echo_upload) (GC := cache_gob) (GE := event_gob)
    (LB := sample_libraries) (ER := sample_router) 0%Z sample_server usersQs
    (RedisQ (E := quiet_env) MetadataUpdateClientsNotifierQueue) empty_world c).
  - by eapply conc_run_reach.
  - apply db_typed_empty.
Defined.

(** A process that is left alone does what the operation does.  From any
    state of the system, an operation that is started and whose actions then
    follow one another ends, with the result and the world of the function that
    models it, because the cuts are made that way; so the histories of whole
    operations are among the interleaved ones. *)
Theorem whole_operation `{E : Env} {EO : EnvOk E} `{MR : MapRange} `{SG : SliceGrowth} `{OS : OsEnv}
    `{EC : Echo} `{GC : Gob CacheMetadata} `{GE : Gob MetadataUpdateStatusEvent} `{LB : Libraries}
    `{ER : EchoRouter} boot sv uq notes {QN : QueuerOk notes} o c :
  ∃ n, conc_run boot sv uq notes (Starts o :: replicate n (Acts (length (cc_running c)))) c
    = Some {| cc_world := (op_code boot sv uq notes o (cc_world c)).2;
              cc_running := cc_running c ++ [running (Done (op_code boot sv uq notes o (cc_world c)).1)] |}.
Proof.
  destruct (run_acts boot sv uq notes (pieces (op_cut boot sv uq notes o)) (cc_world c) (cc_running c))
    as [n Hn].
  exists n. rewrite <- (run_pieces _ _ _ (op_cut boot sv uq notes o)). exact Hn.
Qed.

Lemma whole_operation_witness :
  ∃ n c, sample_run (Starts announce :: replicate n (Acts 0)) (conc_start empty_world) = Some c ∧
    length (db_file_metadatas (w_db (cc_world c))) = 1.
Proof.
  destruct (whole_operation (E := quiet_env) (MR := list_range) (SG := doubling_growth)
    (OS := sample_os) (EC := sample_echo_upload) (GC := cache_gob) (GE := event_gob)
    (LB := sample_libraries) (ER := sample_router) 0%Z sample_server usersQs
    (RedisQ (E := quiet_env) MetadataUpdateClientsNotifierQueue) announce (conc_start empty_world))
    as [n Hn].
  exists n. eexists. split; [exact Hn |]. by vm_compute.
Defined.

(** (C37) Nothing keeps two clients from announcing the same file.  The digest is
    looked for by one statement and the row is stored by another, with nothing
    to hold them together: when no row has the digest, no call fails and both
    announcements are in order, some interleaving lets both succeed, and then
    two rows have the digest; one after the other, the second is refused
    (FilesService.PrepareFileForUpload_spec). *)
Theorem announcements_race `{E : Env} {EO : EnvOk E} `{MR : MapRange} `{SG : SliceGrowth} `{OS : OsEnv}
    `{EC : Echo} `{GC : Gob CacheMetadata} `{GE : Gob MetadataUpdateStatusEvent} `{LB : Libraries}
    `{ER : EchoRouter} boot sv uq notes {QN : QueuerOk notes} mq tq a b
    (Ha : mr_UploadStatus a = StatusUploading) (Hb : mr_UploadStatus b = StatusUploading) w :
  no_fault → has_query mq FindByHashStmt → has_query mq CreateFileMetadataStmt →
  has_query tq CreateTokenStmt → mr_Digest a = mr_Digest b →
  sql_FindByHash (mr_Digest a) (w_db w) = 0 →
  CalculateChunks (mr_FileSize a) = mr_Chunks a → CalculateChunks (mr_FileSize b) = mr_Chunks b →
  ∃ es w' (ra rb : Response MetadataTokenResponse),
    conc_run boot sv uq notes es
      {| cc_world := w;
         cc_running := [running (announcing mq tq a Ha); running (announcing mq tq b Hb)] |}
    = Some {| cc_world := w'; cc_running := [running (Done (Ret ra)); running (Done (Ret rb))] |} ∧
    rsp_Success ra = true ∧ rsp_Success rb = true ∧
    ∃ ma mb, db_file_metadatas (w_db w') = db_file_metadatas (w_db w) ++ [mb; ma] ∧
      fm_FileHash ma = mr_Digest a ∧ fm_FileHash mb = mr_Digest a.
Proof.
  intros Hf Hqh Hqm Hqt Hdig Hnone Hca Hcb.
  assert (Hfind : ∀ w, sql_FindByHash (mr_Digest a) (w_db w) = 0 →
    wp (MetadataRepository_FindByHash mq (mr_Digest a)) w (λ r w1, r = Ret (false, None) ∧ later w w1)).
  { intros w0 H0. apply wp_FindByHash; [by intros w1 _ [] | intros w1 _ ?; lia | by intros w1 Hw1 _]. }
  destruct (announcing_split mq tq a Ha) as (pa & ka & -> & Hpa & Hka).
  destruct (announcing_split mq tq b Hb) as (pb & kb & -> & Hpb & Hkb).
  (* each looks for the digest *)
  destruct (wp_exists _ _ _ (Hfind w Hnone)) as (r1 & w1 & Hr1 & -> & Hw1).
  assert (Hdb1 : w_db w1 = w_db w) by by apply later_db.
  destruct (wp_exists _ _ _ (Hfind w1 ltac:(by rewrite Hdb1))) as (r2 & w2 & Hr2 & -> & Hw2).
  assert (Hdb2 : w_db w2 = w_db w) by (apply later_db in Hw2; congruence).
  (* each stores its row *)
  destruct (wp_exists _ _ _ (Hkb w2 Hf Hqm Hqt Hcb)) as (? & w3 & Hr3 & rb & mb & tb & -> & Hsb & Hab & Hhb).
  destruct (wp_exists _ _ _ (Hka w3 Hf Hqm Hqt Hca)) as (? & w4 & Hr4 & ra & ma & ta & -> & Hsa & Haa & Hha).
  set (c := {| cc_world := w; cc_running := [running (bindP pa ka); running (bindP pb kb)] |}).
  destruct (acts_bind boot sv uq notes 0 pa ka c (false, None) w1) as [es1 H1]; [done | by rewrite Hpa |].
  destruct (acts_bind boot sv uq notes 1 pb kb
    {| cc_world := w1; cc_running := [running (ka (false, None)); running (bindP pb kb)] |}
    (false, None) w2) as [es2 H2]; [done | by rewrite Hpb, <- Hdig |].
  destruct (acts_all boot sv uq notes 1 (kb (false, None))
    {| cc_world := w2; cc_running := [running (ka (false, None)); running (kb (false, None))] |}
    (Ret rb) w3) as [es3 H3]; [done | done |].
  destruct (acts_all boot sv uq notes 0 (ka (false, None))
    {| cc_world := w3; cc_running := [running (ka (false, None)); running (Done (Ret rb))] |}
    (Ret ra) w4) as [es4 H4]; [done | done |].
  exists (es1 ++ es2 ++ es3 ++ es4), w4, ra, rb. split_and!; [| done | done |].
  - by rewrite conc_run_app, H1; simpl; rewrite conc_run_app, H2; simpl; rewrite conc_run_app, H3.
  - exists ma, mb. rewrite (ann_rows _ _ _ _ Haa), (ann_rows _ _ _ _ Hab), Hdb2, <- app_assoc.
    split_and!; [done | done | congruence].
Qed.

Lemma announcements_race_witness :
  ∃ es w' (ra rb : Response MetadataTokenResponse) ma mb,
    sample_run es
      {| cc_world := sample_world;
         cc_running :=
           [running (announcing (E := quiet_env) (OS := sample_os) metadataQueryStore tokensQs sample_request eq_refl);
            running (announcing (E := quiet_env) (OS := sample_os) metadataQueryStore tokensQs sample_request eq_refl)] |}
    = Some {| cc_world := w'; cc_running := [running (Done (Ret ra)); running (Done (Ret rb))] |} ∧
    db_file_metadatas (w_db w') = db_file_metadatas sample_db ++ [mb; ma] ∧
    fm_FileHash ma = "hash-new" ∧ fm_FileHash mb = "hash-new".
Proof.
  destruct (announcements_race (E := quiet_env) (MR := list_range) (SG := doubling_growth)
    (OS := sample_os) (EC := sample_echo_upload) (GC := cache_gob) (GE := event_gob)
    (LB := sample_libraries) (ER := sample_router) 0%Z sample_server usersQs
    (RedisQ (E := quiet_env) MetadataUpdateClientsNotifierQueue) metadataQueryStore tokensQs
    sample_request sample_request eq_refl eq_refl sample_world)
    as (es & w' & ra & rb & Hrun & _ & _ & ma & mb & Hrows & Hma & Hmb); try done.
  1-3: by apply (bool_decide_unpack _); vm_compute.
  exists es, w', ra, rb, ma, mb. by split_and!.
Defined.
