(* ===== verification/Parallel.v ===== *)
(** The parts of a file sent at the same time.  A client need not wait for one
    part before it sends the next: the uploads are requests of their own, whose
    actions (Action.v) take effect in any order, among those of everything else
    the system does (Interleave.v).

    [safe R G p Q w]: process [p], started in world [w] among others whose
    actions stay within [R], stays within [G] itself, and ends where [Q] holds.
    [part_rely] and [part_guarantee] are what an upload needs of the others and
    gives them: its own chunk's file and rows.  Uploads of different parts give
    each other what they need, since different parts have different files
    (Blob.v); [sending] is the invariant of all of them together. *)
From S2P Require Import Prelude GoStd Api Model World Squirtle Queries.
From S2P Require Import Tokens FilesRepo Queue Gob FilesInfo FilesService Blob.
From S2P Require Import Transfer Changelog Users Auth Proc Routes Lifecycle Action Cuts.
From S2P Require Import Startup Server Interleave.

(** * Processes among others *)

Section safe.
Context `{E : Env} `{OS : OsEnv} (R G : World → World → Prop).

Fixpoint safe {A} (p : Proc A) (Q : ret A → World → Prop) (w : World) : Prop :=
  match p with
  | Done r => Q r w
  | Act m _ k => ∀ w1, R w w1 → G w1 (m w1).2 ∧ safe (k (m w1).1) Q (m w1).2
  end.

Lemma safe_mono {A} (p : Proc A) (Q Q' : ret A → World → Prop) w :
  (∀ r w, Q r w → Q' r w) → safe p Q w → safe p Q' w.
Proof.
  intros HQ. revert w. induction p as [r|X m a k IH]; intros w; simpl; [auto |].
  intros H w1 Hw1. destruct (H w1 Hw1) as [Hg Hk]. auto.
Qed.

Lemma safe_bind {A B} (p : Proc A) (f : A → Proc B) (Q : ret B → World → Prop) w :
  safe p (λ r w, match r with
                 | Ret a => safe (f a) Q w
                 | Panics why => Q (Panics why) w
                 end) w → safe (bindP p f) Q w.
Proof.
  revert w. induction p as [[a|why]|X m a k IH]; intros w; simpl; [done.. |].
  intros H w1 Hw1. destruct (H w1 Hw1) as [Hg Hk]. auto.
Qed.

Lemma safe_done {A} (r : ret A) (Q : ret A → World → Prop) w : Q r w → safe (Done r) Q w.
Proof. done. Qed.

(** One action: what it does wherever the others have taken the world. *)
Lemma safe_act {A} (m : Go A) (a : action m) (Q : ret A → World → Prop) w :
  (∀ w1, R w w1 → wp m w1 (λ r w', G w1 w' ∧ Q r w')) → safe (Act m a Done) Q w.
Proof. done. Qed.

Lemma safe_rely {A} `{!Transitive R} (p : Proc A) (Q : ret A → World → Prop) w w' :
  (∀ r w w', R w w' → Q r w → Q r w') → R w w' → safe p Q w → safe p Q w'.
Proof.
  intros HQ Hw. destruct p as [r|X m a k]; simpl; [by apply HQ |].
  intros H w1 Hw1. apply H. by etrans.
Qed.

(** A step of the process. *)
Lemma safe_step {A} `{!Reflexive R} (p p' : Proc A) (Q : ret A → World → Prop) w w' :
  safe p Q w → proc_step p w = Some (p', w') → G w w' ∧ safe p' Q w'.
Proof. destruct p as [r|X m a k]; simpl; [done |]. intros H [= <- <-]. by apply H. Qed.

(** Left alone, it runs to its end. *)
Lemma safe_run {A} `{!Reflexive R} (p : Proc A) (Q : ret A → World → Prop) w :
  safe p Q w → Q (run p w).1 (run p w).2.
Proof.
  revert w. induction p as [r|X m a k IH]; intros w; simpl; [done |].
  intros H. destruct (H w) as [_ Hk]; [done |]. by apply IH.
Qed.

End safe.

(** * One part *)
Section part.
Context `{E : Env} {EO : EnvOk E} `{OS : OsEnv}.
Context (dir : list string) (cq : QueryMapper) (user file : string).

Definition the_owner : DB → Prop := λ d, owned d file (Some user).

(** The upload of part number [i], past the middlewares. *)
Definition uploading (i : nat) (last : bool) (part : string) : Proc (Response ChunkUploadResponse) :=
  pieces (cut_FileChunkService_Create the_owner (stable_owned file (Some user)) (abs_path dir) cq
            (part_request user file i last part) (λ _ H, H)).

(** A row of the part. *)
Definition is_part (i : nat) (uf : UserFile) : Prop :=
  uf_FileID uf = file ∧ uf_ChunkID uf = Z.of_nat i.

Definition chunk_rows (w : World) : list UserFile := db_user_files (w_db w).

(** What the others leave alone: the file of the part and its rows. *)
Record part_rely (i : nat) (w w' : World) : Prop := {
  pr_fs : w_fs w' !! chunk_file dir file (Z.of_nat i) = w_fs w !! chunk_file dir file (Z.of_nat i);
  pr_rows : ∀ uf, is_part i uf → uf ∈ chunk_rows w' ↔ uf ∈ chunk_rows w;
}.

(** What the upload leaves alone: everything else. *)
Record part_guarantee (i : nat) (w w' : World) : Prop := {
  pg_fs : ∀ p, p ≠ chunk_file dir file (Z.of_nat i) → w_fs w' !! p = w_fs w !! p;
  pg_cache : w_cache w' = w_cache w;
  pg_metas : db_file_metadatas (w_db w') = db_file_metadatas (w_db w);
  pg_rows : ∀ uf, ¬ is_part i uf → uf ∈ chunk_rows w' ↔ uf ∈ chunk_rows w;
}.

(** The one row of the part. *)
Definition part_row (w : World) (i : nat) (uf : UserFile) : Prop :=
  is_part i uf ∧ uf_UserID uf = user ∧ uf_ChunkBlobUrl uf = chunk_file dir file (Z.of_nat i) ∧
  ∀ uf', is_part i uf' → uf' ∈ chunk_rows w ↔ uf' = uf.

(** The part is stored: its bytes, and one row. *)
Record part_stored (i : nat) (part : string) (w : World) : Prop := {
  ps_fs : w_fs w !! chunk_file dir file (Z.of_nat i) = Some part;
  ps_row : ∃ uf, part_row w i uf;
}.

Definition part_done (i : nat) (part : string) (r : ret (Response ChunkUploadResponse)) (w : World) : Prop :=
  (∃ rsp, r = Ret (succeeded rsp)) ∧ part_stored i part w.

(** No row of the part yet. *)
Definition part_absent (i : nat) (w : World) : Prop := ∀ uf, is_part i uf → uf ∉ chunk_rows w.

#[export] Instance part_rely_preorder i : PreOrder (part_rely i).
Proof.
  split.
  - by intros w.
  - intros w1 w2 w3 [H1 H2] [H3 H4]. split; [congruence |]. intros uf Huf. by rewrite H4, H2.
Qed.

#[export] Instance part_guarantee_preorder i : PreOrder (part_guarantee i).
Proof.
  split.
  - by intros w.
  - intros w1 w2 w3 [H1 H2 H3 H4] [H5 H6 H7 H8]. split; [| congruence.. |].
    + intros p Hp. by rewrite H5, H1.
    + intros uf Huf. by rewrite H8, H4.
Qed.

Lemma part_absent_rely i w w' : part_rely i w w' → part_absent i w → part_absent i w'.
Proof. intros [_ Hr] Ha uf Huf. rewrite Hr by done. by apply Ha. Qed.

Lemma part_stored_rely i part w w' : part_rely i w w' → part_stored i part w → part_stored i part w'.
Proof.
  intros [Hf Hr] [Hs (uf & Hp & Hu & Hurl & Hall)]. split; [congruence |].
  exists uf. split_and!; [done.. |]. intros uf' Huf'. by rewrite Hr, Hall.
Qed.

Lemma later_guarantee i w w' : later w w' → part_guarantee i w w'.
Proof. intros (n & _ & ->). done. Qed.

Context (Hf : no_fault) (Hq : has_query cq CreateFileChunkStmt).

Lemma later_rely i w w' : later w w' → part_rely i w w'.
Proof. intros (n & _ & ->). done. Qed.

Lemma fs_guarantee i data w :
  part_guarantee i w (world_with_fs (<[chunk_file dir file (Z.of_nat i) := data]> (w_fs w)) w).
Proof. split; [| done..]. intros p Hp. simpl. by rewrite lookup_insert_ne. Qed.

(** An action that only lets time pass: seen from the part, nothing happens. *)
Lemma safe_event {A} i (m : Go A) (a : action m) (Q : ret A → World → Prop) w :
  (∀ w1, part_rely i w w1 → wp m w1 (λ r w2, later w1 w2 ∧ (part_rely i w w2 → Q r w2))) →
  safe (part_rely i) (part_guarantee i) (Act m a Done) Q w.
Proof.
  intros H. apply safe_act. intros w1 Hw1. eapply wp_mono; [by apply H |].
  intros r w2 [Hl HQ]. split; [by apply later_guarantee |]. apply HQ. etrans; [exact Hw1 |].
  by apply later_rely.
Qed.

Ltac next := cbv beta iota; cbn [pieces cut_then cut_bind cut_ret].

Lemma safe_Copy i r (Q : ret (string * ReadSeeker * option error) → World → Prop) w a :
  (∀ pos w', part_rely i w w' → Q (Ret (sdrop (rs_pos r) (rs_data r), set_pos pos r, None)) w') →
  safe (part_rely i) (part_guarantee i) (Act (io_Copy r) a Done) Q w.
Proof.
  intros HQ. apply safe_event. intros w1 Hw1. apply wp_io_Copy; [intros; quiet |].
  intros pos w2 Hw2 _. split; [done |]. apply HQ.
Qed.

Lemma safe_SeekStart i r P HP (Q : ret ReadSeeker → World → Prop) w :
  (∀ w', part_rely i w w' → Q (Ret (set_pos 0 r)) w') →
  safe (part_rely i) (part_guarantee i) (pieces (cut_SeekStart P HP r)) Q w.
Proof.
  intros HQ. unfold cut_SeekStart. next. apply safe_bind, safe_event. intros w1 Hw1.
  apply wp_call. rewrite Hf. split; [solve_later |]. apply HQ.
Qed.

Lemma safe_UpdateChunk i data P HP (Q : ret (res string) → World → Prop) w :
  part_absent i w →
  (∀ w', part_absent i w' → w_fs w' !! chunk_file dir file (Z.of_nat i) = Some (rs_data data) →
     Q (Ret (Val (chunk_file dir file (Z.of_nat i)))) w') →
  safe (part_rely i) (part_guarantee i)
    (pieces (cut_UpdateChunk P HP (abs_path dir) file (NewChunkedFile data (Z.of_nat i)))) Q w.
Proof.
  intros Ha HQ. unfold cut_UpdateChunk. cbv zeta. next. apply safe_bind, safe_event. intros w1 _.
  apply wp_EnsureDir; [by intros e w2 _ [] |]. intros w2 Hw2. split; [done |].
  intros Hw2'%part_absent_rely; [| done].
  next. apply safe_bind, safe_act. intros w3 Hw3. apply wp_os_Create; [by intros e w4 _ [] |].
  set (path := filepath_Join _). change path with (chunk_file dir file (Z.of_nat i)).
  intros w4 Hw4. split; [etrans; [apply fs_guarantee | by apply later_guarantee] |].
  assert (Ha4 : part_absent i w4) by (later_subst; by apply (part_absent_rely i _ w3 Hw3)).
  next. apply safe_bind, safe_SeekStart. intros w5 Hw5. next.
  apply safe_bind, safe_Copy. intros pos w6 Hw6. next. apply safe_bind, safe_SeekStart. intros w7 Hw7.
  next. apply safe_bind, safe_Copy. intros pos' w8 Hw8. next. apply safe_bind, safe_act. intros w9 Hw9.
  apply wp_modify. split; [apply fs_guarantee |]. simpl. apply HQ.
  - assert (Hr : part_rely i w4 w9) by (do 4 (etrans; [| eassumption]); done).
    by apply (part_absent_rely i w4 w9).
  - simpl. by rewrite lookup_insert_eq.
Qed.

(** The row of the part. *)
Lemma safe_Create i uf P HP Ho (Q : ret (option error) → World → Prop) w :
  is_part i uf →
  (∀ w', (∀ uf', is_part i uf' → uf' ∈ chunk_rows w' ↔ uf' = uf ∨ uf' ∈ chunk_rows w) →
     w_fs w' !! chunk_file dir file (Z.of_nat i) = w_fs w !! chunk_file dir file (Z.of_nat i) →
     Q (Ret None) w') →
  safe (part_rely i) (part_guarantee i) (pieces (cut_UserFileRepository_Create P HP cq uf Ho)) Q w.
Proof.
  intros Huf HQ. unfold cut_UserFileRepository_Create, UserFileRepository_Create. destruct Hq as [q Hq'].
  destruct (GetQuery cq CreateFileChunkStmt) as [q'|]; [| done]. next.
  apply safe_bind. unfold cut_exec. apply safe_act. intros w1 [Hr1 Hr2].
  unfold db_exec. wp_step. apply wp_call. rewrite Hf. wp_go. split.
  - split; [done.. |]. intros uf' Huf'. unfold chunk_rows. simpl. rewrite elem_of_app, list_elem_of_singleton.
    split; [by intros [?| ->] | auto].
  - next. apply safe_done, HQ; [| done]. intros uf' Huf'. rewrite <- Hr2 by done.
    unfold chunk_rows. simpl. rewrite elem_of_app, list_elem_of_singleton. tauto.
Qed.

Lemma safe_uploading i last part w :
  (Z.of_nat (S i) ≤ max_int64)%Z → part_absent i w →
  safe (part_rely i) (part_guarantee i) (uploading i last part) (part_done i part) w.
Proof.
  intros Hi Ha. unfold uploading, cut_FileChunkService_Create, cut_ValidateHash. next.
  apply safe_bind. next. apply safe_bind, safe_Copy. intros pos w1 Hw1%part_absent_rely; [| done].
  cbv beta iota. cbn [snd fst]. next. unfold cut_eval.
  destruct (decide (_ = _)) as [_|Hne]; [| by destruct Hne].
  apply safe_done. next.
  assert (Hid : Atoi (fcr_ChunkID (part_request user file i last part)) = (Z.of_nat i, None)).
  { apply ParseInt_Itoa. unfold in_int64, min_int64, max_int64 in *. lia. }
  assert (Hnext : ∃ n, ParseInt (fcr_NextChunkID (part_request user file i last part)) = (n, None)).
  { eexists. apply ParseInt_Itoa. unfold in_int64, min_int64, max_int64 in *. destruct last; lia. }
  destruct (Atoi _) as [id [e|]]; [done |]. injection Hid as ->.
  destruct (ParseInt _) as [n [e|]]; [by destruct Hnext |]. next.
  apply safe_bind, safe_UpdateChunk; [done |]. intros w2 Ha2 Hf2. next.
  apply safe_bind. unfold cut_skip. apply safe_event. intros w3 Hw3.
  wp_step. split; [solve_later |]. intros Hw3'. next.
  assert (Ha3 : part_absent i (tick w3)) by by eapply part_absent_rely.
  lazymatch goal with |- context [cut_UserFileRepository_Create _ _ _ ?row _] => set (uf := row) end.
  apply safe_bind, safe_Create; [done |]. intros w4 Hrows Hfs. next. apply safe_done. split; [by eexists |].
  split; [by rewrite Hfs, (pr_fs i _ _ Hw3') |]. exists uf. split_and!; [by split | done.. |].
  intros uf' Huf. rewrite Hrows by done. split; [| auto]. intros [?|Hin]; [done |].
  by destruct (Ha3 uf' Huf).
Qed.

End part.

(** * All the parts *)

Section together.
Context `{E : Env} {EO : EnvOk E} `{MR : MapRange} `{SG : SliceGrowth} `{OS : OsEnv} `{EC : Echo}.
Context `{GC : Gob CacheMetadata} `{GE : Gob MetadataUpdateStatusEvent} `{LB : Libraries} `{ER : EchoRouter}.
Context (boot : time) (sv : Server) (uq : QueryMapper) (notes : Queuer) {QN : QueuerOk notes}.
Context (dir : list string) (cq mq : QueryMapper) (user file : string).

(** What something else does when it has nothing to do with the file: neither
    its chunks on the disk and in the cache nor its rows change. *)
Record leaves (w w' : World) : Prop := {
  lv_fs : ∀ i, w_fs w' !! chunk_file dir file i = w_fs w !! chunk_file dir file i;
  lv_cache : ∀ i, w_cache w' !! chunk_file dir file i = w_cache w !! chunk_file dir file i;
  lv_rows : ∀ uf, uf_FileID uf = file → uf ∈ chunk_rows w' ↔ uf ∈ chunk_rows w;
  lv_metas : ∀ m, fm_ID m = file →
    m ∈ db_file_metadatas (w_db w') ↔ m ∈ db_file_metadatas (w_db w);
}.

(** The first [n] processes are the uploads. *)
Definition concerns (n : nat) (e : Event) : Prop :=
  match e with Acts i | CutOff i => i < n | Starts _ | Outside _ => False end.

(** The system while they run: an upload acts, or anything else happens that
    leaves the file alone. *)
Inductive goes_on (n : nat) (c c' : Conc) : Prop :=
| part_acts i : i < n → conc_step boot sv uq notes (Acts i) c = Some c' → goes_on n c c'
| others_act e : ¬ concerns n e → conc_step boot sv uq notes e c = Some c' →
    leaves (cc_world c) (cc_world c') → goes_on n c c'.

(** The uploads of a file's parts, none of which has begun. *)
Definition uploads (parts : list string) : list Running :=
  imap (λ i part, running (uploading dir cq user file i (bool_decide (S i = length parts)) part)) parts.

(** The tables while the parts arrive: the row of the file, no row of a chunk it
    does not have, and nothing of it in the cache. *)
Record expecting (m : FileMetadata) (parts : list string) (w : World) : Prop := {
  ex_meta : m ∈ db_file_metadatas (w_db w);
  ex_id : fm_ID m = file;
  ex_user : fm_UserID m = user;
  ex_unique : ∀ m', m' ∈ db_file_metadatas (w_db w) → fm_ID m' = file → m' = m;
  ex_chunks : fm_NChunks m = Z.of_nat (length parts);
  ex_rows : ∀ uf, uf ∈ chunk_rows w → uf_FileID uf = file →
    ∃ i, i < length parts ∧ is_part file i uf;
  ex_cold : ∀ i, w_cache w !! chunk_file dir file i = None;
}.

Context (Hf : no_fault) (Hq : has_query cq CreateFileChunkStmt).
Context (Hdir : plain_dir dir) (Hfile : plain file = true).

Lemma other_chunk i j :
  i ≠ j → chunk_file dir file (Z.of_nat i) ≠ chunk_file dir file (Z.of_nat j).
Proof. intros Hij [_ ?]%chunk_file_inj; [lia | done..]. Qed.

Lemma guarantee_rely i j w w' :
  i ≠ j → part_guarantee dir file j w w' → part_rely dir file i w w'.
Proof.
  intros Hij [Hfs _ _ Hrows]. split; [by apply Hfs, other_chunk |].
  intros uf [Hid Hc]. apply Hrows. intros [_ Hc']. lia.
Qed.

Lemma leaves_rely i w w' : leaves w w' → part_rely dir file i w w'.
Proof. intros [Hfs _ Hrows _]. split; [apply Hfs |]. intros uf [Hid _]. by apply Hrows. Qed.

(** The upload of another file's part has nothing to do with the file. *)
Lemma other_file_leaves other i w w' :
  plain other = true → other ≠ file → part_guarantee dir other i w w' → leaves w w'.
Proof.
  intros Ho Hne [Hfs Hc Hm Hr]. split; rewrite ?Hc, ?Hm; try done.
  - intros j. apply Hfs. by intros [? _]%chunk_file_inj.
  - intros uf Huf. apply Hr. intros [? _]. congruence.
Qed.

Lemma expecting_guarantee m parts i w w' :
  i < length parts → part_guarantee dir file i w w' → expecting m parts w → expecting m parts w'.
Proof.
  intros Hi [_ Hc Hm Hr] [H1 H2 H3 H4 H5 H6 H7]. split; rewrite ?Hm; try done.
  - intros uf Huf Hid. destruct (decide (uf_ChunkID uf = Z.of_nat i)) as [He|Hne]; [by exists i |].
    apply H6; [| done]. apply Hr; [by intros [] | done].
  - intros j. by rewrite Hc.
Qed.

Lemma expecting_leaves m parts w w' : leaves w w' → expecting m parts w → expecting m parts w'.
Proof.
  intros [_ Hc Hr Hm] [H1 H2 H3 H4 H5 H6 H7]. split; try done.
  - by apply Hm.
  - intros m' Hm' Hid. apply H4; [| done]. by apply Hm.
  - intros uf Huf Hid. apply H6; [| done]. by apply Hr.
  - intros i. by rewrite Hc.
Qed.

(** Every upload goes on to store its part from where it is. *)
Definition part_on (w : World) (i : nat) (part : string) (p : Running) : Prop :=
  ∃ q, p = running q ∧
    safe (part_rely dir file i) (part_guarantee dir file i) q (part_done dir user file i part) w.

Record sending (m : FileMetadata) (parts : list string) (c : Conc) : Prop := {
  sd_running : ∀ i part, parts !! i = Some part →
    ∃ p, cc_running c !! i = Some p ∧ part_on (cc_world c) i part p;
  sd_expecting : expecting m parts (cc_world c);
}.

Lemma part_on_rely w w' i part p : part_rely dir file i w w' → part_on w i part p → part_on w' i part p.
Proof.
  intros Hw (q & -> & Hs). exists q. split; [done |]. eapply safe_rely; [apply _ | | exact Hw | exact Hs].
  intros r w1 w2 H12 [Hr Hst]. split; [done |]. by eapply part_stored_rely.
Qed.

Lemma sending_part_acts m parts i c c' :
  i < length parts → conc_step boot sv uq notes (Acts i) c = Some c' → sending m parts c →
  sending m parts c' ∧ part_guarantee dir file i (cc_world c) (cc_world c').
Proof.
  intros Hi H [Hr He]. destruct (lookup_lt_is_Some_2 parts i Hi) as [part Hpart].
  destruct (Hr i part Hpart) as (p & Hp & q & -> & Hs). cbn [conc_step] in H. rewrite Hp in H.
  apply bind_Some in H as (? & [= <-] & H). apply bind_Some in H as ([q' w'] & Hstep & H).
  injection H as <-. cbn [rn_proc running] in Hstep.
  destruct (safe_step _ _ q q' _ _ w' Hs Hstep) as [Hg Hs']. split; [| done]. split.
  - intros j part' Hj. cbn [cc_running cc_world]. destruct (decide (i = j)) as [<-|Hne].
    + assert (part' = part) as -> by congruence. eexists. split; [| by exists q'].
      apply list_lookup_insert_eq. by eapply lookup_lt_Some.
    + destruct (Hr j part' Hj) as (p & Hpj & Hon). exists p. rewrite list_lookup_insert_ne by done.
      split; [done |]. eapply part_on_rely; [| exact Hon]. by apply (guarantee_rely _ i).
  - by eapply expecting_guarantee.
Qed.

Lemma conc_step_keeps e c c' i p :
  ¬ (match e with Acts j | CutOff j => j = i | _ => False end) →
  conc_step boot sv uq notes e c = Some c' → cc_running c !! i = Some p → cc_running c' !! i = Some p.
Proof.
  intros Hne H Hp. destruct e as [o|j|j|w]; cbn [conc_step] in H.
  - injection H as <-. cbn [cc_running]. apply lookup_app_l_Some, Hp.
  - apply bind_Some in H as (q & _ & H). apply bind_Some in H as ([q' w'] & _ & H). injection H as <-.
    cbn [cc_running]. by rewrite list_lookup_insert_ne.
  - apply bind_Some in H as (q & _ & H). injection H as <-. cbn [cc_running].
    by rewrite list_lookup_insert_ne.
  - by injection H as <-.
Qed.

Lemma sending_step m parts c c' : goes_on (length parts) c c' → sending m parts c → sending m parts c'.
Proof.
  intros [i Hi H|e Hne H Hl] Hs; [by eapply sending_part_acts |]. destruct Hs as [Hr He]. split.
  - intros i part Hi. destruct (Hr i part Hi) as (p & Hp & Hon). exists p. split.
    + eapply conc_step_keeps; [| exact H | exact Hp]. apply lookup_lt_Some in Hi.
      intros He'. apply Hne. destruct e; simpl in *; lia.
    + eapply part_on_rely; [| exact Hon]. by apply leaves_rely.
  - by eapply expecting_leaves.
Qed.

Lemma sending_reach m parts c c' :
  rtc (goes_on (length parts)) c c' → sending m parts c → sending m parts c'.
Proof. induction 1 as [|c c1 c' H _ IH]; [done |]. intros Hs. by eapply IH, sending_step. Qed.

Lemma sending_start m parts w l :
  (Z.of_nat (length parts) ≤ max_int64)%Z → expecting m parts w →
  (∀ uf, uf ∈ chunk_rows w → uf_FileID uf ≠ file) →
  sending m parts {| cc_world := w; cc_running := uploads parts ++ l |}.
Proof.
  intros Hlen He Hnone. split; [| done]. intros i part Hi. eexists. split.
  - cbn [cc_running]. apply lookup_app_l_Some. unfold uploads. rewrite list_lookup_imap, Hi. done.
  - eexists. split; [done |]. apply lookup_lt_Some in Hi. apply safe_uploading; [done | done | lia |].
    intros uf [Hid _] Huf. by apply (Hnone uf).
Qed.

(** What has ended has answered that its part is stored. *)
Lemma sending_finished m parts c i part :
  sending m parts c → parts !! i = Some part → finished <$> cc_running c !! i = Some true →
  (∃ rsp, cc_running c !! i = Some (running (Done (Ret (succeeded (D := ChunkUploadResponse) rsp))))) ∧
  part_stored dir user file i part (cc_world c).
Proof.
  intros [Hr _] Hi Hfin. destruct (Hr i part Hi) as (p & Hp & q & -> & Hs). rewrite Hp in Hfin |- *.
  injection Hfin as Hfin. unfold finished in Hfin. cbn [rn_proc running] in Hfin.
  destruct q as [r|X a act k]; [| done]. destruct Hs as [[rsp ->] Hst]. split; [by exists rsp | done].
Qed.

Definition all_finished (n : nat) (c : Conc) : Prop :=
  ∀ i, i < n → finished <$> cc_running c !! i = Some true.

(** The tables then are those of an uploaded file. *)
Lemma sending_uploaded m parts c :
  sending m parts c → all_finished (length parts) c →
  ∃ rows, uploaded dir user file (w_db (cc_world c)) m rows parts.
Proof.
  intros Hs Hall.
  set (row := part_row dir user file (cc_world c)).
  assert (Hst : Forall (λ i, ∃ uf, row i uf) (seq 0 (length parts))).
  { apply Forall_forall. intros i [_ Hi]%elem_of_seq.
    destruct (lookup_lt_is_Some_2 parts i Hi) as [part Hpart].
    by destruct (sending_finished m parts c i part Hs Hpart (Hall i Hi)) as [_ [_ ?]]. }
  destruct Hs as [_ [H1 H2 H3 H4 H5 H6 _]].
  apply Forall_exists_Forall2_l in Hst as [rows Hrows].
  assert (Hat : ∀ i uf, rows !! i = Some uf → row i uf).
  { intros i uf Huf. destruct (Forall2_lookup_r _ _ _ _ _ Hrows Huf) as (j & Hj & ?).
    by apply lookup_seq in Hj as [-> _]. }
  assert (Hlr : length rows = length parts) by by rewrite <- (Forall2_length _ _ _ Hrows), length_seq.
  exists rows. unfold uploaded. split_and!; [done.. | | split; [done |]].
  - intros uf. split.
    + intros [Huf Hid]. destruct (H6 uf Huf Hid) as (i & Hi & Hp).
      destruct (lookup_lt_is_Some_2 rows i) as [uf' Huf']; [lia |].
      destruct (Hat i uf' Huf') as (_ & _ & _ & Hu). apply Hu in Huf as ->; [| done].
      by eapply list_elem_of_lookup_2.
    + intros [i Hi]%list_elem_of_lookup_1. destruct (Hat i uf Hi) as (Hp & _ & _ & Hu).
      split; [by apply Hu | apply Hp].
  - intros i uf Hi. by destruct (Hat i uf Hi) as ([? ?] & ? & ? & _).
Qed.

(** Any upload can run to its end, and those that have ended stay so. *)
Lemma part_runs {A} n i (p : Proc A) c :
  i < n → cc_running c !! i = Some (running p) →
  ∃ c', rtc (goes_on n) c c' ∧
    cc_running c' = <[i := running (Done (run p (cc_world c)).1)]> (cc_running c).
Proof.
  intros Hi. revert c. induction p as [r|X a act k IH]; intros c Hp.
  - exists c. split; [done |]. by rewrite list_insert_id.
  - set (c1 := {| cc_world := (a (cc_world c)).2;
                  cc_running := <[i := running (k (a (cc_world c)).1)]> (cc_running c) |}).
    destruct (IH (a (cc_world c)).1 c1) as (c' & Hc' & Hr').
    + apply list_lookup_insert_eq. by eapply lookup_lt_Some.
    + exists c'. split.
      * eapply rtc_l; [| exact Hc']. apply (part_acts n c c1 i); [done |].
        cbn [conc_step]. rewrite Hp. done.
      * rewrite Hr'. cbn [cc_running c1]. by rewrite list_insert_insert_eq.
Qed.

Lemma all_can_finish n c :
  n ≤ length (cc_running c) → ∃ c', rtc (goes_on n) c c' ∧ all_finished n c'.
Proof.
  intros Hn. assert (H : ∀ k, k ≤ n → ∃ c', rtc (goes_on n) c c' ∧
    length (cc_running c') = length (cc_running c) ∧ all_finished k c').
  { induction k as [|k IH]; intros Hk; [exists c; split_and!; [done.. | intros i; lia] |].
    destruct IH as (c1 & Hc1 & Hl & Hk1); [lia |].
    destruct (lookup_lt_is_Some_2 (cc_running c1) k) as [[A p] Hp]; [lia |].
    destruct (part_runs n k p c1) as (c2 & Hc2 & Hr); [lia | done |]. exists c2.
    split; [by etrans |]. rewrite Hr. split; [by rewrite length_insert |].
    intros i Hi. rewrite Hr. destruct (decide (k = i)) as [<-|Hne].
    - rewrite list_lookup_insert_eq by lia. done.
    - rewrite list_lookup_insert_ne by done. apply Hk1. lia. }
  destruct (H n) as (c' & ? & _ & ?); [done |]. by exists c'.
Qed.

(** The uploads alone, in some order. *)
Lemma parts_act n order c c' :
  Forall (λ i, i < n) order → conc_run boot sv uq notes (Acts <$> order) c = Some c' →
  rtc (goes_on n) c c'.
Proof.
  revert c. induction order as [|i order IH]; intros c Ho H; [by injection H as -> |].
  apply Forall_cons in Ho as [Hi Ho]. apply bind_Some in H as (c1 & Hc1 & H).
  eapply rtc_l; [by eapply part_acts | by apply IH].
Qed.

(** Once all have ended the file can be downloaded. *)
Lemma finished_download m parts c :
  has_query mq SelectFilesForUserStmt → parts ≠ [] → (Z.of_nat (length parts) ≤ 2 ^ 44)%Z →
  (0 ≤ fm_FileSize m ≤ 2 ^ 48)%Z → sending m parts c → all_finished (length parts) c →
  (download_file mq file user (cc_world c)).1 = Ret (Val (foldr String.append "" parts)).
Proof.
  intros Hmq Hne Hlen Hsize Hs Hall. destruct (sending_uploaded m parts c Hs Hall) as [rows Hup].
  assert (Hw : wp (download_file mq file user) (cc_world c)
    (λ r _, r = Ret (Val (foldr String.append "" parts)))).
  { apply (wp_download_uploaded dir mq user file parts m rows); try done.
    - intros j part Hj. apply lookup_lt_Some in Hj as Hlt.
      by destruct (sending_finished m parts c j part Hs Hj (Hall j Hlt)) as [_ [? _]].
    - apply Hs. }
  unfold wp in Hw. by destruct (download_file _ _ _ _).
Qed.

End together.

(** * Properties *)

(** (C5) The parts of a file may be sent all at once.  When no external call
    fails, a client that has announced a file of n parts has the n uploads
    running together, their actions in any order, among any other requests, jobs
    and events that have nothing to do with the file (they leave its chunks and
    its rows alone).  From every state this reaches all the uploads can be run to
    their end; and whenever they have all ended, in whatever order, each has
    answered success and the file that the user downloads is the concatenation
    of the parts, in the order of their numbers. *)
Theorem parallel_upload_roundtrip `{E : Env} {EO : EnvOk E} `{MR : MapRange} `{SG : SliceGrowth}
    `{OS : OsEnv} `{EC : Echo} `{GC : Gob CacheMetadata} `{GE : Gob MetadataUpdateStatusEvent}
    `{LB : Libraries} `{ER : EchoRouter} boot sv uq notes {QN : QueuerOk notes}
    dir cq mq user file parts m w l c :
  no_fault → has_query cq CreateFileChunkStmt → has_query mq SelectFilesForUserStmt →
  plain_dir dir → plain file = true → parts ≠ [] → (Z.of_nat (length parts) ≤ 2 ^ 44)%Z →
  (0 ≤ fm_FileSize m ≤ 2 ^ 48)%Z →
  expecting dir user file m parts w → (∀ uf, uf ∈ db_user_files (w_db w) → uf_FileID uf ≠ file) →
  rtc (goes_on boot sv uq notes dir file (length parts))
    {| cc_world := w; cc_running := uploads dir cq user file parts ++ l |} c →
  (∃ c', rtc (goes_on boot sv uq notes dir file (length parts)) c c' ∧ all_finished (length parts) c') ∧
  (all_finished (length parts) c →
    (∀ i, i < length parts → ∃ rsp : ChunkUploadResponse,
      cc_running c !! i = Some (running (Done (Ret (succeeded rsp))))) ∧
    (download_file mq file user (cc_world c)).1 = Ret (Val (foldr String.append "" parts))).
Proof.
  intros Hf Hq Hmq Hdir Hfile Hne Hlen Hsize He Hnone Hc.
  assert (Hs : sending dir user file m parts c).
  { eapply sending_reach; [done.. |]. apply sending_start; try done. unfold max_int64. lia. }
  split.
  - apply all_can_finish. destruct (decide (length parts ≤ length (cc_running c))) as [|Hn]; [done |].
    destruct (lookup_lt_is_Some_2 parts (length (cc_running c))) as [part Hp]; [lia |].
    destruct (sd_running _ _ _ _ _ _ Hs _ _ Hp) as (p & Hpr & _). apply lookup_lt_Some in Hpr. lia.
  - intros Hall. split.
    + intros i Hi. destruct (lookup_lt_is_Some_2 parts i Hi) as [part Hp].
      by destruct (sending_finished dir user file m parts c i part Hs Hp (Hall i Hi)).
    + by eapply finished_download.
Qed.

(** Two parts whose uploads take turns, the second part first. *)
Definition sample_awaited : World :=
  world_with_db (sql_CreateFileMetadata (sample_file "F3" None false StatusUploading 30%Z) sample_db)
    empty_world.

Definition sample_uploads : Conc :=
  {| cc_world := sample_awaited;
     cc_running := uploads (E := quiet_env) (OS := sample_os) ["srv"; "data"] chunkQs "U11223455"
       "F3" ["hello "; "world"] ++ [] |}.

Definition by_turns : list nat := concat (replicate 10 [1; 0]).

Lemma parallel_upload_roundtrip_witness :
  ∃ c, sample_run (Acts <$> by_turns) sample_uploads = Some c ∧
    all_finished 2 c ∧
    (download_file (E := quiet_env) (OS := sample_os) (MR := list_range) metadataQueryStore "F3"
       "U11223455" (cc_world c)).1 = Ret (Val "hello world").
Proof.
  assert (Hfin : (λ c, finished <$> cc_running c) <$> sample_run (Acts <$> by_turns) sample_uploads
    = Some [true; true]) by by vm_compute.
  destruct (sample_run (Acts <$> by_turns) sample_uploads) as [c|] eqn:Hrun; [| done].
  exists c. split; [done |]. injection Hfin as Hfin.
  assert (Hall : all_finished 2 c).
  { intros i Hi. rewrite <- list_lookup_fmap, Hfin. destruct i as [|[|]]; [done.. | lia]. }
  split; [done |].
  assert (Hnew : ∀ uf, uf ∈ db_user_files (w_db sample_awaited) → uf_FileID uf ≠ "F3").
  { intros uf Hu Heq. simpl in Hu. rewrite !elem_of_cons, elem_of_nil in Hu.
    destruct Hu as [->|[->|[->|[]]]]; done. }
  destruct (parallel_upload_roundtrip (E := quiet_env) (MR := list_range) (SG := doubling_growth)
    (OS := sample_os) (EC := sample_echo_upload) (GC := cache_gob) (GE := event_gob) (LB := sample_libraries)
    (ER := sample_router) 0%Z sample_server usersQs
    (RedisQ (E := quiet_env) MetadataUpdateClientsNotifierQueue) ["srv"; "data"] chunkQs
    metadataQueryStore "U11223455" "F3" ["hello "; "world"]
    (sample_file "F3" None false StatusUploading 30%Z) sample_awaited [] c) as [_ Hdone].
  all: try (apply (bool_decide_unpack _); by vm_compute).
  - intros n. reflexivity.
  - split; [| done | done | | done | | done].
    + right. right. by left.
    + intros m' Hm' Hid. simpl in Hm'. rewrite !elem_of_cons, elem_of_nil in Hm'.
      destruct Hm' as [->|[->|[->|[]]]]; done.
    + intros uf Huf Hid. by destruct (Hnew uf).
  - exact Hnew.
  - apply (parts_act _ _ _ _ _ _ 2 by_turns); [| exact Hrun].
    by (apply (bool_decide_unpack _); vm_compute).
  - exact (proj2 (Hdone Hall)).
Defined.
