(* ===== verification/System.v ===== *)
(** The worker process of core/supervisors inside the system of Interleave.v:
    the goroutines of its supervisor, the executor among them one action at a
    time, beside any other operations of the system that run at the same time.
    What happens is one of the interleavings of Interleave.v, in which the worker
    has started exactly the batches it fetched, in their order. *)
From S2P Require Import Prelude GoStd Api Model World Squirtle Queries.
From S2P Require Import Tokens FilesRepo Queue Gob FilesInfo FilesService Blob.
From S2P Require Import Transfer Changelog Users Auth Chan Pool Proc Supervisor.
From S2P Require Import Routes Lifecycle Action Cuts Startup Server Interleave.

(** [supervisors.MetadataSupervisor]: [changes] is the queue of finished uploads,
    [notes] the queue the notifier writes to; the processor of the pool is
    [MetadataExecutor.Execute], in its actions. *)
Section worker.
Context `{E : Env} {EO : EnvOk E} `{MR : MapRange} `{SG : SliceGrowth} `{OS : OsEnv} `{EC : Echo}.
Context `{GC : Gob CacheMetadata} `{GE : Gob MetadataUpdateStatusEvent}.
Context (changes notes : Queuer) {QC : QueuerOk changes} {QN : QueuerOk notes} (mq cq : QueryMapper).

Definition executor (payloads : list Payload) : Proc (option (error + PartialError)) :=
  pieces (cut_Execute (λ _, True) (stable_pure True) notes mq cq payloads).

Lemma run_executor payloads w : run (executor payloads) w = Execute (Q := notes) mq cq payloads w.
Proof. apply (run_pieces _ _ _ (cut_Execute _ _ notes mq cq payloads)). Qed.

Definition producer (d : Z) : Go (option (list Payload)) := produce_batch (Q := changes) (Z.to_nat d).

Definition MetadataSupervisor :
    SupervisorEvent unit → Supervisor unit Z (option (error + PartialError)) →
    option (Supervisor unit Z (option (error + PartialError))) :=
  sv_step tick_demand producer executor.

End worker.

(** * The worker and the others *)
Section system.
Context `{E : Env} {EO : EnvOk E} `{MR : MapRange} `{SG : SliceGrowth} `{OS : OsEnv} `{EC : Echo}.
Context `{GC : Gob CacheMetadata} `{GE : Gob MetadataUpdateStatusEvent} `{LB : Libraries} `{ER : EchoRouter}.
Context (boot : time) (sv : Server) (uq : QueryMapper).
Context (changes notes : Queuer) {QC : QueuerOk changes} {QN : QueuerOk notes}.

#[local] Abbreviation step := (conc_step boot sv uq notes).
#[local] Abbreviation run_all := (conc_run boot sv uq notes).
#[local] Abbreviation worker := (MetadataSupervisor changes notes (sv_mq sv) (sv_cq sv)).

(** The worker process with the other processes; the world is the supervisor's. *)
Record Joint := {
  jt_worker : Supervisor unit Z (option (error + PartialError));
  jt_others : list Running;
}.

Inductive JointEvent :=
| Goroutine (e : SupervisorEvent unit)
| Other (e : Event).

Definition others_of (j : Joint) : Conc :=
  {| cc_world := sv_world (jt_worker j); cc_running := jt_others j |}.

Definition joint_step (e : JointEvent) (j : Joint) : option Joint :=
  match e with
  | Goroutine (Supervisor.Outside _) => None
  | Goroutine e => v ← worker e (jt_worker j); mret {| jt_worker := v; jt_others := jt_others j |}
  | Other e =>
    c ← step e (others_of j);
    mret {| jt_worker := with_world (cc_world c) (jt_worker j); jt_others := cc_running c |}
  end.

Definition joint_start (w : World) : Joint := {| jt_worker := start w; jt_others := [] |}.

Fixpoint joint_run (es : list JointEvent) (j : Joint) : option Joint :=
  match es with
  | [] => Some j
  | e :: es => j' ← joint_step e j; joint_run es j'
  end.

(** The operations that are started. *)
Definition starts (es : list Event) : list Op := omap (λ e, match e with Starts o => Some o | _ => None end) es.

Definition other_events (es : list JointEvent) : list Event :=
  omap (λ e, match e with Other e => Some e | _ => None end) es.

(** * One step *)

(** Reading the queue leaves the tables alone. *)
Lemma kept_produce_batch I d : keeps (on_db I) (produce_batch (Q := changes) d).
Proof.
  assert (Hread : keeps (on_db I) (ReadMsg (Queuer := changes) "" "")).
  { apply keeps_wp. intros w Hw. apply wp_ReadMsg.
    - intros e w' Hl _. by later_subst.
    - intros w' (_ & Hdb & _) _ _. unfold on_db. by rewrite Hdb.
    - intros m w' (_ & Hdb & _) _ _. unfold on_db. by rewrite Hdb. }
  induction d as [|d IH]; simpl; keeps_go.
Qed.

Lemma producer_outside d w r w' : producer changes d w = (r, w') → world_with_db (w_db w) w' = w'.
Proof.
  intros Hrun. pose proof (kept_produce_batch (λ d, d = w_db w) (Z.to_nat d) w eq_refl) as Hk.
  unfold on_db in Hk. unfold producer in Hrun. rewrite Hrun in Hk. simpl in Hk.
  rewrite <- Hk. by destruct w'.
Qed.

(** The batches begun, each with what is left of it: the worker's processes. *)
Record worker_state (v : Supervisor unit Z (option (error + PartialError))) (l : list Running) : Prop := {
  ws_batches : length l = length (p_processed (sv_pool v));
  ws_ended : ∃ ended, Forall (λ p, finished p = true) ended ∧
    l = ended ++ option_list (running <$> sv_work v);
}.

(** [j] after [evs] is [c] after [es]. *)
Record simulates (w : World) (evs : list JointEvent) (j : Joint) (es : list Event) (c : Conc) : Prop := {
  sm_run : run_all es (conc_start w) = Some c;
  sm_world : cc_world c = sv_world (jt_worker j);
  sm_running : ∃ l, worker_state (jt_worker j) l ∧ cc_running c ≡ₚ jt_others j ++ l;
  sm_starts : starts es ≡ₚ starts (other_events evs) ++ (Batch <$> p_processed (sv_pool (jt_worker j)));
  sm_order : (Batch <$> p_processed (sv_pool (jt_worker j))) `sublist_of` starts es;
}.

(** The same process at its place in another order. *)
Lemma Permutation_at {A} (l k : list A) i x :
  l ≡ₚ k → l !! i = Some x →
  ∃ j, k !! j = Some x ∧ ∀ y, <[i := y]> l ≡ₚ <[j := y]> k.
Proof.
  intros Hlk Hi.
  assert (Hx : x ∈ k) by (rewrite <- Hlk; by eapply list_elem_of_lookup_2).
  apply list_elem_of_lookup_1 in Hx as [j Hj]. exists j. split; [done |]. intros y.
  assert (Hins : ∀ (l : list A) i x, l !! i = Some x → l ≡ₚ x :: delete i l ∧
    <[i := y]> l ≡ₚ y :: delete i l).
  { clear. intros l i x Hi. split; [by apply delete_Permutation |].
    apply lookup_lt_Some in Hi as Hlt. rewrite insert_take_drop by done.
    rewrite delete_take_drop. by rewrite Permutation_middle. }
  destruct (Hins l i x Hi) as [H1 ->]. destruct (Hins k j x Hj) as [H2 ->].
  f_equiv. apply (Permutation_cons_inv (a := x)). by rewrite <- H1, <- H2.
Qed.

Lemma starts_app es es' : starts (es ++ es') = starts es ++ starts es'.
Proof. apply omap_app. Qed.

Lemma other_events_app es es' : other_events (es ++ es') = other_events es ++ other_events es'.
Proof. apply omap_app. Qed.

(** The others' steps. *)
Lemma other_step w evs j es c e j' :
  simulates w evs j es c → joint_step (Other e) j = Some j' →
  ∃ es' c', simulates w (evs ++ [Other e]) j' es' c'.
Proof.
  intros [Hr Hw (l & [Hl (ended & He & ->)] & Hp) Hs Ho] H. simpl in H.
  apply bind_Some in H as (c1 & Hc1 & [= <-]).
  assert (Hc' : ∃ e' c', step e' c = Some c' ∧ cc_world c' = cc_world c1 ∧ starts [e'] = starts [e] ∧
    cc_running c' ≡ₚ cc_running c1 ++ ended ++ option_list (running <$> sv_work (jt_worker j))).
  { destruct e as [o|i|i|w']; simpl in Hc1.
    - injection Hc1 as <-. eexists (Starts o), _. split_and!; [done | done | done |]. simpl.
      rewrite Hp, <- !app_assoc. f_equiv. by rewrite app_assoc, (Permutation_app_comm _ [_]).
    - apply bind_Some in Hc1 as (p & Hi & Hc1). apply bind_Some in Hc1 as ([q w1] & Hq & [= <-]).
      symmetry in Hp. destruct (Permutation_at _ _ i p Hp) as (k & Hk & Hins); [by apply lookup_app_l_Some |].
      eexists (Acts k), _. simpl. rewrite Hk. simpl. rewrite Hw, Hq. simpl. split_and!; [done | done | done |].
      simpl. rewrite <- Hins. by rewrite insert_app_l by (by eapply lookup_lt_Some).
    - apply bind_Some in Hc1 as (p & Hi & [= <-]).
      symmetry in Hp. destruct (Permutation_at _ _ i p Hp) as (k & Hk & Hins); [by apply lookup_app_l_Some |].
      eexists (CutOff k), _. simpl. rewrite Hk. simpl. split_and!; [done | done | done |].
      simpl. rewrite <- Hins. by rewrite insert_app_l by (by eapply lookup_lt_Some).
    - injection Hc1 as <-. eexists (Interleave.Outside w'), _. split_and!; [done | | done | done].
      simpl. by rewrite Hw. }
  destruct Hc' as (e' & c' & He' & Hw' & Hst & Hp').
  exists (es ++ [e']), c'. split.
  - rewrite conc_run_app, Hr. simpl. by rewrite He'.
  - done.
  - exists (ended ++ option_list (running <$> sv_work (jt_worker j))). split; [| done].
    split; [done | by exists ended].
  - simpl. rewrite starts_app, other_events_app, starts_app, Hst, Hs. simpl.
    rewrite <- !app_assoc. f_equiv. apply Permutation_app_comm.
  - simpl. rewrite starts_app. by apply sublist_inserts_r.
Qed.

(** ** The worker's steps *)

(** While the processor runs, the worker is not back. *)
Record worker_inv (v : Supervisor unit Z (option (error + PartialError))) : Prop := {
  wi_supervisor : SInv (executor notes (sv_mq sv) (sv_cq sv)) v;
  wi_away : is_Some (sv_work v) → all_at_put (sv_pool v);
}.

Lemma worker_inv_start w : worker_inv (start w).
Proof. split; [apply SInv_start | by intros [? [=]]]. Qed.

Lemma single_worker v : worker_inv v → length (p_workers (sv_pool v)) = 1.
Proof. intros [[Hp _] _]. by apply pool_reach_Inv in Hp as [? _ _]. Qed.

Lemma job_away v i job : worker_inv v → job_at (sv_pool v) i = Some job → sv_work v = None.
Proof.
  intros [_ Ha] Hj. destruct (sv_work v) as [p|] eqn:Hw; [| done].
  unfold job_at in Hj. apply bind_Some in Hj as (wk & Hwk & Hj).
  by rewrite (Ha (ltac:(by exists p)) i wk Hwk) in Hj.
Qed.

Lemma worker_inv_step e v v' : worker e v = Some v' → worker_inv v → worker_inv v'.
Proof.
  intros H HI. split; [by eapply SInv_step, wi_supervisor |]. intros Hw'.
  assert (Hkeep : sv_work v' = sv_work v → all_at_put (sv_pool v')).
  { intros Heq. rewrite Heq in Hw'. pose proof (wi_away v HI Hw') as Ha.
    destruct (sv_step_pool _ _ _ e v v' H) as [->|(ev & Hev & Hput)]; [done |].
    eapply pool_at_put; [exact Hev | | done]. intros i ->. rewrite (Hput i eq_refl) in Hw'.
    by destruct Hw'. }
  destruct (not_outside e) eqn:He.
  - destruct (sv_step_effect _ _ _ e v v' He H) as [Hw _ _|d Hw _ _|i job Hp _ _ _ _|p q Hw _ _ Hp|p _ _ Hw _ _].
    + by apply Hkeep.
    + by apply Hkeep.
    + eapply pool_process; [exact Hp | by apply single_worker].
    + rewrite Hp. apply HI. by exists p.
    + rewrite Hw in Hw'. by destruct Hw'.
  - apply Hkeep. unfold MetadataSupervisor, sv_step in H. destruct (sv_crashed v); [done |].
    destruct e; try done. by injection H as <-.
Qed.

Lemma with_world_inv w v : worker_inv v → worker_inv (with_world w v).
Proof. intros [Hs Ha]. split; [by apply (SInv_same _ v) | done]. Qed.

(** A step of a goroutine is a step of its process, a batch begun, or something
    outside the tables. *)
Lemma goroutine_step w evs j es c e j' :
  worker_inv (jt_worker j) → simulates w evs j es c → joint_step (Goroutine e) j = Some j' →
  ∃ es' c', simulates w (evs ++ [Goroutine e]) j' es' c'.
Proof.
  intros HI [Hr Hw (l & [Hl (ended & He & ->)] & Hp) Hs Ho] H.
  assert (Hstep : not_outside e = true ∧ ∃ v, worker e (jt_worker j) = Some v ∧
    j' = {| jt_worker := v; jt_others := jt_others j |}).
  { simpl in H. destruct e; try done; apply bind_Some in H as (v & Hv & [= <-]); (split; [done |]); by exists v. }
  destruct Hstep as [Hout (v & Hv & ->)]. clear H.
  assert (Hoth : other_events (evs ++ [Goroutine e]) = other_events evs)
    by by rewrite other_events_app, app_nil_r.
  destruct (sv_step_effect _ _ _ e _ v Hout Hv) as [Hk Hwd Hpr|d Hk Hwd Hpr|i job _ Hj Hk Hwd Hpr
    |p q Hwk Hq Hk Hpl|p Hwk Hq Hk Hwd Hpl].
  - exists es, c. split; rewrite ?Hoth; cbn [jt_worker jt_others]; rewrite ?Hpr, ?Hwd; try done.
    exists (ended ++ option_list (running <$> sv_work (jt_worker j))). split; [| done].
    split; [by rewrite Hpr | exists ended; by rewrite Hk].
  - destruct (producer changes d (sv_world (jt_worker j))) as [r wd] eqn:Hd. simpl in Hwd.
    apply producer_outside in Hd.
    exists (es ++ [Interleave.Outside wd]), {| cc_world := wd; cc_running := cc_running c |}.
    split; rewrite ?Hoth; cbn [jt_worker jt_others cc_world cc_running]; rewrite ?Hpr; try done.
    + rewrite conc_run_app, Hr. simpl. by rewrite Hw, Hd.
    + exists (ended ++ option_list (running <$> sv_work (jt_worker j))). split; [| done].
      split; [by rewrite Hpr | exists ended; by rewrite Hk].
    + rewrite starts_app. simpl. by rewrite app_nil_r.
    + rewrite starts_app. simpl. by rewrite app_nil_r.
  - rewrite (job_away _ i job HI Hj) in Hl, Hp. simpl in Hl, Hp. rewrite app_nil_r in Hl, Hp.
    eexists (es ++ [Starts (Batch job)]), _. split; rewrite ?Hoth; cbn [jt_worker jt_others]; rewrite ?Hpr.
    + rewrite conc_run_app, Hr. simpl. reflexivity.
    + by rewrite Hwd.
    + exists (ended ++ [running (executor notes (sv_mq sv) (sv_cq sv) job)]). split.
      * split; [rewrite Hpr, !length_app, Hl; done | exists ended; by rewrite Hk].
      * cbn [cc_running]. rewrite Hp, <- app_assoc. reflexivity.
    + rewrite starts_app, fmap_app, Hs. simpl. by rewrite <- app_assoc.
    + rewrite starts_app, fmap_app. simpl. by apply sublist_app.
  - rewrite Hwk in Hl, Hp. simpl in Hl, Hp.
    assert (Hat : ∃ k, cc_running c !! k = Some (running p) ∧
      ∀ y, <[k := y]> (cc_running c) ≡ₚ jt_others j ++ ended ++ [y]).
    { symmetry in Hp.
      destruct (Permutation_at _ _ (length (jt_others j ++ ended)) (running p) Hp) as (k & Hk' & Hins).
      - by rewrite app_assoc, list_lookup_middle.
      - exists k. split; [done |]. intros y. rewrite <- Hins, app_assoc, insert_app_r_alt by done.
        by rewrite Nat.sub_diag, <- app_assoc. }
    destruct Hat as (k & Hk' & Hins).
    eexists (es ++ [Acts k]), _. split; rewrite ?Hoth; cbn [jt_worker jt_others]; rewrite ?Hpl.
    + rewrite conc_run_app, Hr. simpl. rewrite Hk'. simpl. rewrite Hw, Hq. simpl. reflexivity.
    + done.
    + exists (ended ++ [running q]). split; [| by cbn [cc_running]; rewrite Hins].
      split; [rewrite Hpl, <- Hl, !length_app; done | exists ended; by rewrite Hk].
    + rewrite starts_app. simpl. by rewrite app_nil_r.
    + rewrite starts_app. simpl. by rewrite app_nil_r.
  - exists es, c. split; rewrite ?Hoth; cbn [jt_worker jt_others]; rewrite ?Hpl, ?Hwd; try done.
    exists (ended ++ [running p]). split; [| by rewrite Hwk in Hp].
    split; [by rewrite Hpl, <- Hl, Hwk |]. exists (ended ++ [running p]). rewrite Hk, app_nil_r. split; [| done].
    apply Forall_app. split; [done |]. constructor; [| done]. by destruct p.
Qed.

Lemma joint_simulates w evs j :
  joint_run evs (joint_start w) = Some j →
  worker_inv (jt_worker j) ∧ ∃ es c, simulates w evs j es c.
Proof.
  revert j. induction evs as [|e evs IH] using rev_ind; intros j H.
  - injection H as <-. split; [apply worker_inv_start |]. exists [], (conc_start w).
    split; try done. exists []. split; [| done]. split; [done | by exists []].
  - assert (Hj : ∃ j0, joint_run evs (joint_start w) = Some j0 ∧ joint_step e j0 = Some j).
    { clear IH. revert H. generalize (joint_start w). induction evs as [|e' evs IH]; intros j0 H; simpl in H.
      - apply bind_Some in H as (j1 & H1 & [= <-]). by exists j0.
      - apply bind_Some in H as (j1 & H1 & H). simpl. rewrite H1. by apply IH. }
    destruct Hj as (j0 & H0 & He). destruct (IH j0 H0) as [HI (es & c & Hsim)]. split.
    + destruct e as [e|e]; simpl in He.
      * destruct e; try done; apply bind_Some in He as (v & Hv & [= <-]); by eapply worker_inv_step.
      * apply bind_Some in He as (c1 & _ & [= <-]). by apply with_world_inv.
    + destruct e as [e|e]; [by eapply goroutine_step | by eapply other_step].
Qed.

End system.

(** * Property *)


(** Two finished uploads are waiting in the queue; a client announces a file
    while the first is completed. *)
Definition worker_session : list JointEvent :=
  (Goroutine <$> [Offer (); LoopTake; LoopDemands; ProducerTakes; InPool (WorkerPut 0); ProducerSends;
     InPool DispatchTake; InPool DispatchWait; InPool DispatchGive; InPool (WorkerTake 0);
     InPool (WorkerProcess 0)]) ++
  (Other <$> Starts announce :: replicate 5 (Acts 0)) ++ [Goroutine Works] ++
  (Other <$> replicate 9 (Acts 0)) ++ [Goroutine Works; Other (Acts 0); Goroutine Works].

Definition sample_joint : option (Joint (E := quiet_env) (OS := sample_os)) :=
  joint_run (E := quiet_env) (MR := list_range) (SG := doubling_growth) (OS := sample_os)
    (EC := sample_echo_upload) (GC := cache_gob) (GE := event_gob) (LB := sample_libraries)
    (ER := sample_router) 0%Z sample_server usersQs change_queue note_queue
    (QN := RedisQ_ok (E := quiet_env) MetadataUpdateClientsNotifierQueue)
    worker_session (joint_start two_changes).

Definition first_change : Payload :=
  {| pl_Message := sample_message "F1"; pl_Key := MetadataFileUpdateQueue; pl_TTL := 0 |}.

