(* ===== verification/Shutdown.v ===== *)
(** The end of main of cmd/server/main.go: the goroutine that listens, the
    signal, and Shutdown of net/http, one step at a time. *)
From S2P Require Import Prelude.
From stdpp Require Import gmap.

(** Where main is: at [<-ctx.Done()], in [srv.Shutdown(ctx)], or after it. *)
Inductive MainAt := AtSignal | InShutdown | AfterShutdown.

(** The goroutine of ListenAndServe: it serves, or the call has returned an
    error and [log.Fatal] is next. *)
Inductive ListenAt := Serving | Returned.

(** [pr_ctx] says that the context of NotifyContext is done; [pr_exit] is the
    code the process ended with. *)
Record Proc := {
  pr_ctx : bool;
  pr_open : bool;
  pr_active : gset nat;
  pr_answered : gset nat;
  pr_main : MainAt;
  pr_listen : ListenAt;
  pr_exit : option Z;
}.

Inductive ProcEvent :=
| Arrives (i : nat)
| Answered (i : nat)
| Interrupt
| ListenFails
| MainWakes
| ShutdownPolls
| MainReturns
| ListenReturns
| LogFatal.

Definition proc_requests (active answered : gset nat) (s : Proc) : Proc :=
  {| pr_ctx := pr_ctx s; pr_open := pr_open s; pr_active := active; pr_answered := answered;
     pr_main := pr_main s; pr_listen := pr_listen s; pr_exit := pr_exit s |}.
Definition proc_main (a : MainAt) (open : bool) (s : Proc) : Proc :=
  {| pr_ctx := pr_ctx s; pr_open := open; pr_active := pr_active s; pr_answered := pr_answered s;
     pr_main := a; pr_listen := pr_listen s; pr_exit := pr_exit s |}.
Definition proc_listen (a : ListenAt) (s : Proc) : Proc :=
  {| pr_ctx := pr_ctx s; pr_open := pr_open s; pr_active := pr_active s;
     pr_answered := pr_answered s; pr_main := pr_main s; pr_listen := a; pr_exit := pr_exit s |}.
Definition proc_exit (code : Z) (s : Proc) : Proc :=
  {| pr_ctx := pr_ctx s; pr_open := pr_open s; pr_active := pr_active s;
     pr_answered := pr_answered s; pr_main := pr_main s; pr_listen := pr_listen s;
     pr_exit := Some code |}.
Definition proc_signal (s : Proc) : Proc :=
  {| pr_ctx := true; pr_open := pr_open s; pr_active := pr_active s;
     pr_answered := pr_answered s; pr_main := pr_main s; pr_listen := pr_listen s;
     pr_exit := pr_exit s |}.

(** [Shutdown(ctx)] closes the listeners, then asks again and again whether the
    connections are idle, until they are or [ctx] is done; main gives it the
    context whose end it has just waited for. *)
Definition Shutdown_returns (ctx : bool) (s : Proc) : bool :=
  bool_decide (pr_active s = ∅) || ctx.

Definition proc_step (e : ProcEvent) (s : Proc) : option Proc :=
  match pr_exit s with
  | Some _ => None
  | None =>
    match e with
    | Arrives i =>
      if pr_open s && bool_decide (i ∉ pr_active s ∪ pr_answered s)
      then Some (proc_requests ({[i]} ∪ pr_active s) (pr_answered s) s) else None
    | Answered i =>
      if decide (i ∈ pr_active s)
      then Some (proc_requests (pr_active s ∖ {[i]}) ({[i]} ∪ pr_answered s) s) else None
    | Interrupt => Some (proc_signal s)
    | ListenFails =>
      match pr_listen s with Serving => Some (proc_listen Returned s) | Returned => None end
    | MainWakes =>
      match pr_main s with
      | AtSignal => if pr_ctx s then Some (proc_main InShutdown false s) else None
      | _ => None
      end
    | ShutdownPolls =>
      match pr_main s with
      | InShutdown =>
        Some (if Shutdown_returns (pr_ctx s) s then proc_main AfterShutdown (pr_open s) s else s)
      | _ => None
      end
    | MainReturns =>
      match pr_main s with AfterShutdown => Some (proc_exit 0 s) | _ => None end
    | ListenReturns =>
      match pr_listen s with
      | Serving => if pr_open s then None else Some (proc_listen Returned s)
      | Returned => None
      end
    | LogFatal =>
      match pr_listen s with Returned => Some (proc_exit 1 s) | Serving => None end
    end
  end.

Definition server_started : Proc :=
  {| pr_ctx := false; pr_open := true; pr_active := ∅; pr_answered := ∅;
     pr_main := AtSignal; pr_listen := Serving; pr_exit := None |}.

Fixpoint proc_run (es : list ProcEvent) (s : Proc) : option Proc :=
  match es with
  | [] => Some s
  | e :: es => s' ← proc_step e s; proc_run es s'
  end.

(** The steps of main. *)
Definition of_main (e : ProcEvent) : bool :=
  match e with MainWakes | ShutdownPolls | MainReturns => true | _ => false end.

Definition of_requests (e : ProcEvent) : bool :=
  match e with Arrives _ | Answered _ => true | _ => false end.

(** What main still has to do. *)
Definition main_left (s : Proc) : nat :=
  match pr_exit s, pr_main s with
  | Some _, _ => 0
  | None, AtSignal => 3
  | None, InShutdown => 2
  | None, AfterShutdown => 1
  end.

Lemma proc_step_ctx e s s' : proc_step e s = Some s' → pr_ctx s = true → pr_ctx s' = true.
Proof.
  unfold proc_step. destruct (pr_exit s); [done |]. intros H Hc.
  destruct e; repeat (case_match; try discriminate H); injection H as <-; done.
Qed.

(** After the signal every step of main brings its end nearer; no other step
    puts it off. *)
Lemma proc_step_main_left e s s' :
  proc_step e s = Some s' → pr_ctx s = true →
  main_left s' + (if of_main e then 1 else 0) ≤ main_left s.
Proof.
  unfold proc_step, main_left, Shutdown_returns. destruct s as [ctx op act ans main listen [x|]];
    simpl; [done |]. intros H ->. rewrite orb_true_r in H.
  destruct e, main, listen; simpl in *; repeat (case_match; try discriminate); simplify_eq; simpl; lia.
Qed.

(** And main is never kept waiting. *)
Lemma proc_main_enabled s :
  pr_ctx s = true → pr_exit s = None → ∃ e s', of_main e = true ∧ proc_step e s = Some s'.
Proof.
  intros Hc Hx. unfold proc_step. rewrite Hx. destruct (pr_main s) eqn:Hm.
  - exists MainWakes. rewrite Hc. eauto.
  - exists ShutdownPolls. eauto.
  - exists MainReturns. eauto.
Qed.

Lemma proc_run_main_left es s s' :
  proc_run es s = Some s' → pr_ctx s = true →
  main_left s' + length (filter (λ e, of_main e = true) es) ≤ main_left s.
Proof.
  revert s. induction es as [|e es IH]; intros s H Hc; [injection H as <-; simpl; lia |].
  simpl in H. apply bind_Some in H as (s1 & Hs1 & H).
  pose proof (proc_step_ctx _ _ _ Hs1 Hc). specialize (IH s1 H ltac:(done)).
  pose proof (proc_step_main_left _ _ _ Hs1 Hc). rewrite filter_cons.
  destruct (of_main e); simpl in *; lia.
Qed.

Lemma proc_run_ctx es s s' : proc_run es s = Some s' → pr_ctx s = true → pr_ctx s' = true.
Proof.
  revert s. induction es as [|e es IH]; intros s H Hc; [by injection H as <- |].
  simpl in H. apply bind_Some in H as (s1 & Hs1 & H). by eapply IH, proc_step_ctx.
Qed.

Lemma main_left_bound s : main_left s ≤ 3.
Proof. unfold main_left. repeat case_match; lia. Qed.

(** The listeners are open until main calls Shutdown. *)
Lemma proc_open es s s' :
  proc_run es s = Some s' → (pr_open s = true ↔ pr_main s = AtSignal) →
  (pr_open s' = true ↔ pr_main s' = AtSignal).
Proof.
  revert s. induction es as [|e es IH]; intros s H Ho; [by injection H as <- |].
  simpl in H. apply bind_Some in H as (s1 & Hs1 & H). apply (IH s1 H). clear IH H.
  unfold proc_step in Hs1. destruct s as [ctx op act ans main listen [x|]]; simpl in *; [done |].
  destruct e, main, listen; repeat (case_match; try discriminate); simplify_eq; simpl;
    intuition congruence.
Qed.

(** * Property *)

(** (C39) An interrupt does not wait for the requests.  Shutdown is given the
    context whose end is the signal, so it returns at once: from any moment
    after the signal main is never blocked and comes to its end in at most
    three steps, whatever the requests do; in particular it can end the
    process with every request that was being handled then cut off.  And the
    end is a race: the goroutine of ListenAndServe may end the process with
    status 1 first. *)
Theorem interrupt_drops_requests es s :
  proc_run es server_started = Some s → pr_ctx s = true → pr_exit s = None →
  (∀ es' s', proc_run es' s = Some s' →
     length (filter (λ e, of_main e = true) es') ≤ 3 ∧
     (pr_exit s' = None → ∃ e s'', of_main e = true ∧ proc_step e s' = Some s'')) ∧
  (∃ es' s', Forall (λ e, of_requests e = false) es' ∧ proc_run es' s = Some s' ∧
     pr_exit s' = Some 0%Z ∧ pr_active s' = pr_active s) ∧
  (∃ es' s', Forall (λ e, of_requests e = false ∧ e ≠ ListenFails) es' ∧ proc_run es' s = Some s' ∧
     pr_exit s' = Some 1%Z ∧ pr_active s' = pr_active s).
Proof.
  intros Hrun Hc Hx. pose proof (proc_open _ _ _ Hrun (conj (λ _, eq_refl) (λ _, eq_refl))) as Ho.
  clear Hrun. split_and!.
  - intros es' s' Hrun. split.
    + pose proof (proc_run_main_left _ _ _ Hrun Hc). pose proof (main_left_bound s). lia.
    + intros Hx'. apply proc_main_enabled; [by eapply proc_run_ctx | done].
  - destruct s as [ctx op act ans main listen x]; simpl in *; subst.
    exists (match main with AtSignal => [MainWakes; ShutdownPolls; MainReturns]
            | InShutdown => [ShutdownPolls; MainReturns] | AfterShutdown => [MainReturns] end).
    destruct main; eexists; (split; [by repeat apply Forall_cons_2 |]); cbn;
      unfold Shutdown_returns; cbn; rewrite ?orb_true_r; cbn; split_and!; reflexivity.
  - destruct s as [ctx op act ans main listen x]; simpl in *; subst.
    exists (match listen, main with
            | Returned, _ => [LogFatal]
            | Serving, AtSignal => [MainWakes; ListenReturns; LogFatal]
            | Serving, _ => [ListenReturns; LogFatal] end).
    assert (Hop : main ≠ AtSignal → op = false) by (destruct op; naive_solver).
    destruct listen, main; eexists; (split; [by repeat apply Forall_cons_2 |]); cbn;
      rewrite ?Hop by done; cbn; split_and!; reflexivity.
Qed.

(** A request is being handled when the signal comes. *)
Lemma interrupt_drops_requests_witness :
  ∃ s es' s', proc_run [Arrives 0; Interrupt] server_started = Some s ∧
    proc_run es' s = Some s' ∧ pr_exit s' = Some 0%Z ∧ pr_active s' = {[0]}.
Proof.
  destruct (proc_run [Arrives 0; Interrupt] server_started) as [s|] eqn:Hrun;
    [| by vm_compute in Hrun].
  destruct (interrupt_drops_requests [Arrives 0; Interrupt] s Hrun) as (_ & (es' & s' & _ & H1 & H2 & H3) & _).
  1-2: vm_compute in Hrun; injection Hrun as <-; reflexivity.
  exists s, es', s'. split_and!; [done.. |]. rewrite H3. vm_compute in Hrun. injection Hrun as <-.
  by vm_compute.
Defined.
